(* ===== verification/_CoqProject ===== *)
-Q . S2P
Prelude.v
GoStrings.v
GoFloat.v
GoNet.v
GoCache.v
Base.v
Mysql.v
Config.v
Haproxy.v
Proxysql.v
Vitess.v
Aggregate.v
Throttler.v
Refresh.v
Operate.v
Check.v
Fsm.v
MysqlBackend.v
RaftBase.v
Inflight.v
BoltStore.v
RaftStores.v
GoCrc64.v
FileSnapshot.v
Raft.v
RaftElection.v
RaftReplication.v
RaftStream.v
RaftLeader.v
RaftMatching.v
RaftNotify.v
RaftFsm.v
RaftAnswers.v
NetTransport.v
NetPipeline.v
InmemTransport.v
Consensus.v
Metrics.v
GroupStore.v
Api.v
Routes.v
Main.v
