(* ===== verification/Prelude.v ===== *)
(** * freno: a cooperative, highly available throttler service

    freno answers one question for many clients: may this app write to this MySQL cluster now?  A
    group of freno nodes elects a leader, by raft or through a MySQL table; the leader probes the
    replicas of every configured cluster, aggregates what it reads into one metric per cluster and
    compares the metric with a threshold.  Operators throttle apps and skip hosts over HTTP; those
    commands reach every node through the consensus service.

    This development models the decision path from the configuration to the HTTP answer, both
    consensus back ends, and the raft library the repository carries under internal/raft, and proves
    what makes them correct.  Definitions are executable and keep the names of the source: a method
    [func (t *T) M()] is [T_M], or [M] where that is unambiguous; record fields carry a prefix.

    ** Conventions

    - Errors are values of [error]: a [Sentinel] is a package-level variable compared by identity, an
      [Errorf] is allocated where it is returned.  Code that can panic has an [outcome].
    - [int] and [uint64] are [Z] with [wrap64] and [wrapu64] where the code can overflow; strings are
      byte strings; [float64] is IEEE 754 binary64 (GoFloat.v); times are Unix nanoseconds, and the
      zero [time.Time] is [zero_time].
    - The clock, random numbers, the environment, files, SQL servers, HTTP answers, JSON, msgpack,
      httprouter and BoltDB are arguments, or classes with laws that state their documented
      behaviour; every property that assumes such a law has a witness with a concrete instance.
    - Calls that can fail (disk, network, transactions) take their failure from an argument, so that
      theorems quantify over failures.
    - Maps are [gmap]; where Go ranges over a map, the order is an argument.
    - A goroutine is a value that is started by one step and run by a later one (Operate.v), so that
      theorems quantify over interleavings.  An operation of the consensus service takes the updates that
      other callers make to the throttler while it runs as an argument ([meanwhile]).  The goroutines of raft (the main loops, runFSM,
      runSnapshots, the streams, the pipelines) are functions of one event, their channels part of
      the state.

    ** Files

    - Prelude.v: errors, outcomes, machine integers, time, tactics ([zbool]) and the hint database
      [freno].  GoStrings.v, GoFloat.v, GoNet.v, GoCrc64.v: the parts of strings, strconv, regexp,
      sort, float64, net and hash/crc64 that the program uses.  GoCache.v: the expiring cache
      (vendor/.../go-cache) that holds all shared throttler state.
    - Base.v (pkg/base): metric results, metric health, the HTTP client.  Mysql.v (pkg/mysql):
      instance keys, probes, reading and caching a metric, HTTP checks.  Config.v (pkg/config):
      settings, inheritance, environment expansion, reading files.
    - Haproxy.v, Proxysql.v, Vitess.v (pkg/haproxy, pkg/proxysql, pkg/vitess): where the hosts of a
      cluster come from.
    - Aggregate.v (pkg/throttle/mysql.go), Throttler.v and Refresh.v (pkg/throttle/throttler.go: the
      state and its operations; host discovery per cluster), Operate.v (the main loop as a transition
      system), Check.v (check.go: the decision), Metrics.v (the counters and gauges of the checks, the
      throttler and the monitors, on go-metrics' registry).
    - Fsm.v, MysqlBackend.v, Consensus.v (pkg/group): the raft state machine and its snapshots; the
      MySQL back end with its loop; the consensus interface [ConsensusService] with its laws and both
      instances.  GroupStore.v (store.go, raft.go, fsm.go): the raft store on the modelled raft node,
      from [Open] to the answer of a command.
    - RaftBase.v (types, configuration, peers), Inflight.v (inflight.go), BoltStore.v
      (internal/raft-boltdb and the [LogStore] and [StableStore] interfaces), Raft.v (raft.go: RPC
      handlers, elections, log application, snapshots, restart), RaftElection.v (a cluster of such
      nodes), RaftReplication.v (the leader's side: replication.go, dispatchLogs), RaftStream.v
      (replicateTo, snapshots, heartbeats, pipelines and the loop of a stream, over a transport
      class), RaftLeader.v (runFollower, runCandidate, runLeader and leaderLoop by events, the
      requests of the application and their futures), RaftMatching.v (a cluster whose nodes elect,
      dispatch and replicate), RaftNotify.v (the notices of leadership), RaftFsm.v (runFSM, runSnapshots, takeSnapshot,
      restoreSnapshot over the [FSM] and [SnapshotStore] classes), RaftAnswers.v (the node as a
      whole: main loop, state machine and snapshots interleaved).
    - RaftStores.v (inmem_store.go, log_cache.go), FileSnapshot.v (file_snapshot.go over a directory
      tree), NetTransport.v and NetPipeline.v (net_transport.go, tcp_transport.go: byte streams,
      pooled connections, the server loop), InmemTransport.v (inmem_transport.go, observer.go).
    - Api.v and Routes.v (pkg/http/api.go): the handlers, against any consensus service that keeps
      its laws, and the routes that reach them.  Main.v (cmd/freno/main.go): from the flags to the
      served API.

    How they interact: Main starts a throttler (Operate), a consensus service (Consensus, over
    GroupStore or MysqlBackend) and the API (Routes, Api).  The API asks Check, which reads what
    Operate wrote; it sends commands to the consensus service, whose state machine (Fsm) writes them
    to the same throttler.  GroupStore gives RaftAnswers' node the throttler as its state machine,
    BoltStore as its log and FileSnapshot as its snapshots; nodes talk through NetTransport.

    ** What the theorems show

    - The decision.  [Check.Check_OK_iff] says exactly when a check is answered 200;
      [throttled_app_gets_417], [low_priority_backs_off] and [idle_node_answers_404] follow throttled
      apps, low priority apps and nodes that stopped collecting to the status code, over every run of the
      loop that does not undo them; [overloaded_cluster_throttles] goes from the probes of an overloaded
      cluster through the aggregation tick to the 429 of every check.  [reachable_follows_configuration] is the
      invariant of the loop over all interleavings: only configured hosts are probed, only configured
      clusters published, thresholds are those of the configuration.
    - Aggregation.  [aggregateMySQLProbes_spec] describes every branch;
      [aggregate_ignores_at_most] bounds what is ignored, [aggregate_order_irrelevant] shows that the
      order of the map does not matter.
    - Discovery and configuration: parsing of the HAProxy page, the flapping guard of ProxySQL, the
      probes a refresh may hand over, inheritance of settings, termination of the expansion loop.
    - State: purging is invisible, throttles of different names do not interfere, skips last until
      they expire, the share domain reports its worst service.
    - From request to effect.  [requests_reach_their_handler]: every path reaches the handler that the
      table of the API gives for it; [throttle_request_takes_effect]: a throttle request that is answered
      200 throttles the app until its time is over, against any router and consensus service that keep
      their contracts; [raft_command_takes_effect]: a command that the modelled node answers is applied
      and in force, under any interleaving; [node_commits] discharges what Consensus.v asks of raft.  [main_serves] and
      [opened_store_starts_clean] are about the start.
    - Reporting.  [metric_names_never_clash]: whatever names clients choose, no metric is used as
      another kind, which would panic; [push_mirrors_throttles].
    - Consensus.  [replicas_agree] for the raft state machine, [at_most_one_leader] and
      [leadership_takeover] for the leases of the MySQL back end,
      [throttle_survives_leader_change] for the state it shares.
    - Raft.  [inflight_refines]: the tracker hands over exactly the longest prefix of entries that
      have their quorum, in log order.  [bolt_store_refines]: the disk is a map from indices to
      entries under failing transactions.  [election_safety]: one leader per term, over message loss,
      duplication, disk failures and restarts.  [appendEntries_appends], [replication_copies_log],
      [rejection_backs_up], [committed_entries_applied], [compactLogs_keeps]: what replication does
      to a follower's log and state machine.  [replicateTo_catches_up]: a stream ends, with the
      follower's log equal to the leader's.  [log_matching]: in a cluster that elects and replicates,
      with requests reordered, repeated and lost, failing disks and restarts, and without snapshots,
      two logs that share an entry agree on all before it.  [no_future_lost]: every request of the
      application is waiting or answered, in every loop and across changes of leadership, on nodes that
      keep the entries they have applied; [truncation_loses_future] shows what happens on others.
    - Storage and transport.  [opened_snapshot_is_complete] and [snapshot_recovers]: a snapshot that
      can be opened is one that was written to its end, under failing calls, and a restart hands
      exactly its bytes to the state machine.  [log_cache_transparent]: the cache is invisible.  [calls_get_their_answers] and
      [pipeline_in_order]: an answer that a caller gets is the answer to its own request.
    - Defects.  Some theorems state what the code does and should not:
      [snapshot_makes_freno_forget], [check_if_exists_poisons_404], [unthrottled_app_comes_back],
      [commit_without_quorum], [heartbeat_makes_second_leader], [refused_snapshot_is_executed],
      [snapshot_keeps_stale_log], and, not among the numbered properties, [late_append_truncates], [truncation_loses_future],
      [half_persisted_vote_skips_log_check], [failed_append_leaves_hole], [shouldSnapshot_underflow],
      [replicas_diverge_without_ratio], [SkipHost_bad_ttl_still_skips], [low_priority_flag_leaks],
      [failed_mysql_backend_panics], [proxysql_settings_never_inherited],
      [expand_addresses_diverges], [ParseHosts_truncated_row_panics],
      [ReadThrottleMetric_cached_wrong_cluster], [close_hides_lost_metadata],
      [cache_serves_lost_entry], [inmem_suffix_lost], [late_answer_blocks],
      [raft_datadir_flag_alone].

    ** Bounds and fuel

    - [Config.expand_addresses] has fuel because the loop need not end;
      [expand_addresses_terminates] gives the fuel that is enough (the dollar signs of the addresses
      plus one) when values have no dollar sign, and the other case does not end for any fuel.
    - [Inflight.notify] runs with the number of tracked operations as fuel, which is always enough
      ([notify_fuel_enough], and [inflight_refines] has no out-of-fuel case).
    - [RaftStream.replicateTo] has fuel for its rounds, and [replicateTo_catches_up] gives a number
      that is enough.  [RaftStores.delete_from] counts the steps of a loop that wraps around;
      [InmemTransport.disconnect_loop] has the number of pipelines, one of which each turn consumes;
      the server loop [handleConn] takes any fuel: running out of it is waiting for more bytes, and the
      number of bytes received is enough, as every request takes one at least.
    - The loops over index ranges ([CommitRange], [read_logs], [process_range]) count their
      iterations; the ranges end below 2^64 - 1, where the Go loops would not terminate.
    - Raft terms and indices are below 2^64; clock readings are within [int64] ([clock_ok]).

    ** Not modelled

    - Elections assume a fixed membership and that a node handles one event at a time.  The transport
      may run an empty append request (a heartbeat) concurrently with the main loop
      (processHeartbeat); [election_safety] does not cover that interleaving, and
      [heartbeat_makes_second_leader] shows that it could not.
    - [log_matching] covers requests of any age, but each is read from the log in one step, while a
      stream reads beside the main loop; concurrent heartbeats are left out as above, and snapshots,
      after which it does not hold ([snapshot_keeps_stale_log]).
    - That a committed entry is never lost is not stated for the cluster, as the code does not keep it:
      acknowledged entries are deleted by a late request ([late_append_truncates]), counted twice
      ([commit_without_quorum]) and missed by a vote ([half_persisted_vote_skips_log_check]).
    - Waits and timers: how long a failing stream backs off is computed, the waiting is not; which
      timer fires is an event.
    - The places of raft.go that notify observers, of which freno registers none.
    - The accepting of HTTP connections, the parsing of the command line, the output of pprof and of the expvar page.
    - Logging, armon/go-metrics' statistics of raft, memcache beyond the entry written.
    - bench.go, which only go test runs.

    ** Plan

    The program's own logic is modelled.  Left for an extension: streams that read the log while the
    main loop writes it, as steps of the cluster of RaftMatching.v; clusters whose membership changes
    while they elect. *)
From Stdlib Require Export ZArith Lia Ascii SpecFloat.
From stdpp Require Export sorting.
From stdpp Require Export base option list gmap strings pretty.

#[global] Open Scope Z_scope.

Declare Scope go_scope.
Delimit Scope go_scope with go.

(** ** Go errors *)

(** An [error] value.  [Sentinel m] is a package-level [errors.New(m)] variable: those are compared
    by identity ([err == base.AppDeniedError]) and the messages of the sentinels of the program are
    pairwise different.  [Errorf m] is an error allocated where it is returned ([fmt.Errorf], errors
    of the standard library): it is never identical to a sentinel. *)
Inductive error : Type :=
| Sentinel (msg : string)
| Errorf (msg : string).

(** [e.Error()]. *)
Definition error_msg (e : error) : string :=
  match e with Sentinel m | Errorf m => m end.

#[export] Instance error_eq_dec : EqDecision error.
Proof. solve_decision. Defined.

(** ** Results of Go functions *)

(** The outcome of code that can panic. *)
Inductive outcome (A : Type) : Type :=
| Return (a : A)
| Panic (reason : string).
Arguments Return {A} a.
Arguments Panic {A} reason.

Definition outcome_bind {A B} (m : outcome A) (f : A -> outcome B) : outcome B :=
  match m with
  | Return a => f a
  | Panic r => Panic r
  end.

Notation "'let!' x := m 'in' k" := (outcome_bind m (fun x => k))
  (at level 10, x pattern, m at level 100, k at level 200,
   format "'let!'  x  :=  m  'in' '//' k") : go_scope.

(** Indexing a slice: Go panics out of range. *)
Definition slice_get {A} (l : list A) (i : Z) : outcome A :=
  if i <? 0 then Panic "index out of range"
  else match l !! Z.to_nat i with
       | Some a => Return a
       | None => Panic "index out of range"
       end.

(** ** Machine integers *)

(** Two's complement wrap-around of a 64-bit signed integer ([int], [int64], [time.Duration]). *)
Definition wrap64 (z : Z) : Z := (z + 2 ^ 63) `mod` 2 ^ 64 - 2 ^ 63.

(** Wrap-around of a 64-bit unsigned integer. *)
Definition wrapu64 (z : Z) : Z := z `mod` 2 ^ 64.

Definition int64_ok (z : Z) : Prop := - 2 ^ 63 <= z < 2 ^ 63.
Definition uint64_ok (z : Z) : Prop := 0 <= z < 2 ^ 64.

(** ** Time *)

(** A [time.Time] is the number of nanoseconds since the Unix epoch (unbounded: [time.Time] holds
    seconds and nanoseconds separately); a [time.Duration] is a 64-bit number of nanoseconds. *)
Definition Time := Z.
Definition Duration := Z.

(** [time.Time{}]: January 1, year 1, 00:00:00 UTC. *)
Definition zero_time : Time := - 62135596800 * 1000000000.

Definition Nanosecond : Duration := 1.
Definition Millisecond : Duration := 1000000.
Definition Second : Duration := 1000000000.
Definition Minute : Duration := 60 * Second.
Definition Hour : Duration := 60 * Minute.

Definition Time_IsZero (t : Time) : bool := t =? zero_time.
Definition Time_Before (t u : Time) : bool := t <? u.
Definition Time_Add (t : Time) (d : Duration) : Time := t + d.
Definition Time_UnixNano (t : Time) : Z := wrap64 t.
(** [t.Sub(u)] saturates at the bounds of [Duration]. *)
Definition Time_Sub (t u : Time) : Duration := Z.max (- 2 ^ 63) (Z.min (2 ^ 63 - 1) (t - u)).
Definition Time_Unix (t : Time) : Z := t `div` Second.

(** ** Generic loops *)

(** [for i, x := range l { ... }] with an early exit: [inl] continues with the new accumulator,
    [inr] leaves the loop with a result. *)
Fixpoint range_loop {A S R} (body : S -> A -> S + R) (l : list A) (s : S) : S + R :=
  match l with
  | [] => inl s
  | a :: l' =>
      match body s a with
      | inl s' => range_loop body l' s'
      | inr r => inr r
      end
  end.

(** ** Tactics and hints *)

Create HintDb freno.
Create Rewrite HintDb freno.

#[export] Hint Extern 3 (_ <= _) => lia : freno.
#[export] Hint Extern 3 (_ < _) => lia : freno.
#[export] Hint Resolve lookup_insert_eq lookup_delete_eq : freno.
#[export] Hint Rewrite @lookup_insert_eq @lookup_delete_eq @lookup_empty : freno.

(** Case analysis on the scrutinee of a [match] or an [if] of the goal or of a hypothesis. *)
Ltac case_if :=
  match goal with
  | |- context [if ?b then _ else _] => destruct b eqn:?
  | H : context [if ?b then _ else _] |- _ => destruct b eqn:?
  end.

Ltac case_all := repeat case_if; repeat case_match; simplify_eq/=; try done.

(** Turn the boolean comparisons of the context into propositions. *)
Ltac zbool :=
  repeat match goal with
  | H : (_ <? _) = true |- _ => apply Z.ltb_lt in H
  | H : (_ <? _) = false |- _ => apply Z.ltb_ge in H
  | H : (_ <=? _) = true |- _ => apply Z.leb_le in H
  | H : (_ <=? _) = false |- _ => apply Z.leb_gt in H
  | H : (_ =? _) = true |- _ => apply Z.eqb_eq in H
  | H : (_ =? _) = false |- _ => apply Z.eqb_neq in H
  | H : (_ >? _) = _ |- _ => rewrite Z.gtb_ltb in H
  | H : (_ >=? _) = _ |- _ => rewrite Z.geb_leb in H
  | H : negb _ = true |- _ => apply negb_true_iff in H
  | H : negb _ = false |- _ => apply negb_false_iff in H
  | H : (_ && _) = true |- _ => apply andb_true_iff in H; destruct H
  | H : (_ || _) = false |- _ => apply orb_false_iff in H; destruct H
  end.

(** ** Lemmas *)

Lemma wrap64_ok z : int64_ok (wrap64 z).
Proof. unfold int64_ok, wrap64. pose proof (Z.mod_pos_bound (z + 2 ^ 63) (2 ^ 64)). lia. Qed.

Lemma wrap64_id z : int64_ok z -> wrap64 z = z.
Proof. unfold int64_ok, wrap64. intros H. rewrite Z.mod_small; lia. Qed.

Lemma wrapu64_id z : uint64_ok z -> wrapu64 z = z.
Proof. unfold uint64_ok, wrapu64. intros H. by rewrite Z.mod_small. Qed.

#[export] Hint Resolve wrap64_ok : freno.
#[export] Hint Rewrite wrap64_id wrapu64_id using (unfold int64_ok, uint64_ok; lia) : freno.

Lemma range_loop_app {A S R} (body : S -> A -> S + R) l1 l2 s :
  range_loop body (l1 ++ l2) s =
  match range_loop body l1 s with inl s' => range_loop body l2 s' | inr r => inr r end.
Proof. revert s. induction l1 as [|a l1 IH]; intros s; simpl; [done|]. by destruct (body s a). Qed.

(** A loop whose body never exits early is a fold. *)
Lemma range_loop_fold {A S R} (body : S -> A -> S + R) (f : S -> A -> S) l s :
  (forall s a, a ∈ l -> body s a = inl (f s a)) ->
  range_loop body l s = inl (fold_left f l s).
Proof.
  revert s. induction l as [|a l IH]; intros s H; simpl; [done|].
  rewrite H by set_solver. apply IH. set_solver.
Qed.

Lemma existsb_false_Forall {A} (f : A -> bool) l :
  existsb f l = false <-> Forall (fun x => f x = false) l.
Proof.
  induction l as [|x l IH]; simpl; [by split|].
  by rewrite orb_false_iff, Forall_cons, IH.
Qed.
