(* ===== verification/GoStrings.v ===== *)
(** * The parts of Go's [strings], [strconv] and [regexp] packages the program uses

    A Go string is a byte string: [string] of [ascii].  Every [Split] of the program has a
    one-character separator, so the separator is an [ascii].  [ParseInt] follows the digit loop of
    [strconv.ParseUint], including the value it returns next to an error: one handler of the HTTP
    API goes on with that value. *)
From S2P Require Import Prelude.

Open Scope string_scope.
Open Scope Z_scope.

(** ** Characters *)

Definition dquote : ascii := "034"%char.
Definition newline : ascii := "010"%char.
Definition NL : string := String newline "".

Definition quote (s : string) : string := String dquote (s ++ String dquote "").

(** ** Package strings *)

(** [strings.HasPrefix(s, p)]. *)
Fixpoint HasPrefix (s p : string) {struct p} : bool :=
  match p, s with
  | "", _ => true
  | String c p', String d s' => if decide (c = d) then HasPrefix s' p' else false
  | String _ _, "" => false
  end.

(** Drop the first [n] bytes. *)
Fixpoint str_drop (n : nat) (s : string) : string :=
  match n, s with
  | S n', String _ s' => str_drop n' s'
  | _, _ => s
  end.

(** [strings.HasSuffix(s, p)]. *)
Definition HasSuffix (s p : string) : bool :=
  (String.length p <=? String.length s)%nat &&
  HasPrefix (str_drop (String.length s - String.length p) s) p.

(** [strings.Contains(s, sub)]. *)
Fixpoint Contains (s sub : string) : bool :=
  HasPrefix s sub ||
  match s with
  | "" => false
  | String _ s' => Contains s' sub
  end.

(** [strings.Split(s, sep)] for a one-byte separator. *)
Fixpoint Split (s : string) (sep : ascii) : list string :=
  match s with
  | "" => [""]
  | String c s' =>
      if decide (c = sep) then "" :: Split s' sep
      else match Split s' sep with
           | h :: t => String c h :: t
           | [] => [String c ""]
           end
  end.

(** [strings.SplitN(s, sep, 2)] for a one-byte separator. *)
Fixpoint SplitN2 (s : string) (sep : ascii) : list string :=
  match s with
  | "" => [""]
  | String c s' =>
      if decide (c = sep) then [""; s']
      else match SplitN2 s' sep with
           | h :: t => String c h :: t
           | [] => [String c ""]
           end
  end.

(** [strings.Join(l, sep)]. *)
Fixpoint Join (l : list string) (sep : string) : string :=
  match l with
  | [] => ""
  | [s] => s
  | s :: l' => s ++ sep ++ Join l' sep
  end.

(** [strings.TrimLeft(s, c)] for a one-character cutset. *)
Fixpoint TrimLeft (s : string) (c : ascii) : string :=
  match s with
  | String d s' => if decide (c = d) then TrimLeft s' c else s
  | "" => ""
  end.

(** [strings.TrimRight(s, c)] for a one-character cutset. *)
Fixpoint TrimRight (s : string) (c : ascii) : string :=
  match s with
  | "" => ""
  | String d s' =>
      match TrimRight s' c with
      | "" => if decide (c = d) then "" else String d ""
      | r => String d r
      end
  end.

(** The UTF-8 encodings of the runes [unicode.IsSpace] accepts. *)
Definition space_runes : list string :=
  [String "009" ""; String "010" ""; String "011" ""; String "012" ""; String "013" "";
   String " " "";
   String "194" (String "133" ""); String "194" (String "160" "");
   String "225" (String "154" (String "128" ""))] ++
  map (fun c => String "226" (String "128" (String c "")))
    ["128"; "129"; "130"; "131"; "132"; "133"; "134"; "135"; "136"; "137"; "138"; "168"; "169";
     "175"]%char ++
  [String "226" (String "129" (String "159" "")); String "227" (String "128" (String "128" ""))].

(** Drop leading space runes; [n] bounds the number of runes dropped. *)
Fixpoint trim_left_space (n : nat) (s : string) : string :=
  match n with
  | O => s
  | S n' =>
      match List.find (HasPrefix s) space_runes with
      | Some r => trim_left_space n' (str_drop (String.length r) s)
      | None => s
      end
  end.

Fixpoint str_take (n : nat) (s : string) : string :=
  match n, s with
  | S n', String c s' => String c (str_take n' s')
  | _, _ => ""
  end.

Fixpoint trim_right_space (n : nat) (s : string) : string :=
  match n with
  | O => s
  | S n' =>
      match List.find (HasSuffix s) space_runes with
      | Some r => trim_right_space n' (str_take (String.length s - String.length r) s)
      | None => s
      end
  end.

(** [strings.TrimSpace(s)]. *)
Definition TrimSpace (s : string) : string :=
  let s' := trim_left_space (String.length s) s in
  trim_right_space (String.length s') s'.

(** [strings.Replace(s, old, new, -1)] for a non-empty [old]: the scan takes one step per byte of
    [s] at most. *)
Fixpoint replace_scan (n : nat) (s old new : string) : string :=
  match n with
  | O => s
  | S n' =>
      if HasPrefix s old then new ++ replace_scan n' (str_drop (String.length old) s) old new
      else match s with
           | "" => ""
           | String c s' => String c (replace_scan n' s' old new)
           end
  end.

Definition ReplaceAll (s old new : string) : string :=
  replace_scan (S (String.length s)) s old new.

(** [strings.ToLower] on the ASCII letters.  The program only tests the result against the
    prefixes "select" and "show global"; no letter outside ASCII lowers to one of their letters. *)
Definition lower_ascii (c : ascii) : ascii :=
  let n := N_of_ascii c in
  if (65 <=? n)%N && (n <=? 90)%N then ascii_of_N (n + 32) else c.

Fixpoint ToLower (s : string) : string :=
  match s with
  | "" => ""
  | String c s' => String (lower_ascii c) (ToLower s')
  end.

(** The byte order of Go strings: [s < t]. *)
Fixpoint str_ltb (s t : string) : bool :=
  match s, t with
  | _, "" => false
  | "", String _ _ => true
  | String c s', String d t' =>
      if decide (c = d) then str_ltb s' t' else (N_of_ascii c <? N_of_ascii d)%N
  end.

(** ** Package strconv *)

Definition digit_of (c : ascii) : option Z :=
  let n := Z.of_N (N_of_ascii c) in
  if (48 <=? n) && (n <=? 57) then Some (n - 48) else None.

Inductive num_error := ErrSyntax | ErrRange.

Definition max_uint64 : Z := 2 ^ 64 - 1.

(** The digit loop of [ParseUint(s, 10, 64)] over a non-empty [s]. *)
Fixpoint parse_uint (s : string) (n : Z) : Z + num_error :=
  match s with
  | "" => inl n
  | String c s' =>
      match digit_of c with
      | None => inr ErrSyntax
      | Some d =>
          if max_uint64 / 10 + 1 <=? n then inr ErrRange
          else let n1 := n * 10 + d in
               if max_uint64 <? n1 then inr ErrRange else parse_uint s' n1
      end
  end.

Definition num_error_msg (fn s : string) (e : num_error) : string :=
  "strconv." ++ fn ++ ": parsing " ++ quote s ++ ": " ++
  match e with ErrSyntax => "invalid syntax" | ErrRange => "value out of range" end.

(** The sign of a literal and what follows it. *)
Definition split_sign (s : string) : bool * string :=
  match s with
  | String c s' =>
      if decide (c = "-"%char) then (true, s')
      else if decide (c = "+"%char) then (false, s') else (false, s)
  | "" => (false, "")
  end.

(** [strconv.ParseInt(s, 10, 64)], the value and the error. *)
Definition ParseInt (s : string) : Z * option error :=
  let fail v e := (v, Some (Errorf (num_error_msg "ParseInt" s e))) in
  let '(neg, rest) := split_sign s in
  let cutoff := 2 ^ 63 in
  let finish un :=
    if negb neg && (cutoff <=? un) then fail (cutoff - 1) ErrRange
    else if neg && (cutoff <? un) then fail (- cutoff) ErrRange
    else (if neg then - un else un, None) in
  match rest with
  | "" => fail 0 ErrSyntax
  | _ =>
      match parse_uint rest 0 with
      | inr ErrSyntax => fail 0 ErrSyntax
      | inr ErrRange => finish max_uint64
      | inl un => finish un
      end
  end.

(** [strconv.Atoi(s)]: [int] has 64 bits. *)
Definition Atoi (s : string) : Z * option error := ParseInt s.

(** [fmt.Sprintf("%d", n)]. *)
Definition Itoa (n : Z) : string := pretty n.

(** ** Package regexp: the one expression of the program, [[$][{](.*?)[}]] *)

(** The text up to the first closing brace, if no newline comes before it. *)
Fixpoint until_brace (s : string) : option string :=
  match s with
  | "" => None
  | String c s' =>
      if decide (c = "}"%char) then Some ""
      else if decide (c = newline) then None
      else String c <$> until_brace s'
  end.

(** [envVariableRegexp.FindStringSubmatch(s)]: the captured group of the leftmost match. *)
Fixpoint find_env_variable (s : string) : option string :=
  match s with
  | "" => None
  | String _ s' =>
      match (if HasPrefix s "${" then until_brace (str_drop 2 s) else None) with
      | Some v => Some v
      | None => find_env_variable s'
      end
  end.

(** ** Lemmas *)

Lemma str_app_nil_r (a : string) : a ++ "" = a.
Proof. induction a as [|x a IH]; [done|]. exact (f_equal (String x) IH). Qed.

Lemma str_app_assoc (a b c : string) : (a ++ b) ++ c = a ++ (b ++ c).
Proof. induction a as [|x a IH]; [done|]. exact (f_equal (String x) IH). Qed.

Lemma HasPrefix_self p s : HasPrefix (p ++ s) p = true.
Proof. induction p as [|c p IH]; [by destruct s|]. simpl. by rewrite decide_True. Qed.

Lemma Split_nonempty s sep : Split s sep <> [].
Proof. destruct s as [|c s]; simpl; [done|]. case_decide; [done|]. by destruct (Split s sep). Qed.

(** [strings.Join] undoes [strings.Split]. *)
Lemma Join_Split s sep : Join (Split s sep) (String sep "") = s.
Proof.
  induction s as [|c s IH]; simpl; [done|]. case_decide as Hc.
  - subst. pose proof (Split_nonempty s sep) as Hne.
    destruct (Split s sep) as [|h t]; [done|]. simpl in *. by rewrite IH.
  - pose proof (Split_nonempty s sep) as Hne. destruct (Split s sep) as [|h [|h' t]]; [done| |].
    + simpl in *. by rewrite IH.
    + change (Join (String c h :: h' :: t) (String sep ""))
        with (String c (Join (h :: h' :: t) (String sep ""))). by rewrite IH.
Qed.

(** Whether a byte occurs in a string. *)
Fixpoint str_mem (c : ascii) (s : string) : bool :=
  match s with
  | "" => false
  | String d s' => bool_decide (c = d) || str_mem c s'
  end.

Lemma Contains_char s c : Contains s (String c "") = str_mem c s.
Proof.
  induction s as [|d s IH]; simpl; [done|]. rewrite IH.
  destruct (decide (c = d)); [by rewrite bool_decide_eq_true_2|by rewrite bool_decide_eq_false_2].
Qed.

Lemma str_mem_app c s t : str_mem c (s ++ t) = str_mem c s || str_mem c t.
Proof. induction s as [|d s IH]; simpl; [done|]. by rewrite IH, orb_assoc. Qed.

Lemma SplitN2_at sep h r : str_mem sep h = false -> SplitN2 (h ++ String sep r) sep = [h; r].
Proof.
  induction h as [|c h IH]; simpl; intros H; [by rewrite decide_True|].
  apply orb_false_iff in H as [Hc Hh]. apply bool_decide_eq_false in Hc.
  rewrite decide_False by congruence. by rewrite IH.
Qed.

(** A string with the separator splits in exactly two. *)
Lemma Split_single sep s : str_mem sep s = false -> Split s sep = [s].
Proof.
  induction s as [|c s IH]; simpl; [done|]. intros H. apply orb_false_iff in H as [Hc H].
  apply bool_decide_eq_false in Hc. rewrite decide_False by congruence. by rewrite IH.
Qed.

Lemma Split_at sep h r : str_mem sep h = false -> Split (h ++ String sep r) sep = h :: Split r sep.
Proof.
  induction h as [|c h IH]; intros H.
  - change ("" ++ String sep r) with (String sep r). simpl. by rewrite decide_True.
  - change (String c h ++ String sep r) with (String c (h ++ String sep r)). simpl in *.
    apply orb_false_iff in H as [Hc H]. apply bool_decide_eq_false in Hc.
    rewrite decide_False by congruence. by rewrite IH.
Qed.

Lemma SplitN2_mem sep s :
  str_mem sep s = true ->
  exists h r, SplitN2 s sep = [h; r] /\ s = h ++ String sep r /\ str_mem sep h = false.
Proof.
  induction s as [|c s IH]; simpl; [done|]. intros H.
  destruct (decide (c = sep)) as [->|Hc].
  - by exists "", s.
  - rewrite bool_decide_eq_false_2 in H by congruence. destruct (IH H) as (h & r & E & -> & Hh).
    exists (String c h), r. rewrite E. simpl. rewrite Hh, bool_decide_eq_false_2 by congruence. done.
Qed.

Lemma digit_of_pretty_char (n : N) :
  (n < 10)%N -> digit_of (pretty_N_char n) = Some (Z.of_N n).
Proof.
  intros H. assert (Hn : (n ∈ [0; 1; 2; 3; 4; 5; 6; 7; 8; 9])%N).
  { rewrite !elem_of_cons. lia. }
  repeat (apply elem_of_cons in Hn as [->|Hn]; [done|]). by apply elem_of_nil in Hn.
Qed.

Lemma parse_uint_pretty_go (n : N) s :
  Z.of_N n <= max_uint64 -> parse_uint (pretty_N_go n s) 0 = parse_uint s (Z.of_N n).
Proof.
  revert s. induction (N.lt_wf_0 n) as [n _ IH]; intros s Hn.
  destruct (decide (n = 0)%N) as [->|Hne]; [by rewrite pretty_N_go_0|].
  rewrite pretty_N_go_step by lia. rewrite IH.
  - cbn [parse_uint]. rewrite digit_of_pretty_char by (apply N.mod_lt; lia).
    rewrite N2Z.inj_div, N2Z.inj_mod. unfold max_uint64 in *.
    destruct (Z.leb_spec ((2 ^ 64 - 1) / 10 + 1) (Z.of_N n `div` Z.of_N 10)) as [Hb|Hb].
    { exfalso. pose proof (Z.div_le_mono (Z.of_N n) (2 ^ 64 - 1) 10 ltac:(lia) Hn). lia. }
    pose proof (Z.div_mod (Z.of_N n) (Z.of_N 10) ltac:(lia)) as Hdm.
    replace (Z.of_N n `div` Z.of_N 10 * 10 + Z.of_N n `mod` Z.of_N 10) with (Z.of_N n) by lia.
    destruct (Z.ltb_spec (2 ^ 64 - 1) (Z.of_N n)); [lia|done].
  - apply N.div_lt; lia.
  - rewrite N2Z.inj_div. pose proof (Z.div_le_upper_bound (Z.of_N n) (Z.of_N 10) max_uint64). lia.
Qed.

Lemma parse_uint_pretty (p : positive) :
  Zpos p <= max_uint64 -> parse_uint (pretty (Npos p)) 0 = inl (Zpos p).
Proof.
  intros H. unfold pretty, pretty_N. rewrite decide_False by done.
  by rewrite parse_uint_pretty_go.
Qed.

(** A decimal numeral does not begin with a sign and is not empty. *)
Lemma pretty_pos_sign (p : positive) :
  split_sign (pretty (Npos p)) = (false, pretty (Npos p)) /\ pretty (Npos p) <> "".
Proof.
  assert (Hgo : forall (n : N) s, (exists c s', s = String c s' /\ is_Some (digit_of c)) ->
    exists c s', pretty_N_go n s = String c s' /\ is_Some (digit_of c)).
  { intros n. induction (N.lt_wf_0 n) as [n _ IH]; intros s Hs.
    destruct (decide (n = 0)%N) as [->|Hne]; [by rewrite pretty_N_go_0|].
    rewrite pretty_N_go_step by lia. apply IH; [apply N.div_lt; lia|].
    eexists _, _. split; [done|]. rewrite digit_of_pretty_char by (apply N.mod_lt; lia). done. }
  unfold pretty, pretty_N. rewrite decide_False by done. rewrite pretty_N_go_step by lia.
  destruct (Hgo (Npos p `div` 10)%N (String (pretty_N_char (Npos p `mod` 10)) ""))
    as (c & s' & -> & [d Hd]).
  { eexists _, _. split; [done|]. rewrite digit_of_pretty_char by (apply N.mod_lt; lia). done. }
  split; [|done]. simpl. repeat case_decide; subst; done.
Qed.

(** [strconv.ParseInt] reads back what [%d] prints, over the whole range of [int64]. *)
Lemma ParseInt_Itoa z : int64_ok z -> ParseInt (Itoa z) = (z, None).
Proof.
  unfold int64_ok, ParseInt, Itoa. intros Hz. destruct z as [|p|p]; [done| |].
  - change (pretty (Zpos p)) with (pretty (Npos p)).
    destruct (pretty_pos_sign p) as [-> Hne].
    rewrite parse_uint_pretty by (unfold max_uint64; lia).
    destruct (pretty (Npos p)) as [|c s]; [done|]. cbn [negb andb].
    destruct (Z.leb_spec (2 ^ 63) (Zpos p)); [lia|done].
  - change (pretty (Zneg p)) with ("-" ++ pretty (Npos p)).
    destruct (pretty_pos_sign p) as [_ Hne].
    change (split_sign ("-" ++ pretty (Npos p))) with (true, pretty (Npos p)).
    cbv beta iota zeta.
    rewrite parse_uint_pretty by (unfold max_uint64; lia).
    destruct (pretty (Npos p)) as [|c s]; [done|]. cbn [negb andb].
    destruct (Z.ltb_spec (2 ^ 63) (Zpos p)); [lia|done].
Qed.

Lemma Itoa_inj m n : Itoa m = Itoa n -> m = n.
Proof. apply pretty_Z_inj. Qed.

(** The value [ParseInt] returns is always an [int64]. *)
Lemma ParseInt_int64 s : int64_ok (ParseInt s).1.
Proof.
  unfold ParseInt, int64_ok. destruct (split_sign s) as [neg rest].
  assert (Hp : forall s n u, 0 <= n -> parse_uint s n = inl u -> 0 <= u).
  { induction s0 as [|c s0 IH]; simpl; intros n u Hn E; [by simplify_eq|].
    destruct (digit_of c) as [d|] eqn:Ed; [|done]. unfold digit_of in Ed.
    repeat case_if; simplify_eq. zbool. eapply IH; [|done]. lia. }
  destruct rest as [|c r]; [simpl; lia|].
  destruct (parse_uint (String c r) 0) as [u|[]] eqn:E; simpl; [|lia|unfold max_uint64].
  - apply Hp in E; [|lia]. destruct neg; simpl; repeat case_if; simpl; zbool; lia.
  - destruct neg; simpl; repeat case_if; simpl; zbool; lia.
Qed.

Lemma N_of_ascii_inj c d : N_of_ascii c = N_of_ascii d -> c = d.
Proof. intros H. by rewrite <- (ascii_N_embedding c), <- (ascii_N_embedding d), H. Qed.

Lemma str_ltb_irrefl s : str_ltb s s = false.
Proof. induction s as [|c s IH]; simpl; [done|]. by destruct (decide (c = c)). Qed.

Lemma str_ltb_trans s t u : str_ltb s t = true -> str_ltb t u = true -> str_ltb s u = true.
Proof.
  revert t u. induction s as [|c s IH]; intros [|d t] [|e u]; simpl; try done.
  destruct (decide (c = d)) as [->|Hcd], (decide (d = e)) as [->|Hde]; intros H1 H2.
  - by eapply IH.
  - done.
  - by rewrite decide_False.
  - apply N.ltb_lt in H1, H2. destruct (decide (c = e)) as [->|]; [lia|]. apply N.ltb_lt. lia.
Qed.

Lemma str_ltb_total s t : str_ltb s t = true \/ s = t \/ str_ltb t s = true.
Proof.
  revert t. induction s as [|c s IH]; intros [|d t]; simpl; auto.
  destruct (decide (c = d)) as [->|Hcd].
  - rewrite decide_True by done. destruct (IH t) as [|[->|]]; auto.
  - rewrite (decide_False (P := d = c)) by done.
    destruct (N.lt_total (N_of_ascii c) (N_of_ascii d)) as [H|[H|H]].
    + left. by apply N.ltb_lt.
    + by apply N_of_ascii_inj in H.
    + right. right. by apply N.ltb_lt.
Qed.

(** The number of occurrences of a byte. *)
Fixpoint str_count (c : ascii) (s : string) : nat :=
  match s with
  | "" => O
  | String d s' => (if decide (c = d) then 1 else 0) + str_count c s'
  end%nat.

Lemma str_count_app c s t : (str_count c (s ++ t) = str_count c s + str_count c t)%nat.
Proof. induction s as [|d s IH]; simpl; [done|]. rewrite IH. lia. Qed.

Lemma str_count_mem c s : str_mem c s = false -> str_count c s = O.
Proof.
  induction s as [|d s IH]; simpl; [done|]. intros [H1 H2]%orb_false_iff.
  apply bool_decide_eq_false in H1. rewrite decide_False by done. by apply IH.
Qed.

Lemma HasPrefix_app s p : HasPrefix s p = true -> s = p ++ str_drop (String.length p) s.
Proof.
  revert s. induction p as [|c p IH]; intros s; simpl; [done|]. destruct s as [|d s]; [done|].
  case_decide as E; [|done]. intros H. subst. by rewrite (IH s H) at 1.
Qed.

Lemma HasPrefix_refl_app p s : HasPrefix (p ++ s) p = true.
Proof. induction p as [|c p IH]; simpl; [done|]. by rewrite decide_True. Qed.

Lemma replace_scan_count c n s old new :
  str_count c new = O -> (str_count c (replace_scan n s old new) <= str_count c s)%nat.
Proof.
  intros Hnew. revert s. induction n as [|n IH]; intros s; simpl; [done|].
  destruct (HasPrefix s old) eqn:Hp.
  - apply HasPrefix_app in Hp. rewrite str_count_app, Hnew. rewrite Hp at 2.
    rewrite str_count_app. specialize (IH (str_drop (String.length old) s)). lia.
  - destruct s as [|d s]; [done|]. simpl. specialize (IH s). lia.
Qed.

(** Replacing a text that has the byte by one that has not leaves strictly fewer of them. *)
Lemma replace_scan_count_lt c n s old new :
  str_count c new = O -> (1 <= str_count c old)%nat -> Contains s old = true ->
  (String.length s < n)%nat -> (str_count c (replace_scan n s old new) < str_count c s)%nat.
Proof.
  intros Hnew Hold. revert s. induction n as [|n IH]; intros s Hc Hn; [lia|]. simpl.
  destruct (HasPrefix s old) eqn:Hp.
  - apply HasPrefix_app in Hp. rewrite str_count_app, Hnew. rewrite Hp at 2. rewrite str_count_app.
    pose proof (replace_scan_count c n (str_drop (String.length old) s) old new Hnew). lia.
  - destruct s as [|d s]; simpl in Hc; rewrite Hp in Hc; simpl in Hc; [done|]. simpl in *.
    specialize (IH s Hc ltac:(lia)). lia.
Qed.

Lemma until_brace_prefix s v : until_brace s = Some v -> HasPrefix s (v ++ "}") = true.
Proof.
  revert v. induction s as [|c s IH]; intros v; simpl; [done|].
  destruct (decide (c = "}"%char)) as [->|Hc]; [by intros [= <-]|].
  destruct (decide (c = newline)); [done|].
  destruct (until_brace s) as [w|]; [|done]. intros [= <-]. simpl. rewrite decide_True by done.
  by apply IH.
Qed.

Lemma find_env_variable_contains s v :
  find_env_variable s = Some v -> Contains s ("${" ++ v ++ "}") = true.
Proof.
  induction s as [|c s IH]; [done|]. cbn [find_env_variable].
  destruct (HasPrefix (String c s) "${") eqn:Hp.
  - destruct (until_brace _) as [w|] eqn:Hu.
    + intros [= <-]. apply HasPrefix_app in Hp. cbn [Contains]. apply orb_true_iff. left.
      rewrite Hp. exact (until_brace_prefix _ _ Hu).
    + intros H. cbn [Contains]. by rewrite (IH H), orb_true_r.
  - intros H. cbn [Contains]. by rewrite (IH H), orb_true_r.
Qed.

#[export] Hint Resolve ParseInt_int64 Split_nonempty : freno.
#[export] Hint Rewrite ParseInt_Itoa using done : freno.

(** ** [sort.Strings] *)

Definition str_sle (s t : string) : Prop := str_ltb t s = false.

#[export] Instance str_sle_dec : RelDecision str_sle.
Proof. intros s t. unfold str_sle. apply _. Defined.

#[export] Instance str_sle_total : Total str_sle.
Proof.
  intros s t. unfold str_sle. destruct (str_ltb t s) eqn:E1, (str_ltb s t) eqn:E2; auto.
  pose proof (str_ltb_trans _ _ _ E1 E2) as H. by rewrite str_ltb_irrefl in H.
Qed.

#[export] Instance str_sle_trans : Transitive str_sle.
Proof.
  unfold str_sle. intros s t u H1 H2. destruct (str_ltb u s) eqn:E; [|done].
  destruct (str_ltb_total t u) as [H|[->|H]]; [|congruence..].
  by rewrite (str_ltb_trans _ _ _ H E) in H1.
Qed.

Definition sort_Strings (l : list string) : list string := merge_sort str_sle l.

Lemma sort_Strings_perm l : sort_Strings l ≡ₚ l.
Proof. apply merge_sort_Permutation. Qed.

Lemma sort_Strings_sorted l : StronglySorted str_sle (sort_Strings l).
Proof. apply (StronglySorted_merge_sort str_sle). Qed.
