(* ===== verification/GoFloat.v ===== *)
(** * float64

    A [float64] is an IEEE 754 binary64 value: [spec_float] with 53 bits of precision.  Comparisons,
    [sort.Float64s], conversions, [time.Duration.Seconds], [strconv.ParseFloat] and [%.nf] are
    executable.  Order reasoning goes through [f_key], which maps a float to a triple of integers
    whose lexicographic order is the order of [sort.Float64s] (NaN first). *)
From S2P Require Import Prelude GoStrings.

Open Scope string_scope.
Open Scope Z_scope.

Abbreviation float64 := spec_float.

Definition f_prec : Z := 53.
Definition f_emax : Z := 1024.

(** ** Comparisons *)

Definition f_ltb (x y : float64) : bool := SFltb x y.
Definition f_leb (x y : float64) : bool := SFleb x y.
Definition f_eqb (x y : float64) : bool := SFeqb x y.
Definition f_gtb (x y : float64) : bool := f_ltb y x.
Definition f_geb (x y : float64) : bool := f_leb y x.

Definition f_isnan (x : float64) : bool :=
  match x with S754_nan => true | _ => false end.

(** ** Conversions and arithmetic *)

(** [float64(n)], rounded to nearest even. *)
Definition f_of_Z (n : Z) : float64 := binary_normalize f_prec f_emax n 0 false.
Definition f_add (x y : float64) : float64 := SFadd f_prec f_emax x y.
Definition f_div (x y : float64) : float64 := SFdiv f_prec f_emax x y.

Definition f_zero : float64 := S754_zero false.
Definition f_one : float64 := f_of_Z 1.
Definition f_minus_one : float64 := f_of_Z (- 1).

(** [int64(x)]: truncation; out of range the result is the "integer indefinite" value of amd64. *)
Definition f_trunc (x : float64) : Z :=
  match x with
  | S754_finite s m e =>
      let a := if 0 <=? e then Zpos m * 2 ^ e else Zpos m / 2 ^ (- e) in
      if s then - a else a
  | S754_zero _ => 0
  | _ => - 2 ^ 63
  end.

Definition f_to_int64 (x : float64) : Z :=
  let z := f_trunc x in
  if (- 2 ^ 63 <=? z) && (z <? 2 ^ 63) then z else - 2 ^ 63.

(** [d.Seconds()] and [d.Minutes()]: whole units plus the rest, as floats. *)
Definition Duration_Seconds (d : Duration) : float64 :=
  f_add (f_of_Z (Z.quot d Second)) (f_div (f_of_Z (Z.rem d Second)) (f_of_Z Second)).
Definition Duration_Minutes (d : Duration) : float64 :=
  f_add (f_of_Z (Z.quot d Minute)) (f_div (f_of_Z (Z.rem d Minute)) (f_of_Z Minute)).

(** ** sort.Float64s *)

(** [Float64Slice.Less]: [x < y || (isNaN(x) && !isNaN(y))]. *)
Definition f_less (x y : float64) : bool := f_ltb x y || (f_isnan x && negb (f_isnan y)).

(** [x] may stand before [y] in a sorted slice. *)
Definition f_sle (x y : float64) : Prop := f_less y x = false.

#[export] Instance f_sle_dec : RelDecision f_sle.
Proof. intros x y. unfold f_sle. apply _. Defined.

(** [sort.Float64s]: Go's sort is not stable; every sorted permutation agrees with this one up to
    the sign of zeros ([Float64s_unique]). *)
Definition Float64s (l : list float64) : list float64 := merge_sort f_sle l.

(** ** The sorting key *)

Definition f_key (x : float64) : Z * Z * Z :=
  match x with
  | S754_nan => (- 3, 0, 0)
  | S754_infinity true => (- 2, 0, 0)
  | S754_finite true m e => (- 1, - e, - Zpos m)
  | S754_zero _ => (0, 0, 0)
  | S754_finite false m e => (1, e, Zpos m)
  | S754_infinity false => (2, 0, 0)
  end.

Definition key_lt (a b : Z * Z * Z) : Prop :=
  a.1.1 < b.1.1 \/ (a.1.1 = b.1.1 /\ (a.1.2 < b.1.2 \/ (a.1.2 = b.1.2 /\ a.2 < b.2))).

Definition key_le (a b : Z * Z * Z) : Prop := key_lt a b \/ a = b.

(** Equality of floats up to the sign of zero (and NaN equal to itself). *)
Definition f_eqv (x y : float64) : Prop := f_key x = f_key y.

(** ** strconv.ParseFloat *)

(** A digit of base 10 or 16. *)
Definition hexdigit_of (c : ascii) : option Z :=
  match digit_of c with
  | Some d => Some d
  | None =>
      let n := Z.of_N (N_of_ascii (lower_ascii c)) in
      if (97 <=? n) && (n <=? 102) then Some (n - 87) else None
  end.

Definition base_digit (base : Z) (c : ascii) : option Z :=
  if base =? 16 then hexdigit_of c else digit_of c.

(** The mantissa: value, digits after the point, whether a digit and a point were seen, the rest. *)
Fixpoint read_mantissa (base : Z) (s : string) (mant frac : Z) (digits dot : bool)
  : Z * Z * bool * string :=
  match s with
  | "" => (mant, frac, digits, "")
  | String c s' =>
      if decide (c = "."%char) then
        if dot then (mant, frac, digits, s)
        else read_mantissa base s' mant frac digits true
      else match base_digit base c with
           | Some d => read_mantissa base s' (mant * base + d) (if dot then frac + 1 else frac)
                         true dot
           | None => (mant, frac, digits, s)
           end
  end.

(** The decimal digits of an exponent (saturating, as [readFloat] does) and the rest. *)
Fixpoint read_exponent (s : string) (e : Z) : Z * string :=
  match s with
  | String c s' =>
      match digit_of c with
      | Some d => read_exponent s' (if e <? 10000 then e * 10 + d else e)
      | None => (e, s)
      end
  | "" => (e, "")
  end.

(** [m * 10^e] (base 10) or [m * 2^e] (base 16) rounded to nearest even. *)
Definition f_scale (base : Z) (m : positive) (e : Z) : float64 :=
  if base =? 16 then binary_normalize f_prec f_emax (Zpos m) e false
  else if 0 <=? e then binary_normalize f_prec f_emax (Zpos m * 10 ^ e) 0 false
  else f_div (S754_finite false m 0) (S754_finite false (Z.to_pos (10 ^ (- e))) 0).

Definition f_opp_if (neg : bool) (x : float64) : float64 := if neg then SFopp x else x.

Definition f_special (s : string) : option float64 :=
  let '(neg, rest) := split_sign s in
  let l := ToLower rest in
  if decide (l = "inf") then Some (S754_infinity neg)
  else if decide (l = "infinity") then Some (S754_infinity neg)
  else if decide (ToLower s = "nan") then Some S754_nan
  else None.

(** A decimal or hexadecimal literal that spans the whole string; [None] is a syntax error.  The
    digit separators Go admits in hexadecimal literals are not. *)
Definition read_float (s : string) : option (bool * Z * Z * Z) :=
  let '(neg, rest) := split_sign s in
  let hex := (HasPrefix (ToLower rest) "0x") && (2 <? String.length rest)%nat in
  let base := if hex then 16 else 10 in
  let '(mant, frac, digits, r) :=
    read_mantissa base (if hex then str_drop 2 rest else rest) 0 0 false false in
  if negb digits then None
  else
    let expchar := if hex then "p"%char else "e"%char in
    let scale := if hex then 4 else 1 in
    match r with
    | "" => if hex then None else Some (neg, base, mant, - frac)
    | String c r' =>
        if decide (lower_ascii c = expchar) then
          let '(eneg, ds) := split_sign r' in
          match ds with
          | "" => None
          | String d _ =>
              match digit_of d with
              | None => None
              | Some _ =>
                  let '(e, r2) := read_exponent ds 0 in
                  match r2 with
                  | "" => Some (neg, base, mant, (if eneg then - e else e) - scale * frac)
                  | _ => None
                  end
              end
          end
        else None
    end.

(** [strconv.ParseFloat(s, 64)], the value and the error. *)
Definition ParseFloat (s : string) : float64 * option error :=
  match f_special s with
  | Some x => (x, None)
  | None =>
      match read_float s with
      | None => (f_zero, Some (Errorf (num_error_msg "ParseFloat" s ErrSyntax)))
      | Some (neg, base, mant, e) =>
          match mant with
          | Zpos m =>
              match f_scale base m e with
              | S754_infinity _ =>
                  (S754_infinity neg, Some (Errorf (num_error_msg "ParseFloat" s ErrRange)))
              | x => (f_opp_if neg x, None)
              end
          | _ => (S754_zero neg, None)
          end
      end
  end.

(** ** fmt.Sprintf("%.nf") *)

(** [m * 2^e * 10^n] rounded to an integer, half to even. *)
Definition f_round_scaled (m : positive) (e n : Z) : Z :=
  if 0 <=? e then Zpos m * 2 ^ e * 10 ^ n
  else
    let num := Zpos m * 10 ^ n in
    let den := 2 ^ (- e) in
    let q := num / den in
    let r := num - q * den in
    if (den <? 2 * r) || ((den =? 2 * r) && Z.odd q) then q + 1 else q.

Fixpoint zeros (n : nat) : string :=
  match n with O => "" | S n' => String "0" (zeros n') end.

(** [n] decimal places of a non-negative scaled integer. *)
Definition format_scaled (z : Z) (n : nat) : string :=
  let ip := Itoa (z / 10 ^ Z.of_nat n) in
  let fp := Itoa (z mod 10 ^ Z.of_nat n) in
  match n with
  | O => ip
  | _ => ip ++ "." ++ zeros (n - String.length fp) ++ fp
  end.

Definition format_f (n : nat) (x : float64) : string :=
  match x with
  | S754_nan => "NaN"
  | S754_infinity s => if s then "-Inf" else "+Inf"
  | S754_zero s => (if s then "-" else "") ++ format_scaled 0 n
  | S754_finite s m e =>
      (if s then "-" else "") ++ format_scaled (f_round_scaled m e (Z.of_nat n)) n
  end.

(** ** Order lemmas *)

Ltac key_cmp :=
  repeat match goal with
  | |- context [Pos.compare_cont Eq ?a ?b] =>
      change (Pos.compare_cont Eq a b) with (Pos.compare a b)
  | |- context [(?a ?= ?b)%positive] => destruct (Pos.compare_spec a b); subst
  | |- context [?a ?= ?b] => destruct (Z.compare_spec a b); subst
  end.

Lemma key_lt_irrefl a : ~ key_lt a a.
Proof. unfold key_lt. lia. Qed.

Lemma key_lt_trans a b c : key_lt a b -> key_lt b c -> key_lt a c.
Proof. unfold key_lt. lia. Qed.

Lemma key_lt_total a b : key_lt a b \/ a = b \/ key_lt b a.
Proof.
  destruct a as [[a1 a2] a3], b as [[b1 b2] b3]. unfold key_lt; simpl.
  destruct (Z.lt_total a1 b1) as [|[->|]]; [lia| |lia].
  destruct (Z.lt_total a2 b2) as [|[->|]]; [lia| |lia].
  destruct (Z.lt_total a3 b3) as [|[->|]]; [lia|auto|lia].
Qed.

Lemma key_le_lt_trans a b c : key_le a b -> key_lt b c -> key_lt a c.
Proof. intros [H| ->] ?; [by eapply key_lt_trans|done]. Qed.

Lemma key_lt_le_trans a b c : key_lt a b -> key_le b c -> key_lt a c.
Proof. intros ? [H| <-]; [by eapply key_lt_trans|done]. Qed.

Lemma key_le_not_lt a b : key_le a b <-> ~ key_lt b a.
Proof.
  unfold key_le. split.
  - intros [H| ->]; [|apply key_lt_irrefl]. intros H'. by eapply key_lt_irrefl, key_lt_trans.
  - intros H. destruct (key_lt_total a b) as [|[|]]; auto; done.
Qed.

#[export] Instance key_le_preorder : PreOrder key_le.
Proof.
  split; [by right|]. intros a b c [H| ->]; [|done]. intros [H'| <-]; left; [by eapply key_lt_trans|done].
Qed.

#[export] Instance key_le_antisym : AntiSymm (=) key_le.
Proof.
  intros a b [H| ->] [H'|]; auto. exfalso. by eapply key_lt_irrefl, key_lt_trans.
Qed.

(** [f_less] is the strict order of the keys. *)
Lemma f_less_key x y : f_less x y = true <-> key_lt (f_key x) (f_key y).
Proof.
  unfold f_less, f_ltb, SFltb, SFcompare, key_lt, f_key.
  destruct x as [[]|[]| |[] m e], y as [[]|[]| |[] m' e']; simpl; key_cmp; simpl; split; intros Hk;
    try done; lia.
Qed.

Lemma f_sle_key x y : f_sle x y <-> key_le (f_key x) (f_key y).
Proof.
  unfold f_sle. rewrite key_le_not_lt, <- f_less_key. by destruct (f_less y x).
Qed.

Lemma f_ltb_key x y :
  f_ltb x y = true <-> f_isnan x = false /\ f_isnan y = false /\ key_lt (f_key x) (f_key y).
Proof.
  unfold f_ltb, SFltb, SFcompare, key_lt, f_key.
  destruct x as [[]|[]| |[] m e], y as [[]|[]| |[] m' e']; simpl; key_cmp; simpl;
    (split; [intros Hk; try done; split_and!; try done; lia|intros (? & ? & Hk); try done; lia]).
Qed.

Lemma f_leb_key x y :
  f_leb x y = true <-> f_isnan x = false /\ f_isnan y = false /\ key_le (f_key x) (f_key y).
Proof.
  rewrite key_le_not_lt.
  unfold f_leb, SFleb, SFcompare, key_lt, f_key.
  destruct x as [[]|[]| |[] m e], y as [[]|[]| |[] m' e']; simpl; key_cmp; simpl;
    (split; [intros Hk; try done; split_and!; try done; lia|intros (? & ? & Hk); try done; exfalso; lia]).
Qed.

Lemma f_gtb_leb x y : f_isnan x = false -> f_isnan y = false -> f_gtb x y = negb (f_leb x y).
Proof.
  intros Hx Hy. unfold f_gtb. pose proof (f_ltb_key y x) as Hl. pose proof (f_leb_key x y) as Hk.
  rewrite key_le_not_lt in Hk. destruct (f_ltb y x), (f_leb x y); intuition congruence.
Qed.

#[export] Instance f_sle_preorder : PreOrder f_sle.
Proof.
  split; intros x; [by apply f_sle_key|].
  intros y z. rewrite !f_sle_key. by intros; etrans.
Qed.

#[export] Instance f_sle_total : Total f_sle.
Proof.
  intros x y. rewrite !f_sle_key. unfold key_le.
  destruct (key_lt_total (f_key x) (f_key y)) as [|[|]]; auto.
Qed.

#[export] Instance f_eqv_equivalence : Equivalence f_eqv.
Proof. unfold f_eqv. split; repeat intro; congruence. Qed.

#[export] Instance f_ltb_proper : Proper (f_eqv ==> f_eqv ==> eq) f_ltb.
Proof.
  assert (Hn : forall x y, f_eqv x y -> f_isnan x = f_isnan y).
  { intros [[]|[]| |[]] [[]|[]| |[]]; by unfold f_eqv. }
  intros x x' Hx y y' Hy. apply eq_true_iff_eq. rewrite !f_ltb_key.
  rewrite (Hn _ _ Hx), (Hn _ _ Hy). unfold f_eqv in *. by rewrite Hx, Hy.
Qed.

Lemma Float64s_perm l : Float64s l ≡ₚ l.
Proof. apply merge_sort_Permutation. Qed.

Lemma Float64s_sorted l : StronglySorted f_sle (Float64s l).
Proof. apply StronglySorted_merge_sort; apply _. Qed.

Lemma length_Float64s l : length (Float64s l) = length l.
Proof. by rewrite Float64s_perm. Qed.

Lemma StronglySorted_keys l :
  StronglySorted f_sle l -> StronglySorted key_le (f_key <$> l).
Proof.
  induction 1 as [|x l Hl IH Hx]; simpl; constructor; [done|].
  rewrite Forall_fmap. eapply Forall_impl; [exact Hx|]. intros y Hy. by apply f_sle_key.
Qed.

(** Two sorted permutations of the same values hold equal values at equal positions, up to the sign
    of zeros: what an unstable sort leaves open is not visible in the order. *)
Lemma Float64s_unique l1 l2 :
  StronglySorted f_sle l1 -> StronglySorted f_sle l2 -> l1 ≡ₚ l2 -> Forall2 f_eqv l1 l2.
Proof.
  intros H1 H2 Hp.
  assert (Hk : f_key <$> l1 = f_key <$> l2).
  { apply (StronglySorted_unique key_le); eauto using StronglySorted_keys. by rewrite Hp. }
  clear H1 H2 Hp. revert l2 Hk. induction l1 as [|x l1 IH]; intros [|y l2] Hk; simplify_eq/=;
    constructor; eauto.
Qed.

#[export] Hint Resolve Float64s_perm Float64s_sorted : freno.
