(* ===== verification/GoNet.v ===== *)
(** * Package net of Go: [ParseIP] and [To4], as src/pkg/mysql/probe.go uses them

    The parsers of dotted and of colon separated addresses, byte by byte, as in the version of Go
    the program is built with (an octet has no leading zero). *)
From S2P Require Import Prelude GoStrings GoFloat.

Open Scope string_scope.
Open Scope Z_scope.

(** [dtoi] and [xtoi]: the number at the start of a string and the count of its digits. *)
Fixpoint toi_loop (digit : ascii -> option Z) (base : Z) (s : string) (n : Z) (i : nat)
  : option (Z * nat) :=
  match s with
  | "" => if (i =? 0)%nat then None else Some (n, i)
  | String c s' =>
      match digit c with
      | None => if (i =? 0)%nat then None else Some (n, i)
      | Some d =>
          let n := n * base + d in
          if 16777215 <=? n then None else toi_loop digit base s' n (S i)
      end
  end.

Definition dtoi (s : string) : option (Z * nat) := toi_loop digit_of 10 s 0 0.
Definition xtoi (s : string) : option (Z * nat) := toi_loop hexdigit_of 16 s 0 0.

(** [parseIPv4]: [n] octets are left to read. *)
Fixpoint parseIPv4_loop (n : nat) (first : bool) (s : string) (p : list Z) : option (list Z) :=
  match n with
  | O => if decide (s = "") then Some p else None
  | S n' =>
      let octet s :=
        match dtoi s with
        | None => None
        | Some (v, c) =>
            if 255 <? v then None
            else if (1 <? c)%nat && HasPrefix s "0" then None
            else parseIPv4_loop n' false (str_drop c s) (p ++ [v])
        end in
      match s with
      | "" => None
      | String d s' => if first then octet s else if decide (d = "."%char) then octet s' else None
      end
  end.

Definition parseIPv4 (s : string) : option (list Z) := parseIPv4_loop 4 true s [].

(** The loop of [parseIPv6] over at most eight groups: the bytes read, the place of the ellipsis and
    the rest of the string. *)
Fixpoint parseIPv6_loop (n : nat) (s : string) (ip : list Z) (ellipsis : option nat)
  : option (list Z * option nat * string) :=
  match n with
  | O => Some (ip, ellipsis, s)
  | S n' =>
      match xtoi s with
      | None => None
      | Some (v, c) =>
          if 65535 <? v then None
          else
            let rest := str_drop c s in
            if HasPrefix rest "." then
              if bool_decide (ellipsis = None) && negb (length ip =? 12)%nat then None
              else if (16 <? length ip + 4)%nat then None
              else (fun ip4 => (ip ++ ip4, ellipsis, "")) <$> parseIPv4 s
            else
              let ip := ip ++ [Z.shiftr v 8; Z.land v 255] in
              match rest with
              | "" => Some (ip, ellipsis, "")
              | String d rest =>
                  if negb (bool_decide (d = ":"%char)) || bool_decide (rest = "") then None
                  else if HasPrefix rest ":" then
                    match ellipsis with
                    | Some _ => None
                    | None =>
                        let rest := str_drop 1 rest in
                        if decide (rest = "") then Some (ip, Some (length ip), "")
                        else parseIPv6_loop n' rest ip (Some (length ip))
                    end
                  else parseIPv6_loop n' rest ip ellipsis
              end
      end
  end%list.

Definition parseIPv6 (s : string) : option (list Z) :=
  let ellipsis := if HasPrefix s "::" then Some 0%nat else None in
  let s := if HasPrefix s "::" then str_drop 2 s else s in
  if bool_decide (ellipsis = Some 0%nat) && bool_decide (s = "") then Some (replicate 16 0)
  else
    match parseIPv6_loop 8 s [] ellipsis with
    | None => None
    | Some (ip, ellipsis, rest) =>
        if negb (bool_decide (rest = "")) then None
        else if (length ip <? 16)%nat then
          (fun e => take e ip ++ replicate (16 - length ip) 0 ++ drop e ip)%list <$> ellipsis
        else match ellipsis with Some _ => None | None => Some ip end
    end.

Definition v4InV6Prefix : list Z := (replicate 10 0 ++ [255; 255])%list.

(** [ParseIP]: the first dot or colon tells the kind of the address; the result has sixteen bytes. *)
Fixpoint ParseIP_scan (whole s : string) : option (list Z) :=
  match s with
  | "" => None
  | String c s' =>
      if decide (c = "."%char) then (fun ip4 => v4InV6Prefix ++ ip4)%list <$> parseIPv4 whole
      else if decide (c = ":"%char) then parseIPv6 whole
      else ParseIP_scan whole s'
  end.

Definition ParseIP (s : string) : option (list Z) := ParseIP_scan s s.

(** [To4] of a sixteen byte address. *)
Definition To4 (ip : list Z) : option (list Z) :=
  if decide (take 12 ip = v4InV6Prefix) then Some (drop 12 ip) else None.

(** ** Facts *)

(** Only an address with a colon is without a four byte form. *)
Lemma ParseIP_To4_colon s ip : ParseIP s = Some ip -> To4 ip = None -> str_mem ":" s = true.
Proof.
  unfold ParseIP. generalize s at 1. intros whole. induction s as [|c s IH]; simpl; [done|].
  destruct (decide (c = "."%char)) as [->|]; [|destruct (decide (c = ":"%char)) as [->|]].
  - intros (ip4 & _ & ->)%fmap_Some. done.
  - done.
  - intros H1 H2. by rewrite (IH H1 H2), orb_true_r.
Qed.

Example ParseIP_ipv4 : To4 <$> ParseIP "10.0.1.255" = Some (Some [10; 0; 1; 255]).
Proof. reflexivity. Qed.
Example ParseIP_mapped : To4 <$> ParseIP "::ffff:10.0.0.1" = Some (Some [10; 0; 0; 1]).
Proof. reflexivity. Qed.
Example ParseIP_ipv6 :
  (fun ip => (To4 ip, take 4 ip, drop 14 ip)) <$> ParseIP "2001:db8::1" = Some (None, [32; 1; 13; 184], [0; 1]).
Proof. reflexivity. Qed.
Example ParseIP_loopback : ParseIP "::1" = Some (replicate 15 0 ++ [1])%list.
Proof. reflexivity. Qed.
Example ParseIP_refused :
  ParseIP <$> ["db1.example.com"; "10.0.0"; "10.0.0.01"; "1::2::3"; "1:2:3:4:5:6:7"; "12345::"; "::1%eth0"; ""] =
  replicate 8 None.
Proof. reflexivity. Qed.
