(* ===== verification/GoCache.v ===== *)
(** * The expiring cache (vendor/github.com/patrickmn/go-cache)

    Every piece of throttler state that is shared between goroutines is a [cache.Cache]: a map from
    strings to items with an expiration in Unix nanoseconds (0 or -1: never).  Each operation takes
    the clock reading it makes; the janitor goroutine runs [DeleteExpired] at any time. *)
From S2P Require Import Prelude.

Open Scope Z_scope.

(** [Item]. *)
Record Item (A : Type) := mkItem {
  Object : A;
  Expiration : Z;
}.
Arguments mkItem {A}.
Arguments Object {A}.
Arguments Expiration {A}.

(** [cache]: the default expiration and the items. *)
Record Cache (A : Type) := mkCache {
  defaultExpiration : Duration;
  items : gmap string (Item A);
}.
Arguments mkCache {A}.
Arguments defaultExpiration {A}.
Arguments items {A}.

Definition NoExpiration : Duration := - 1.
Definition DefaultExpiration : Duration := 0.

(** [New]. *)
Definition cache_New {A} (de : Duration) : Cache A :=
  mkCache (if de =? 0 then - 1 else de) ∅.

(** [Set]: the expiration computed at time [now] for duration [d]. *)
Definition cache_expiration {A} (c : Cache A) (now : Time) (d : Duration) : Z :=
  let e := if d =? DefaultExpiration then 0 else if d =? NoExpiration then - 1 else 0 in
  let d' := if d =? DefaultExpiration then defaultExpiration c else d in
  if 0 <? d' then Time_UnixNano (Time_Add now d') else e.

Definition cache_Set {A} (now : Time) (k : string) (x : A) (d : Duration) (c : Cache A) : Cache A :=
  mkCache (defaultExpiration c) (<[k := mkItem x (cache_expiration c now d)]> (items c)).

Definition cache_SetDefault {A} (now : Time) (k : string) (x : A) (c : Cache A) : Cache A :=
  cache_Set now k x DefaultExpiration c.

(** [item.Expired] as [Get], [Items] and [DeleteExpired] inline it. *)
Definition item_expired {A} (now : Time) (i : Item A) : bool :=
  (0 <? Expiration i) && (Expiration i <? Time_UnixNano now).

Definition cache_Get {A} (now : Time) (k : string) (c : Cache A) : option A :=
  match items c !! k with
  | None => None
  | Some i => if item_expired now i then None else Some (Object i)
  end.

Definition cache_Delete {A} (k : string) (c : Cache A) : Cache A :=
  mkCache (defaultExpiration c) (delete k (items c)).

(** [Items]: a copy of the unexpired items. *)
Definition cache_Items {A} (now : Time) (c : Cache A) : gmap string (Item A) :=
  filter (fun p => item_expired now p.2 = false) (items c).

(** [DeleteExpired], run by the janitor. *)
Definition cache_DeleteExpired {A} (now : Time) (c : Cache A) : Cache A :=
  mkCache (defaultExpiration c) (cache_Items now c).

(** ** Laws *)

(** A clock reading that [UnixNano] represents. *)
Definition clock_ok (now : Time) : Prop := int64_ok now.

Section Laws.
Context {A : Type}.
Implicit Types (c : Cache A) (k : string) (now : Time) (x : A).

Lemma cache_Get_Set_ne now now' k k' x d c :
  k <> k' -> cache_Get now' k' (cache_Set now k x d c) = cache_Get now' k' c.
Proof. intros H. unfold cache_Get, cache_Set. simpl. by rewrite lookup_insert_ne. Qed.

Lemma cache_Get_Delete k now c : cache_Get now k (cache_Delete k c) = None.
Proof. unfold cache_Get, cache_Delete. simpl. by rewrite lookup_delete_eq. Qed.

Lemma cache_Get_Delete_ne k k' now c :
  k <> k' -> cache_Get now k' (cache_Delete k c) = cache_Get now k' c.
Proof. intros H. unfold cache_Get, cache_Delete. simpl. by rewrite lookup_delete_ne. Qed.

(** An entry without expiration is found at all times. *)
Lemma cache_Get_Set_forever now now' k x d c :
  (d = NoExpiration \/ (d = DefaultExpiration /\ defaultExpiration c <= 0)) ->
  cache_Get now' k (cache_Set now k x d c) = Some x.
Proof.
  intros H. unfold cache_Get, cache_Set, cache_expiration, item_expired. simpl.
  rewrite lookup_insert_eq. simpl. unfold NoExpiration, DefaultExpiration in *.
  destruct H as [->|[-> H]]; simpl; [done|].
  destruct (Z.ltb_spec 0 (defaultExpiration c)); [lia|done].
Qed.

(** An entry with duration [d] is found up to [now + d] and not after. *)
Lemma cache_Get_Set_within now now' k x d c :
  0 < d -> clock_ok now' -> 0 < now -> now + d < 2 ^ 63 ->
  cache_Get now' k (cache_Set now k x d c) = if now + d <? now' then None else Some x.
Proof.
  unfold clock_ok, int64_ok. intros Hd Hn' Hn Hnd.
  unfold cache_Get, cache_Set, cache_expiration, item_expired, DefaultExpiration, NoExpiration.
  simpl. rewrite lookup_insert_eq. simpl.
  destruct (Z.eqb_spec d 0); [lia|]. destruct (Z.ltb_spec 0 d); [|lia].
  unfold Time_UnixNano, Time_Add. rewrite !wrap64_id by (unfold int64_ok; lia).
  destruct (Z.ltb_spec 0 (now + d)); [|lia]. by destruct (now + d <? now').
Qed.

(** The same with the default duration of the cache. *)
Lemma cache_Get_SetDefault now now' k x c :
  0 < defaultExpiration c -> clock_ok now' -> 0 < now -> now + defaultExpiration c < 2 ^ 63 ->
  cache_Get now' k (cache_Set now k x DefaultExpiration c) =
    if now + defaultExpiration c <? now' then None else Some x.
Proof.
  intros Hd Hn' Hn Hnd.
  rewrite <- (cache_Get_Set_within now now' k x (defaultExpiration c) c) by done.
  unfold cache_Set, cache_expiration, DefaultExpiration. rewrite Z.eqb_refl.
  destruct (Z.eqb_spec (defaultExpiration c) 0); [lia|].
  by destruct (Z.ltb_spec 0 (defaultExpiration c)); [|lia].
Qed.

Lemma cache_Items_lookup now c k i :
  cache_Items now c !! k = Some i <-> items c !! k = Some i /\ item_expired now i = false.
Proof. unfold cache_Items. by rewrite map_lookup_filter_Some. Qed.

(** [Items] lists exactly what [Get] finds. *)
Lemma cache_Items_Get now c k : Object <$> cache_Items now c !! k = cache_Get now k c.
Proof.
  unfold cache_Get, cache_Items. rewrite map_lookup_filter. simpl.
  destruct (items c !! k) as [i|]; simpl; [|done].
  by case_guard as Hg; simpl in Hg; destruct (item_expired now i).
Qed.

(** The janitor is invisible to later reads. *)
Lemma cache_Get_DeleteExpired now now' c k :
  clock_ok now -> clock_ok now' -> now <= now' ->
  cache_Get now' k (cache_DeleteExpired now c) = cache_Get now' k c.
Proof.
  unfold clock_ok. intros H1 H2 H3. unfold cache_Get, cache_DeleteExpired, cache_Items. simpl.
  rewrite map_lookup_filter. destruct (items c !! k) as [i|]; simpl; [|done].
  case_guard as Hg; simpl in *; [done|]. apply not_false_iff_true in Hg.
  unfold item_expired, Time_UnixNano in *. rewrite !wrap64_id in * by done.
  destruct (0 <? Expiration i); [|done]. simpl in *. zbool.
  by destruct (Z.ltb_spec (Expiration i) now'); [|lia].
Qed.

Lemma cache_Get_New now k de : cache_Get now k (cache_New de : Cache A) = None.
Proof. done. Qed.

End Laws.

#[export] Hint Resolve cache_Get_Delete cache_Get_Set_ne cache_Get_Delete_ne : freno.
#[export] Hint Rewrite @cache_Get_Delete : freno.
#[export] Hint Rewrite @cache_Get_Set_ne @cache_Get_Delete_ne using done : freno.

(** ** Purging *)

Section Purge.
Context {A : Type}.
Implicit Types (c : Cache A).

(** No entry has an expiration of its own, as in a cache filled only with [NoExpiration]. *)
Definition never_expires c : Prop :=
  defaultExpiration c <= 0 /\ forall k i, items c !! k = Some i -> Expiration i <= 0.

Lemma never_expires_New : never_expires (cache_New NoExpiration : Cache A).
Proof. split; [done|]. intros k i. simpl. by rewrite lookup_empty. Qed.

Lemma never_expires_Set now k x d c :
  d = NoExpiration \/ d = DefaultExpiration -> never_expires c -> never_expires (cache_Set now k x d c).
Proof.
  intros Hd [Hde Hi]. split; [done|]. intros k' i. simpl.
  destruct (decide (k = k')) as [<-|]; [|rewrite lookup_insert_ne by done; apply Hi].
  rewrite lookup_insert_eq. intros [= <-]. simpl. unfold cache_expiration, DefaultExpiration, NoExpiration in *.
  destruct Hd as [-> | ->]; simpl; [done|]. by destruct (Z.ltb_spec 0 (defaultExpiration c)); [lia|].
Qed.

Lemma never_expires_Delete k c : never_expires c -> never_expires (cache_Delete k c).
Proof.
  intros [Hde Hi]. split; [done|]. intros k' i. simpl. rewrite lookup_delete_Some. intros []. eauto.
Qed.

(** Such a cache answers the same at all times. *)
Lemma never_expires_Get now k c : never_expires c -> cache_Get now k c = Object <$> items c !! k.
Proof.
  intros [_ Hi]. unfold cache_Get, item_expired. destruct (items c !! k) as [i|] eqn:E; [|done].
  specialize (Hi _ _ E). by destruct (Z.ltb_spec 0 (Expiration i)); [lia|].
Qed.

(** Deleting the entries of a snapshot that satisfy a test, as the purging loops do. *)
Definition cache_purge (P : A -> bool) (now : Time) (c : Cache A) : Cache A :=
  foldl (fun c p => if P (Object p.2) then cache_Delete p.1 c else c) c (map_to_list (cache_Items now c)).

Lemma cache_purge_fold (P : A -> bool) l : forall c k now,
  cache_Get now k (foldl (fun c (p : string * Item A) =>
                            if P (Object p.2) then cache_Delete p.1 c else c) c l) =
  if decide (Exists (fun p => p.1 = k /\ P (Object p.2) = true) l) then None else cache_Get now k c.
Proof.
  induction l as [|p l IH]; intros c k now.
  { rewrite decide_False; [done|]. by inversion 1. }
  cbn [foldl]. rewrite IH.
  destruct (decide (Exists _ l)) as [E|E]; [by rewrite decide_True by (by right)|].
  destruct (P (Object p.2)) eqn:EP.
  - destruct (decide (p.1 = k)) as [<-|Hne].
    + rewrite cache_Get_Delete. rewrite decide_True; [done|]. by apply Exists_cons_hd.
    + rewrite cache_Get_Delete_ne, decide_False; [done| |done].
      rewrite Exists_cons. naive_solver.
  - rewrite decide_False; [done|]. rewrite Exists_cons. naive_solver congruence.
Qed.

(** After a purge at time [now] an entry is found exactly if it was there and the test fails. *)
Lemma cache_purge_Get P now now' c k :
  never_expires c ->
  cache_Get now' k (cache_purge P now c) =
    match cache_Get now' k c with
    | Some a => if P a then None else Some a
    | None => None
    end.
Proof.
  intros Hc. unfold cache_purge. rewrite cache_purge_fold, (never_expires_Get now') by done.
  destruct (items c !! k) as [i|] eqn:E; simpl.
  - assert (Hin : cache_Items now c !! k = Some i).
    { apply cache_Items_lookup. split; [done|]. unfold item_expired.
      destruct Hc as [_ Hc]. specialize (Hc _ _ E). by destruct (Z.ltb_spec 0 (Expiration i)); [lia|]. }
    destruct (P (Object i)) eqn:EP.
    + rewrite decide_True; [done|]. apply Exists_exists. exists (k, i).
      by rewrite elem_of_map_to_list.
    + rewrite decide_False; [done|]. rewrite Exists_exists. intros ([k' i'] & Hi' & Hk & HP).
      simpl in *. subst. apply elem_of_map_to_list in Hi'. rewrite Hin in Hi'. simplify_eq. congruence.
  - by case_decide.
Qed.

Lemma never_expires_purge P now c : never_expires c -> never_expires (cache_purge P now c).
Proof.
  unfold cache_purge. generalize (map_to_list (cache_Items now c)). intros l. revert c.
  induction l as [|p l IH]; intros c Hc; [done|]. cbn [foldl]. apply IH.
  destruct (P _); auto using never_expires_Delete.
Qed.
End Purge.

#[export] Hint Resolve never_expires_New never_expires_Set never_expires_Delete never_expires_purge : freno.
