(* ===== verification/Base.v ===== *)
(** * Package base: metric results, app throttles, metric health (pkg/base) *)
From S2P Require Import Prelude GoStrings GoFloat.

Open Scope string_scope.
Open Scope Z_scope.

(** ** Metric results (throttle_metric.go, throttle_metric_app.go) *)

Definition ThresholdExceededError : error := Sentinel "Threshold exceeded".
Definition noHostsError : error := Sentinel "No hosts found".
Definition noResultYetError : error := Sentinel "Metric not collected yet".
Definition NoSuchMetricError : error := Sentinel "No such metric".
Definition AppDeniedError : error := Sentinel "App denied".

Definition IsDialTcpError (e : option error) : bool :=
  match e with
  | None => false
  | Some e => HasPrefix (error_msg e) "dial tcp"
  end.

(** ** The HTTP client (http.go) *)

(** What freno sets of an [http.Client]. *)
Record HttpClient := mkHttpClient {
  http_InsecureSkipVerify : bool;
  http_DialTimeout : Duration;
  http_ResponseHeaderTimeout : Duration;
}.

Definition SetupHttpClient (httpTimeout : Duration) : HttpClient :=
  let httpTimeout := if httpTimeout =? 0 then Second else httpTimeout in
  mkHttpClient false httpTimeout httpTimeout.

(** The implementations of the [MetricResult] interface in this package; [OtherMetricResult] is an
    implementation of another package, known by what its [Get] returns. *)
Inductive MetricResult : Type :=
| NoHostsMetricResult
| NoMetricResultYet
| NoSuchMetric
| AppDeniedMetric
| simpleMetricResult (Value : float64)
| OtherMetricResult (Value : float64) (Err : option error).

Definition NewSimpleMetricResult (value : float64) : MetricResult := simpleMetricResult value.

Definition MetricResult_Get (m : MetricResult) : float64 * option error :=
  match m with
  | NoHostsMetricResult => (f_zero, Some noHostsError)
  | NoMetricResultYet => (f_zero, Some noResultYetError)
  | NoSuchMetric => (f_zero, Some NoSuchMetricError)
  | AppDeniedMetric => (f_zero, Some AppDeniedError)
  | simpleMetricResult v => (v, None)
  | OtherMetricResult v e => (v, e)
  end.

(** ** App throttles (app_throttle.go) *)

Record AppThrottle := mkAppThrottle {
  ExpireAt : Time;
  Ratio : float64;
}.

Definition NewAppThrottle (expireAt : Time) (ratio : float64) : AppThrottle :=
  mkAppThrottle expireAt ratio.

(** ** Recent apps (recent_app.go) *)

Record RecentApp := mkRecentApp {
  CheckedAtEpoch : Z;
  MinutesSinceChecked : Z;
}.

Definition NewRecentApp (now checkedAt : Time) : RecentApp :=
  mkRecentApp (Time_Unix checkedAt)
    (f_to_int64 (Duration_Minutes (Time_Sub now checkedAt))).

(** ** Metric health (metric_health.go) *)

Record MetricHealth := mkMetricHealth {
  LastHealthyAt : Time;
  SecondsSinceLastHealthy : Z;
}.

Definition NewMetricHealth (now lastHealthyAt : Time) : MetricHealth :=
  mkMetricHealth lastHealthyAt
    (f_to_int64 (Duration_Seconds (Time_Sub now lastHealthyAt))).

Abbreviation MetricHealthMap := (gmap string MetricHealth).

(** One iteration of the loop of [Aggregate]. *)
Definition aggregate_one (m : MetricHealthMap) (p : string * MetricHealth) : MetricHealthMap :=
  let '(metricName, otherHealth) := p in
  match m !! metricName with
  | Some currentHealth =>
      if SecondsSinceLastHealthy currentHealth <? SecondsSinceLastHealthy otherHealth
      then <[metricName := otherHealth]> m
      else m
  | None => <[metricName := otherHealth]> m
  end.

Arguments aggregate_one : simpl never.

(** [m.Aggregate(other)] with the entries of [other] visited in the order given. *)
Definition Aggregate_in (order : list (string * MetricHealth)) (m : MetricHealthMap)
  : MetricHealthMap := fold_left aggregate_one order m.

Definition Aggregate (m other : MetricHealthMap) : MetricHealthMap :=
  Aggregate_in (map_to_list other) m.

(** The worse of two health records: [other] only when it is strictly worse. *)
Definition worse_health (a b : MetricHealth) : MetricHealth :=
  if SecondsSinceLastHealthy a <? SecondsSinceLastHealthy b then b else a.

(** The seconds recorded for a metric, if any. *)
Definition health_seconds (m : MetricHealthMap) (k : string) : option Z :=
  SecondsSinceLastHealthy <$> m !! k.

(** ** Lemmas *)

Lemma aggregate_one_lookup m k h j :
  aggregate_one m (k, h) !! j =
  if decide (k = j) then union_with (fun a b => Some (worse_health a b)) (m !! j) (Some h)
  else m !! j.
Proof.
  unfold aggregate_one, worse_health. case_decide as E.
  - subst. destruct (m !! j) as [c|] eqn:Hc; simpl; [case_if|]; by simplify_map_eq.
  - destruct (m !! k); [case_if|]; by simplify_map_eq.
Qed.

(** The value of [Aggregate] at a metric, whatever the iteration order. *)
Lemma Aggregate_in_lookup order (other : MetricHealthMap) m k :
  NoDup order.*1 -> list_to_map order = other ->
  Aggregate_in order m !! k =
  union_with (fun a b => Some (worse_health a b)) (m !! k) (other !! k).
Proof.
  intros Hnd <-. revert m. unfold Aggregate_in.
  induction order as [|[j h] order IH]; intros m; csimpl in *.
  { rewrite lookup_empty. by destruct (m !! k). }
  apply NoDup_cons in Hnd as [Hj Hnd].
  rewrite (IH Hnd), aggregate_one_lookup.
  case_decide as E; [subst|by rewrite lookup_insert_ne].
  rewrite lookup_insert_eq, (not_elem_of_list_to_map_1 order k) by done.
  by destruct (m !! k).
Qed.

Lemma Aggregate_lookup m other k :
  Aggregate m other !! k =
  union_with (fun a b => Some (worse_health a b)) (m !! k) (other !! k).
Proof.
  apply Aggregate_in_lookup; [apply NoDup_fst_map_to_list|apply list_to_map_to_list].
Qed.

Lemma worse_health_seconds a b :
  SecondsSinceLastHealthy (worse_health a b) =
  Z.max (SecondsSinceLastHealthy a) (SecondsSinceLastHealthy b).
Proof. unfold worse_health. case_if; zbool; lia. Qed.

Lemma Aggregate_seconds m other k :
  health_seconds (Aggregate m other) k =
  union_with (fun a b => Some (Z.max a b)) (health_seconds m k) (health_seconds other k).
Proof.
  unfold health_seconds. rewrite Aggregate_lookup.
  destruct (m !! k), (other !! k); simpl; by rewrite ?worse_health_seconds.
Qed.

#[export] Hint Rewrite Aggregate_lookup Aggregate_seconds : freno.

(** ** Properties *)

(** [Aggregate] keeps, for every metric of either map, the health record with the most seconds
    since it was healthy (the current one on a tie), whatever order the entries of the other map are
    visited in; metrics of neither map stay absent. *)
Theorem Aggregate_pointwise_worst :
  forall (m other : MetricHealthMap) (order : list (string * MetricHealth)) (k : string),
    order ≡ₚ map_to_list other ->
    Aggregate_in order m !! k =
    match m !! k, other !! k with
    | Some a, Some b =>
        Some (if SecondsSinceLastHealthy a <? SecondsSinceLastHealthy b then b else a)
    | Some a, None => Some a
    | None, o => o
    end.
Proof.
  intros m other order k Hp.
  rewrite (Aggregate_in_lookup order other).
  - by destruct (m !! k), (other !! k).
  - rewrite Hp. apply NoDup_fst_map_to_list.
  - rewrite <- (list_to_map_to_list other). apply list_to_map_proper; [|done].
    rewrite Hp. apply NoDup_fst_map_to_list.
Qed.

Definition health_a : MetricHealthMap :=
  <["a" := mkMetricHealth 0 7]> {["b" := mkMetricHealth 0 19]}.
Definition health_b : MetricHealthMap :=
  <["a" := mkMetricHealth 0 11]> {["c" := mkMetricHealth 0 17]}.

Lemma Aggregate_pointwise_worst_witness :
  Aggregate_in (map_to_list health_b) health_a !! "a" = Some (mkMetricHealth 0 11).
Proof. rewrite (Aggregate_pointwise_worst _ health_b); [reflexivity|done]. Defined.

(** What a service publishes after merging the health of its share domain does not depend on the
    order in which the services answer: for the seconds since healthy, [Aggregate] is commutative,
    associative and idempotent. *)
Theorem Aggregate_order_of_services :
  forall (m1 m2 m3 : MetricHealthMap) (k : string),
    health_seconds (Aggregate m1 m2) k = health_seconds (Aggregate m2 m1) k /\
    health_seconds (Aggregate (Aggregate m1 m2) m3) k =
    health_seconds (Aggregate m1 (Aggregate m2 m3)) k /\
    Aggregate m1 m1 = m1.
Proof.
  intros m1 m2 m3 k. rewrite !Aggregate_seconds. split_and!.
  - destruct (health_seconds m1 k), (health_seconds m2 k); simpl; f_equal; lia.
  - destruct (health_seconds m1 k), (health_seconds m2 k), (health_seconds m3 k); simpl; f_equal; lia.
  - apply map_eq. intros i. rewrite Aggregate_lookup. unfold worse_health.
    destruct (m1 !! i); simpl; [|done]. by case_if.
Qed.
