(* ===== verification/Mysql.v ===== *)
(** * Package mysql: instance keys, probes, inventory, metric reads (pkg/mysql) *)
From S2P Require Import Prelude GoStrings GoFloat GoNet GoCache Base.

Open Scope string_scope.
Open Scope Z_scope.

(** ** Instance keys (instance_key.go) *)

Definition DefaultMySQLPort : Z := 3306.

Record InstanceKey := mkInstanceKey {
  Hostname : string;
  Port : Z;
}.

#[export] Instance InstanceKey_eq_dec : EqDecision InstanceKey.
Proof. solve_decision. Defined.

#[export] Instance InstanceKey_countable : Countable InstanceKey.
Proof.
  apply (inj_countable' (fun k => (Hostname k, Port k)) (fun p => mkInstanceKey p.1 p.2)).
  by intros [].
Defined.

(** [newRawInstanceKey]: the key is returned next to a port error. *)
Definition newRawInstanceKey (hostPort : string) : option InstanceKey * option error :=
  match SplitN2 hostPort ":" with
  | [h; p] =>
      match Atoi p with
      | (port, None) => (Some (mkInstanceKey h port), None)
      | (port, Some _) => (Some (mkInstanceKey h port), Some (Errorf ("Invalid port: " ++ p)))
      end
  | _ => (None, Some (Errorf ("Cannot parse InstanceKey from " ++ hostPort ++
                               ". Expected format is host:port")))
  end.

Definition ParseInstanceKey (hostPort : string) (defaultPort : Z)
  : option InstanceKey * option error :=
  if negb (Contains hostPort ":") then (Some (mkInstanceKey hostPort defaultPort), None)
  else newRawInstanceKey hostPort.

Definition InstanceKey_Equals (this : InstanceKey) (other : option InstanceKey) : bool :=
  match other with
  | None => false
  | Some o => bool_decide (Hostname this = Hostname o) && (Port this =? Port o)
  end.

Definition InstanceKey_SmallerThan (this other : InstanceKey) : bool :=
  if str_ltb (Hostname this) (Hostname other) then true
  else if bool_decide (Hostname this = Hostname other) && (Port this <? Port other) then true
  else false.

Definition InstanceKey_IsValid (this : InstanceKey) : bool :=
  if decide (Hostname this = "_") then false
  else (0 <? String.length (Hostname this))%nat && (0 <? Port this).

Definition InstanceKey_StringCode (this : InstanceKey) : string :=
  Hostname this ++ ":" ++ Itoa (Port this).

Definition InstanceKey_DisplayString (this : InstanceKey) : string := InstanceKey_StringCode this.
Definition InstanceKey_String (this : InstanceKey) : string := InstanceKey_StringCode this.

(** ** Inventory (mysql_inventory.go) *)

Record ClusterInstanceKey := mkClusterInstanceKey {
  cik_ClusterName : string;
  cik_Key : InstanceKey;
}.

#[export] Instance ClusterInstanceKey_eq_dec : EqDecision ClusterInstanceKey.
Proof. solve_decision. Defined.

#[export] Instance ClusterInstanceKey_countable : Countable ClusterInstanceKey.
Proof.
  apply (inj_countable' (fun k => (cik_ClusterName k, cik_Key k))
           (fun p => mkClusterInstanceKey p.1 p.2)).
  by intros [].
Defined.

Definition GetClusterInstanceKey (clusterName : string) (key : InstanceKey) : ClusterInstanceKey :=
  mkClusterInstanceKey clusterName key.

Definition ClusterInstanceKey_HashCode (c : ClusterInstanceKey) : string :=
  cik_ClusterName c ++ ":" ++ InstanceKey_StringCode (cik_Key c).

Abbreviation InstanceMetricResultMap := (gmap ClusterInstanceKey MetricResult).
Abbreviation ClusterInstanceHttpCheckResultMap := (gmap string Z).

(** ** Probes (probe.go) *)

Definition timeoutMillis : Z := 1000.

Record Probe := mkProbe {
  Key : InstanceKey;
  User : string;
  Password : string;
  MetricQuery : string;
  CacheMillis : Z;
  QueryInProgress : Z;
  HttpCheckPort : Z;
  HttpCheckPath : string;
  HttpCheckInProgress : Z;
}.

Abbreviation Probes := (gmap InstanceKey Probe).

Record ClusterProbes := mkClusterProbes {
  cp_ClusterName : string;
  cp_IgnoreHostsCount : Z;
  cp_IgnoreHostsThreshold : float64;
  cp_InstanceProbes : Probes;
}.

Definition NewProbes : Probes := ∅.

Definition NewProbe : Probe := mkProbe (mkInstanceKey "" 0) "" "" "" 0 0 0 "" 0.

Definition Probe_DuplicateCredentials (probe : Probe) (key : InstanceKey) : Probe :=
  mkProbe key (User probe) (Password probe) "" 0 0 0 "" 0.

Definition Probe_Duplicate (probe : Probe) : Probe := Probe_DuplicateCredentials probe (Key probe).

Definition Probe_String (probe : Probe) : string :=
  InstanceKey_DisplayString (Key probe) ++ ", user=" ++ User probe.

Definition Probe_Equals (probe other : Probe) : bool :=
  InstanceKey_Equals (Key probe) (Some (Key other)).

(** [GetDBUri]; [collation] is [config.Settings().Stores.MySQL.Collation]. *)
Definition GetDBUri (collation : string) (probe : Probe) (databaseName : string) : string :=
  let hostname := Hostname (Key probe) in
  let hostname :=
    match ParseIP hostname with
    | Some ip => match To4 ip with None => "[" ++ hostname ++ "]" | Some _ => hostname end
    | None => hostname
    end in
  let dsnCharsetCollation :=
    if decide (collation = "") then "charset=utf8mb4,utf8,latin1" else "collation=" ++ collation in
  User probe ++ ":" ++ Password probe ++ "@tcp(" ++ hostname ++ ":" ++ Itoa (Port (Key probe)) ++ ")/" ++
  databaseName ++ "?interpolateParams=true&" ++ dsnCharsetCollation ++ "&timeout=" ++
  Itoa timeoutMillis ++ "ms".

(** A host name without a colon is used as it is. *)
Lemma GetDBUri_plain collation probe db :
  str_mem ":" (Hostname (Key probe)) = false ->
  HasPrefix (GetDBUri collation probe db)
    (User probe ++ ":" ++ Password probe ++ "@tcp(" ++ Hostname (Key probe)) = true.
Proof.
  intros H. unfold GetDBUri.
  assert (Hh : match ParseIP (Hostname (Key probe)) with
               | Some ip => match To4 ip with
                            | None => "[" ++ Hostname (Key probe) ++ "]"
                            | Some _ => Hostname (Key probe)
                            end
               | None => Hostname (Key probe)
               end = Hostname (Key probe)).
  { destruct (ParseIP _) as [ip|] eqn:E; [|done]. destruct (To4 ip) eqn:E4; [done|].
    by rewrite (ParseIP_To4_colon _ _ E E4) in H. }
  rewrite Hh. cbv zeta. match goal with |- HasPrefix ?x ?p = true => assert (exists r, x = p ++ r) as [r ->] end.
  { eexists. by rewrite !str_app_assoc. }
  apply HasPrefix_self.
Qed.

Example GetDBUri_ipv6 :
  GetDBUri "" (mkProbe (mkInstanceKey "::1" 3306) "freno" "pw" "" 0 0 0 "" 0) "information_schema" =
  "freno:pw@tcp([::1]:3306)/information_schema?interpolateParams=true&charset=utf8mb4,utf8,latin1&timeout=1000ms".
Proof. reflexivity. Qed.

(** [MySQLInventory]. *)
Record MySQLInventory := mkMySQLInventory {
  ClustersProbes : gmap string Probes;
  IgnoreHostsCount : gmap string Z;
  IgnoreHostsThreshold : gmap string float64;
  InstanceKeyMetrics : InstanceMetricResultMap;
  ClusterInstanceHttpChecks : ClusterInstanceHttpCheckResultMap;
}.

Definition NewMySQLInventory : MySQLInventory := mkMySQLInventory ∅ ∅ ∅ ∅ ∅.

(** ** HTTP checks (mysql_http_check.go) *)

Definition StatusOK : Z := 200.
Definition StatusNotFound : Z := 404.
Definition StatusExpectationFailed : Z := 417.
Definition StatusTooManyRequests : Z := 429.
Definition StatusInternalServerError : Z := 500.

Record MySQLHttpCheck := mkMySQLHttpCheck {
  hc_ClusterName : string;
  hc_Key : InstanceKey;
  hc_CheckResult : Z;
}.

Definition NewMySQLHttpCheck (clusterName : string) (instanceKey : InstanceKey) (checkResult : Z)
  : MySQLHttpCheck := mkMySQLHttpCheck clusterName instanceKey checkResult.

Definition MySQLHttpCheckHashKey (clusterName : string) (key : InstanceKey) : string :=
  clusterName ++ ":" ++ InstanceKey_StringCode key.

Definition MySQLHttpCheck_HashKey (check : MySQLHttpCheck) : string :=
  MySQLHttpCheckHashKey (hc_ClusterName check) (hc_Key check).

(** [CheckHttp] with the HTTP client as a parameter: the status code of a GET, or its error. *)
Definition CheckHttp (http_get : string -> Z + error) (clusterName : string) (probe : Probe)
  : MySQLHttpCheck :=
  if HttpCheckPort probe <=? 0 then NewMySQLHttpCheck clusterName (Key probe) StatusOK
  else
    let url := "http://" ++ Hostname (Key probe) ++ ":" ++ Itoa (HttpCheckPort probe) ++ "/" ++
               HttpCheckPath probe in
    match http_get url with
    | inr _ => NewMySQLHttpCheck clusterName (Key probe) StatusInternalServerError
    | inl code => NewMySQLHttpCheck clusterName (Key probe) code
    end.

(** ** Reading metrics (mysql_throttle_metric.go) *)

Record MySQLThrottleMetric := mkMySQLThrottleMetric {
  tm_ClusterName : string;
  tm_Key : InstanceKey;
  tm_Value : float64;
  tm_Err : option error;
}.

Definition MySQLThrottleMetric_GetClusterInstanceKey (metric : MySQLThrottleMetric)
  : ClusterInstanceKey := GetClusterInstanceKey (tm_ClusterName metric) (tm_Key metric).

Definition MySQLThrottleMetric_HashCode (metric : MySQLThrottleMetric) : string :=
  ClusterInstanceKey_HashCode (MySQLThrottleMetric_GetClusterInstanceKey metric).

(** [metric.Get()], as a [base.MetricResult]. *)
Definition MySQLThrottleMetric_result (metric : MySQLThrottleMetric) : MetricResult :=
  OtherMetricResult (tm_Value metric) (tm_Err metric).

Definition getMySQLMetricCacheKey (probe : Probe) : string :=
  InstanceKey_String (Key probe) ++ ":" ++ MetricQuery probe.

Definition cacheMySQLThrottleMetric (now : Time) (probe : Probe) (m : MySQLThrottleMetric)
    (mysqlMetricCache : Cache MySQLThrottleMetric)
  : MySQLThrottleMetric * Cache MySQLThrottleMetric :=
  match tm_Err m with
  | Some _ => (m, mysqlMetricCache)
  | None =>
      if 0 <? CacheMillis probe then
        (m, cache_Set now (getMySQLMetricCacheKey probe) m
              (wrap64 (CacheMillis probe * Millisecond)) mysqlMetricCache)
      else (m, mysqlMetricCache)
  end.

Definition getCachedMySQLThrottleMetric (now : Time) (probe : Probe)
    (mysqlMetricCache : Cache MySQLThrottleMetric) : option MySQLThrottleMetric :=
  if CacheMillis probe =? 0 then None
  else cache_Get now (getMySQLMetricCacheKey probe) mysqlMetricCache.

(** A row of SHOW SLAVE STATUS, as the strings of the columns the code reads. *)
Record SlaveStatusRow := mkSlaveStatusRow {
  Slave_IO_Running : string;
  Slave_SQL_Running : string;
  Seconds_Behind_Master : string;
}.

(** The MySQL server behind the driver: opening a handle, reading one row, SHOW SLAVE STATUS. *)
Record MySQLServer := mkMySQLServer {
  sql_GetDB : string -> option error;
  sql_QueryRow_Scan : string -> string -> float64 * option error;
  sql_QueryRow_Scan2 : string -> string -> float64 * option error;
  sql_ShowSlaveStatus : string -> list SlaveStatusRow + error;
}.

(** The row callback of SHOW SLAVE STATUS; the value of the last row stays. *)
Definition slave_status_row (value : float64) (m : SlaveStatusRow)
  : float64 + (float64 * option error) :=
  match ParseInt (Seconds_Behind_Master m) with
  | (_, Some _) =>
      inr (value, Some (Errorf ("replication not running; Slave_IO_Running=" ++
             Slave_IO_Running m ++ ", Slave_SQL_Running=" ++ Slave_SQL_Running m)))
  | (seconds, None) => inl (f_of_Z seconds)
  end.

Definition read_slave_status (rows : list SlaveStatusRow + error) : float64 * option error :=
  match rows with
  | inr e => (f_zero, Some e)
  | inl rows =>
      match range_loop slave_status_row rows f_zero with
      | inl v => (v, None)
      | inr r => r
      end
  end.

Section ReadThrottleMetric.
(** The collation of the settings, and the servers behind the data source names. *)
Variable collation : string.
Variable server : MySQLServer.

(** [ReadThrottleMetric], with the metric cache threaded through. *)
Definition ReadThrottleMetric (now : Time) (probe : Probe) (clusterName : string)
    (mysqlMetricCache : Cache MySQLThrottleMetric)
  : MySQLThrottleMetric * Cache MySQLThrottleMetric :=
  match getCachedMySQLThrottleMetric now probe mysqlMetricCache with
  | Some m => (m, mysqlMetricCache)
  | None =>
      let metric v e := mkMySQLThrottleMetric clusterName (Key probe) v e in
      let dbUri := GetDBUri collation probe "information_schema" in
      match sql_GetDB server dbUri with
      | Some e => (metric f_zero (Some e), mysqlMetricCache)
      | None =>
          if HasPrefix (ToLower (MetricQuery probe)) "select" then
            let '(v, e) := sql_QueryRow_Scan server dbUri (MetricQuery probe) in
            cacheMySQLThrottleMetric now probe (metric v e) mysqlMetricCache
          else if HasPrefix (ToLower (MetricQuery probe)) "show global" then
            let '(v, e) := sql_QueryRow_Scan2 server dbUri (MetricQuery probe) in
            cacheMySQLThrottleMetric now probe (metric v e) mysqlMetricCache
          else if negb (bool_decide (MetricQuery probe = "")) then
            (metric f_zero
               (Some (Errorf ("Unsupported metrics query type: " ++ MetricQuery probe))),
             mysqlMetricCache)
          else
            let '(v, e) := read_slave_status (sql_ShowSlaveStatus server dbUri) in
            cacheMySQLThrottleMetric now probe (metric v e) mysqlMetricCache
      end
  end.
End ReadThrottleMetric.

(** ** Lemmas *)

Lemma cacheMySQLThrottleMetric_metric now probe m c :
  (cacheMySQLThrottleMetric now probe m c).1 = m.
Proof. unfold cacheMySQLThrottleMetric. by repeat case_match. Qed.

(** Only a metric without error enters the cache. *)
Lemma cacheMySQLThrottleMetric_error now probe m c e :
  tm_Err m = Some e -> (cacheMySQLThrottleMetric now probe m c).2 = c.
Proof. intros H. unfold cacheMySQLThrottleMetric. by rewrite H. Qed.

Lemma slave_status_seconds rows v e :
  range_loop slave_status_row rows v = inr e -> exists m, e.2 = Some (Errorf m).
Proof.
  revert v. induction rows as [|r rows IH]; intros v; simpl; [done|].
  unfold slave_status_row at 1. destruct (ParseInt (Seconds_Behind_Master r)) as [z [er|]]; [|by apply IH].
  intros [= <-]. simpl. eauto.
Qed.

(** A read that misses the cache makes a fresh metric of the probe for the cluster and passes it
    through the cache. *)
Lemma ReadThrottleMetric_miss U srv now probe cl c :
  getCachedMySQLThrottleMetric now probe c = None ->
  exists v e, ReadThrottleMetric U srv now probe cl c =
    cacheMySQLThrottleMetric now probe (mkMySQLThrottleMetric cl (Key probe) v e) c.
Proof.
  intros Hmiss. unfold ReadThrottleMetric. rewrite Hmiss.
  destruct (sql_GetDB srv _) as [e|]; [by exists f_zero, (Some e)|].
  destruct (HasPrefix _ "select"); [destruct (sql_QueryRow_Scan srv _ _); eauto|].
  destruct (HasPrefix _ "show global"); [destruct (sql_QueryRow_Scan2 srv _ _); eauto|].
  destruct (negb _); [|destruct (read_slave_status _); eauto].
  eexists f_zero, (Some _). done.
Qed.

(** A cached metric is returned for any cluster while it is fresh. *)
Lemma ReadThrottleMetric_hit U srv now now' probe probe' m cl' c :
  tm_Err m = None -> 0 < CacheMillis probe -> CacheMillis probe' <> 0 ->
  Key probe' = Key probe -> MetricQuery probe' = MetricQuery probe ->
  0 < now -> now + CacheMillis probe * Millisecond < 2 ^ 63 ->
  now <= now' <= now + CacheMillis probe * Millisecond ->
  let c1 := (cacheMySQLThrottleMetric now probe m c).2 in
  ReadThrottleMetric U srv now' probe' cl' c1 = (m, c1).
Proof.
  intros He HM HM' HK HQ Hn Hnd Hw. unfold cacheMySQLThrottleMetric. rewrite He.
  destruct (Z.ltb_spec 0 (CacheMillis probe)); [|lia]. simpl.
  unfold ReadThrottleMetric, getCachedMySQLThrottleMetric.
  destruct (Z.eqb_spec (CacheMillis probe') 0); [lia|].
  unfold getMySQLMetricCacheKey. rewrite HK, HQ. unfold Millisecond in *.
  rewrite wrap64_id by (unfold int64_ok; lia).
  rewrite cache_Get_Set_within by (unfold clock_ok, int64_ok; lia).
  destruct (Z.ltb_spec (now + CacheMillis probe * 1000000) now'); [lia|done].
Qed.

Lemma SmallerThan_spec x y :
  InstanceKey_SmallerThan x y = true <->
  str_ltb (Hostname x) (Hostname y) = true \/ (Hostname x = Hostname y /\ Port x < Port y).
Proof.
  unfold InstanceKey_SmallerThan. destruct (str_ltb (Hostname x) (Hostname y)); [tauto|].
  rewrite <- Z.ltb_lt.
  destruct (bool_decide_reflect (Hostname x = Hostname y)), (Port x <? Port y); simpl; intuition done.
Qed.

#[export] Hint Rewrite cacheMySQLThrottleMetric_metric : freno.

(** ** Properties *)

(** An instance key whose host name has no colon and whose port is an [int] is read back from
    its official string representation, whatever the default port. *)
Theorem ParseInstanceKey_StringCode :
  forall (key : InstanceKey) (defaultPort : Z),
    Contains (Hostname key) ":" = false -> int64_ok (Port key) ->
    ParseInstanceKey (InstanceKey_StringCode key) defaultPort = (Some key, None).
Proof.
  intros [h p] dp Hh Hp. unfold ParseInstanceKey, newRawInstanceKey, InstanceKey_StringCode, Atoi.
  cbn [Hostname Port] in *. rewrite Contains_char in *.
  change (h ++ ":" ++ Itoa p) with (h ++ String ":" (Itoa p)).
  rewrite str_mem_app. cbn [str_mem]. rewrite bool_decide_eq_true_2, orb_true_r by done.
  cbn [negb orb]. by rewrite SplitN2_at, ParseInt_Itoa.
Qed.

Lemma ParseInstanceKey_StringCode_witness :
  ParseInstanceKey (InstanceKey_StringCode (mkInstanceKey "10.0.0.1" 3306)) 1 =
  (Some (mkInstanceKey "10.0.0.1" 3306), None).
Proof.
  apply ParseInstanceKey_StringCode; [reflexivity|]. unfold int64_ok. simpl. lia.
Defined.

(** [SmallerThan] is a strict total order on instance keys. *)
Theorem SmallerThan_strict_total :
  forall a b c : InstanceKey,
    InstanceKey_SmallerThan a a = false /\
    (InstanceKey_SmallerThan a b = true -> InstanceKey_SmallerThan b c = true ->
     InstanceKey_SmallerThan a c = true) /\
    (InstanceKey_SmallerThan a b = true \/ a = b \/ InstanceKey_SmallerThan b a = true).
Proof.
  intros a b c. split_and!.
  - apply not_true_iff_false. rewrite SmallerThan_spec, str_ltb_irrefl. intros [|[]]; [done|lia].
  - rewrite !SmallerThan_spec. intros [H1|[H1 H1']] [H2|[H2 H2']].
    + left. by eapply str_ltb_trans.
    + left. by rewrite <- H2.
    + left. by rewrite H1.
    + right. split; [congruence|lia].
  - rewrite !SmallerThan_spec. destruct a as [h p], b as [h' p']; simpl.
    destruct (str_ltb_total h h') as [|[->|]]; [auto| |auto].
    destruct (Z.lt_total p p') as [|[->|]]; auto.
Qed.

(** A metric that was read without error and cached is what every read of the same host with
    the same query returns until [CacheMillis] have passed, without asking the server; a failed read
    leaves the cache as it was. *)
Theorem ReadThrottleMetric_cached :
  forall collation server server' probe probe' cluster cluster' now now' c,
    0 < CacheMillis probe -> CacheMillis probe' <> 0 ->
    Key probe' = Key probe -> MetricQuery probe' = MetricQuery probe ->
    0 < now -> now + CacheMillis probe * Millisecond < 2 ^ 63 ->
    now <= now' <= now + CacheMillis probe * Millisecond ->
    getCachedMySQLThrottleMetric now probe c = None ->
    let '(m, c1) := ReadThrottleMetric collation server now probe cluster c in
    match tm_Err m with
    | None => ReadThrottleMetric collation server' now' probe' cluster' c1 = (m, c1)
    | Some _ => c1 = c
    end.
Proof.
  intros U srv srv' probe probe' cl cl' now now' c HM HM' HK HQ Hn Hnd Hw Hmiss.
  destruct (ReadThrottleMetric_miss U srv now probe cl c Hmiss) as (v & e & Hr).
  set (m := mkMySQLThrottleMetric cl (Key probe) v e) in *.
  pose proof (cacheMySQLThrottleMetric_metric now probe m c) as Hm.
  pose proof (fun He => ReadThrottleMetric_hit U srv' now now' probe probe' m cl' c He HM HM' HK HQ
                          Hn Hnd Hw) as Hhit.
  pose proof (fun e' => cacheMySQLThrottleMetric_error now probe m c e') as Herr.
  rewrite Hr. destruct (cacheMySQLThrottleMetric now probe m c) as [m' c1]. simpl in *. subst m'.
  destruct (tm_Err m) eqn:E; eauto.
Qed.

Definition probe_ex : Probe :=
  mkProbe (mkInstanceKey "h" 3306) "u" "p" "select 1" 500 0 0 "" 0.
Definition server_ex : MySQLServer :=
  mkMySQLServer (fun _ => None) (fun _ _ => (f_one, None)) (fun _ _ => (f_one, None))
    (fun _ => inl []).

Lemma ReadThrottleMetric_cached_witness :
  let '(m, c1) := ReadThrottleMetric "" server_ex 1000 probe_ex "c1" (cache_New 0) in
  match tm_Err m with
  | None => ReadThrottleMetric "" server_ex 2000 probe_ex "c1" c1 = (m, c1)
  | Some _ => c1 = cache_New 0
  end.
Proof.
  apply (ReadThrottleMetric_cached "" server_ex server_ex probe_ex probe_ex
           "c1" "c1" 1000 2000 (cache_New 0)); try reflexivity; try lia;
    vm_compute; try done; split; discriminate.
Defined.

(** The metric cache is keyed by host and query only.  When a host belongs to two clusters that
    cache with the same query, the read for the second cluster within the caching window returns a
    metric that carries the first cluster's name: it updates the first cluster's entry of the
    inventory and leaves the second cluster without a result. *)
Theorem ReadThrottleMetric_cached_wrong_cluster :
  forall collation server probe cluster cluster' now now' c,
    cluster <> cluster' -> 0 < CacheMillis probe ->
    0 < now -> now + CacheMillis probe * Millisecond < 2 ^ 63 ->
    now <= now' <= now + CacheMillis probe * Millisecond ->
    getCachedMySQLThrottleMetric now probe c = None ->
    tm_Err (ReadThrottleMetric collation server now probe cluster c).1 = None ->
    let c1 := (ReadThrottleMetric collation server now probe cluster c).2 in
    let m2 := (ReadThrottleMetric collation server now' probe cluster' c1).1 in
    MySQLThrottleMetric_GetClusterInstanceKey m2 = GetClusterInstanceKey cluster (Key probe) /\
    MySQLThrottleMetric_GetClusterInstanceKey m2 <> GetClusterInstanceKey cluster' (Key probe).
Proof.
  intros U srv probe cl cl' now now' c Hcl HM Hn Hnd Hw Hmiss Herr.
  destruct (ReadThrottleMetric_miss U srv now probe cl c Hmiss) as (v & e & Hr).
  cbv zeta. rewrite Hr in *. rewrite cacheMySQLThrottleMetric_metric in Herr.
  rewrite (ReadThrottleMetric_hit U srv now now' probe probe) by (done || lia).
  unfold MySQLThrottleMetric_GetClusterInstanceKey, GetClusterInstanceKey. simpl. split; congruence.
Qed.

Lemma ReadThrottleMetric_cached_wrong_cluster_witness :
  let c1 := (ReadThrottleMetric "" server_ex 1000 probe_ex "c1" (cache_New 0)).2 in
  let m2 := (ReadThrottleMetric "" server_ex 2000 probe_ex "c2" c1).1 in
  MySQLThrottleMetric_GetClusterInstanceKey m2 = GetClusterInstanceKey "c1" (Key probe_ex) /\
  MySQLThrottleMetric_GetClusterInstanceKey m2 <> GetClusterInstanceKey "c2" (Key probe_ex).
Proof.
  apply (ReadThrottleMetric_cached_wrong_cluster "" server_ex probe_ex "c1" "c2"
           1000 2000 (cache_New 0)); try reflexivity; try discriminate; unfold Millisecond; simpl; lia.
Defined.
