(* ===== verification/Config.v ===== *)
(** * Package config: settings, emptiness tests, adjustments after reading (pkg/config)

    The environment ([os.Getenv]), the file system and the JSON decoder are arguments.  The one loop
    of the package that need not end, the expansion of environment variables in HAProxy addresses,
    has fuel: [None] is running out of it. *)
From S2P Require Import Prelude GoStrings GoFloat.

Open Scope string_scope.
Open Scope Z_scope.

(** ** HAProxy (haproxy_config.go) *)

Record HostPort := mkHostPort {
  hp_Host : string;
  hp_Port : Z;
}.

Definition HostPort_String (h : HostPort) : string := hp_Host h ++ ":" ++ Itoa (hp_Port h).

(** [ParseHostPort], the value and the error. *)
Definition ParseHostPort (address : string) : option HostPort * option error :=
  if negb (Contains address ":") then
    if decide (address = "") then
      (Some (mkHostPort address 80), Some (Errorf ("Invalid host address: " ++ address)))
    else (Some (mkHostPort address 80), None)
  else
    match SplitN2 address ":" with
    | [h; p] =>
        match Atoi p with
        | (port, None) => (Some (mkHostPort h port), None)
        | (port, Some _) => (Some (mkHostPort h port), Some (Errorf ("Invalid port: " ++ p)))
        end
    | _ => (None, Some (Errorf ("Cannot parse HostPort from " ++ address ++
                                 ". Expected format is host:port")))
    end.

Record HAProxySettings := mkHAProxySettings {
  ha_Host : string;
  ha_Port : Z;
  ha_Addresses : string;
  ha_PoolName : string;
}.

Section HAProxy.
(** Package net/url: a parsed URL, its host part, and the parser. *)
Context {URL : Type} (url_Parse : string -> URL + error) (url_Host : URL -> string).

(** [h.URL()]: the parse error is dropped; the URL is then nil. *)
Definition HostPort_URL (h : HostPort) : option URL :=
  match url_Parse ("http://" ++ hp_Host h ++ ":" ++ Itoa (hp_Port h)) with
  | inl u => Some u
  | inr _ => None
  end.

Definition parseAddress (address : string) : option URL * option error :=
  match ParseHostPort address with
  | (Some hostPort, None) => (HostPort_URL hostPort, None)
  | _ =>
      match url_Parse address with
      | inr e => (None, Some e)
      | inl u =>
          match ParseHostPort (url_Host u) with
          | (_, Some e) => (Some u, Some e)
          | (_, None) => (Some u, None)
          end
      end
  end.

(** One token of the address list. *)
Definition parse_address_token (addresses : list (option URL)) (token : string)
  : list (option URL) + (list (option URL) * option error) :=
  let token := TrimSpace token in
  if decide (token = "") then inl addresses
  else match parseAddress token with
       | (_, Some e) => inr (addresses, Some e)
       | (u, None) => inl (addresses ++ [u])%list
       end.

Definition parseAddresses (settings : HAProxySettings) : list (option URL) * option error :=
  match range_loop parse_address_token (Split (ha_Addresses settings) ",") [] with
  | inl addresses => (addresses, None)
  | inr r => r
  end.

Definition GetProxyAddresses (settings : HAProxySettings) : list (option URL) * option error :=
  if negb (bool_decide (ha_Host settings = "")) && (0 <? ha_Port settings) then
    ([HostPort_URL (mkHostPort (ha_Host settings) (ha_Port settings))], None)
  else parseAddresses settings.

Definition HAProxySettings_IsEmpty (settings : HAProxySettings) : bool :=
  if decide (ha_PoolName settings = "") then true
  else (length (GetProxyAddresses settings).1 =? 0)%nat.
End HAProxy.

(** The expansion loop of [postReadAdjustments]: one round replaces every occurrence of the leftmost
    variable. *)
Fixpoint expand_addresses (fuel : nat) (Getenv : string -> string) (addresses : string)
  : option (string + error) :=
  match fuel with
  | O => None
  | S fuel' =>
      match find_env_variable addresses with
      | None => Some (inl addresses)
      | Some name =>
          let envVar := "${" ++ name ++ "}" in
          let envValue := Getenv name in
          if decide (envValue = "") then
            Some (inr (Errorf ("HAProxySettings: unknown environment variable " ++ envVar)))
          else expand_addresses fuel' Getenv (ReplaceAll addresses envVar envValue)
      end
  end.

Definition HAProxySettings_postReadAdjustments (fuel : nat) (Getenv : string -> string)
    (settings : HAProxySettings) : option (HAProxySettings + error) :=
  match expand_addresses fuel Getenv (ha_Addresses settings) with
  | None => None
  | Some (inr e) => Some (inr e)
  | Some (inl a) =>
      Some (inl (mkHAProxySettings (ha_Host settings) (ha_Port settings) a (ha_PoolName settings)))
  end.

(** ** ProxySQL (proxysql_config.go) *)

Definition ProxySQLDefaultDatabase : string := "stats".

Record ProxySQLSettings := mkProxySQLSettings {
  px_Addresses : list string;
  px_User : string;
  px_Password : string;
  px_HostgroupID : Z;
  px_IgnoreServerTTLSecs : Z;
}.

Definition ProxySQLSettings_AddressToDSN (settings : ProxySQLSettings) (address : string) : string :=
  "mysql://" ++ px_User settings ++ ":*****@" ++ address ++ "/" ++ ProxySQLDefaultDatabase.

Definition ProxySQLSettings_IsEmpty (settings : ProxySQLSettings) : bool :=
  if (length (px_Addresses settings) =? 0)%nat then true
  else if bool_decide (px_User settings = "") || bool_decide (px_Password settings = "") then true
  else if px_HostgroupID settings <? 1 then true
  else false.

(** ** Vitess (vitess_config.go) and static hosts (static_hosts_config.go) *)

Record VitessSettings := mkVitessSettings {
  vt_API : string;
  vt_Cells : list string;
  vt_Keyspace : string;
  vt_Shard : string;
  vt_TimeoutSecs : Z;
}.

Definition VitessSettings_IsEmpty (settings : VitessSettings) : bool :=
  if decide (vt_API settings = "") then true
  else if decide (vt_Keyspace settings = "") then true
  else false.

Record StaticHostsSettings := mkStaticHostsSettings {
  sh_Hosts : list string;
}.

Definition StaticHostsSettings_IsEmpty (settings : StaticHostsSettings) : bool :=
  (length (sh_Hosts settings) =? 0)%nat.

(** ** MySQL (mysql_config.go) *)

Definition DefaultMySQLPort : Z := 3306.

Record MySQLClusterSettings := mkMySQLClusterSettings {
  mc_User : string;
  mc_Password : string;
  mc_MetricQuery : string;
  mc_CacheMillis : Z;
  mc_ThrottleThreshold : float64;
  mc_Port : Z;
  mc_IgnoreHostsCount : Z;
  mc_IgnoreHostsThreshold : float64;
  mc_HttpCheckPort : Z;
  mc_HttpCheckPath : string;
  mc_IgnoreHosts : list string;
  mc_HAProxySettings : HAProxySettings;
  mc_ProxySQLSettings : ProxySQLSettings;
  mc_VitessSettings : VitessSettings;
  mc_StaticHostsSettings : StaticHostsSettings;
}.

Record MySQLSettings := mkMySQLSettings {
  ms_User : string;
  ms_Password : string;
  ms_MetricQuery : string;
  ms_CacheMillis : Z;
  ms_ThrottleThreshold : float64;
  ms_Port : Z;
  ms_IgnoreDialTcpErrors : bool;
  ms_IgnoreHostsCount : Z;
  ms_IgnoreHostsThreshold : float64;
  ms_HttpCheckPort : Z;
  ms_HttpCheckPath : string;
  ms_IgnoreHosts : list string;
  ms_ProxySQLAddresses : list string;
  ms_ProxySQLUser : string;
  ms_ProxySQLPassword : string;
  ms_VitessCells : list string;
  ms_Collation : string;
  ms_Clusters : gmap string MySQLClusterSettings;
}.

(** [if submatch := envVariableRegexp.FindStringSubmatch(s); len(submatch) > 1 { s = Getenv(..) }] *)
Definition expand_env (Getenv : string -> string) (s : string) : string :=
  match find_env_variable s with
  | Some name => Getenv name
  | None => s
  end.

(** [clusterSettings.postReadAdjustments()]. *)
Definition MySQLClusterSettings_postReadAdjustments (fuel : nat) (Getenv : string -> string)
    (c : MySQLClusterSettings) : option (MySQLClusterSettings + error) :=
  match HAProxySettings_postReadAdjustments fuel Getenv (mc_HAProxySettings c) with
  | None => None
  | Some (inr e) => Some (inr e)
  | Some (inl ha) =>
      Some (inl (mkMySQLClusterSettings (expand_env Getenv (mc_User c))
        (expand_env Getenv (mc_Password c)) (mc_MetricQuery c) (mc_CacheMillis c)
        (mc_ThrottleThreshold c) (mc_Port c) (mc_IgnoreHostsCount c) (mc_IgnoreHostsThreshold c)
        (mc_HttpCheckPort c) (mc_HttpCheckPath c) (mc_IgnoreHosts c) ha
        (mc_ProxySQLSettings c) (mc_VitessSettings c) (mc_StaticHostsSettings c)))
  end.

(** A setting that is left empty (zero) inherits. *)
Definition inherit_str (s d : string) : string := if decide (s = "") then d else s.
Definition inherit_int (n d : Z) : Z := if n =? 0 then d else n.
Definition inherit_float (x d : float64) : float64 := if f_eqb x f_zero then d else x.
Definition inherit_list {A} (l d : list A) : list A := if (length l =? 0)%nat then d else l.

(** The ProxySQL block of the loop over the clusters. *)
Definition inherit_proxysql (s : MySQLSettings) (p : ProxySQLSettings) : ProxySQLSettings :=
  if negb (ProxySQLSettings_IsEmpty p) then
    mkProxySQLSettings
      (if (length (px_Addresses p) <? 1)%nat then ms_ProxySQLAddresses s else px_Addresses p)
      (inherit_str (px_User p) (ms_ProxySQLUser s))
      (inherit_str (px_Password p) (ms_ProxySQLPassword s))
      (px_HostgroupID p) (px_IgnoreServerTTLSecs p)
  else p.

Definition inherit_vitess (s : MySQLSettings) (v : VitessSettings) : VitessSettings :=
  if negb (VitessSettings_IsEmpty v) && (length (vt_Cells v) <? 1)%nat then
    mkVitessSettings (vt_API v) (ms_VitessCells s) (vt_Keyspace v) (vt_Shard v) (vt_TimeoutSecs v)
  else v.

(** What a cluster inherits from the MySQL section. *)
Definition inherit_cluster (s : MySQLSettings) (c : MySQLClusterSettings) : MySQLClusterSettings :=
  mkMySQLClusterSettings
    (inherit_str (mc_User c) (ms_User s))
    (inherit_str (mc_Password c) (ms_Password s))
    (inherit_str (mc_MetricQuery c) (ms_MetricQuery s))
    (inherit_int (mc_CacheMillis c) (ms_CacheMillis s))
    (inherit_float (mc_ThrottleThreshold c) (ms_ThrottleThreshold s))
    (inherit_int (mc_Port c) (ms_Port s))
    (inherit_int (mc_IgnoreHostsCount c) (ms_IgnoreHostsCount s))
    (inherit_float (mc_IgnoreHostsThreshold c) (ms_IgnoreHostsThreshold s))
    (inherit_int (mc_HttpCheckPort c) (ms_HttpCheckPort s))
    (inherit_str (mc_HttpCheckPath c) (ms_HttpCheckPath s))
    (inherit_list (mc_IgnoreHosts c) (ms_IgnoreHosts s))
    (mc_HAProxySettings c)
    (inherit_proxysql s (mc_ProxySQLSettings c))
    (inherit_vitess s (mc_VitessSettings c))
    (mc_StaticHostsSettings c).

(** One cluster of the loop: its own adjustments, then what it inherits. *)
Definition adjust_cluster (fuel : nat) (Getenv : string -> string) (s : MySQLSettings)
    (c : MySQLClusterSettings) : option (MySQLClusterSettings + error) :=
  match MySQLClusterSettings_postReadAdjustments fuel Getenv c with
  | None => None
  | Some (inr e) => Some (inr e)
  | Some (inl c') => Some (inl (inherit_cluster s c'))
  end.

(** The loop over the clusters, in the order given, up to the first error. *)
Fixpoint adjust_clusters (fuel : nat) (Getenv : string -> string) (s : MySQLSettings)
    (order : list (string * MySQLClusterSettings))
  : option (gmap string MySQLClusterSettings + error) :=
  match order with
  | [] => Some (inl ∅)
  | (name, c) :: order' =>
      match adjust_cluster fuel Getenv s c with
      | None => None
      | Some (inr e) => Some (inr e)
      | Some (inl c') =>
          match adjust_clusters fuel Getenv s order' with
          | Some (inl m) => Some (inl (<[name := c']> m))
          | r => r
          end
      end
  end.

(** The part of [postReadAdjustments] before the loop over the clusters. *)
Definition adjust_mysql_section (Getenv : string -> string) (s : MySQLSettings) : MySQLSettings :=
  mkMySQLSettings (expand_env Getenv (ms_User s)) (expand_env Getenv (ms_Password s))
    (ms_MetricQuery s) (ms_CacheMillis s) (ms_ThrottleThreshold s)
    (inherit_int (ms_Port s) DefaultMySQLPort) (ms_IgnoreDialTcpErrors s) (ms_IgnoreHostsCount s)
    (ms_IgnoreHostsThreshold s) (ms_HttpCheckPort s) (ms_HttpCheckPath s) (ms_IgnoreHosts s)
    (ms_ProxySQLAddresses s) (ms_ProxySQLUser s) (ms_ProxySQLPassword s)
    (expand_env Getenv <$> ms_VitessCells s) (ms_Collation s) (ms_Clusters s).

Definition set_clusters (s : MySQLSettings) (m : gmap string MySQLClusterSettings) : MySQLSettings :=
  mkMySQLSettings (ms_User s) (ms_Password s) (ms_MetricQuery s) (ms_CacheMillis s)
    (ms_ThrottleThreshold s) (ms_Port s) (ms_IgnoreDialTcpErrors s) (ms_IgnoreHostsCount s)
    (ms_IgnoreHostsThreshold s) (ms_HttpCheckPort s) (ms_HttpCheckPath s) (ms_IgnoreHosts s)
    (ms_ProxySQLAddresses s) (ms_ProxySQLUser s) (ms_ProxySQLPassword s) (ms_VitessCells s)
    (ms_Collation s) m.

Definition MySQLSettings_postReadAdjustments (fuel : nat) (Getenv : string -> string)
    (s : MySQLSettings) : option (MySQLSettings + error) :=
  let s1 := adjust_mysql_section Getenv s in
  match adjust_clusters fuel Getenv s1 (map_to_list (ms_Clusters s1)) with
  | None => None
  | Some (inr e) => Some (inr e)
  | Some (inl m) => Some (inl (set_clusters s1 m))
  end.

(** ** Stores (store_config.go) *)

Record StoresSettings := mkStoresSettings {
  st_MySQL : MySQLSettings;
}.

Definition StoresSettings_postReadAdjustments (fuel : nat) (Getenv : string -> string)
    (s : StoresSettings) : option (StoresSettings + error) :=
  match MySQLSettings_postReadAdjustments fuel Getenv (st_MySQL s) with
  | None => None
  | Some (inr e) => Some (inr e)
  | Some (inl m) => Some (inl (mkStoresSettings m))
  end.

(** ** Configuration (config.go) *)

Record ConfigurationSettings := mkConfigurationSettings {
  cs_ListenPort : Z;
  cs_DataCenter : string;
  cs_Environment : string;
  cs_Domain : string;
  cs_ShareDomain : string;
  cs_RaftBind : string;
  cs_RaftDataDir : string;
  cs_DefaultRaftPort : Z;
  cs_RaftNodes : list string;
  cs_BackendMySQLHost : string;
  cs_BackendMySQLPort : Z;
  cs_BackendMySQLSchema : string;
  cs_BackendMySQLUser : string;
  cs_BackendMySQLPassword : string;
  cs_BackendMySQLCollation : string;
  cs_MemcacheServers : list string;
  cs_MemcachePath : string;
  cs_EnableProfiling : bool;
  cs_Stores : StoresSettings;
}.

Definition empty_mysql_settings : MySQLSettings :=
  mkMySQLSettings "" "" "" 0 f_zero 0 false 0 f_zero 0 "" [] [] "" "" [] "" ∅.

Definition newConfigurationSettings : ConfigurationSettings :=
  mkConfigurationSettings 8087 "" "" "" "" "127.0.0.1:10008" "" 0 [] "" 3306 "" "" "" "" []
    "freno" false (mkStoresSettings empty_mysql_settings).

(** The environment lookups of [postReadAdjustments]. *)
Definition expand_settings (Getenv : string -> string) (s : ConfigurationSettings)
  : ConfigurationSettings :=
  mkConfigurationSettings (cs_ListenPort s) (expand_env Getenv (cs_DataCenter s))
    (expand_env Getenv (cs_Environment s)) (expand_env Getenv (cs_Domain s))
    (expand_env Getenv (cs_ShareDomain s)) (cs_RaftBind s) (cs_RaftDataDir s)
    (cs_DefaultRaftPort s) (cs_RaftNodes s) (expand_env Getenv (cs_BackendMySQLHost s))
    (cs_BackendMySQLPort s) (expand_env Getenv (cs_BackendMySQLSchema s))
    (expand_env Getenv (cs_BackendMySQLUser s)) (expand_env Getenv (cs_BackendMySQLPassword s))
    (cs_BackendMySQLCollation s) (cs_MemcacheServers s) (cs_MemcachePath s) (cs_EnableProfiling s)
    (cs_Stores s).

Definition set_stores (s : ConfigurationSettings) (st : StoresSettings) : ConfigurationSettings :=
  mkConfigurationSettings (cs_ListenPort s) (cs_DataCenter s) (cs_Environment s) (cs_Domain s)
    (cs_ShareDomain s) (cs_RaftBind s) (cs_RaftDataDir s) (cs_DefaultRaftPort s) (cs_RaftNodes s)
    (cs_BackendMySQLHost s) (cs_BackendMySQLPort s) (cs_BackendMySQLSchema s)
    (cs_BackendMySQLUser s) (cs_BackendMySQLPassword s) (cs_BackendMySQLCollation s)
    (cs_MemcacheServers s) (cs_MemcachePath s) (cs_EnableProfiling s) st.

Definition ConfigurationSettings_postReadAdjustments (fuel : nat) (Getenv : string -> string)
    (s : ConfigurationSettings) : option (ConfigurationSettings + error) :=
  let s := expand_settings Getenv s in
  if bool_decide (cs_RaftDataDir s = "") && bool_decide (cs_BackendMySQLHost s = "") then
    Some (inr (Errorf "Either RaftDataDir or BackendMySQLHost must be set"))
  else if negb (bool_decide (cs_BackendMySQLHost s = "")) && bool_decide (cs_BackendMySQLSchema s = "")
  then Some (inr (Errorf "BackendMySQLSchema must be set when BackendMySQLHost is specified"))
  else
    match StoresSettings_postReadAdjustments fuel Getenv (cs_Stores s) with
    | None => None
    | Some (inr e) => Some (inr e)
    | Some (inl st) => Some (inl (set_stores s st))
    end.

(** [Configuration]. *)
Record Configuration := mkConfiguration {
  readFileNames : list string;
  settings : ConfigurationSettings;
}.

Definition newConfiguration : Configuration := mkConfiguration [] newConfigurationSettings.

(** A configuration file, as [os.Stat], [os.Open] and the JSON decoder see it.  The decoder
    overwrites the fields the document has. *)
Inductive config_file :=
| FileMissing
| FileUnreadable (e : error)
| FileJSON (decode : ConfigurationSettings -> ConfigurationSettings + error).

Definition read_file (fs : string -> config_file) (s : ConfigurationSettings) (fileName : string)
  : ConfigurationSettings + error :=
  match fs fileName with
  | FileMissing => inl s
  | FileUnreadable e =>
      inr (Errorf ("Cannot read config file " ++ fileName ++ ", error was: " ++ error_msg e))
  | FileJSON decode =>
      match decode s with
      | inl s' => inl s'
      | inr e => inr (Errorf ("Cannot read config file " ++ fileName ++ ", error was: " ++ error_msg e))
      end
  end.

(** [config.Read(fileNames...)]: the configuration after it, and the error. *)
Definition Configuration_Read (fuel : nat) (Getenv : string -> string) (fs : string -> config_file)
    (fileNames : list string) (config : Configuration) : option (Configuration * option error) :=
  match range_loop (read_file fs) fileNames newConfigurationSettings with
  | inr e => Some (config, Some e)
  | inl s =>
      match ConfigurationSettings_postReadAdjustments fuel Getenv s with
      | None => None
      | Some (inr e) => Some (config, Some e)
      | Some (inl s') => Some (mkConfiguration fileNames s', None)
      end
  end.

Definition Configuration_Reload (fuel : nat) (Getenv : string -> string)
    (fs : string -> config_file) (config : Configuration) : option (Configuration * option error) :=
  Configuration_Read fuel Getenv fs (readFileNames config) config.

(** ** Lemmas *)

(** The ProxySQL block never changes anything: it runs only when the cluster's own addresses, user
    and password are all set. *)
Lemma inherit_proxysql_id s p : inherit_proxysql s p = p.
Proof.
  unfold inherit_proxysql, ProxySQLSettings_IsEmpty, inherit_str. destruct p as [a u w h t]; simpl.
  destruct (Nat.eqb_spec (length a) 0); [done|].
  destruct (bool_decide_reflect (u = "")), (bool_decide_reflect (w = "")); simpl; try done.
  destruct (h <? 1); simpl; [done|]. rewrite !decide_False by done.
  destruct (Nat.ltb_spec (length a) 1); [lia|done].
Qed.

Lemma adjust_clusters_lookup fuel env s order m :
  NoDup order.*1 -> adjust_clusters fuel env s order = Some (inl m) ->
  forall name, match list_to_map (M := gmap string MySQLClusterSettings) order !! name with
               | None => m !! name = None
               | Some c => exists c', adjust_cluster fuel env s c = Some (inl c') /\ m !! name = Some c'
               end.
Proof.
  revert m. induction order as [|[n c] order IH]; intros m Hnd Hm name; csimpl in *; [by simplify_eq|].
  apply NoDup_cons in Hnd as [_ Hnd].
  destruct (adjust_cluster fuel env s c) as [[c'|]|] eqn:Hc; try done.
  destruct (adjust_clusters fuel env s order) as [[m'|]|] eqn:Ho; simplify_eq.
  destruct (decide (n = name)) as [->|Hne].
  - rewrite lookup_insert_eq. exists c'. by rewrite lookup_insert_eq.
  - rewrite !lookup_insert_ne by done. by apply IH.
Qed.

Lemma MySQLSettings_clusters fuel env s s' :
  MySQLSettings_postReadAdjustments fuel env s = Some (inl s') ->
  forall name, match ms_Clusters s !! name with
               | None => ms_Clusters s' !! name = None
               | Some c => exists c', adjust_cluster fuel env (adjust_mysql_section env s) c = Some (inl c')
                                   /\ ms_Clusters s' !! name = Some c'
               end.
Proof.
  unfold MySQLSettings_postReadAdjustments. intros H name.
  destruct (adjust_clusters _ _ _ _) as [[m|]|] eqn:Hm; simplify_eq. simpl.
  apply adjust_clusters_lookup with (name := name) in Hm; [|apply NoDup_fst_map_to_list].
  by rewrite list_to_map_to_list in Hm.
Qed.

(** What the own adjustments of a cluster keep. *)
Lemma cluster_adjustments_keep fuel env c c' :
  MySQLClusterSettings_postReadAdjustments fuel env c = Some (inl c') ->
  mc_ProxySQLSettings c' = mc_ProxySQLSettings c /\
  mc_ThrottleThreshold c' = mc_ThrottleThreshold c /\ mc_Port c' = mc_Port c /\
  mc_IgnoreHostsCount c' = mc_IgnoreHostsCount c /\ mc_MetricQuery c' = mc_MetricQuery c.
Proof.
  unfold MySQLClusterSettings_postReadAdjustments.
  destruct (HAProxySettings_postReadAdjustments _ _ _) as [[ha|]|]; try done.
  by intros [= <-].
Qed.

Lemma expand_addresses_done fuel env a a' :
  expand_addresses fuel env a = Some (inl a') -> find_env_variable a' = None.
Proof.
  revert a. induction fuel as [|fuel IH]; intros a; simpl; [done|].
  destruct (find_env_variable a) as [v|] eqn:E; [|by intros [= <-]].
  case_decide; [done|]. apply IH.
Qed.

(** ** Properties *)

(** C33: expanding the environment variables of the HAProxy addresses ends: when no variable's value
    has a dollar sign, as many rounds as the addresses have dollar signs, plus one, are enough, and
    the result has no variable left or an unset variable is reported. *)
Theorem expand_addresses_terminates :
  forall (Getenv : string -> string) (addresses : string) (fuel : nat),
    (forall name, str_mem "$" (Getenv name) = false) ->
    (str_count "$" addresses < fuel)%nat ->
    (exists a', expand_addresses fuel Getenv addresses = Some (inl a') /\
                find_env_variable a' = None) \/
    (exists name, Getenv name = "" /\
       expand_addresses fuel Getenv addresses =
       Some (inr (Errorf ("HAProxySettings: unknown environment variable ${" ++ name ++ "}")))).
Proof.
  intros env a fuel Henv. revert a. induction fuel as [|fuel IH]; intros a Hf; [lia|]. simpl.
  destruct (find_env_variable a) as [v|] eqn:E; [|by left; exists a].
  case_decide as Hv; [right; by exists v|]. apply IH.
  pose proof (replace_scan_count_lt "$" (S (String.length a)) a ("${" ++ v ++ "}") (env v)) as H.
  unfold ReplaceAll. rewrite str_count_app in H. simpl (str_count "$" "${") in H.
  specialize (H ltac:(by apply str_count_mem) ltac:(lia)
    ltac:(by apply find_env_variable_contains) ltac:(lia)). lia.
Qed.

Lemma expand_addresses_terminates_witness :
  (exists a', expand_addresses 2 (fun _ => "host") "${A}:80" = Some (inl a') /\
              find_env_variable a' = None) \/
  (exists name, (fun _ : string => "host") name = "" /\
     expand_addresses 2 (fun _ => "host") "${A}:80" =
     Some (inr (Errorf ("HAProxySettings: unknown environment variable ${" ++ name ++ "}")))).
Proof. apply (expand_addresses_terminates (fun _ => "host") "${A}:80" 2); [done|simpl; lia]. Defined.

(** The expansion loop does not end when a variable's value mentions the variable itself: no
    number of rounds finishes it. *)
Theorem expand_addresses_diverges :
  forall (Getenv : string -> string) (fuel : nat),
    Getenv "A" = "${A}" -> expand_addresses fuel Getenv "${A}" = None.
Proof.
  intros env fuel Henv. induction fuel as [|fuel IH]; [done|].
  cbn [expand_addresses]. change (find_env_variable "${A}") with (Some "A").
  cbv beta iota zeta. rewrite Henv.
  change (ReplaceAll "${A}" ("${" ++ "A" ++ "}") "${A}") with "${A}".
  rewrite decide_False by done. exact IH.
Qed.

Lemma expand_addresses_diverges_witness :
  expand_addresses 100 (fun v => "${" ++ v ++ "}") "${A}" = None.
Proof. apply (expand_addresses_diverges (fun v => "${" ++ v ++ "}") 100). reflexivity. Defined.

(** After a successful adjustment every cluster has the threshold, port, query and number of
    ignored hosts of its own section where they are set, and those of the MySQL section where they
    are not (a port is never 0 when the section's is not); no cluster appears or disappears. *)
Theorem clusters_inherit :
  forall (fuel : nat) (Getenv : string -> string) (s s' : MySQLSettings) (name : string),
    MySQLSettings_postReadAdjustments fuel Getenv s = Some (inl s') ->
    match ms_Clusters s !! name, ms_Clusters s' !! name with
    | Some c, Some c' =>
        mc_ThrottleThreshold c' = (if f_eqb (mc_ThrottleThreshold c) f_zero
                                   then ms_ThrottleThreshold s else mc_ThrottleThreshold c) /\
        mc_Port c' = (if mc_Port c =? 0 then if ms_Port s =? 0 then 3306 else ms_Port s
                      else mc_Port c) /\
        mc_IgnoreHostsCount c' = (if mc_IgnoreHostsCount c =? 0 then ms_IgnoreHostsCount s
                                  else mc_IgnoreHostsCount c) /\
        mc_MetricQuery c' = (if decide (mc_MetricQuery c = "") then ms_MetricQuery s
                             else mc_MetricQuery c)
    | None, None => True
    | _, _ => False
    end.
Proof.
  intros fuel env s s' name H. pose proof (MySQLSettings_clusters _ _ _ _ H name) as Hl.
  destruct (ms_Clusters s !! name) as [c|]; [|by rewrite Hl].
  destruct Hl as (c' & Hc & ->). unfold adjust_cluster in Hc.
  destruct (MySQLClusterSettings_postReadAdjustments fuel env c) as [[c1|]|] eqn:E; simplify_eq.
  apply cluster_adjustments_keep in E as (_ & HT & HP & HI & HQ).
  unfold inherit_cluster, inherit_int, inherit_float, inherit_str, DefaultMySQLPort. simpl.
  rewrite HT, HP, HI, HQ. done.
Qed.

Definition cluster_ex : MySQLClusterSettings :=
  mkMySQLClusterSettings "" "" "" 0 f_zero 0 0 f_zero 0 "" []
    (mkHAProxySettings "" 0 "" "") (mkProxySQLSettings [] "" "" 0 0)
    (mkVitessSettings "" [] "" "" 0) (mkStaticHostsSettings ["h"]).

Definition mysql_ex : MySQLSettings :=
  mkMySQLSettings "u" "p" "" 0 f_one 0 false 1 f_zero 0 "" [] ["px:6032"] "pu" "pp" [] ""
    {["c" := cluster_ex]}.

Definition mysql_ex_adjusted : MySQLSettings :=
  match MySQLSettings_postReadAdjustments 1 (fun _ => "") mysql_ex with
  | Some (inl s) => s
  | _ => mysql_ex
  end.

Lemma clusters_inherit_witness :
  exists c', ms_Clusters mysql_ex_adjusted !! "c" = Some c' /\
    mc_ThrottleThreshold c' = f_one /\ mc_Port c' = 3306 /\ mc_IgnoreHostsCount c' = 1.
Proof.
  pose proof (clusters_inherit 1 (fun _ => "") mysql_ex mysql_ex_adjusted "c" eq_refl) as H.
  vm_compute in H. vm_compute. eexists. split; [reflexivity|]. destruct H as (H1 & H2 & H3 & _).
  split_and!; reflexivity.
Defined.

(** A cluster's ProxySQL settings are never completed from the MySQL section: after any
    successful adjustment they are the ones of the file, although the code means to let
    [ProxySQLAddresses], [ProxySQLUser] and [ProxySQLPassword] fill in what is missing. *)
Theorem proxysql_settings_never_inherited :
  forall (fuel : nat) (Getenv : string -> string) (s s' : MySQLSettings) (name : string),
    MySQLSettings_postReadAdjustments fuel Getenv s = Some (inl s') ->
    mc_ProxySQLSettings <$> ms_Clusters s' !! name = mc_ProxySQLSettings <$> ms_Clusters s !! name.
Proof.
  intros fuel env s s' name H. pose proof (MySQLSettings_clusters _ _ _ _ H name) as Hl.
  destruct (ms_Clusters s !! name) as [c|]; [|by rewrite Hl].
  destruct Hl as (c' & Hc & ->). simpl. f_equal. unfold adjust_cluster in Hc.
  destruct (MySQLClusterSettings_postReadAdjustments fuel env c) as [[c1|]|] eqn:E; simplify_eq.
  apply cluster_adjustments_keep in E as (Hp & _). simpl. by rewrite inherit_proxysql_id.
Qed.

Lemma proxysql_settings_never_inherited_witness :
  mc_ProxySQLSettings <$> ms_Clusters mysql_ex_adjusted !! "c" =
  Some (mkProxySQLSettings [] "" "" 0 0).
Proof.
  rewrite (proxysql_settings_never_inherited 1 (fun _ => "") mysql_ex mysql_ex_adjusted "c");
    reflexivity.
Defined.

(** Reading a configuration is all or nothing.  A failing read leaves settings and file names as
    they were; a successful one installs settings that name a raft directory or a MySQL backend, and
    a schema with the backend, and makes [Reload] read the same files. *)
Theorem Configuration_Read_atomic :
  forall fuel Getenv fs fileNames config config' err,
    Configuration_Read fuel Getenv fs fileNames config = Some (config', err) ->
    match err with
    | Some _ => config' = config
    | None =>
        readFileNames config' = fileNames /\
        (cs_RaftDataDir (settings config') <> "" \/ cs_BackendMySQLHost (settings config') <> "") /\
        (cs_BackendMySQLHost (settings config') <> "" ->
         cs_BackendMySQLSchema (settings config') <> "") /\
        Configuration_Reload fuel Getenv fs config' = Some (config', None)
    end.
Proof.
  intros fuel env fs names config config' err H.
  assert (Hread : forall c, err = None -> Configuration_Read fuel env fs names c = Some (config', err)).
  { intros c ->. unfold Configuration_Read in *. destruct (range_loop _ _ _); [|done].
    by destruct (ConfigurationSettings_postReadAdjustments _ _ _) as [[]|]. }
  unfold Configuration_Read in H. destruct (range_loop _ _ _) as [s|e]; [|by simplify_eq].
  destruct (ConfigurationSettings_postReadAdjustments _ _ _) as [[s'|e]|] eqn:E; simplify_eq; [|done].
  unfold Configuration_Reload. simpl. rewrite (Hread _ eq_refl).
  unfold ConfigurationSettings_postReadAdjustments in E. set (x := expand_settings env s) in *.
  destruct (bool_decide_reflect (cs_RaftDataDir x = "")),
    (bool_decide_reflect (cs_BackendMySQLHost x = "")),
    (bool_decide_reflect (cs_BackendMySQLSchema x = "")); simpl in E; try done;
  destruct (StoresSettings_postReadAdjustments _ _ _) as [[]|]; simplify_eq; simpl; split_and!; auto; done.
Qed.

Definition fs_ex (f : string) : config_file :=
  FileJSON (fun s => inl (set_stores (mkConfigurationSettings 8087 "" "" "" "" "" "/raft" 0 [] "" 3306
     "" "" "" "" [] "freno" false (cs_Stores s)) (mkStoresSettings mysql_ex))).

Lemma Configuration_Read_atomic_witness :
  exists config', Configuration_Read 1 (fun _ => "") fs_ex ["f"] newConfiguration = Some (config', None) /\
    Configuration_Reload 1 (fun _ => "") fs_ex config' = Some (config', None).
Proof.
  eexists. split; [vm_compute; reflexivity|].
  eapply (Configuration_Read_atomic 1 (fun _ => "") fs_ex ["f"] newConfiguration _ None).
  vm_compute. reflexivity.
Defined.
