(* ===== verification/Haproxy.v ===== *)
(** * Package haproxy: reading the hosts of a pool from HAProxy's CSV status page (pkg/haproxy)

    Slice indexing panics out of range, so parsing has an [outcome].  The HTTP client, net/url and
    the CSV cache are arguments of [Read]. *)
From S2P Require Import Prelude GoStrings GoFloat GoCache.

Open Scope string_scope.
Open Scope Z_scope.
Open Scope go_scope.

(** ** Backend hosts (host.go) *)

Inductive BackendHostStatus :=
| StatusDown | StatusNOLB | StatusUp | StatusNoCheck | StatusUnknown.

#[export] Instance BackendHostStatus_eq_dec : EqDecision BackendHostStatus.
Proof. solve_decision. Defined.

Definition ToBackendHostStatus (status : string) : BackendHostStatus :=
  if decide (status = "DOWN") then StatusDown
  else if decide (status = "NOLB") then StatusNOLB
  else if decide (status = "UP") then StatusUp
  else if decide (status = "no check") then StatusNoCheck
  else StatusUnknown.

Record BackendHost := mkBackendHost {
  bh_Hostname : string;
  bh_Status : BackendHostStatus;
  bh_IsTransitioning : bool;
}.

Definition NewBackendHost := mkBackendHost.

(** ** Choosing the hosts to probe (throttle.go) *)

Definition host_is_relevant (h : BackendHost) : bool :=
  match bh_Status h with
  | StatusUp => negb (bh_IsTransitioning h)
  | StatusDown => true
  | StatusNoCheck => true
  | _ => false
  end.

Fixpoint FilterThrotllerHosts (backendHosts : list BackendHost) : list string :=
  match backendHosts with
  | [] => []
  | h :: hs =>
      if host_is_relevant h then bh_Hostname h :: FilterThrotllerHosts hs
      else FilterThrotllerHosts hs
  end.

(** ** The CSV parser (parser.go) *)

Definition HAProxyEmptyBody : error := Sentinel "Haproxy GET error: empty body".
Definition HAProxyEmptyStatus : error := Sentinel "Haproxy CSV parsing error: no lines found".
Definition HAProxyPartialStatus : error :=
  Sentinel "Haproxy CSV parsing error: only got partial file".
Definition HAProxyMissingPool : error := Sentinel "Haproxy CSV parsing: pool not found".
Definition HAProxyAllUpHostsTransitioning : error :=
  Sentinel "Haproxy: all host marked as UP are in transition. HAProxy is likely reloading".
Definition HAProxyAllHostsTransitioning : error :=
  Sentinel "Haproxy: all hosts are in transition. HAProxy is likely reloading".

(** [tokensMap[token] = i] for each token: a later column of the same name wins. *)
Fixpoint index_tokens (tokens : list string) (i : Z) (m : gmap string Z) : gmap string Z :=
  match tokens with
  | [] => m
  | t :: ts => index_tokens ts (i + 1) (<[t := i]> m)
  end.

Definition parseHeader (header : string) : gmap string Z :=
  index_tokens (Split (TrimSpace (TrimLeft header "#")) ",") 0 ∅.

Definition parseLines (csv : string) : list string := Split csv newline.

(** Indexing a map of integers: a missing key reads 0. *)
Definition column (m : gmap string Z) (name : string) : Z := default 0 (m !! name).

Definition ParseStatus (fullStatus : string) : BackendHostStatus * bool :=
  if decide (ToBackendHostStatus fullStatus = StatusNoCheck) then (StatusNoCheck, false)
  else
    match Split fullStatus " " with
    | t0 :: t1 :: _ => (ToBackendHostStatus t0, Contains t1 "/")
    | [t0] => (ToBackendHostStatus t0, false)
    | [] => (StatusUnknown, false)
    end.

(** The variables of the loop of [ParseHosts]. *)
Record hosts_state := mkHostsState {
  backendHosts : list BackendHost;
  poolFound : bool;
  countHosts : Z;
  countUpHosts : Z;
  countTransitioningHosts : Z;
  countTransitioningUpHosts : Z;
}.

Definition hosts_start : hosts_state := mkHostsState [] false 0 0 0 0.

(** A host of the pool is counted and appended. *)
Definition add_host (st : hosts_state) (h : BackendHost) : hosts_state :=
  let tr := if bh_IsTransitioning h then 1 else 0 in
  let up := if decide (bh_Status h = StatusUp) then 1 else 0 in
  mkHostsState (backendHosts st ++ [h])%list true (countHosts st + 1) (countUpHosts st + up)
    (countTransitioningHosts st + tr) (countTransitioningUpHosts st + up * tr).

Definition set_poolFound (st : hosts_state) : hosts_state :=
  mkHostsState (backendHosts st) true (countHosts st) (countUpHosts st)
    (countTransitioningHosts st) (countTransitioningUpHosts st).

(** One line after the header. *)
Definition parse_line (tokensMap : gmap string Z) (poolName : string) (st : hosts_state)
    (line : string) : outcome hosts_state :=
  let tokens := Split line "," in
  let! px := slice_get tokens (column tokensMap "pxname") in
  if decide (px = poolName) then
    let! host := slice_get tokens (column tokensMap "svname") in
    if bool_decide (host = "BACKEND") || bool_decide (host = "FRONTEND") then
      Return (set_poolFound st)
    else
      let! status := slice_get tokens (column tokensMap "status") in
      let '(s, isTransitioning) := ParseStatus status in
      Return (add_host st (NewBackendHost host s isTransitioning))
  else Return st.

Fixpoint parse_rows (tokensMap : gmap string Z) (poolName : string) (lines : list string)
    (st : hosts_state) : outcome hosts_state :=
  match lines with
  | [] => Return st
  | l :: ls => let! st' := parse_line tokensMap poolName st l in
               parse_rows tokensMap poolName ls st'
  end.

(** What [ParseHosts] answers from the counts. *)
Definition hosts_error (st : hosts_state) : option error :=
  if negb (poolFound st) then Some HAProxyMissingPool
  else if (countTransitioningHosts st =? countHosts st) && (0 <? countHosts st) then
    Some HAProxyAllHostsTransitioning
  else if (countTransitioningUpHosts st =? countUpHosts st) && (0 <? countUpHosts st) then
    Some HAProxyAllUpHostsTransitioning
  else None.

Definition ParseHosts (csvLines : list string) (poolName : string)
  : outcome (list BackendHost * option error) :=
  match csvLines with
  | [] => Return ([], Some HAProxyEmptyStatus)
  | [_] => Return ([], Some HAProxyPartialStatus)
  | header :: rows =>
      let! st := parse_rows (parseHeader header) poolName rows hosts_start in
      Return (backendHosts st, hosts_error st)
  end.

Definition ParseCsvHosts (csv poolName : string) : outcome (list BackendHost * option error) :=
  ParseHosts (parseLines csv) poolName.

Section Read.
(** Package net/url, and the HTTP client: the body of a GET, or an error. *)
Context {URL : Type} (url_Path : URL -> string) (url_setPath : string -> URL -> URL)
  (url_String : URL -> string) (http_get : string -> string + error).

Definition toCSVUrl (u : URL) : URL := url_setPath (url_Path u ++ ";csv;norefresh") u.

(** [Read]: the CSV text, from the cache when it is there. *)
Definition Read (now : Time) (u : URL) (csvCache : Cache string)
  : (string * option error) * Cache string :=
  let haproxyUrl := url_String (toCSVUrl u) in
  match cache_Get now haproxyUrl csvCache with
  | Some csv => ((csv, None), csvCache)
  | None =>
      match http_get haproxyUrl with
      | inr e => (("", Some e), csvCache)
      | inl csv =>
          if decide (csv = "") then (("", Some HAProxyEmptyBody), csvCache)
          else ((csv, None), cache_Set now haproxyUrl csv DefaultExpiration csvCache)
      end
  end.
End Read.

(** ** Properties *)

(** The columns the parser reads are present in a row. *)
Definition row_complete (tokensMap : gmap string Z) (line : string) : Prop :=
  forall name, name ∈ ["pxname"; "svname"; "status"] ->
    0 <= column tokensMap name < Z.of_nat (length (Split line ",")).

Definition rows_completeb (tokensMap : gmap string Z) (rows : list string) : bool :=
  forallb (fun line =>
    forallb (fun name => (0 <=? column tokensMap name) &&
                         (column tokensMap name <? Z.of_nat (length (Split line ","))))
      ["pxname"; "svname"; "status"]) rows.

Lemma rows_completeb_sound tm rows : rows_completeb tm rows = true -> Forall (row_complete tm) rows.
Proof.
  unfold rows_completeb, row_complete. rewrite forallb_forall, Forall_forall.
  intros H line Hl name Hn. rewrite list_elem_of_In in Hl, Hn.
  specialize (H line Hl). rewrite forallb_forall in H. specialize (H name Hn). zbool. lia.
Qed.

Definition cell (tokensMap : gmap string Z) (name line : string) : string :=
  nth (Z.to_nat (column tokensMap name)) (Split line ",") "".

(** The row belongs to the pool. *)
Definition row_in_pool (tokensMap : gmap string Z) (poolName line : string) : Prop :=
  cell tokensMap "pxname" line = poolName.

(** The host a row describes, if it is a host of the pool. *)
Definition row_host (tokensMap : gmap string Z) (poolName line : string) : option BackendHost :=
  let host := cell tokensMap "svname" line in
  if decide (cell tokensMap "pxname" line = poolName /\ host <> "BACKEND" /\ host <> "FRONTEND")
  then let '(s, tr) := ParseStatus (cell tokensMap "status" line) in
       Some (NewBackendHost host s tr)
  else None.

Definition transitioning (h : BackendHost) : Prop := bh_IsTransitioning h = true.
Definition up (h : BackendHost) : Prop := bh_Status h = StatusUp.

#[export] Instance transitioning_dec h : Decision (transitioning h).
Proof. unfold transitioning. apply _. Defined.
#[export] Instance up_dec h : Decision (up h).
Proof. unfold up. apply _. Defined.

Definition count (P : BackendHost -> Prop) `{!forall h, Decision (P h)} (l : list BackendHost) : Z :=
  Z.of_nat (length (filter P l)).

Lemma count_snoc (P : BackendHost -> Prop) `{!forall h, Decision (P h)} l h :
  count P (l ++ [h])%list = count P l + (if decide (P h) then 1 else 0).
Proof.
  unfold count. rewrite filter_app, length_app, filter_cons, filter_nil.
  case_decide; simpl; lia.
Qed.

(** All of [l] that satisfies [Q] satisfies [P], seen from the counts. *)
Lemma count_and_eq (P Q : BackendHost -> Prop) `{!forall h, Decision (P h)}
    `{!forall h, Decision (Q h)} l :
  count (fun h => Q h /\ P h) l = count Q l <-> Forall (fun h => Q h -> P h) l.
Proof.
  assert (Hle : forall l, count (fun h => Q h /\ P h) l <= count Q l).
  { intros l'. unfold count. induction l' as [|h l' IH]; [done|].
    rewrite !filter_cons. repeat case_decide; simpl; try lia; exfalso; tauto. }
  induction l as [|h l IH]; [done|]. specialize (Hle l). rewrite Forall_cons, <- IH.
  unfold count in *. rewrite !filter_cons.
  repeat case_decide; simpl; split; intros; try lia; try (split; [tauto|lia]); intuition lia.
Qed.

Lemma count_pos (P : BackendHost -> Prop) `{!forall h, Decision (P h)} l :
  0 < count P l <-> Exists P l.
Proof.
  unfold count. induction l as [|h l IH]; [by rewrite Exists_nil; simpl; lia|].
  rewrite Exists_cons, <- IH, filter_cons. case_decide; simpl; split; intros; try lia; tauto.
Qed.

(** What the loop variables hold. *)
Definition hosts_inv (st : hosts_state) : Prop :=
  countHosts st = count (fun _ => True) (backendHosts st) /\
  countUpHosts st = count up (backendHosts st) /\
  countTransitioningHosts st = count (fun h => True /\ transitioning h) (backendHosts st) /\
  countTransitioningUpHosts st = count (fun h => up h /\ transitioning h) (backendHosts st) /\
  (backendHosts st <> [] -> poolFound st = true).

Lemma add_host_inv st h : hosts_inv st -> hosts_inv (add_host st h).
Proof.
  intros (H1 & H2 & H3 & H4 & _). unfold hosts_inv, add_host; simpl.
  rewrite !count_snoc, H1, H2, H3, H4.
  assert (Ht : transitioning h <-> bh_IsTransitioning h = true) by done.
  assert (Hu : up h <-> bh_Status h = StatusUp) by done.
  repeat case_decide; case_if; repeat split; try done; try lia; exfalso; intuition congruence.
Qed.

Lemma set_poolFound_inv st : hosts_inv st -> hosts_inv (set_poolFound st).
Proof. intros (? & ? & ? & ? & _). by repeat split. Qed.

Lemma slice_get_cell tm name line :
  0 <= column tm name < Z.of_nat (length (Split line ",")) ->
  slice_get (Split line ",") (column tm name) = Return (cell tm name line).
Proof.
  intros H. unfold slice_get, cell. case_if; zbool; [lia|].
  destruct (lookup_lt_is_Some_2 (Split line ",") (Z.to_nat (column tm name))) as [s Hs]; [lia|].
  rewrite Hs. f_equal. symmetry. by apply nth_lookup_Some.
Qed.

(** A complete row never panics and adds the host it describes. *)
Lemma parse_line_complete tm pool st line :
  row_complete tm line -> hosts_inv st ->
  exists st', parse_line tm pool st line = Return st' /\ hosts_inv st' /\
    backendHosts st' = (backendHosts st ++ option_list (row_host tm pool line))%list /\
    (poolFound st' = true <-> poolFound st = true \/ row_in_pool tm pool line).
Proof.
  intros Hc Hi. unfold parse_line, row_host, row_in_pool.
  assert (Hg : forall name, name ∈ ["pxname"; "svname"; "status"] ->
    slice_get (Split line ",") (column tm name) = Return (cell tm name line))
    by (intros; by apply slice_get_cell, Hc).
  rewrite !Hg by (repeat constructor). simpl.
  destruct (decide (cell tm "pxname" line = pool)) as [E|E].
  2: { exists st. rewrite decide_False by tauto. simpl. rewrite app_nil_r. tauto. }
  repeat case_bool_decide; simpl.
  1-3: exists (set_poolFound st); rewrite decide_False by (intros (_ & ? & ?); congruence);
    simpl; rewrite app_nil_r; split; [done|]; split; [by apply set_poolFound_inv|]; tauto.
  rewrite (decide_True (P := _ /\ _)) by (split_and!; done).
  destruct (ParseStatus _) as [s tr].
  eexists; split; [done|]; split; [by apply add_host_inv|]; simpl; tauto.
Qed.

Lemma parse_rows_complete tm pool rows : forall st,
  Forall (row_complete tm) rows -> hosts_inv st ->
  exists st', parse_rows tm pool rows st = Return st' /\ hosts_inv st' /\
    backendHosts st' = (backendHosts st ++ omap (row_host tm pool) rows)%list /\
    (poolFound st' = true <-> poolFound st = true \/ Exists (row_in_pool tm pool) rows).
Proof.
  induction rows as [|l rows IH]; intros st Hc Hi; simpl.
  { exists st. rewrite app_nil_r, Exists_nil. tauto. }
  apply Forall_cons in Hc as [Hl Hc].
  destruct (parse_line_complete tm pool st l Hl Hi) as (st1 & -> & Hi1 & Hb & Hp). simpl.
  destruct (IH st1 Hc Hi1) as (st2 & -> & Hi2 & Hb2 & Hp2). exists st2.
  split; [done|]; split; [exact Hi2|]; split; [|rewrite Exists_cons; tauto].
  rewrite Hb2, Hb, <- app_assoc. f_equal. by destruct (row_host tm pool l).
Qed.

(** What each answer of the checks after the loop says about the hosts. *)
Definition error_says (pool_seen : Prop) (hosts : list BackendHost) (e : option error) : Prop :=
  (e = Some HAProxyMissingPool /\ ~ pool_seen) \/
  (e = Some HAProxyAllHostsTransitioning /\ pool_seen /\ hosts <> [] /\
   Forall transitioning hosts) \/
  (e = Some HAProxyAllUpHostsTransitioning /\ pool_seen /\ ~ Forall transitioning hosts /\
   Exists up hosts /\ Forall (fun h => up h -> transitioning h) hosts) \/
  (e = None /\ pool_seen /\ (hosts = [] \/ Exists (fun h => ~ transitioning h) hosts) /\
   (Exists up hosts -> Exists (fun h => up h /\ ~ transitioning h) hosts)).

Lemma not_all_exists (P Q : BackendHost -> Prop) `{!forall h, Decision (P h)}
    `{!forall h, Decision (Q h)} l :
  ~ Forall (fun h => Q h -> P h) l -> Exists (fun h => Q h /\ ~ P h) l.
Proof.
  intros Hn. apply not_Forall_Exists in Hn; [|intros h; apply _].
  eapply Exists_impl; [exact Hn|]. simpl. intros h Hh.
  destruct (decide (Q h)), (decide (P h)); tauto.
Qed.

(** The checks after the loop, in terms of the hosts. *)
Lemma hosts_error_spec st :
  hosts_inv st ->
  hosts_error st =
    if negb (poolFound st) then Some HAProxyMissingPool
    else if decide (Forall (fun h => True -> transitioning h) (backendHosts st) /\
                    Exists (fun _ => True) (backendHosts st))
    then Some HAProxyAllHostsTransitioning
    else if decide (Forall (fun h => up h -> transitioning h) (backendHosts st) /\
                    Exists up (backendHosts st))
    then Some HAProxyAllUpHostsTransitioning
    else None.
Proof.
  intros (H1 & H2 & H3 & H4 & _). unfold hosts_error. rewrite H1, H2, H3, H4.
  assert (Hb : forall (Q : BackendHost -> Prop) `{!forall h, Decision (Q h)} (A : Type) (x y : A),
    (if (count (fun h => Q h /\ transitioning h) (backendHosts st) =? count Q (backendHosts st)) &&
        (0 <? count Q (backendHosts st)) then x else y) =
    if decide (Forall (fun h => Q h -> transitioning h) (backendHosts st) /\
               Exists Q (backendHosts st)) then x else y).
  { intros Q ? A x y.
    pose proof (count_and_eq transitioning Q (backendHosts st)).
    pose proof (count_pos Q (backendHosts st)).
    destruct (_ =? _) eqn:E, (0 <? _) eqn:E'; zbool; simpl; case_decide; try done; exfalso;
      intuition lia. }
  by rewrite !Hb.
Qed.

Lemma Exists_True_iff (l : list BackendHost) : Exists (fun _ => True) l <-> l <> [].
Proof. destruct l; [by rewrite Exists_nil|]. split; [done|]. by constructor. Qed.

Lemma hosts_error_says st :
  hosts_inv st -> error_says (poolFound st = true) (backendHosts st) (hosts_error st).
Proof.
  intros Hi. rewrite hosts_error_spec by done. unfold error_says.
  assert (HT : Forall transitioning (backendHosts st) <->
               Forall (fun h => True -> transitioning h) (backendHosts st))
    by (rewrite !Forall_forall; intuition).
  pose proof (not_all_exists transitioning (fun _ => True) (backendHosts st)) as HA.
  pose proof (not_all_exists transitioning up (backendHosts st)) as HU.
  pose proof (Exists_True_iff (backendHosts st)) as HE. rewrite HT. destruct (poolFound st); simpl; [|left; split; [done|congruence]].
  right. case_decide as D1; [left; tauto|]. right.
  assert (Hne : Exists up (backendHosts st) -> backendHosts st <> [])
    by (intros Hu E; rewrite E in Hu; inversion Hu).
  case_decide as D2; [left; tauto|]. right. do 2 (split; [done|]). split.
  - destruct (decide (backendHosts st = [])); [tauto|]. right.
    eapply Exists_impl; [apply HA; tauto|]. simpl; tauto.
  - intros Hu. apply HU. tauto.
Qed.

(** C32: on a status page whose rows have the columns of the header, [ParseHosts] never panics; it
    returns exactly the hosts of the pool in the order of the rows (the BACKEND and FRONTEND
    summaries left out), and its error says which case holds: no row of the pool, every host in
    transition, every UP host in transition, or none of these. *)
Theorem ParseHosts_complete header rows pool :
  rows <> [] -> Forall (row_complete (parseHeader header)) rows ->
  exists e, ParseHosts (header :: rows) pool =
      Return (omap (row_host (parseHeader header) pool) rows, e) /\
    error_says (Exists (row_in_pool (parseHeader header) pool) rows)
      (omap (row_host (parseHeader header) pool) rows) e.
Proof.
  intros Hne Hc.
  destruct (parse_rows_complete (parseHeader header) pool rows hosts_start Hc)
    as (st & Hst & Hi & Hb & Hp); [by repeat split|].
  pose proof (hosts_error_says st Hi) as Hs. simpl in Hb. rewrite Hb in Hs.
  exists (hosts_error st). split.
  - destruct rows; [done|]. unfold ParseHosts. rewrite Hst. simpl. by rewrite Hb.
  - unfold error_says in *. simpl in Hp. rewrite Hp in Hs.
    assert (false = true <-> False) as Hf by done. rewrite Hf in Hs. intuition.
Qed.

Definition example_header : string := "# pxname,svname,status".
Definition example_rows : list string :=
  ["mysql_ro,FRONTEND,OPEN"; "mysql_ro,db1,UP"; "mysql_ro,db2,UP 1/2"; "mysql_ro,db3,NOLB";
   "other,db4,DOWN"; "mysql_ro,db5,no check"; "mysql_ro,BACKEND,UP"].

Lemma ParseHosts_complete_witness :
  ParseHosts (example_header :: example_rows) "mysql_ro" =
    Return ([mkBackendHost "db1" StatusUp false; mkBackendHost "db2" StatusUp true;
             mkBackendHost "db3" StatusNOLB false; mkBackendHost "db5" StatusNoCheck false], None) /\
  exists e, ParseHosts (example_header :: example_rows) "mysql_ro" =
      Return (omap (row_host (parseHeader example_header) "mysql_ro") example_rows, e) /\
    error_says (Exists (row_in_pool (parseHeader example_header) "mysql_ro") example_rows)
      (omap (row_host (parseHeader example_header) "mysql_ro") example_rows) e.
Proof.
  split; [vm_compute; reflexivity|].
  apply (ParseHosts_complete example_header example_rows "mysql_ro"); [done|].
  apply rows_completeb_sound. vm_compute. reflexivity.
Defined.

Lemma elem_of_FilterThrotllerHosts hosts h :
  h ∈ hosts -> host_is_relevant h = true -> bh_Hostname h ∈ FilterThrotllerHosts hosts.
Proof.
  induction hosts as [|h' hosts IH]; [by rewrite elem_of_nil|].
  rewrite elem_of_cons. simpl. intros [->|Hin] Hr.
  - rewrite Hr. left.
  - case_if; [right|]; by apply IH.
Qed.

(** When [ParseHosts] reports no error for a pool that has an UP host, the hosts selected for
    probing contain an UP host that is not in transition: a reload of HAProxy never leaves the
    throttler with stale hosts only. *)
Theorem no_error_keeps_stable_up header rows pool hosts :
  rows <> [] -> Forall (row_complete (parseHeader header)) rows ->
  ParseHosts (header :: rows) pool = Return (hosts, None) -> Exists up hosts ->
  exists h, h ∈ hosts /\ bh_Status h = StatusUp /\ bh_IsTransitioning h = false /\
    bh_Hostname h ∈ FilterThrotllerHosts hosts.
Proof.
  intros Hne Hc He Hup. destruct (parse_rows_complete (parseHeader header) pool rows hosts_start Hc)
    as (st & Hst & Hi & Hb & _); [by repeat split|].
  destruct rows as [|r rows]; [done|]. unfold ParseHosts in He. rewrite Hst in He. simpl in He.
  injection He as <- He. pose proof (hosts_error_says st Hi) as Hs. rewrite He in Hs.
  destruct Hs as [[? _]|[[? _]|[[? _]|(_ & _ & _ & Hs)]]]; [done..|].
  apply Hs, Exists_exists in Hup as (h & Hin & Hu & Ht).
  unfold up, transitioning in *. apply not_true_is_false in Ht. exists h.
  repeat split; try done. apply elem_of_FilterThrotllerHosts; [done|].
  unfold host_is_relevant. by rewrite Hu, Ht.
Qed.

Lemma no_error_keeps_stable_up_witness :
  exists h, h ∈ [mkBackendHost "db1" StatusUp false; mkBackendHost "db2" StatusUp true;
                 mkBackendHost "db3" StatusNOLB false; mkBackendHost "db5" StatusNoCheck false] /\
    bh_Status h = StatusUp /\ bh_IsTransitioning h = false /\
    bh_Hostname h ∈ FilterThrotllerHosts
      [mkBackendHost "db1" StatusUp false; mkBackendHost "db2" StatusUp true;
       mkBackendHost "db3" StatusNOLB false; mkBackendHost "db5" StatusNoCheck false].
Proof.
  apply (no_error_keeps_stable_up example_header example_rows "mysql_ro").
  - done.
  - apply rows_completeb_sound. vm_compute. reflexivity.
  - vm_compute; reflexivity.
  - left. reflexivity.
Defined.

(** A status page whose last row is cut short inside a row of the pool, for instance because
    the connection was closed, makes the parser index past the end of the row: [ParseHosts] panics
    instead of answering [HAProxyPartialStatus]. *)
Theorem ParseHosts_truncated_row_panics header line pool rows :
  0 <= column (parseHeader header) "pxname" < Z.of_nat (length (Split line ",")) ->
  0 <= column (parseHeader header) "svname" < Z.of_nat (length (Split line ",")) ->
  Z.of_nat (length (Split line ",")) <= column (parseHeader header) "status" ->
  cell (parseHeader header) "pxname" line = pool ->
  cell (parseHeader header) "svname" line <> "BACKEND" ->
  cell (parseHeader header) "svname" line <> "FRONTEND" ->
  Forall (row_complete (parseHeader header)) rows ->
  ParseHosts (header :: rows ++ [line])%list pool = Panic "index out of range".
Proof.
  intros Hp Hs Ht Epx Hb Hf Hc.
  destruct (parse_rows_complete (parseHeader header) pool rows hosts_start Hc)
    as (st & Hst & _ & _ & _); [by repeat split|].
  assert (Hrows : parse_rows (parseHeader header) pool (rows ++ [line]) hosts_start =
    Panic "index out of range").
  { revert Hst. generalize hosts_start. clear Hc. induction rows as [|r rows IH]; intros s0 Hst; simpl.
    - unfold parse_line. rewrite slice_get_cell by done. simpl. rewrite decide_True by done.
      rewrite slice_get_cell by done. simpl. rewrite !bool_decide_false by done. simpl.
      unfold slice_get. case_if; [done|]. by rewrite lookup_ge_None_2 by lia.
    - simpl in Hst. destruct (parse_line _ _ _ r); simpl in *; [by apply IH|done]. }
  unfold ParseHosts. destruct (rows ++ [line])%list eqn:E; [by destruct rows|].
  by rewrite Hrows.
Qed.

Lemma ParseHosts_truncated_row_panics_witness :
  ParseHosts (example_header :: example_rows ++ ["mysql_ro,db6"])%list "mysql_ro" =
    Panic "index out of range".
Proof.
  apply (ParseHosts_truncated_row_panics example_header "mysql_ro,db6" "mysql_ro");
    try (vm_compute; split; congruence); try (vm_compute; congruence).
  apply rows_completeb_sound. vm_compute. reflexivity.
Defined.

Section ReadProperties.
Context {URL : Type} (url_Path : URL -> string) (url_setPath : string -> URL -> URL)
  (url_String : URL -> string).

(** [csvCache] is created with an expiration of one second. *)
Definition csvCache : Cache string := cache_New Second.

(** An error answer, or an empty body, leaves the cache as it was; so only complete bodies are ever
    served from it. *)
Lemma Read_error_keeps_cache http_get now u c s e c' :
  Read url_Path url_setPath url_String http_get now u c = ((s, Some e), c') -> c' = c /\ s = "".
Proof.
  unfold Read. destruct (cache_Get _ _ _); [done|].
  destruct (http_get _); [case_decide|]; intros [= <- <- <-]; done.
Qed.

(** Once a read has asked HAProxy, the same address is answered from the cache for one second,
    whatever HAProxy would answer meanwhile. *)
Lemma Read_served_from_cache http_get http_get' now later u c csv c' :
  0 < now -> clock_ok later -> now <= later <= now + Second -> now + Second < 2 ^ 63 ->
  defaultExpiration c = Second ->
  cache_Get now (url_String (toCSVUrl url_Path url_setPath u)) c = None ->
  Read url_Path url_setPath url_String http_get now u c = ((csv, None), c') ->
  Read url_Path url_setPath url_String http_get' later u c' = ((csv, None), c').
Proof.
  intros Hn Hl Hle Hb Hd Hg. unfold Read. rewrite Hg.
  destruct (http_get _) as [body|]; [|done]. case_decide; [done|]. intros [= <- <-].
  rewrite cache_Get_SetDefault, Hd by (rewrite ?Hd; done).
  case_if; zbool; [lia|done].
Qed.
End ReadProperties.
