(* ===== verification/Proxysql.v ===== *)
(** * Package proxysql: the admin client and the servers of a hostgroup (pkg/proxysql)

    The database driver is an argument: [sql_Open] and [Ping] for connections, and the rows of the
    query on stats_mysql_connection_pool, each with the time at which it is read. *)
From S2P Require Import Prelude GoStrings GoFloat GoCache Config.

Open Scope string_scope.
Open Scope Z_scope.

Record MySQLConnectionPoolServer := mkServer {
  sv_Host : string;
  sv_Port : Z;
  sv_Status : string;
}.

Definition Server_Address (s : MySQLConnectionPoolServer) : string :=
  sv_Host s ++ ":" ++ Itoa (sv_Port s).

Section Client.
(** A connection handle. *)
Context {DB : Type}.

Record Client := mkClient {
  dbs : gmap string DB;
  defaultIgnoreServerTTL : Duration;
  ignoreServerCache : Cache bool;
}.

Definition NewClient (ttl : Duration) : Client := mkClient ∅ ttl (cache_New NoExpiration).

Definition set_ignoreServerCache (c : Client) (x : Cache bool) : Client :=
  mkClient (dbs c) (defaultIgnoreServerTTL c) x.

Context (sql_Open : string -> DB + error) (Ping : DB -> option error).

Definition proxysql_dsn (settings : ProxySQLSettings) (addr : string) : string :=
  px_User settings ++ ":" ++ px_Password settings ++ "@tcp(" ++ addr ++ ")/" ++
  ProxySQLDefaultDatabase ++ "?interpolateParams=true&timeout=500ms".

(** The loop of [GetDB] over the sorted addresses. *)
Fixpoint get_db (settings : ProxySQLSettings) (addrs : list string) (lastErr : option error)
    (c : Client) : (option DB * string * option error) * Client :=
  match addrs with
  | [] =>
      match lastErr with
      | Some e => ((None, "", Some e), c)
      | None => ((None, "", Some (Errorf "failed to get connection")), c)
      end
  | addr :: addrs' =>
      match dbs c !! addr with
      | Some db => ((Some db, addr, None), c)
      | None =>
          match sql_Open (proxysql_dsn settings addr) with
          | inr e => get_db settings addrs' (Some e) c
          | inl db =>
              match Ping db with
              | Some e => get_db settings addrs' (Some e) c
              | None =>
                  ((Some db, addr, None),
                   mkClient (<[addr := db]> (dbs c)) (defaultIgnoreServerTTL c)
                     (ignoreServerCache c))
              end
          end
      end
  end.

(** [GetDB]; [sort.Strings] sorts the addresses of the settings in place, which later calls repeat
    to no effect. *)
Definition GetDB (settings : ProxySQLSettings) (c : Client)
  : (option DB * string * option error) * Client :=
  get_db settings (sort_Strings (px_Addresses settings)) None c.

Definition CloseDB (addr : string) (c : Client) : Client :=
  mkClient (delete addr (dbs c)) (defaultIgnoreServerTTL c) (ignoreServerCache c).

Definition ignore_ttl (c : Client) (settings : ProxySQLSettings) : Duration :=
  if 0 <? px_IgnoreServerTTLSecs settings
  then wrap64 (px_IgnoreServerTTLSecs settings * Second)
  else defaultIgnoreServerTTL c.

(** The loop variables of [GetServers]: the servers, the addresses whose removal from the ignore
    cache is deferred, and that cache. *)
Record servers_state := mkServersState {
  ss_servers : list MySQLConnectionPoolServer;
  ss_deferred : list string;
  ss_cache : Cache bool;
}.

Definition pool_row : Type := Time * (MySQLConnectionPoolServer + error).

Definition scan_row (ttl : Duration) (st : servers_state) (r : pool_row)
  : servers_state + (servers_state * error) :=
  let '(now, row) := r in
  match row with
  | inr e => inr (st, e)
  | inl server =>
      if decide (sv_Status server = "ONLINE") then
        match cache_Get now (Server_Address server) (ss_cache st) with
        | Some _ => inl st
        | None => inl (mkServersState (ss_servers st ++ [server])%list (ss_deferred st) (ss_cache st))
        end
      else if decide (sv_Status server = "SHUNNED_REPLICATION_LAG") then
        inl (mkServersState (ss_servers st ++ [server])%list (Server_Address server :: ss_deferred st)
               (ss_cache st))
      else
        inl (mkServersState (ss_servers st) (ss_deferred st)
               (cache_Set now (Server_Address server) true ttl (ss_cache st)))
  end.

(** The deferred calls run last in, first out. *)
Definition run_deferred (l : list string) (x : Cache bool) : Cache bool :=
  foldl (fun x k => cache_Delete k x) x l.

Definition GetServers (query : list pool_row + error) (rows_Err : option error)
    (settings : ProxySQLSettings) (c : Client)
  : (list MySQLConnectionPoolServer * option error) * Client :=
  match query with
  | inr e => (([], Some e), c)
  | inl rows =>
      match range_loop (scan_row (ignore_ttl c settings)) rows
              (mkServersState [] [] (ignoreServerCache c)) with
      | inl st => ((ss_servers st, rows_Err),
                   set_ignoreServerCache c (run_deferred (ss_deferred st) (ss_cache st)))
      | inr (st, e) => (([], Some e),
                        set_ignoreServerCache c (run_deferred (ss_deferred st) (ss_cache st)))
      end
  end.
End Client.
Arguments Client DB : clear implicits.

(** ** Properties *)

Section Properties.
Context {DB : Type} (sql_Open : string -> DB + error) (Ping : DB -> option error).
Implicit Types (c : Client DB) (settings : ProxySQLSettings).

(** An address can be used: it is connected already, or opens and answers a ping. *)
Definition usable settings c (addr : string) : Prop :=
  is_Some (dbs c !! addr) \/
  exists db, sql_Open (proxysql_dsn settings addr) = inl db /\ Ping db = None.

Lemma get_db_first settings c addrs : forall lastErr,
  match get_db sql_Open Ping settings addrs lastErr c with
  | ((Some db, addr, None), c') =>
      exists before after, addrs = (before ++ addr :: after)%list /\
        Forall (fun a => ~ usable settings c a) before /\ usable settings c addr /\
        dbs c' = <[addr := db]> (dbs c)
  | ((None, _, Some _), c') => Forall (fun a => ~ usable settings c a) addrs /\ c' = c
  | _ => False
  end.
Proof.
  induction addrs as [|a addrs IH]; intros lastErr; simpl; [by destruct lastErr|].
  destruct (dbs c !! a) as [db|] eqn:Hdb.
  { exists [], addrs. repeat split; [constructor|left; eauto|by rewrite insert_id]. }
  assert (Hskip : forall lastErr', ~ usable settings c a ->
    match get_db sql_Open Ping settings addrs lastErr' c with
    | ((Some db, addr, None), c') =>
        exists before after, a :: addrs = (before ++ addr :: after)%list /\
          Forall (fun a => ~ usable settings c a) before /\ usable settings c addr /\
          dbs c' = <[addr := db]> (dbs c)
    | ((None, _, Some _), c') => Forall (fun a => ~ usable settings c a) (a :: addrs) /\ c' = c
    | _ => False
    end).
  { intros le Hu. specialize (IH le). destruct (get_db _ _ _ _ _ _) as [[[[db|] addr] [e|]] c']; try done.
    - destruct IH as (b & af & -> & Hb & Hus & Hd). exists (a :: b), af. split_and!; [done|by constructor|done|done].
    - destruct IH. split; [by constructor|done]. }
  destruct (sql_Open _) as [db|e] eqn:Ho; [destruct (Ping db) as [e|] eqn:Hp|].
  - apply Hskip. intros [[? ?]|(db' & ? & ?)]; congruence.
  - exists [], addrs. repeat split; [constructor|right; eauto].
  - apply Hskip. intros [[? ?]|(db' & ? & ?)]; congruence.
Qed.

(** [GetDB] connects to the smallest usable address in string order, remembers the connection
    under it, and fails only if no configured address is usable, in which case the client is
    unchanged. *)
Theorem GetDB_first_usable settings c :
  match GetDB sql_Open Ping settings c with
  | ((Some db, addr, None), c') =>
      addr ∈ px_Addresses settings /\ usable settings c addr /\
      (forall a, a ∈ px_Addresses settings -> usable settings c a -> str_sle addr a) /\
      dbs c' = <[addr := db]> (dbs c)
  | ((None, _, Some _), c') =>
      (forall a, a ∈ px_Addresses settings -> ~ usable settings c a) /\ c' = c
  | _ => False
  end.
Proof.
  unfold GetDB. pose proof (get_db_first settings c (sort_Strings (px_Addresses settings)) None) as H.
  pose proof (sort_Strings_sorted (px_Addresses settings)) as Hs.
  assert (Hin : forall a, a ∈ px_Addresses settings <-> a ∈ sort_Strings (px_Addresses settings))
    by (intros a; by rewrite sort_Strings_perm).
  destruct (get_db _ _ _ _ _ _) as [[[[db|] addr] [e|]] c']; try done.
  - destruct H as (b & af & E & Hb & Hu & Hd). rewrite E in Hs. repeat split; [|done| |done].
    + rewrite Hin, E. set_solver.
    + intros a Ha Hua. rewrite Hin, E, elem_of_app, elem_of_cons in Ha.
      rewrite Forall_forall in Hb. destruct Ha as [Ha|[->|Ha]].
      * exfalso. by apply (Hb a Ha).
      * unfold str_sle. apply str_ltb_irrefl.
      * apply StronglySorted_app_1_r in Hs. inversion_clear Hs as [|? ? _ Hf].
        rewrite Forall_forall in Hf. by apply Hf.
  - destruct H as [Hf ->]. split; [|done]. intros a. rewrite Hin. by rewrite Forall_forall in Hf; apply Hf.
Qed.
End Properties.

(** ** The servers of the hostgroup *)

Section Servers.
Context {DB : Type}.
Implicit Types (c : Client DB) (settings : ProxySQLSettings).

Notation ONLINE := "ONLINE".
Notation LAG := "SHUNNED_REPLICATION_LAG".

Definition unhealthy (s : MySQLConnectionPoolServer) : Prop :=
  sv_Status s <> ONLINE /\ sv_Status s <> LAG.

(** The address is found in the ignore cache at every time up to [T]. *)
Definition ignored_until (T : Time) (addr : string) (x : Cache bool) : Prop :=
  forall now, clock_ok now -> now <= T -> cache_Get now addr x = Some true.

Lemma ignored_until_Set T addr addr' now ttl x :
  0 < ttl -> 0 < now -> now + ttl < 2 ^ 63 ->
  (addr = addr' /\ T <= now + ttl) \/ (addr <> addr' /\ ignored_until T addr x) ->
  ignored_until T addr (cache_Set now addr' true ttl x).
Proof.
  intros Ht Hn Hb Hc now' Hok Hle. destruct Hc as [[-> HT]|[Hne Hi]].
  - rewrite cache_Get_Set_within by done. case_if; zbool; [lia|done].
  - rewrite cache_Get_Set_ne by done. by apply Hi.
Qed.

(** Rows read without error at clock readings for which an expiration can be represented. *)
Definition row_ok (ttl : Duration) (r : pool_row) : Prop :=
  0 < r.1 /\ r.1 + ttl < 2 ^ 63 /\ exists s, r.2 = inl s.

(** One row keeps an address ignored if it is read after the expiration was set. *)
Lemma scan_row_keeps_ignored T addr ttl st r :
  0 < ttl -> row_ok ttl r -> T <= r.1 + ttl -> ignored_until T addr (ss_cache st) ->
  exists st', scan_row ttl st r = inl st' /\ ignored_until T addr (ss_cache st').
Proof.
  intros Ht (Hn & Hb & s & Hs) HT Hi. destruct r as [now row]. simpl in *. subst row.
  unfold scan_row. repeat case_decide; [destruct (cache_Get _ _ _)|..]; eexists; split; try done.
  apply ignored_until_Set; try done. destruct (decide (addr = Server_Address s)); auto.
Qed.

Lemma scan_row_ok ttl st r :
  row_ok ttl r -> exists st', scan_row ttl st r = inl st'.
Proof.
  intros (_ & _ & s & Hs). destruct r as [now row]. simpl in *. subst. unfold scan_row.
  repeat case_decide; [destruct (cache_Get _ _ _)|..]; eauto.
Qed.

Lemma scan_rows_ok ttl rows : forall st,
  Forall (row_ok ttl) rows -> exists st', range_loop (scan_row ttl) rows st = inl st'.
Proof.
  induction rows as [|r rows IH]; intros st Hf; simpl; [eauto|].
  apply Forall_cons in Hf as [Hr Hf]. destruct (scan_row_ok ttl st r Hr) as [st' ->]. by apply IH.
Qed.

Lemma scan_rows_keep_ignored T addr ttl rows : forall st,
  0 < ttl -> Forall (row_ok ttl) rows -> Forall (fun r => T <= r.1 + ttl) rows ->
  ignored_until T addr (ss_cache st) ->
  exists st', range_loop (scan_row ttl) rows st = inl st' /\ ignored_until T addr (ss_cache st').
Proof.
  induction rows as [|r rows IH]; intros st Ht Hok HT Hi; simpl; [eauto|].
  apply Forall_cons in Hok as [Hr Hok]. apply Forall_cons in HT as [HTr HT].
  destruct (scan_row_keeps_ignored T addr ttl st r Ht Hr HTr Hi) as (st1 & -> & Hi1). by apply IH.
Qed.

(** Which servers one row adds: one that lags always, one that is ONLINE unless it is ignored at
    that time. *)
Lemma scan_row_servers ttl st now s st' :
  scan_row ttl st (now, inl s) = inl st' ->
  ss_servers st' = (ss_servers st ++
    if decide (sv_Status s = LAG \/
               (sv_Status s = ONLINE /\ cache_Get now (Server_Address s) (ss_cache st) = None))
    then [s] else [])%list /\
  ss_deferred st' =
    ((if decide (sv_Status s = LAG) then [Server_Address s] else []) ++ ss_deferred st)%list.
Proof.
  unfold scan_row. destruct (decide (sv_Status s = ONLINE)) as [E1|E1].
  - destruct (cache_Get _ _ _) eqn:G; intros [= <-]; simpl;
      rewrite (decide_False (P := sv_Status s = LAG)) by congruence.
    + rewrite decide_False by naive_solver congruence. by rewrite app_nil_r.
    + by rewrite decide_True by auto.
  - destruct (decide (sv_Status s = LAG)) as [E2|E2]; intros [= <-]; simpl.
    + by rewrite decide_True by auto.
    + rewrite decide_False by naive_solver. by rewrite app_nil_r.
Qed.

(** The rows of a call determine its servers: [in_result] of a row is decided at the time the row
    is read. *)
Lemma scan_rows_servers ttl rows : forall st st',
  range_loop (scan_row ttl) rows st = inl st' ->
  forall s, s ∈ ss_servers st' ->
    s ∈ ss_servers st \/
    exists before now after st1, rows = (before ++ (now, inl s) :: after)%list /\
      range_loop (scan_row ttl) before st = inl st1 /\
      (sv_Status s = LAG \/
       (sv_Status s = ONLINE /\ cache_Get now (Server_Address s) (ss_cache st1) = None)).
Proof.
  induction rows as [|r rows IH]; intros st st' Hl s Hs; simpl in Hl; [simplify_eq; auto|].
  destruct (scan_row ttl st r) as [st1|] eqn:E; [|done].
  destruct (IH st1 st' Hl s Hs) as [Hin|(b & now & af & st2 & -> & Hb & Hc)].
  2: { right. exists (r :: b), now, af, st2. simpl. by rewrite E. }
  destruct r as [now [s'|e]]; [|done]. destruct (scan_row_servers _ _ _ _ _ E) as [Hsv _].
  rewrite Hsv, elem_of_app in Hin. case_decide as D; [|rewrite elem_of_nil in Hin; tauto].
  rewrite list_elem_of_singleton in Hin. destruct Hin as [Hin| ->]; [auto|].
  right. by exists [], now, rows, st.
Qed.

Lemma scan_rows_monotone ttl rows : forall st st',
  range_loop (scan_row ttl) rows st = inl st' ->
  (forall s, s ∈ ss_servers st -> s ∈ ss_servers st') /\
  (forall a, a ∈ ss_deferred st -> a ∈ ss_deferred st').
Proof.
  induction rows as [|r rows IH]; intros st st' Hl; simpl in Hl; [by simplify_eq|].
  destruct (scan_row ttl st r) as [st1|] eqn:E; [|done].
  destruct r as [now [s|e]]; [|done]. apply IH in Hl as [H1 H2].
  destruct (scan_row_servers _ _ _ _ _ E) as [Hs Hd]. rewrite Hs in H1. rewrite Hd in H2. set_solver.
Qed.

(** Every lagging row is returned, and its address is removed from the ignore cache. *)
Lemma scan_rows_lagging ttl rows : forall st st',
  range_loop (scan_row ttl) rows st = inl st' ->
  forall now s, (now, inl s) ∈ rows -> sv_Status s = LAG ->
    s ∈ ss_servers st' /\ Server_Address s ∈ ss_deferred st'.
Proof.
  induction rows as [|r rows IH]; intros st st' Hl now s Hin HL; [by rewrite elem_of_nil in Hin|].
  simpl in Hl. destruct (scan_row ttl st r) as [st1|] eqn:E; [|done].
  rewrite elem_of_cons in Hin. destruct Hin as [<-|Hin]; [|by eapply IH].
  apply scan_rows_monotone in Hl as [H1 H2].
  destruct (scan_row_servers _ _ _ _ _ E) as [Hs Hd].
  rewrite decide_True in Hs by auto. rewrite decide_True in Hd by done.
  split; [apply H1; rewrite Hs|apply H2; rewrite Hd]; set_solver.
Qed.

(** Only lagging rows have their removal deferred. *)
Lemma scan_rows_deferred ttl rows : forall st st' a,
  range_loop (scan_row ttl) rows st = inl st' -> a ∈ ss_deferred st' ->
  a ∈ ss_deferred st \/
  exists now s, (now, inl s) ∈ rows /\ sv_Status s = LAG /\ a = Server_Address s.
Proof.
  induction rows as [|r rows IH]; intros st st' a Hl Ha; simpl in Hl; [simplify_eq; auto|].
  destruct (scan_row ttl st r) as [st1|] eqn:E; [|done]. destruct r as [now [s|e]]; [|done].
  destruct (IH _ _ _ Hl Ha) as [H|(n & s' & ? & ? & ?)].
  2: { right. exists n, s'. set_solver. }
  destruct (scan_row_servers _ _ _ _ _ E) as [_ Hd]. rewrite Hd in H.
  case_decide; [|by auto]. rewrite elem_of_app, list_elem_of_singleton in H. destruct H as [->|]; [|auto].
  right. exists now, s. set_solver.
Qed.

Lemma run_deferred_Get l : forall now k (x : Cache bool),
  cache_Get now k (run_deferred l x) = if decide (k ∈ l) then None else cache_Get now k x.
Proof.
  unfold run_deferred. induction l as [|a l IH]; intros now k x; [done|].
  cbn [foldl]. rewrite IH. destruct (decide (k ∈ l)); [by rewrite decide_True by set_solver|].
  destruct (decide (a = k)) as [->|Hne].
  - rewrite decide_True by set_solver. apply cache_Get_Delete.
  - rewrite decide_False by set_solver. by apply cache_Get_Delete_ne.
Qed.

(** A query without scan errors returns only ONLINE and SHUNNED_REPLICATION_LAG servers of the
    hostgroup, and all of the latter; afterwards no lagging address is in the ignore cache. *)
Theorem GetServers_statuses rows rows_Err settings c :
  Forall (row_ok (ignore_ttl c settings)) rows ->
  exists servers c', GetServers (inl rows) rows_Err settings c = ((servers, rows_Err), c') /\
    (forall s, s ∈ servers -> exists now, (now, inl s) ∈ rows /\
       (sv_Status s = ONLINE \/ sv_Status s = LAG)) /\
    (forall now s, (now, inl s) ∈ rows -> sv_Status s = LAG ->
       s ∈ servers /\ forall t, cache_Get t (Server_Address s) (ignoreServerCache c') = None).
Proof.
  intros Hok. unfold GetServers.
  destruct (scan_rows_ok _ rows (mkServersState [] [] (ignoreServerCache c)) Hok) as [st Hst].
  rewrite Hst. eexists _, _. split; [reflexivity|]. split.
  - intros s Hs. destruct (scan_rows_servers _ _ _ _ Hst s Hs) as [Hn|(b & now & af & st1 & -> & _ & Hc)].
    + by rewrite elem_of_nil in Hn.
    + exists now. split; [set_solver|]. tauto.
  - intros now s Hin HL. destruct (scan_rows_lagging _ _ _ _ Hst now s Hin HL) as [Hs Hd].
    split; [done|]. intros t. simpl. rewrite run_deferred_Get. by rewrite decide_True.
Qed.

(** A query that read an unhealthy row leaves its address ignored for the whole ignore time. *)
Lemma GetServers_starts_ignoring before t0 s0 after err settings c :
  let ttl := ignore_ttl c settings in
  let rows := (before ++ (t0, inl s0) :: after)%list in
  0 < ttl -> Forall (row_ok ttl) rows -> unhealthy s0 ->
  Forall (fun r : pool_row => t0 <= r.1) after ->
  (forall t s, (t, inl s) ∈ rows -> Server_Address s = Server_Address s0 -> sv_Status s <> LAG) ->
  exists servers x, GetServers (inl rows) err settings c =
      ((servers, err), set_ignoreServerCache c x) /\
    ignored_until (t0 + ttl) (Server_Address s0) x.
Proof.
  intros ttl rows Ht Hok [Hu1 Hu2] Hafter Hnl.
  assert (Hok' := Hok). apply Forall_app in Hok' as [Hokb Hoka].
  apply Forall_cons in Hoka as [Hok0 Hoka].
  destruct (scan_rows_ok ttl before (mkServersState [] [] (ignoreServerCache c)) Hokb) as [stb Hb].
  destruct (scan_row_ok ttl stb _ Hok0) as [st0 H0].
  assert (Hi0 : ignored_until (t0 + ttl) (Server_Address s0) (ss_cache st0)).
  { unfold scan_row in H0. rewrite !decide_False in H0 by done. simplify_eq/=.
    destruct Hok0 as (? & ? & _). simpl in *. apply ignored_until_Set; auto with lia. }
  destruct (scan_rows_keep_ignored (t0 + ttl) (Server_Address s0) ttl after st0) as (st1 & H1 & Hi1);
    try done. { eapply Forall_impl; [exact Hafter|]. intros r Hr; simpl in *; unfold Time in *; lia. }
  assert (Hrows : range_loop (scan_row ttl) rows (mkServersState [] [] (ignoreServerCache c)) = inl st1).
  { unfold rows. rewrite range_loop_app, Hb. cbn [range_loop]. by rewrite H0. }
  unfold GetServers. fold ttl. rewrite Hrows. eexists _, _. split; [reflexivity|].
  intros now Hnow Hle. rewrite run_deferred_Get, decide_False; [by apply Hi1|].
  intros Hd. destruct (scan_rows_deferred _ _ _ _ _ Hrows Hd) as [Hn|(n & s' & Hin & HL & E)].
  - by rewrite elem_of_nil in Hn.
  - by apply (Hnl n s' Hin).
Qed.

(** A server whose row had any other status (OFFLINE_SOFT, SHUNNED, ...) is not returned as
    ONLINE by a later query until its ignore time has passed, unless it was seen lagging in
    between; so a server that flaps back ONLINE is left out for the configured time. *)
Theorem GetServers_ignores_flapping before t0 s0 after err1 err2 settings c rows2 :
  let ttl := ignore_ttl c settings in
  let rows1 := (before ++ (t0, inl s0) :: after)%list in
  0 < ttl -> Forall (row_ok ttl) rows1 -> Forall (row_ok ttl) rows2 ->
  unhealthy s0 ->
  Forall (fun r : pool_row => t0 <= r.1) after ->
  Forall (fun r : pool_row => t0 <= r.1 <= t0 + ttl) rows2 ->
  (forall t s, (t, inl s) ∈ rows1 -> Server_Address s = Server_Address s0 -> sv_Status s <> LAG) ->
  forall s, s ∈ (GetServers (inl rows2) err2 settings
                   (GetServers (inl rows1) err1 settings c).2).1.1 ->
    Server_Address s = Server_Address s0 -> sv_Status s = LAG.
Proof.
  intros ttl rows1 Ht Hok1 Hok2 Hun Hafter Hw Hnl s Hs Ha.
  destruct (GetServers_starts_ignoring before t0 s0 after err1 settings c)
    as (sv & x & E1 & Hx); try done.
  unfold rows1 in Hs. rewrite E1 in Hs. unfold GetServers in Hs. simpl in Hs.
  change (ignore_ttl (set_ignoreServerCache c x) settings) with ttl in Hs.
  destruct (scan_rows_ok ttl rows2 (mkServersState [] [] x) Hok2) as [st2 H2].
  rewrite H2 in Hs. simpl in Hs.
  destruct (scan_rows_servers _ _ _ _ H2 s Hs) as [Hn|(b & now & af & st3 & E & Hb3 & Hc)];
    [by rewrite elem_of_nil in Hn|]. subst rows2.
  destruct Hc as [|[_ Hg]]; [done|]. exfalso.
  apply Forall_app in Hok2 as [Hokb2 Hok2]. apply Forall_app in Hw as [Hwb Hw].
  apply Forall_cons in Hok2 as [(Hp & Hlt & _) _]. apply Forall_cons in Hw as [Hw _]. simpl in *.
  destruct (scan_rows_keep_ignored (t0 + ttl) (Server_Address s0) ttl b (mkServersState [] [] x))
    as (st4 & H4 & Hi4); try done.
  { eapply Forall_impl; [exact Hwb|]. intros r Hr; simpl in *; unfold Time in *; lia. }
  rewrite Hb3 in H4. simplify_eq. rewrite Ha, Hi4 in Hg; [done|unfold clock_ok, int64_ok; lia|lia].
Qed.
End Servers.

(** *** Witnesses *)

Definition px_ex : ProxySQLSettings := mkProxySQLSettings ["proxy:6032"] "u" "p" 1 10.
Definition client_ex : Client unit := NewClient Second.
Definition row_ex (t : Z) (host status : string) : pool_row :=
  (t * Second, inl (mkServer host 3306 status)).

Lemma GetServers_statuses_witness :
  exists servers c', GetServers (inl [row_ex 1 "a" "ONLINE"; row_ex 1 "b" "SHUNNED_REPLICATION_LAG"])
      None px_ex client_ex = ((servers, None), c') /\
    (forall s, s ∈ servers -> exists now,
       (now, inl s) ∈ [row_ex 1 "a" "ONLINE"; row_ex 1 "b" "SHUNNED_REPLICATION_LAG"] /\
       (sv_Status s = "ONLINE" \/ sv_Status s = "SHUNNED_REPLICATION_LAG")) /\
    (forall now s,
       (now, inl s) ∈ [row_ex 1 "a" "ONLINE"; row_ex 1 "b" "SHUNNED_REPLICATION_LAG"] ->
       sv_Status s = "SHUNNED_REPLICATION_LAG" ->
       s ∈ servers /\ forall t, cache_Get t (Server_Address s) (ignoreServerCache c') = None).
Proof.
  apply (GetServers_statuses _ None px_ex client_ex).
  repeat (apply Forall_cons; split); [..|constructor];
    (split; [vm_compute; reflexivity|split; [vm_compute; reflexivity|eauto]]).
Defined.

Lemma GetServers_ignores_flapping_witness :
  (GetServers (inl [row_ex 5 "a" "ONLINE"; row_ex 5 "b" "ONLINE"]) None px_ex
    (GetServers (inl [row_ex 1 "a" "OFFLINE_SOFT"]) None px_ex client_ex).2).1.1 =
    [mkServer "b" 3306 "ONLINE"] /\
  forall s, s ∈ (GetServers (inl [row_ex 5 "a" "ONLINE"; row_ex 5 "b" "ONLINE"]) None px_ex
                   (GetServers (inl [row_ex 1 "a" "OFFLINE_SOFT"]) None px_ex client_ex).2).1.1 ->
    Server_Address s = "a:3306" -> sv_Status s = "SHUNNED_REPLICATION_LAG".
Proof.
  split; [vm_compute; reflexivity|].
  apply (GetServers_ignores_flapping [] Second (mkServer "a" 3306 "OFFLINE_SOFT") [] None None
           px_ex client_ex).
  - vm_compute; reflexivity.
  - constructor; [|constructor]. split; [vm_compute; reflexivity|split; [vm_compute; reflexivity|eauto]].
  - repeat (apply Forall_cons; split); [..|constructor];
      (split; [vm_compute; reflexivity|split; [vm_compute; reflexivity|eauto]]).
  - split; discriminate.
  - constructor.
  - repeat (apply Forall_cons; split); [..|constructor]; vm_compute; split; discriminate.
  - intros t s Hin _. apply list_elem_of_In in Hin. destruct Hin as [[= <- <-]|[]]. discriminate.
Defined.
