(* ===== verification/Vitess.v ===== *)
(** * Package vitess: the replica tablets of a keyspace (pkg/vitess)

    The HTTP client, the JSON decoder and [url.Values.Encode] are arguments. *)
From S2P Require Import Prelude GoStrings GoFloat Config.

Open Scope string_scope.
Open Scope Z_scope.

Definition defaultTimeout : Duration := 5 * Second.

Record TabletRealtimeStats := mkTabletRealtimeStats {
  HealthError : string;
}.

Record TabletStats := mkTabletStats {
  LastError : string;
  Realtime : option TabletRealtimeStats;
  Serving : bool;
  Up : bool;
}.

(** [topodata.TabletType] is an int32; REPLICA is 2. *)
Definition TabletType_REPLICA : Z := 2.

(** [Alias] is a pointer; [GetCell] of a nil alias is the empty string. *)
Record Tablet := mkTablet {
  tb_Alias : option string;
  tb_MysqlHostname : string;
  tb_MysqlPort : Z;
  tb_Stats : option TabletStats;
  tb_Type : Z;
}.

Definition GetCell (alias : option string) : string := default "" alias.

Definition HasValidCell (t : Tablet) (validCells : list string) : bool :=
  if (length validCells =? 0)%nat then true
  else existsb (fun cell => bool_decide (GetCell (tb_Alias t) = cell)) validCells.

Definition IsServeable (t : Tablet) : bool :=
  match tb_Stats t with
  | Some st => bool_decide (LastError st = "") && bool_decide (is_Some (Realtime st))
  | None => true
  end.

Definition IsValidReplica (t : Tablet) : bool :=
  if negb (tb_Type t =? TabletType_REPLICA) then false else IsServeable t.

Definition ParseCells (settings : VitessSettings) : list string :=
  filter (fun cell => cell <> "") (TrimSpace <$> vt_Cells settings).

Definition filterReplicaTablets (settings : VitessSettings) (tablets : list Tablet) : list Tablet :=
  let validCells := ParseCells settings in
  filter (fun t => HasValidCell t validCells && IsValidReplica t = true) tablets.

Section API.
(** [url.Values{"cells": v}.Encode()]; the answer of a GET with a timeout: status code, status line
    and body, or an error; and the decoder, which can leave part of the list and an error. *)
Context (encode_cells : string -> string)
  (http_get : Duration -> string -> (Z * string * (string + error)) + error)
  (json_Unmarshal : string -> list Tablet * option error).

Definition constructAPIURL (settings : VitessSettings) : string :=
  let api := TrimRight (vt_API settings) "/" in
  let api := if HasSuffix api "/api" then api else api ++ "/api" in
  let validCells := ParseCells settings in
  let apiUrl := api ++ "/keyspace/" ++ vt_Keyspace settings ++ "/tablets/" ++ vt_Shard settings in
  if (0 <? length validCells)%nat then apiUrl ++ "?" ++ encode_cells (Join validCells ",")
  else apiUrl.

Definition request_timeout (settings : VitessSettings) : Duration :=
  if vt_TimeoutSecs settings =? 0 then defaultTimeout
  else wrap64 (vt_TimeoutSecs settings * Second).

Definition ParseTablets (settings : VitessSettings) : list Tablet * option error :=
  let url := constructAPIURL settings in
  match http_get (request_timeout settings) url with
  | inr e => ([], Some e)
  | inl (code, status, body) =>
      if negb (code =? 200) then ([], Some (Errorf status))
      else
        match body with
        | inr e => ([], Some e)
        | inl b => let '(tablets, err) := json_Unmarshal b in
                   (filterReplicaTablets settings tablets, err)
        end
  end.
End API.

(** ** Properties *)

Lemma HasValidCell_spec t cells :
  HasValidCell t cells = true <-> cells = [] \/ GetCell (tb_Alias t) ∈ cells.
Proof.
  unfold HasValidCell. destruct cells as [|c cells]; [simpl; tauto|].
  assert (length (c :: cells) =? 0 = false)%nat as -> by done.
  rewrite existsb_exists. setoid_rewrite bool_decide_eq_true. setoid_rewrite <- list_elem_of_In.
  naive_solver.
Qed.

(** The tablets freno probes are exactly those of type REPLICA, in one of the configured cells
    when the configuration names any (blank names do not count), and, where vttablet reports stats,
    without error and with realtime stats; the order of the API's answer is kept. *)
Theorem filterReplicaTablets_spec settings tablets t :
  (t ∈ filterReplicaTablets settings tablets <->
   t ∈ tablets /\ tb_Type t = TabletType_REPLICA /\
   (Forall (fun c => TrimSpace c = "") (vt_Cells settings) \/
    exists c, c ∈ vt_Cells settings /\ TrimSpace c <> "" /\ GetCell (tb_Alias t) = TrimSpace c) /\
   (forall st, tb_Stats t = Some st -> LastError st = "" /\ is_Some (Realtime st))) /\
  filterReplicaTablets settings tablets `sublist_of` tablets.
Proof.
  split; [|unfold filterReplicaTablets; apply sublist_filter].
  unfold filterReplicaTablets. rewrite list_elem_of_filter, andb_true_iff, HasValidCell_spec.
  assert (Hnil : ParseCells settings = [] <-> Forall (fun c => TrimSpace c = "") (vt_Cells settings)).
  { unfold ParseCells. induction (vt_Cells settings) as [|c l IH]; [done|].
    rewrite fmap_cons, filter_cons, Forall_cons, <- IH. case_decide; naive_solver. }
  assert (Hin : forall x, x ∈ ParseCells settings <->
    exists c, c ∈ vt_Cells settings /\ TrimSpace c <> "" /\ x = TrimSpace c).
  { intros x. unfold ParseCells. rewrite list_elem_of_filter, list_elem_of_fmap. naive_solver. }
  assert (Hr : IsValidReplica t = true <-> tb_Type t = TabletType_REPLICA /\
    forall st, tb_Stats t = Some st -> LastError st = "" /\ is_Some (Realtime st)).
  { unfold IsValidReplica, IsServeable. destruct (Z.eqb_spec (tb_Type t) TabletType_REPLICA); simpl;
      [|naive_solver]. destruct (tb_Stats t) as [st|]; [|naive_solver].
    rewrite andb_true_iff, !bool_decide_eq_true. naive_solver. }
  rewrite Hnil, Hin, Hr. tauto.
Qed.
