(* ===== verification/Aggregate.v ===== *)
(** * Aggregating the probes of a cluster into one metric (pkg/throttle/mysql.go)

    [aggregateMySQLProbes] ranges over a Go map, whose order is unspecified: the model takes the
    probes as a list in the order of iteration, and [aggregate_order_irrelevant] shows what does not
    depend on it. *)
From S2P Require Import Prelude GoStrings GoFloat Base Mysql.

Open Scope string_scope.
Open Scope Z_scope.

(** One iteration over the probes: the state is the remaining [ignoreHostsCount] and
    [probeValues]. *)
Definition collect_probe (clusterName : string) (instanceResultsMap : InstanceMetricResultMap)
    (clusterInstanceHttpChecksMap : ClusterInstanceHttpCheckResultMap) (ignoreDialTcpErrors : bool)
    (st : Z * list float64) (probe : Probe) : (Z * list float64) + MetricResult :=
  let '(ignoreHostsCount, probeValues) := st in
  if default 0 (clusterInstanceHttpChecksMap !! MySQLHttpCheckHashKey clusterName (Key probe))
       =? StatusNotFound
  then inl st
  else
    match instanceResultsMap !! GetClusterInstanceKey clusterName (Key probe) with
    | None => inr NoMetricResultYet
    | Some instanceMetricResult =>
        let '(value, err) := MetricResult_Get instanceMetricResult in
        match err with
        | Some _ =>
            if ignoreDialTcpErrors && IsDialTcpError err then inl st
            else if 0 <? ignoreHostsCount then inl (ignoreHostsCount - 1, probeValues)
            else inr instanceMetricResult
        | None => inl (ignoreHostsCount, (probeValues ++ [value])%list)
        end
    end.

(** [goodToIgnore] for values sorted ascending. *)
Definition goodToIgnore (ignoreHostsThreshold : float64) (probeValues : list float64) : bool :=
  if (length probeValues <=? 1)%nat then false
  else if f_leb ignoreHostsThreshold f_zero then true
  else match last probeValues with
       | Some worstValue => f_gtb worstValue ignoreHostsThreshold
       | None => false
       end.

(** The loop that uses up the remaining tokens. *)
Fixpoint ignore_worst (ignoreHostsCount : nat) (ignoreHostsThreshold : float64)
    (probeValues : list float64) : list float64 :=
  match ignoreHostsCount with
  | O => probeValues
  | S n =>
      ignore_worst n ignoreHostsThreshold
        (if goodToIgnore ignoreHostsThreshold probeValues
         then take (length probeValues - 1) probeValues else probeValues)
  end.

Definition aggregateMySQLProbes (probes : list Probe) (clusterName : string)
    (instanceResultsMap : InstanceMetricResultMap)
    (clusterInstanceHttpChecksMap : ClusterInstanceHttpCheckResultMap)
    (ignoreHostsCount : Z) (ignoreDialTcpErrors : bool) (ignoreHostsThreshold : float64)
  : MetricResult :=
  match range_loop (collect_probe clusterName instanceResultsMap clusterInstanceHttpChecksMap
                      ignoreDialTcpErrors) probes (ignoreHostsCount, []) with
  | inr result => result
  | inl (remaining, probeValues) =>
      if (length probeValues =? 0)%nat then NoHostsMetricResult
      else
        let probeValues := ignore_worst (Z.to_nat remaining) ignoreHostsThreshold
                             (Float64s probeValues) in
        match last probeValues with
        | Some worstValue => NewSimpleMetricResult worstValue
        | None => NoHostsMetricResult
        end
  end.

(** ** What a probe contributes *)

Inductive reading :=
| Ignored                      (* a 404 of the HTTP check, or a dial error that is ignored *)
| Missing                      (* not collected yet *)
| Failed (m : MetricResult)    (* collected with an error *)
| Value (v : float64).

Section Aggregate.
Context (clusterName : string) (results : InstanceMetricResultMap)
  (checks : ClusterInstanceHttpCheckResultMap) (ignoreDial : bool).

Definition read_probe (p : Probe) : reading :=
  if default 0 (checks !! MySQLHttpCheckHashKey clusterName (Key p)) =? StatusNotFound then Ignored
  else
    match results !! GetClusterInstanceKey clusterName (Key p) with
    | None => Missing
    | Some m =>
        match MetricResult_Get m with
        | (v, None) => Value v
        | (_, Some e) => if ignoreDial && IsDialTcpError (Some e) then Ignored else Failed m
        end
    end.

(** The values reported, the failed results, and whether a probe has no result yet. *)
Definition values (ps : list Probe) : list float64 :=
  omap (fun p => match read_probe p with Value v => Some v | _ => None end) ps.
Definition failed (ps : list Probe) : list MetricResult :=
  omap (fun p => match read_probe p with Failed m => Some m | _ => None end) ps.
Definition failures (ps : list Probe) : Z := Z.of_nat (length (failed ps)).
Definition missing (ps : list Probe) : Prop := Exists (fun p => read_probe p = Missing) ps.

Abbreviation collect := (collect_probe clusterName results checks ignoreDial).

(** The body of the loop in terms of what the probe contributes. *)
Lemma collect_read n vs p :
  collect (n, vs) p =
    match read_probe p with
    | Ignored => inl (n, vs)
    | Missing => inr NoMetricResultYet
    | Failed m => if 0 <? n then inl (n - 1, vs) else inr m
    | Value v => inl (n, (vs ++ [v])%list)
    end.
Proof.
  unfold collect_probe, read_probe. destruct (_ =? _); [done|].
  destruct (results !! _) as [m|]; [|done]. destruct (MetricResult_Get m) as [v [e|]]; [|done].
  by destruct (_ && _).
Qed.

Lemma collect_ok ps : forall n vs,
  ~ missing ps -> failures ps <= Z.max 0 n ->
  range_loop collect ps (n, vs) = inl (n - failures ps, (vs ++ values ps)%list).
Proof.
  unfold missing, failures, failed, values.
  induction ps as [|p ps IH]; intros n vs Hm Hf; cbn [range_loop omap list_omap].
  { by rewrite app_nil_r, Z.sub_0_r. }
  rewrite Exists_cons in Hm. rewrite collect_read. cbn [omap list_omap] in Hf.
  destruct (read_probe p); cbn [length] in *; [apply IH; tauto|tauto| |].
  - case_if; zbool; [|lia]. rewrite IH; [|tauto|lia]. do 2 f_equal. lia.
  - rewrite IH by tauto. by rewrite <- app_assoc.
Qed.

Lemma collect_err ps : forall n vs,
  missing ps \/ Z.max 0 n < failures ps ->
  exists m, range_loop collect ps (n, vs) = inr m /\
    ((m = NoMetricResultYet /\ missing ps) \/ m ∈ failed ps).
Proof.
  unfold missing, failures, failed.
  induction ps as [|p ps IH]; intros n vs H; cbn [range_loop omap list_omap] in *.
  { rewrite Exists_nil in H. simpl in H. lia. }
  rewrite Exists_cons in H. setoid_rewrite Exists_cons. rewrite collect_read.
  destruct (read_probe p) eqn:E; cbn [length] in *.
  - destruct (IH n vs) as (m & -> & Hm); [intuition congruence|]. exists m. tauto.
  - exists NoMetricResultYet. tauto.
  - case_if; zbool.
    + destruct (IH (n - 1) vs) as (m' & -> & Hm'); [|exists m'; set_solver].
      destruct H as [[|]|]; [congruence|auto|right; lia].
    + exists m. set_solver.
  - destruct (IH n (vs ++ [v])%list) as (m & -> & Hm); [intuition congruence|]. exists m. tauto.
Qed.

#[export] Instance values_perm : Proper ((≡ₚ) ==> (≡ₚ)) values.
Proof. intros ps ps' H. unfold values. by rewrite H. Qed.
#[export] Instance failed_perm : Proper ((≡ₚ) ==> (≡ₚ)) failed.
Proof. intros ps ps' H. unfold failed. by rewrite H. Qed.
#[export] Instance failures_perm : Proper ((≡ₚ) ==> (=)) failures.
Proof. intros ps ps' H. unfold failures. by rewrite H. Qed.
#[export] Instance missing_perm : Proper ((≡ₚ) ==> iff) missing.
Proof.
  intros ps ps' H. unfold missing. rewrite !Exists_exists. by setoid_rewrite H.
Qed.
End Aggregate.

(** ** Ignoring the worst values *)

(** How many values may be ignored at all: those above the threshold, or any. *)
Definition excess (thr : float64) (vs : list float64) : nat :=
  if f_leb thr f_zero then length vs else length (filter (fun v => f_gtb v thr = true) vs).

(** How many are ignored with [n] tokens. *)
Definition dropped (n : nat) (thr : float64) (vs : list float64) : nat :=
  n `min` ((length vs - 1) `min` excess thr vs).

#[export] Instance excess_perm thr : Proper ((≡ₚ) ==> (=)) (excess thr).
Proof. intros l l' H. unfold excess. by destruct (f_leb thr f_zero); rewrite H. Qed.
#[export] Instance dropped_perm n thr : Proper ((≡ₚ) ==> (=)) (dropped n thr).
Proof. intros l l' H. unfold dropped. by rewrite (excess_perm thr l l' H), H. Qed.

Lemma f_gtb_mono x y thr : f_sle x y -> f_gtb x thr = true -> f_gtb y thr = true.
Proof.
  unfold f_gtb. rewrite f_sle_key, !f_ltb_key. intros Hle (Ht & Hx & Hlt).
  pose proof (key_lt_le_trans _ _ _ Hlt Hle). split_and!; [done| |done].
  destruct y as [[]|[]| |[]]; try done. destruct x as [[]|[]| |[]]; simpl in *; try done;
    destruct Hle as [Hle|Hle]; unfold key_lt in Hle; simpl in Hle; try lia; congruence.
Qed.

Lemma StronglySorted_snoc_le l x y :
  StronglySorted f_sle (l ++ [x]) -> y ∈ (l ++ [x])%list -> f_sle y x.
Proof.
  intros Hs. rewrite elem_of_app, list_elem_of_singleton. intros [Hy| ->]; [|done].
  eapply StronglySorted_app_1_elem_of; [exact Hs|done|set_solver].
Qed.

(** With sorted values the test on the worst one counts the ones above the threshold. *)
Lemma goodToIgnore_spec thr l x :
  StronglySorted f_sle (l ++ [x]) ->
  if goodToIgnore thr (l ++ [x])
  then l <> [] /\ excess thr (l ++ [x]) = S (excess thr l)
  else l = [] \/ excess thr (l ++ [x]) = 0%nat.
Proof.
  intros Hs. unfold goodToIgnore, excess. rewrite last_snoc, length_app. simpl.
  destruct (Nat.leb_spec (length l + 1) 1).
  { left. destruct l; simpl in *; [done|lia]. }
  assert (l <> []) by (intros ->; simpl in *; lia).
  destruct (f_leb thr f_zero); [split; [done|lia]|].
  destruct (f_gtb x thr) eqn:E.
  - split; [done|]. rewrite filter_app, length_app, filter_cons_True by done. simpl. lia.
  - right. apply length_zero_iff_nil, elem_of_nil_inv. intros y. rewrite list_elem_of_filter.
    intros [Hgt Hy]. rewrite (f_gtb_mono y x thr) in E; [done| |done]. by eapply StronglySorted_snoc_le.
Qed.

Lemma ignore_worst_dropped thr n : forall vs,
  StronglySorted f_sle vs -> vs <> [] ->
  ignore_worst n thr vs = take (length vs - dropped n thr vs) vs.
Proof.
  unfold dropped. induction n as [|n IH]; intros vs Hs Hne; cbn [ignore_worst].
  { simpl. by rewrite Nat.sub_0_r, firstn_all. }
  destruct vs as [|x l _] using rev_ind; [done|]. clear Hne.
  pose proof (goodToIgnore_spec thr l x Hs) as Hg. rewrite length_app. cbn [length].
  destruct (goodToIgnore thr (l ++ [x])).
  - destruct Hg as [Hl He]. rewrite He, Nat.add_sub, take_app_length.
    assert (length l <> 0%nat) by (by destruct l).
    rewrite IH by (eauto using StronglySorted_app_1_l). rewrite take_app_le by lia. f_equal. lia.
  - rewrite IH by (done || by destruct l). rewrite length_app. cbn [length]. f_equal.
    destruct Hg as [-> | ->]; simpl length; lia.
Qed.

(** ** The aggregate *)

Section Theorems.
Context (clusterName : string) (results : InstanceMetricResultMap)
  (checks : ClusterInstanceHttpCheckResultMap) (ignoreDial : bool).

Abbreviation aggregate ps n thr :=
  (aggregateMySQLProbes ps clusterName results checks n ignoreDial thr).
Abbreviation vals := (values clusterName results checks ignoreDial).
Abbreviation fails := (failures clusterName results checks ignoreDial).
Abbreviation bad := (failed clusterName results checks ignoreDial).
Abbreviation absent := (missing clusterName results checks ignoreDial).

(** The number of values ignored, after the failures took their tokens. *)
Definition ignored_values (ps : list Probe) (n : Z) (thr : float64) : nat :=
  dropped (Z.to_nat (n - fails ps)) thr (vals ps).

(** The three ways the aggregate is computed. *)
Lemma aggregate_error ps n thr :
  absent ps \/ Z.max 0 n < fails ps ->
  (aggregate ps n thr = NoMetricResultYet /\ absent ps) \/ aggregate ps n thr ∈ bad ps.
Proof.
  intros H. destruct (collect_err clusterName results checks ignoreDial ps n [] H) as (m & E & Hm).
  unfold aggregateMySQLProbes. rewrite E. intuition congruence.
Qed.

Lemma aggregate_no_hosts ps n thr :
  ~ absent ps -> fails ps <= Z.max 0 n -> vals ps = [] ->
  aggregate ps n thr = NoHostsMetricResult.
Proof.
  intros Hm Hf Hv. unfold aggregateMySQLProbes. rewrite collect_ok by done. by rewrite Hv.
Qed.

Lemma aggregate_value ps n thr :
  ~ absent ps -> fails ps <= Z.max 0 n -> vals ps <> [] ->
  exists v, aggregate ps n thr = simpleMetricResult v /\
    Float64s (vals ps) !! (length (vals ps) - 1 - ignored_values ps n thr)%nat = Some v.
Proof.
  intros Hm Hf Hv. unfold aggregateMySQLProbes, ignored_values. rewrite collect_ok by done.
  rewrite app_nil_l. assert (Hlen : length (vals ps) <> 0%nat) by (by destruct (vals ps)).
  destruct (Nat.eqb_spec (length (vals ps)) 0); [lia|].
  rewrite ignore_worst_dropped.
  2: apply Float64s_sorted.
  2: { intros E. apply (f_equal length) in E. rewrite length_Float64s in E. done. }
  rewrite (dropped_perm _ _ _ _ (Float64s_perm (vals ps))), length_Float64s.
  set (d := dropped _ _ _). assert (d <= length (vals ps) - 1)%nat by (unfold d, dropped; lia).
  destruct (lookup_lt_is_Some_2 (Float64s (vals ps)) (length (vals ps) - 1 - d)) as [v Hlk].
  { rewrite length_Float64s. lia. }
  exists v. split; [|done]. rewrite last_lookup, length_take, length_Float64s, lookup_take_lt by lia.
  replace (Init.Nat.pred _) with (length (vals ps) - 1 - d)%nat by lia. by rewrite Hlk.
Qed.

(** C4: the aggregate of a cluster, on every branch.  With a probe not collected yet, or more
    failures than may be ignored, it is an error result: "not collected yet" or the failure of a
    probe.  Otherwise it is "no hosts" when no probe has a value, and else the value at the position
    that leaves out the worst values: as many as there are tokens left after the failures, at most
    those above the threshold (any, with a threshold of 0 or less), and never the last one. *)
Theorem aggregateMySQLProbes_spec ps n thr :
  (absent ps \/ Z.max 0 n < fails ps ->
   (aggregate ps n thr = NoMetricResultYet /\ absent ps) \/ aggregate ps n thr ∈ bad ps) /\
  (~ absent ps -> fails ps <= Z.max 0 n -> vals ps = [] ->
   aggregate ps n thr = NoHostsMetricResult) /\
  (~ absent ps -> fails ps <= Z.max 0 n -> vals ps <> [] ->
   exists v, aggregate ps n thr = simpleMetricResult v /\
     Float64s (vals ps) !! (length (vals ps) - 1 - ignored_values ps n thr)%nat = Some v).
Proof.
  auto using aggregate_error, aggregate_no_hosts, aggregate_value.
Qed.

(** A failed result is never a plain value. *)
Lemma failed_is_error ps m : m ∈ bad ps -> exists v e, MetricResult_Get m = (v, Some e).
Proof.
  unfold failed. rewrite list_elem_of_omap. intros (p & _ & H). unfold read_probe in H.
  repeat case_match; simplify_eq; eauto.
Qed.

#[local] Instance absent_dec ps : Decision (absent ps).
Proof.
  assert (forall p, Decision (read_probe clusterName results checks ignoreDial p = Missing))
    by (intros p; destruct (read_probe _ _ _ _ p); [right|left|right|right]; congruence).
  unfold missing. apply _.
Qed.

(** When the aggregate is a value, the hypotheses of [aggregate_value] hold. *)
Lemma aggregate_value_inv ps n thr v :
  aggregate ps n thr = simpleMetricResult v ->
  ~ absent ps /\ fails ps <= Z.max 0 n /\
  Float64s (vals ps) !! (length (vals ps) - 1 - ignored_values ps n thr)%nat = Some v.
Proof.
  intros E.
  destruct (decide (absent ps)) as [Ha|Ha]; [|destruct (decide (fails ps <= Z.max 0 n)) as [Hf|Hf]].
  2: { destruct (decide (vals ps = [])) as [Hv|Hv].
       - by rewrite aggregate_no_hosts in E.
       - destruct (aggregate_value ps n thr) as (v' & E' & Hlk); [done..|].
         rewrite E in E'. simplify_eq. done. }
  all: exfalso; destruct (aggregate_error ps n thr) as [[E' _]|Hb]; [auto with lia|congruence|];
    rewrite E in Hb; destruct (failed_is_error _ _ Hb) as (? & ? & ?); done.
Qed.

(** In sorted values, an upward closed test that fails at position [j] holds for at most the values
    after it. *)
Lemma upward_closed_count (P : float64 -> bool) l j y :
  (forall x y, f_sle x y -> P x = true -> P y = true) ->
  StronglySorted f_sle l -> l !! j = Some y -> P y = false ->
  (length (filter (fun x => P x = true) l) <= length l - 1 - j)%nat.
Proof.
  intros Hmono Hs Hlk HP. rewrite <- (take_drop (S j) l) at 1. rewrite filter_app, length_app.
  rewrite (proj2 (length_zero_iff_nil (filter _ (take _ _)))).
  - etrans; [apply Nat.add_le_mono_l, length_filter|]. rewrite length_drop. lia.
  - apply elem_of_nil_inv. intros x. rewrite list_elem_of_filter. intros [Hx Hin].
    rewrite (take_S_r _ _ _ Hlk) in Hin. assert (f_sle x y) as Hle.
    { eapply StronglySorted_snoc_le; [|exact Hin]. rewrite <- (take_S_r _ _ _ Hlk).
      rewrite <- (take_drop (S j) l) in Hs. by eapply StronglySorted_app_1_l. }
    rewrite (Hmono _ _ Hle Hx) in HP. done.
Qed.

Lemma sorted_lookup_le l : forall i j x y,
  StronglySorted f_sle l -> l !! i = Some x -> l !! j = Some y -> (i <= j)%nat -> f_sle x y.
Proof.
  induction l as [|z l IH]; intros i j x y Hs Hi Hj Hij; [done|].
  apply StronglySorted_cons in Hs as [Hz Hs]. rewrite Forall_forall in Hz.
  destruct i as [|i], j as [|j]; simpl in *; simplify_eq; [done| |lia|].
  - apply Hz. by eapply list_elem_of_lookup_2.
  - apply (IH i j); [done..|lia].
Qed.

Lemma f_less_mono v x y : f_sle x y -> f_less v x = true -> f_less v y = true.
Proof. rewrite f_sle_key, !f_less_key. intros. by eapply key_lt_le_trans. Qed.

Lemma f_less_irrefl v : f_less v v = false.
Proof. apply not_true_is_false. rewrite f_less_key. apply key_lt_irrefl. Qed.


(** The order in which Go ranges over the probes does not matter for the metric: in any two
    orders the aggregate is the same value (up to the sign of a zero), or "no hosts" in both, or an
    error in both, and the error is "not collected yet" or the failure of one of the probes. *)
Theorem aggregate_order_irrelevant ps ps' n thr :
  ps ≡ₚ ps' ->
  (exists v v', aggregate ps n thr = simpleMetricResult v /\
     aggregate ps' n thr = simpleMetricResult v' /\ f_eqv v v') \/
  (aggregate ps n thr = NoHostsMetricResult /\ aggregate ps' n thr = NoHostsMetricResult) \/
  (forall r, r = aggregate ps n thr \/ r = aggregate ps' n thr ->
     (r = NoMetricResultYet /\ absent ps) \/ r ∈ bad ps).
Proof.
  intros Hp. pose proof (failures_perm clusterName results checks ignoreDial _ _ Hp) as Hff.
  pose proof (missing_perm clusterName results checks ignoreDial _ _ Hp) as Hmm.
  pose proof (values_perm clusterName results checks ignoreDial _ _ Hp) as Hvv.
  pose proof (failed_perm clusterName results checks ignoreDial _ _ Hp) as Hbb.
  destruct (decide (absent ps \/ Z.max 0 n < fails ps)) as [He|He].
  { right; right. intros r [-> | ->]; [by apply aggregate_error|].
    rewrite Hmm, Hbb. apply aggregate_error. by rewrite <- Hmm, <- Hff. }
  destruct (decide (vals ps = [])) as [Hv|Hv].
  { right; left. rewrite Hv in Hvv. apply Permutation_nil in Hvv.
    split; apply aggregate_no_hosts; try tauto; try lia. }
  left. destruct (aggregate_value ps n thr) as (v & E & Hlk); [tauto|lia|done|].
  destruct (aggregate_value ps' n thr) as (v' & E' & Hlk'); [tauto|lia| |].
  { intros Hv'. rewrite Hv' in Hvv. by apply Permutation_nil_r in Hvv. }
  exists v, v'. split; [done|]. split; [done|].
  assert (Hall : Forall2 f_eqv (Float64s (vals ps)) (Float64s (vals ps'))).
  { apply Float64s_unique; [apply Float64s_sorted..|]. by rewrite !Float64s_perm. }
  unfold ignored_values in *.
  rewrite <- Hff, <- (dropped_perm _ _ _ _ Hvv), <- (Permutation_length Hvv) in Hlk'.
  by eapply Forall2_lookup_lr.
Qed.
End Theorems.

(** *** Witnesses *)

Definition probe_at (host : string) : Probe :=
  mkProbe (mkInstanceKey host 3306) "" "" "" 0 0 0 "" 0.
Definition results_ex : InstanceMetricResultMap :=
  {[ mkClusterInstanceKey "c" (mkInstanceKey "a" 3306) := simpleMetricResult (f_of_Z 1);
     mkClusterInstanceKey "c" (mkInstanceKey "b" 3306) := simpleMetricResult (f_of_Z 7);
     mkClusterInstanceKey "c" (mkInstanceKey "d" 3306) := simpleMetricResult (f_of_Z 3);
     mkClusterInstanceKey "c" (mkInstanceKey "e" 3306) :=
       OtherMetricResult f_zero (Some (Errorf "lost connection")) ]}.
Definition probes_ex : list Probe := probe_at <$> ["a"; "b"; "d"; "e"].


Lemma aggregate_order_irrelevant_witness :
  let ps' := reverse probes_ex in
  (exists v v',
     aggregateMySQLProbes probes_ex "c" results_ex ∅ 2 false (f_of_Z 5) = simpleMetricResult v /\
     aggregateMySQLProbes ps' "c" results_ex ∅ 2 false (f_of_Z 5) = simpleMetricResult v' /\
     f_eqv v v') \/
  (aggregateMySQLProbes probes_ex "c" results_ex ∅ 2 false (f_of_Z 5) = NoHostsMetricResult /\
   aggregateMySQLProbes ps' "c" results_ex ∅ 2 false (f_of_Z 5) = NoHostsMetricResult) \/
  (forall r, r = aggregateMySQLProbes probes_ex "c" results_ex ∅ 2 false (f_of_Z 5) \/
             r = aggregateMySQLProbes ps' "c" results_ex ∅ 2 false (f_of_Z 5) ->
     (r = NoMetricResultYet /\ missing "c" results_ex ∅ false probes_ex) \/
     r ∈ failed "c" results_ex ∅ false probes_ex).
Proof.
  intros ps'. apply (aggregate_order_irrelevant "c" results_ex ∅ false).
  symmetry. apply reverse_Permutation.
Defined.
