(* ===== verification/Throttler.v ===== *)
(** * The throttler's state and its operations (pkg/throttle/throttler.go)

    Every operation takes the clock reading it uses.  Goroutines the code starts ([go f()]) are not
    run here: an operation returns what it starts, and Operate.v interleaves it.  The random numbers
    of [rand.Float64] are an argument.  Cached pointers ([*base.AppThrottle], ...) are owned by their
    cache and are modelled by their values. *)
From S2P Require Import Prelude GoStrings GoFloat GoCache Base Mysql Config Haproxy Proxysql Aggregate.

Open Scope string_scope.
Open Scope Z_scope.

(** ** Constants *)

Definition leaderCheckInterval : Duration := 1 * Second.
Definition mysqlCollectInterval : Duration := 50 * Millisecond.
Definition mysqlRefreshInterval : Duration := 10 * Second.
Definition mysqlAggreateInterval : Duration := 25 * Millisecond.
Definition mysqlHttpCheckInterval : Duration := 5 * Second.
Definition sharedDomainCollectInterval : Duration := 1 * Second.
Definition aggregatedMetricsExpiration : Duration := 5 * Second.
Definition recentAppsExpiration : Duration := Hour * 24.
Definition nonDeprioritizedAppMapExpiration : Duration := Second.
Definition DefaultSkipTTLMinutes : Z := 60.
Definition DefaultThrottleRatio : float64 := f_one.

(** ** State *)

Section State.
(** Connection handles of the ProxySQL client. *)
Context {DB : Type}.

Record Throttler := mkThrottler {
  isLeader : bool;
  mysqlInventory : MySQLInventory;
  mysqlClusterThresholds : Cache float64;
  aggregatedMetrics : Cache MetricResult;
  throttledApps : Cache AppThrottle;
  skippedHosts : Cache Time;
  recentApps : Cache Time;
  metricsHealth : Cache Time;
  shareDomainMetricHealth : Cache MetricHealth;
  memcacheClient : bool;
  memcachePath : string;
  proxysqlClient : option (Client DB);
  nonLowPriorityAppRequestsThrottled : Cache bool;
}.

Definition set_isLeader (b : bool) (t : Throttler) : Throttler :=
  mkThrottler b (mysqlInventory t) (mysqlClusterThresholds t) (aggregatedMetrics t)
    (throttledApps t) (skippedHosts t) (recentApps t) (metricsHealth t) (shareDomainMetricHealth t)
    (memcacheClient t) (memcachePath t) (proxysqlClient t) (nonLowPriorityAppRequestsThrottled t).
Definition set_mysqlInventory (x : MySQLInventory) (t : Throttler) : Throttler :=
  mkThrottler (isLeader t) x (mysqlClusterThresholds t) (aggregatedMetrics t)
    (throttledApps t) (skippedHosts t) (recentApps t) (metricsHealth t) (shareDomainMetricHealth t)
    (memcacheClient t) (memcachePath t) (proxysqlClient t) (nonLowPriorityAppRequestsThrottled t).
Definition set_mysqlClusterThresholds (x : Cache float64) (t : Throttler) : Throttler :=
  mkThrottler (isLeader t) (mysqlInventory t) x (aggregatedMetrics t)
    (throttledApps t) (skippedHosts t) (recentApps t) (metricsHealth t) (shareDomainMetricHealth t)
    (memcacheClient t) (memcachePath t) (proxysqlClient t) (nonLowPriorityAppRequestsThrottled t).
Definition set_aggregatedMetrics (x : Cache MetricResult) (t : Throttler) : Throttler :=
  mkThrottler (isLeader t) (mysqlInventory t) (mysqlClusterThresholds t) x
    (throttledApps t) (skippedHosts t) (recentApps t) (metricsHealth t) (shareDomainMetricHealth t)
    (memcacheClient t) (memcachePath t) (proxysqlClient t) (nonLowPriorityAppRequestsThrottled t).
Definition set_throttledApps (x : Cache AppThrottle) (t : Throttler) : Throttler :=
  mkThrottler (isLeader t) (mysqlInventory t) (mysqlClusterThresholds t) (aggregatedMetrics t)
    x (skippedHosts t) (recentApps t) (metricsHealth t) (shareDomainMetricHealth t)
    (memcacheClient t) (memcachePath t) (proxysqlClient t) (nonLowPriorityAppRequestsThrottled t).
Definition set_skippedHosts (x : Cache Time) (t : Throttler) : Throttler :=
  mkThrottler (isLeader t) (mysqlInventory t) (mysqlClusterThresholds t) (aggregatedMetrics t)
    (throttledApps t) x (recentApps t) (metricsHealth t) (shareDomainMetricHealth t)
    (memcacheClient t) (memcachePath t) (proxysqlClient t) (nonLowPriorityAppRequestsThrottled t).
Definition set_recentApps (x : Cache Time) (t : Throttler) : Throttler :=
  mkThrottler (isLeader t) (mysqlInventory t) (mysqlClusterThresholds t) (aggregatedMetrics t)
    (throttledApps t) (skippedHosts t) x (metricsHealth t) (shareDomainMetricHealth t)
    (memcacheClient t) (memcachePath t) (proxysqlClient t) (nonLowPriorityAppRequestsThrottled t).
Definition set_metricsHealth (x : Cache Time) (t : Throttler) : Throttler :=
  mkThrottler (isLeader t) (mysqlInventory t) (mysqlClusterThresholds t) (aggregatedMetrics t)
    (throttledApps t) (skippedHosts t) (recentApps t) x (shareDomainMetricHealth t)
    (memcacheClient t) (memcachePath t) (proxysqlClient t) (nonLowPriorityAppRequestsThrottled t).
Definition set_shareDomainMetricHealth (x : Cache MetricHealth) (t : Throttler) : Throttler :=
  mkThrottler (isLeader t) (mysqlInventory t) (mysqlClusterThresholds t) (aggregatedMetrics t)
    (throttledApps t) (skippedHosts t) (recentApps t) (metricsHealth t) x
    (memcacheClient t) (memcachePath t) (proxysqlClient t) (nonLowPriorityAppRequestsThrottled t).
Definition set_proxysqlClient (x : option (Client DB)) (t : Throttler) : Throttler :=
  mkThrottler (isLeader t) (mysqlInventory t) (mysqlClusterThresholds t) (aggregatedMetrics t)
    (throttledApps t) (skippedHosts t) (recentApps t) (metricsHealth t) (shareDomainMetricHealth t)
    (memcacheClient t) (memcachePath t) x (nonLowPriorityAppRequestsThrottled t).
Definition set_nonLowPriority (x : Cache bool) (t : Throttler) : Throttler :=
  mkThrottler (isLeader t) (mysqlInventory t) (mysqlClusterThresholds t) (aggregatedMetrics t)
    (throttledApps t) (skippedHosts t) (recentApps t) (metricsHealth t) (shareDomainMetricHealth t)
    (memcacheClient t) (memcachePath t) (proxysqlClient t) x.

(** ** Throttled apps *)

Definition UnthrottleApp (appName : string) (t : Throttler) : Throttler :=
  set_throttledApps (cache_Delete appName (throttledApps t)) t.

(** [ThrottleApp]: the entry it computes, then where it goes. *)
Definition throttle_entry (now : Time) (appName : string) (expireAt : Time) (ratio : float64)
    (t : Throttler) : AppThrottle :=
  match cache_Get now appName (throttledApps t) with
  | Some a =>
      mkAppThrottle (if negb (Time_IsZero expireAt) then expireAt else zero_time)
        (if f_geb ratio f_zero then ratio else Ratio a)
  | None => NewAppThrottle expireAt (if f_ltb ratio f_zero then DefaultThrottleRatio else ratio)
  end.

Definition ThrottleApp (now : Time) (appName : string) (expireAt : Time) (ratio : float64)
    (t : Throttler) : Throttler :=
  let appThrottle := throttle_entry now appName expireAt ratio t in
  if Time_IsZero expireAt then
    set_throttledApps (cache_Set now appName appThrottle (- 1) (throttledApps t)) t
  else if Time_Before now (ExpireAt appThrottle) then
    set_throttledApps (cache_Set now appName appThrottle DefaultExpiration (throttledApps t)) t
  else UnthrottleApp appName t.

(** The throttle is over although its entry has not been purged yet. *)
Definition throttle_expired (now : Time) (a : AppThrottle) : bool :=
  negb (Time_IsZero (ExpireAt a)) && Time_Before (ExpireAt a) now.

(** The loop of [IsAppThrottled] over its keys; [rand] gives the next random numbers. *)
Fixpoint throttled_keys (now : Time) (rand : nat -> float64) (keys : list string) (t : Throttler)
  : bool :=
  match keys with
  | [] => false
  | key :: keys' =>
      match cache_Get now key (throttledApps t) with
      | Some appThrottle =>
          if throttle_expired now appThrottle then throttled_keys now rand keys' t
          else if f_ltb (rand 0%nat) (Ratio appThrottle) then true
          else throttled_keys now (fun n => rand (S n)) keys' t
      | None => throttled_keys now rand keys' t
      end
  end.

Definition IsAppThrottled (now : Time) (rand : nat -> float64) (appName storeName : string)
    (t : Throttler) : bool :=
  throttled_keys now rand [appName ++ "/" ++ storeName; appName] t.

Definition ThrottledAppsSnapshot (now : Time) (t : Throttler) : gmap string (Item AppThrottle) :=
  cache_Items now (throttledApps t).

Definition ThrottledAppsMap (now : Time) (t : Throttler) : gmap string AppThrottle :=
  Object <$> cache_Items now (throttledApps t).

(** [expireThrottledApps]: the expired items of the snapshot it ranges over, and the whole loop when
    nothing comes in between.  It holds no lock: Operate.v interleaves the loop with other calls, so
    that an app can be unthrottled after the snapshot was taken. *)
Definition expired_apps (now : Time) (t : Throttler) : list string :=
  (filter (fun p => throttle_expired now (Object p.2) = true)
     (map_to_list (cache_Items now (throttledApps t)))).*1.

Definition expireThrottledApps (now : Time) (t : Throttler) : Throttler :=
  foldl (fun t appName => UnthrottleApp appName t) t (expired_apps now t).

(** ** Skipped hosts *)

Definition RecoverHost (hostName : string) (t : Throttler) : Throttler :=
  set_skippedHosts (cache_Delete hostName (skippedHosts t)) t.

Definition SkipHost (now : Time) (hostName : string) (expireAt : Time) (t : Throttler) : Throttler :=
  let expireAt := if Time_IsZero expireAt then Time_Add now (DefaultSkipTTLMinutes * Minute)
                  else expireAt in
  if Time_Before now expireAt then
    set_skippedHosts (cache_Set now hostName expireAt DefaultExpiration (skippedHosts t)) t
  else RecoverHost hostName t.

(** [expireSkippedHosts], likewise. *)
Definition expired_hosts (now : Time) (t : Throttler) : list string :=
  (filter (fun p => Time_Before (Object p.2) now = true)
     (map_to_list (cache_Items now (skippedHosts t)))).*1.

Definition expireSkippedHosts (now : Time) (t : Throttler) : Throttler :=
  foldl (fun t hostName => RecoverHost hostName t) t (expired_hosts now t).

Definition SkippedHostsMap (now : Time) (t : Throttler) : gmap string Time :=
  Object <$> cache_Items now (skippedHosts t).

(** ** Recent apps and metric health *)

Definition markRecentApp (now : Time) (appName remoteAddr : string) (t : Throttler) : Throttler :=
  set_recentApps (cache_Set now (appName ++ "/" ++ remoteAddr) now DefaultExpiration (recentApps t)) t.

Definition RecentAppsMap (now : Time) (t : Throttler) : gmap string RecentApp :=
  (fun i => NewRecentApp now (Object i)) <$> cache_Items now (recentApps t).

Definition markMetricHealthy (now : Time) (metricName : string) (t : Throttler) : Throttler :=
  set_metricsHealth (cache_Set now metricName now DefaultExpiration (metricsHealth t)) t.

Definition timeSinceMetricHealthy (now : Time) (metricName : string) (t : Throttler)
  : Duration * bool :=
  match cache_Get now metricName (metricsHealth t) with
  | Some lastOKTime => (Time_Sub now lastOKTime, true)
  | None => (0, false)
  end.

Definition metricsHealthSnapshot (now : Time) (t : Throttler) : MetricHealthMap :=
  (fun i => NewMetricHealth now (Object i)) <$> cache_Items now (metricsHealth t).

Definition getShareDomainSecondsSinceHealth (now : Time) (metricName : string) (t : Throttler) : Z :=
  match cache_Get now metricName (shareDomainMetricHealth t) with
  | Some metricHealth => SecondsSinceLastHealthy metricHealth
  | None => 0
  end.

(** [collectShareDomainMetricHealth]: [services] is the answer of [sharedDomainServicesFunc], in the
    order of iteration; [http_metrics] is the decoded answer of a service's metrics-health, or an
    error. *)
Definition collectShareDomainMetricHealth (now : Time) (services : list (string * string) + error)
    (http_metrics : string -> MetricHealthMap + error) (t : Throttler) : Throttler :=
  if negb (isLeader t) then t
  else
    match services with
    | inr _ => t
    | inl services =>
        if (length services =? 0)%nat then t
        else
          let aggregatedMetricHealth :=
            foldl (fun m (p : string * string) =>
                     match http_metrics ("http://" ++ p.2 ++ "/metrics-health") with
                     | inr _ => m
                     | inl other => Aggregate m other
                     end) ∅ services in
          set_shareDomainMetricHealth
            (foldl (fun c p => cache_SetDefault now p.1 p.2 c) (shareDomainMetricHealth t)
               (map_to_list aggregatedMetricHealth)) t
    end.

(** ** Metrics *)

Definition metric_name (clusterName : string) : string := "mysql/" ++ clusterName.

Definition getNamedMetric (now : Time) (metricName : string) (t : Throttler) : MetricResult :=
  match cache_Get now metricName (aggregatedMetrics t) with
  | Some metricResult => metricResult
  | None => NoSuchMetric
  end.

Definition getMySQLClusterMetrics (now : Time) (clusterName : string) (t : Throttler)
  : MetricResult * float64 :=
  match cache_Get now clusterName (mysqlClusterThresholds t) with
  | Some threshold => (getNamedMetric now (metric_name clusterName) t, threshold)
  | None => (NoSuchMetric, f_zero)
  end.

Definition aggregatedMetricsSnapshot (now : Time) (t : Throttler) : gmap string MetricResult :=
  Object <$> cache_Items now (aggregatedMetrics t).

(** [AppRequestMetricResult]; [metricResultFunc] is called only if the app is not denied. *)
Definition AppRequestMetricResult (now : Time) (rand : nat -> float64) (appName storeName : string)
    (metricResultFunc : unit -> MetricResult * float64) (denyApp : bool) (t : Throttler)
  : MetricResult * float64 :=
  if denyApp then (AppDeniedMetric, f_zero)
  else if IsAppThrottled now rand appName storeName t then (AppDeniedMetric, f_zero)
  else metricResultFunc tt.

(** [updateMySQLClusterProbes]. *)
Definition updateMySQLClusterProbes (clusterProbes : ClusterProbes) (t : Throttler) : Throttler :=
  let i := mysqlInventory t in
  set_mysqlInventory
    (mkMySQLInventory
       (<[cp_ClusterName clusterProbes := cp_InstanceProbes clusterProbes]> (ClustersProbes i))
       (<[cp_ClusterName clusterProbes := cp_IgnoreHostsCount clusterProbes]> (IgnoreHostsCount i))
       (<[cp_ClusterName clusterProbes := cp_IgnoreHostsThreshold clusterProbes]>
          (IgnoreHostsThreshold i))
       (InstanceKeyMetrics i) (ClusterInstanceHttpChecks i)) t.

(** The two messages of the collectors, as [Operate] handles them. *)
Definition receiveThrottleMetric (metric : MySQLThrottleMetric) (t : Throttler) : Throttler :=
  let i := mysqlInventory t in
  set_mysqlInventory
    (mkMySQLInventory (ClustersProbes i) (IgnoreHostsCount i) (IgnoreHostsThreshold i)
       (<[MySQLThrottleMetric_GetClusterInstanceKey metric := MySQLThrottleMetric_result metric]>
          (InstanceKeyMetrics i))
       (ClusterInstanceHttpChecks i)) t.

Definition receiveHttpCheck (check : MySQLHttpCheck) (t : Throttler) : Throttler :=
  let i := mysqlInventory t in
  set_mysqlInventory
    (mkMySQLInventory (ClustersProbes i) (IgnoreHostsCount i) (IgnoreHostsThreshold i)
       (InstanceKeyMetrics i)
       (<[MySQLHttpCheck_HashKey check := hc_CheckResult check]> (ClusterInstanceHttpChecks i))) t.

(** What [aggregateMySQLMetrics] starts for one cluster. *)
Inductive memcache_op :=
| MemcacheDelete (key : string)
| MemcacheSet (key value : string) (expiration : Z).

Definition aggregate_cluster (ignoreDialTcpErrors : bool) (i : MySQLInventory) (clusterName : string)
    (probes : list Probe) : MetricResult :=
  aggregateMySQLProbes probes clusterName (InstanceKeyMetrics i) (ClusterInstanceHttpChecks i)
    (default 0 (IgnoreHostsCount i !! clusterName)) ignoreDialTcpErrors
    (default f_zero (IgnoreHostsThreshold i !! clusterName)).

Definition memcache_entry (now : Time) (memcachePath metricName : string) (m : MetricResult)
  : memcache_op :=
  let memcacheKey := memcachePath ++ "/" ++ metricName in
  match MetricResult_Get m with
  | (_, Some _) => MemcacheDelete memcacheKey
  | (value, None) =>
      let epochMillis := Z.quot (Time_UnixNano now) 1000000 in
      MemcacheSet memcacheKey (Itoa epochMillis ++ ":" ++ format_f 6 value) 1
  end.

(** [aggregateMySQLMetrics]: the metrics that are stored by the goroutines it starts.  The probes of
    a cluster are visited in the order of [iterate]. *)
Definition aggregateMySQLMetrics (ignoreDialTcpErrors : bool) (iterate : Probes -> list Probe)
    (t : Throttler) : list (string * MetricResult) :=
  if negb (isLeader t) then []
  else
    (fun p => (metric_name p.1,
               aggregate_cluster ignoreDialTcpErrors (mysqlInventory t) p.1 (iterate p.2)))
      <$> map_to_list (ClustersProbes (mysqlInventory t)).

(** [go throttler.aggregatedMetrics.Set(...)]. *)
Definition storeAggregatedMetric (now : Time) (p : string * MetricResult) (t : Throttler) : Throttler :=
  set_aggregatedMetrics (cache_Set now p.1 p.2 DefaultExpiration (aggregatedMetrics t)) t.

(** ** Construction *)

Definition hasProxySQLStores (clusters : gmap string MySQLClusterSettings) : bool :=
  existsb (fun p => negb (ProxySQLSettings_IsEmpty (mc_ProxySQLSettings p.2))) (map_to_list clusters).

Definition NewThrottler (now : Time) (MemcacheServers : list string) (MemcachePath : string)
    (clusters : gmap string MySQLClusterSettings) : Throttler :=
  ThrottleApp now "abusing-app" (Time_Add now (Hour * 24 * 365 * 10)) DefaultThrottleRatio
    (mkThrottler false NewMySQLInventory (cache_New NoExpiration)
       (cache_New aggregatedMetricsExpiration) (cache_New NoExpiration) (cache_New NoExpiration)
       (cache_New recentAppsExpiration) (cache_New NoExpiration)
       (cache_New (5 * sharedDomainCollectInterval)) (0 <? length MemcacheServers)%nat MemcachePath
       (if hasProxySQLStores clusters then Some (NewClient mysqlRefreshInterval) else None)
       (cache_New nonDeprioritizedAppMapExpiration)).
End State.
Arguments Throttler DB : clear implicits.

(** ** Properties *)

Section Properties.
Context {DB : Type}.
Implicit Types (t : Throttler DB) (now later : Time).

(** The caches are as [NewThrottler] created them, and the caches of throttled apps, skipped hosts,
    thresholds and metric health hold no entry with an expiration. *)
Record throttler_ok t : Prop := {
  ok_apps : never_expires (throttledApps t);
  ok_hosts : never_expires (skippedHosts t);
  ok_thresholds : never_expires (mysqlClusterThresholds t);
  ok_health : never_expires (metricsHealth t);
  ok_aggregated : defaultExpiration (aggregatedMetrics t) = aggregatedMetricsExpiration;
  ok_share : defaultExpiration (shareDomainMetricHealth t) = 5 * sharedDomainCollectInterval;
  ok_lowprio : defaultExpiration (nonLowPriorityAppRequestsThrottled t) =
               nonDeprioritizedAppMapExpiration;
}.

Lemma expireThrottledApps_purge now t :
  expireThrottledApps now t =
    set_throttledApps (cache_purge (throttle_expired now) now (throttledApps t)) t.
Proof.
  unfold expireThrottledApps, expired_apps, cache_purge.
  generalize (map_to_list (cache_Items now (throttledApps t))).
  intros l. revert t. induction l as [|p l IH]; intros t; [by destruct t|]. rewrite filter_cons.
  case_decide as E; cbn [foldl fmap list_fmap]; rewrite IH; [by rewrite E|].
  by destruct (throttle_expired _ _).
Qed.

Lemma expireSkippedHosts_purge now t :
  expireSkippedHosts now t =
    set_skippedHosts (cache_purge (fun e => Time_Before e now) now (skippedHosts t)) t.
Proof.
  unfold expireSkippedHosts, expired_hosts, cache_purge.
  generalize (map_to_list (cache_Items now (skippedHosts t))).
  intros l. revert t. induction l as [|p l IH]; intros t; [by destruct t|]. rewrite filter_cons.
  case_decide as E; cbn [foldl fmap list_fmap]; rewrite IH; [by rewrite E|].
  by destruct (Time_Before _ _).
Qed.

Lemma ok_ThrottleApp now app e r t : throttler_ok t -> throttler_ok (ThrottleApp now app e r t).
Proof.
  intros []. unfold ThrottleApp, UnthrottleApp. repeat case_if; split; simpl; auto with freno.
Qed.

Lemma ok_NewThrottler now ms mp cl : throttler_ok (NewThrottler now ms mp cl : Throttler DB).
Proof. apply ok_ThrottleApp. split; try done; apply never_expires_New. Qed.

Lemma ok_UnthrottleApp app t : throttler_ok t -> throttler_ok (UnthrottleApp app t).
Proof. intros []. split; simpl; auto with freno. Qed.

Lemma ok_RecoverHost h t : throttler_ok t -> throttler_ok (RecoverHost h t).
Proof. intros []. split; simpl; auto with freno. Qed.

Lemma ok_SkipHost now h e t : throttler_ok t -> throttler_ok (SkipHost now h e t).
Proof.
  intros Ho. unfold SkipHost. case_if; [|case_if]; [..|by apply ok_RecoverHost];
    repeat case_if; try (by apply ok_RecoverHost); destruct Ho; split; simpl; auto with freno.
Qed.

Lemma ok_expireThrottledApps now t : throttler_ok t -> throttler_ok (expireThrottledApps now t).
Proof. intros []. rewrite expireThrottledApps_purge. split; simpl; auto with freno. Qed.

Lemma ok_expireSkippedHosts now t : throttler_ok t -> throttler_ok (expireSkippedHosts now t).
Proof. intros []. rewrite expireSkippedHosts_purge. split; simpl; auto with freno. Qed.

Lemma ok_markMetricHealthy now m t : throttler_ok t -> throttler_ok (markMetricHealthy now m t).
Proof. intros []. split; simpl; auto with freno. Qed.

Lemma ok_markRecentApp now a r t : throttler_ok t -> throttler_ok (markRecentApp now a r t).
Proof. intros []. split; simpl; auto with freno. Qed.

Lemma ok_storeAggregatedMetric now p t : throttler_ok t -> throttler_ok (storeAggregatedMetric now p t).
Proof. intros []. split; simpl; auto with freno. Qed.

Lemma foldl_SetDefault_expiration {A} now (l : list (string * A)) : forall c : Cache A,
  defaultExpiration (foldl (fun c p => cache_SetDefault now p.1 p.2 c) c l) = defaultExpiration c.
Proof. induction l as [|p l IH]; intros c; [done|]. cbn [foldl]. by rewrite IH. Qed.

Lemma ok_collectShareDomain now s h t :
  throttler_ok t -> throttler_ok (collectShareDomainMetricHealth now s h t).
Proof.
  intros Ho. unfold collectShareDomainMetricHealth. destruct (isLeader t); simpl; [|done].
  destruct s as [s|]; [|done]. destruct (_ =? _)%nat; [done|]. destruct Ho. split; simpl; try done.
  by rewrite foldl_SetDefault_expiration.
Qed.

#[local] Hint Resolve ok_ThrottleApp ok_UnthrottleApp ok_RecoverHost ok_SkipHost
  ok_expireThrottledApps ok_expireSkippedHosts ok_markMetricHealthy ok_markRecentApp
  ok_storeAggregatedMetric ok_collectShareDomain : freno.

(** The decision for one key does not look at other keys, and one live entry with every draw below
    its ratio decides. *)
Lemma throttled_keys_live now rand keys t key a :
  key ∈ keys -> cache_Get now key (throttledApps t) = Some a -> throttle_expired now a = false ->
  (forall n, f_ltb (rand n) (Ratio a) = true) -> throttled_keys now rand keys t = true.
Proof.
  intros Hin Hg He. revert rand. induction keys as [|k keys IH]; intros rand Hr; [by rewrite elem_of_nil in Hin|].
  simpl. rewrite elem_of_cons in Hin. destruct Hin as [<-|Hin].
  - by rewrite Hg, He, Hr.
  - destruct (cache_Get now k _); [|by apply IH]. repeat case_if; auto.
Qed.

(** Entries that are absent or over do not count. *)
Lemma throttled_keys_ext now keys t t' : forall rand,
  (forall key, key ∈ keys ->
     match cache_Get now key (throttledApps t), cache_Get now key (throttledApps t') with
     | Some a, Some a' => a = a'
     | Some a, None | None, Some a => throttle_expired now a = true
     | None, None => True
     end) ->
  throttled_keys now rand keys t = throttled_keys now rand keys t'.
Proof.
  induction keys as [|k keys IH]; intros rand H; [done|]. simpl.
  assert (IH' : forall rand, throttled_keys now rand keys t = throttled_keys now rand keys t').
  { intros r. apply IH. intros key Hk. apply H. by right. }
  specialize (H k (list_elem_of_here _ _)).
  destruct (cache_Get now k (throttledApps t)), (cache_Get now k (throttledApps t')); subst;
    rewrite ?H; auto. by rewrite !IH'.
Qed.

(** The purging of expired throttles every five seconds is invisible to the apps: at any time
    from then on [IsAppThrottled] answers as if it had not run. *)
Theorem expireThrottledApps_invisible now later rand appName storeName t :
  throttler_ok t -> now <= later ->
  IsAppThrottled later rand appName storeName (expireThrottledApps now t) =
  IsAppThrottled later rand appName storeName t.
Proof.
  intros Ho Hle. unfold IsAppThrottled. symmetry. apply throttled_keys_ext. intros key _.
  rewrite expireThrottledApps_purge. simpl. rewrite cache_purge_Get by apply Ho.
  destruct (cache_Get later key (throttledApps t)) as [a|]; [|done].
  destruct (throttle_expired now a) eqn:E; [|done].
  unfold throttle_expired, Time_Before in *. zbool. apply andb_true_iff. split; [by apply negb_true_iff|].
  by apply Z.ltb_lt; lia.
Qed.

Lemma throttle_entry_ExpireAt now app e r t : ExpireAt (throttle_entry now app e r t) = e.
Proof.
  unfold throttle_entry. destruct (cache_Get _ _ _); [|done]. simpl.
  unfold Time_IsZero. destruct (Z.eqb_spec e zero_time); simpl; congruence.
Qed.

(** What [ThrottleApp] leaves in the cache under the name it throttles. *)
Lemma ThrottleApp_Get now later app e r t :
  throttler_ok t ->
  cache_Get later app (throttledApps (ThrottleApp now app e r t)) =
    if Time_IsZero e || Time_Before now e then Some (throttle_entry now app e r t) else None.
Proof.
  intros Ho. unfold ThrottleApp. rewrite throttle_entry_ExpireAt. destruct (Time_IsZero e); simpl.
  { apply cache_Get_Set_forever. by left. }
  destruct (Time_Before now e); simpl; [|apply cache_Get_Delete].
  apply cache_Get_Set_forever. right. split; [done|]. apply Ho.
Qed.

Lemma ThrottleApp_Get_ne now later app k e r t :
  app <> k ->
  cache_Get later k (throttledApps (ThrottleApp now app e r t)) = cache_Get later k (throttledApps t).
Proof.
  intros Hne. unfold ThrottleApp, UnthrottleApp. repeat case_if; simpl;
    by rewrite ?cache_Get_Set_ne, ?cache_Get_Delete_ne.
Qed.

Lemma elem_of_expired_apps now app t :
  app ∈ expired_apps now t <->
  exists i, items (throttledApps t) !! app = Some i /\ item_expired now i = false /\
    throttle_expired now (Object i) = true.
Proof.
  unfold expired_apps. rewrite list_elem_of_fmap. split.
  - intros ([k i] & -> & [He Hin]%list_elem_of_filter). apply elem_of_map_to_list, cache_Items_lookup in Hin as [? ?].
    by exists i.
  - intros (i & Hi & Hx & He). exists (app, i). split; [done|]. apply list_elem_of_filter. split; [done|].
    by apply elem_of_map_to_list, cache_Items_lookup.
Qed.

(** The ratio a throttle of [app] asks for: the one given, or, when it is negative, the one of the
    throttle in the cache, or 1. *)
Definition asks_ratio now app (ratio : float64) t (share : float64) : Prop :=
  (f_geb ratio f_zero = true /\ share = ratio) \/
  (f_geb ratio f_zero = false /\ f_ltb ratio f_zero = true /\
   share = match cache_Get now app (throttledApps t) with Some a => Ratio a | None => f_one end).

Lemma f_geb_not_ltb x : f_geb x f_zero = true -> f_ltb x f_zero = false.
Proof.
  unfold f_geb. rewrite f_leb_key. intros (_ & Hx & Hle). apply not_true_is_false. rewrite f_ltb_key.
  intros (_ & _ & Hlt). rewrite key_le_not_lt in Hle. done.
Qed.

Lemma throttle_entry_asked now app e ratio t share :
  asks_ratio now app ratio t share -> throttle_entry now app e ratio t = mkAppThrottle e share.
Proof.
  intros Hr. pose proof (throttle_entry_ExpireAt now app e ratio t) as He. revert He. unfold throttle_entry.
  destruct Hr as [[Hr ->]|(Hr & Hr' & ->)]; destruct (cache_Get _ _ _) as [a|]; rewrite ?Hr, ?Hr'; simpl.
  - by intros ->.
  - intros _. by rewrite f_geb_not_ltb.
  - by intros ->.
  - done.
Qed.

(** An entry of the app that is not over decides: the app is throttled on a store whenever every draw
    is below its ratio; without an entry for that store, exactly when the first draw is. *)
Lemma entry_decides later app store rand t a :
  cache_Get later app (throttledApps t) = Some a -> throttle_expired later a = false ->
  ((forall n, f_ltb (rand n) (Ratio a) = true) -> IsAppThrottled later rand app store t = true) /\
  (cache_Get later (app ++ "/" ++ store) (throttledApps t) = None ->
   IsAppThrottled later rand app store t = f_ltb (rand 0%nat) (Ratio a)).
Proof.
  intros Hg He. unfold IsAppThrottled. split.
  - intros Hr. eapply (throttled_keys_live _ _ _ _ app a); [set_solver|done..].
  - intros Hn. cbn [throttled_keys]. rewrite Hn, Hg, He. by destruct (f_ltb _ _).
Qed.

(** Throttling or unthrottling one name has no effect on other apps and stores; and a throttle
    with an expiry in the past lifts the throttle of that name at once. *)
Theorem ThrottleApp_isolated now later name expireAt ratio app store rand t :
  throttler_ok t ->
  name <> app -> name <> app ++ "/" ++ store ->
  IsAppThrottled later rand app store (ThrottleApp now name expireAt ratio t) =
    IsAppThrottled later rand app store t /\
  IsAppThrottled later rand app store (UnthrottleApp name t) = IsAppThrottled later rand app store t /\
  (Time_IsZero expireAt = false -> expireAt <= now ->
   ThrottleApp now name expireAt ratio t = UnthrottleApp name t).
Proof.
  intros Ho H1 H2. unfold IsAppThrottled. split_and!.
  - apply throttled_keys_ext. intros key Hk. rewrite ThrottleApp_Get_ne by set_solver.
    by destruct (cache_Get _ _ _).
  - apply throttled_keys_ext. intros key Hk. simpl. rewrite cache_Get_Delete_ne by set_solver.
    by destruct (cache_Get _ _ _).
  - intros Hz Hle. unfold ThrottleApp. rewrite throttle_entry_ExpireAt, Hz. unfold Time_Before.
    by rewrite (proj2 (Z.ltb_ge _ _)) by lia.
Qed.

(** *** Skipped hosts *)

(** A skipped host stays in the map of skipped hosts through every purge up to its expiry (one
    hour after the call when none is given), and the first purge after it removes the host. *)
Theorem SkipHost_until_expiry now host expireAt at_ later t :
  throttler_ok t ->
  let e := if Time_IsZero expireAt then now + 60 * Minute else expireAt in
  now < e ->
  cache_Get later host (skippedHosts (SkipHost now host expireAt t)) = Some e /\
  cache_Get later host (skippedHosts (expireSkippedHosts at_ (SkipHost now host expireAt t))) =
    (if e <? at_ then None else Some e) /\
  (forall other, other <> host ->
     cache_Get later other (skippedHosts (SkipHost now host expireAt t)) =
     cache_Get later other (skippedHosts t)).
Proof.
  intros Ho e He.
  assert (E : SkipHost now host expireAt t =
              set_skippedHosts (cache_Set now host e DefaultExpiration (skippedHosts t)) t).
  { unfold SkipHost, Time_Before. fold e.
    change (if Time_IsZero expireAt then _ else expireAt) with e. by rewrite (proj2 (Z.ltb_lt _ _) He). }
  assert (G : forall l, cache_Get l host (skippedHosts (SkipHost now host expireAt t)) = Some e).
  { intros l. rewrite E. apply cache_Get_Set_forever. right. split; [done|]. apply Ho. }
  split_and!; [apply G| |].
  - rewrite expireSkippedHosts_purge. simpl. rewrite cache_purge_Get; [by rewrite G|].
    apply (ok_SkipHost now host expireAt t Ho).
  - intros other Hne. rewrite E. simpl. by rewrite cache_Get_Set_ne.
Qed.

(** *** Share domains *)

Lemma foldl_SetDefault_Get {A} now later (l : list (string * A)) k : forall c : Cache A,
  0 < defaultExpiration c -> 0 < now -> clock_ok later -> now + defaultExpiration c < 2 ^ 63 ->
  later <= now + defaultExpiration c -> NoDup l.*1 ->
  cache_Get later k (foldl (fun c p => cache_SetDefault now p.1 p.2 c) c l) =
    match list_to_map (M := gmap string A) l !! k with
    | Some x => Some x
    | None => cache_Get later k c
    end.
Proof.
  induction l as [|[j x] l IH]; intros c Hd Hn Hl Hb Hle Hnd; csimpl in *; [by rewrite lookup_empty|].
  apply NoDup_cons in Hnd as [Hj Hnd]. rewrite IH by done.
  destruct (decide (j = k)) as [->|Hne].
  - rewrite lookup_insert_eq, (not_elem_of_list_to_map_1 l k) by done.
    unfold cache_SetDefault. rewrite cache_Get_SetDefault by done. case_if; zbool; [lia|done].
  - rewrite lookup_insert_ne by done. unfold cache_SetDefault. by rewrite cache_Get_Set_ne.
Qed.

(** The seconds since healthy that a list of services reports for a metric: the worst answer. *)
Definition worst_seconds (answers : list MetricHealthMap) (metric : string) : option Z :=
  foldl (fun acc m => union_with (fun a b => Some (Z.max a b)) acc (health_seconds m metric))
    None answers.

Lemma aggregated_worst (http : string -> MetricHealthMap + error) (services : list (string * string))
    metric :
  health_seconds
    (foldl (fun m (p : string * string) =>
              match http ("http://" ++ p.2 ++ "/metrics-health") with
              | inr _ => m | inl other => Aggregate m other end) ∅ services) metric =
  worst_seconds
    (omap (fun p : string * string =>
             match http ("http://" ++ p.2 ++ "/metrics-health") with
             | inl m => Some m | inr _ => None end) services) metric.
Proof.
  unfold worst_seconds. change (@None Z) with (health_seconds ∅ metric).
  generalize (∅ : MetricHealthMap). induction services as [|p l IH]; intros m; [done|].
  cbn [foldl omap list_omap]. destruct (http _) as [other|]; [|apply IH].
  cbn [foldl]. rewrite IH. by rewrite Aggregate_seconds.
Qed.

(** After a leader has polled the services of its share domain, the seconds used for throttling
    are, for five seconds, the worst any answering service reported for the metric; services that
    do not answer do not count, and a metric nobody reports keeps what was known. *)
Theorem collectShareDomain_worst now later services http metric t :
  throttler_ok t -> isLeader t = true -> services <> [] ->
  0 < now -> clock_ok later -> later <= now + 5 * sharedDomainCollectInterval ->
  now + 5 * sharedDomainCollectInterval < 2 ^ 63 ->
  getShareDomainSecondsSinceHealth later metric
    (collectShareDomainMetricHealth now (inl services) http t) =
  match worst_seconds
          (omap (fun p : string * string =>
                   match http ("http://" ++ p.2 ++ "/metrics-health") with
                   | inl m => Some m | inr _ => None end) services) metric with
  | Some seconds => seconds
  | None => getShareDomainSecondsSinceHealth later metric t
  end.
Proof.
  intros Ho HL Hs Hn Hl Hle Hb. unfold getShareDomainSecondsSinceHealth, collectShareDomainMetricHealth.
  rewrite HL. simpl. destruct (Nat.eqb_spec (length services) 0) as [E|E]; [by destruct services|].
  simpl. rewrite <- aggregated_worst. set (m := foldl _ ∅ services).
  rewrite foldl_SetDefault_Get; try (rewrite (ok_share _ Ho); done); try done.
  2: apply NoDup_fst_map_to_list.
  rewrite list_to_map_to_list. unfold health_seconds. by destruct (m !! metric).
Qed.
End Properties.

#[export] Hint Resolve ok_NewThrottler ok_ThrottleApp ok_UnthrottleApp ok_RecoverHost ok_SkipHost
  ok_expireThrottledApps ok_expireSkippedHosts ok_markMetricHealthy ok_markRecentApp
  ok_storeAggregatedMetric ok_collectShareDomain : freno.

(** *** Witnesses *)

Definition throttler_ex : Throttler unit := set_isLeader true (NewThrottler Second [] "" ∅).

Lemma throttler_ex_ok : throttler_ok throttler_ex.
Proof. destruct (ok_NewThrottler (DB := unit) Second [] "" ∅). by split. Qed.

Lemma expireThrottledApps_invisible_witness :
  IsAppThrottled (4 * Second) (fun _ => f_zero) "app" "c" (expireThrottledApps (3 * Second) throttler_ex) =
  IsAppThrottled (4 * Second) (fun _ => f_zero) "app" "c" throttler_ex.
Proof.
  apply (expireThrottledApps_invisible _ _ _ _ _ _ throttler_ex_ok). vm_compute. discriminate.
Defined.

Lemma ThrottleApp_isolated_witness :
  IsAppThrottled (4 * Second) (fun _ => f_zero) "app" "c"
    (ThrottleApp (2 * Second) "app2" (5 * Second) f_minus_one throttler_ex) =
    IsAppThrottled (4 * Second) (fun _ => f_zero) "app" "c" throttler_ex /\
  IsAppThrottled (4 * Second) (fun _ => f_zero) "app" "c" (UnthrottleApp "app2" throttler_ex) =
    IsAppThrottled (4 * Second) (fun _ => f_zero) "app" "c" throttler_ex /\
  (Time_IsZero (5 * Second) = false -> 5 * Second <= 2 * Second ->
   ThrottleApp (2 * Second) "app2" (5 * Second) f_minus_one throttler_ex =
   UnthrottleApp "app2" throttler_ex).
Proof.
  apply (ThrottleApp_isolated _ _ "app2" _ _ _ _ _ _ throttler_ex_ok); discriminate.
Defined.

Lemma SkipHost_until_expiry_witness :
  cache_Get (9 * Second) "h" (skippedHosts (SkipHost (2 * Second) "h" (5 * Second) throttler_ex)) =
    Some (5 * Second) /\
  cache_Get (9 * Second) "h"
    (skippedHosts (expireSkippedHosts (8 * Second) (SkipHost (2 * Second) "h" (5 * Second) throttler_ex)))
    = (if 5 * Second <? 8 * Second then None else Some (5 * Second)) /\
  (forall other, other <> "h" ->
     cache_Get (9 * Second) other (skippedHosts (SkipHost (2 * Second) "h" (5 * Second) throttler_ex)) =
     cache_Get (9 * Second) other (skippedHosts throttler_ex)).
Proof.
  apply (SkipHost_until_expiry (2 * Second) "h" (5 * Second) (8 * Second) (9 * Second) _ throttler_ex_ok).
  vm_compute. reflexivity.
Defined.

Lemma collectShareDomain_worst_witness :
  getShareDomainSecondsSinceHealth (3 * Second) "a"
    (collectShareDomainMetricHealth (2 * Second) (inl [("s1", "h1"); ("s2", "h2"); ("s3", "h3")])
       (fun u => if decide (u = "http://h1/metrics-health") then inl health_a
                 else if decide (u = "http://h2/metrics-health") then inl health_b
                 else inr (Errorf "down")) throttler_ex) = 11.
Proof.
  rewrite (collectShareDomain_worst _ _ _ _ _ _ throttler_ex_ok);
    try (vm_compute; reflexivity); try (vm_compute; discriminate).
  vm_compute. split; [discriminate|reflexivity].
Defined.
