(* ===== verification/Refresh.v ===== *)
(** * Refreshing the inventory (pkg/throttle/throttler.go, refreshMySQLInventory)

    [refresh_cluster] is the body of the goroutine that [refreshMySQLInventory] starts for each
    cluster.  It sends the probes of the cluster on [mysqlClusterProbesChan] ([inl]) or ends with an
    error ([inr]), in which case the inventory keeps the probes it had.  The readings of HAProxy,
    ProxySQL and Vitess go through the models of those packages, whose own parameters (HTTP, SQL,
    URLs, JSON) are the parameters here. *)
From S2P Require Import Prelude GoStrings GoFloat GoCache Base Mysql Config Haproxy Proxysql Vitess.
From S2P Require Import Aggregate Throttler.

Open Scope string_scope.
Open Scope Z_scope.
Open Scope go_scope.

(** [addInstanceKey]. *)
Definition addInstanceKey (now : Time) (key : InstanceKey) (clusterSettings : MySQLClusterSettings)
    (skipped : Cache Time) (probes : Probes) : Probes :=
  if existsb (fun ignore => Contains (InstanceKey_StringCode key) ignore) (mc_IgnoreHosts clusterSettings)
  then probes
  else
    match cache_Get now (Hostname key) skipped with
    | Some _ => probes
    | None =>
        if negb (InstanceKey_IsValid key) then probes
        else
          <[key := mkProbe key (mc_User clusterSettings) (mc_Password clusterSettings)
                     (mc_MetricQuery clusterSettings) (mc_CacheMillis clusterSettings) 0
                     (mc_HttpCheckPort clusterSettings) (mc_HttpCheckPath clusterSettings) 0]> probes
    end.

(** The loops [for _, host := range ... { addInstanceKey(...) }]. *)
Definition add_keys (now : Time) (clusterSettings : MySQLClusterSettings) (skipped : Cache Time)
    (keys : list InstanceKey) : Probes :=
  foldl (fun probes key => addInstanceKey now key clusterSettings skipped probes) NewProbes keys.

(** The keys of the static hosts, up to the first that does not parse. *)
Fixpoint static_keys (hosts : list string) (port : Z) : list InstanceKey + error :=
  match hosts with
  | [] => inl []
  | host :: hosts' =>
      match ParseInstanceKey host port with
      | (Some key, None) =>
          match static_keys hosts' port with
          | inl keys => inl (key :: keys)
          | inr e => inr e
          end
      | (_, err) => inr (default (Errorf "") err)
      end
  end.

Section Refresh.
Context {DB URL : Type}.
Context (url_Parse : string -> URL + error) (url_Host url_Path : URL -> string)
  (url_setPath : string -> URL -> URL) (url_String : URL -> string)
  (haproxy_get : string -> string + error).
Context (sql_Open : string -> DB + error) (Ping : DB -> option error)
  (query : DB -> ProxySQLSettings -> (list pool_row + error) * option error).
Context (encode_cells : string -> string)
  (vitess_get : Duration -> string -> (Z * string * (string + error)) + error)
  (vitess_Unmarshal : string -> list Tablet * option error).

Definition new_cluster_probes (clusterName : string) (clusterSettings : MySQLClusterSettings)
    (probes : Probes) : ClusterProbes :=
  mkClusterProbes clusterName (mc_IgnoreHostsCount clusterSettings)
    (mc_IgnoreHostsThreshold clusterSettings) probes.

(** The hosts of the pool over all HAProxy addresses.  A nil URL panics in [u.String()]; an address
    that cannot be read ends the refresh; one whose page does not parse is left out. *)
Fixpoint haproxy_hosts (now : Time) (poolName : string) (addresses : list (option URL))
    (totalHosts : list string) (csvCache : Cache string)
  : outcome ((list string + error) * Cache string) :=
  match addresses with
  | [] => Return (inl totalHosts, csvCache)
  | None :: _ => Panic "invalid memory address or nil pointer dereference"
  | Some u :: addresses' =>
      match Read url_Path url_setPath url_String haproxy_get now u csvCache with
      | ((_, Some e), csvCache) =>
          Return (inr (Errorf ("Unable to get HAproxy data from " ++ url_String u ++ ": " ++
                               error_msg e)), csvCache)
      | ((csv, None), csvCache) =>
          let! (backendHosts, err) := ParseCsvHosts csv poolName in
          match err with
          | None => haproxy_hosts now poolName addresses'
                      (totalHosts ++ FilterThrotllerHosts backendHosts)%list csvCache
          | Some _ => haproxy_hosts now poolName addresses' totalHosts csvCache
          end
      end
  end.

(** One cluster: the probes to send or the error, with the throttler and the CSV cache after it. *)
Definition refresh_cluster (now : Time) (clusterName : string)
    (clusterSettings : MySQLClusterSettings) (t : Throttler DB) (csvCache : Cache string)
  : outcome ((ClusterProbes + error) * Throttler DB * Cache string) :=
  let t := set_mysqlClusterThresholds
             (cache_Set now clusterName (mc_ThrottleThreshold clusterSettings) DefaultExpiration
                (mysqlClusterThresholds t)) t in
  let send keys := new_cluster_probes clusterName clusterSettings
                     (add_keys now clusterSettings (skippedHosts t) keys) in
  if negb (HAProxySettings_IsEmpty url_Parse url_Host (mc_HAProxySettings clusterSettings)) then
    let poolName := ha_PoolName (mc_HAProxySettings clusterSettings) in
    let '(addresses, _) := GetProxyAddresses url_Parse url_Host (mc_HAProxySettings clusterSettings) in
    let! (r, csvCache) := haproxy_hosts now poolName addresses [] csvCache in
    match r with
    | inr e => Return (inr e, t, csvCache)
    | inl totalHosts =>
        if (length totalHosts =? 0)%nat then
          Return (inr (Errorf ("Unable to get any HAproxy hosts for pool: " ++ poolName)), t, csvCache)
        else
          Return (inl (send ((fun host => mkInstanceKey host (mc_Port clusterSettings)) <$> totalHosts)),
                  t, csvCache)
    end
  else if negb (ProxySQLSettings_IsEmpty (mc_ProxySQLSettings clusterSettings)) then
    match proxysqlClient t with
    | None => Panic "invalid memory address or nil pointer dereference"
    | Some client =>
        let settings := mc_ProxySQLSettings clusterSettings in
        match GetDB sql_Open Ping settings client with
        | ((Some db, addr, None), client) =>
            let '(rows, rows_Err) := query db settings in
            match GetServers rows rows_Err settings client with
            | ((_, Some e), client) =>
                Return (inr (Errorf ("Unable to get hosts from ProxySQL " ++
                               ProxySQLSettings_AddressToDSN settings addr ++ ": " ++ error_msg e)),
                        set_proxysqlClient (Some (CloseDB addr client)) t, csvCache)
            | ((servers, None), client) =>
                Return (inl (send ((fun s => mkInstanceKey (sv_Host s) (sv_Port s)) <$> servers)),
                        set_proxysqlClient (Some client) t, csvCache)
            end
        | ((_, _, err), client) =>
            Return (inr (default (Errorf "failed to get connection") err),
                    set_proxysqlClient (Some client) t, csvCache)
        end
    end
  else if negb (VitessSettings_IsEmpty (mc_VitessSettings clusterSettings)) then
    let settings := mc_VitessSettings clusterSettings in
    match ParseTablets encode_cells vitess_get vitess_Unmarshal settings with
    | (_, Some e) =>
        Return (inr (Errorf ("Unable to get vitess hosts from " ++ vt_API settings ++ ", " ++
                             vt_Keyspace settings ++ "/" ++ vt_Shard settings ++ ": " ++ error_msg e)),
                t, csvCache)
    | (tablets, None) =>
        Return (inl (send ((fun tb => mkInstanceKey (tb_MysqlHostname tb) (tb_MysqlPort tb)) <$> tablets)),
                t, csvCache)
    end
  else if negb (StaticHostsSettings_IsEmpty (mc_StaticHostsSettings clusterSettings)) then
    match static_keys (sh_Hosts (mc_StaticHostsSettings clusterSettings)) (mc_Port clusterSettings) with
    | inr e => Return (inr e, t, csvCache)
    | inl keys =>
        Return (inl (mkClusterProbes clusterName 0 f_zero
                       (add_keys now clusterSettings (skippedHosts t) keys)), t, csvCache)
    end
  else
    Return (inr (Errorf ("Could not find any hosts definition for cluster " ++ clusterName)), t, csvCache).

(** [refreshMySQLInventory]: the goroutines it starts, one per cluster. *)
Definition refreshMySQLInventory (clusters : gmap string MySQLClusterSettings) (t : Throttler DB)
  : list (string * MySQLClusterSettings) :=
  if negb (isLeader t) then [] else map_to_list clusters.
End Refresh.

(** ** Properties *)

(** A key is probed: it matches no ignored pattern, its host is not skipped, and it is valid. *)
Definition selectable (now : Time) (cs : MySQLClusterSettings) (skipped : Cache Time)
    (key : InstanceKey) : Prop :=
  Forall (fun ignore => Contains (InstanceKey_StringCode key) ignore = false) (mc_IgnoreHosts cs) /\
  cache_Get now (Hostname key) skipped = None /\ InstanceKey_IsValid key = true.

(** The probe made for a key. *)
Definition cluster_probe (cs : MySQLClusterSettings) (key : InstanceKey) : Probe :=
  mkProbe key (mc_User cs) (mc_Password cs) (mc_MetricQuery cs) (mc_CacheMillis cs) 0
    (mc_HttpCheckPort cs) (mc_HttpCheckPath cs) 0.

Lemma addInstanceKey_lookup now key cs skipped probes k p :
  addInstanceKey now key cs skipped probes !! k = Some p <->
  (k = key /\ selectable now cs skipped key /\ p = cluster_probe cs key) \/
  (~ (k = key /\ selectable now cs skipped key) /\ probes !! k = Some p).
Proof.
  unfold addInstanceKey, selectable. rewrite <- existsb_false_Forall.
  destruct (existsb _ _); [naive_solver|].
  destruct (cache_Get _ _ _) as [e|]; [naive_solver|].
  destruct (InstanceKey_IsValid key); simpl; [|naive_solver].
  rewrite lookup_insert_Some. fold (cluster_probe cs key). naive_solver.
Qed.

(** The probes of a list of keys: exactly the selectable keys of the list, each with the
    credentials and the query of the cluster. *)
Lemma add_keys_lookup now cs skipped keys k p :
  add_keys now cs skipped keys !! k = Some p <->
  k ∈ keys /\ selectable now cs skipped k /\ p = cluster_probe cs k.
Proof.
  unfold add_keys, NewProbes.
  assert (forall probes, foldl (fun probes key => addInstanceKey now key cs skipped probes) probes keys
            !! k = Some p <->
          (k ∈ keys /\ selectable now cs skipped k /\ p = cluster_probe cs k) \/
          (~ (k ∈ keys /\ selectable now cs skipped k) /\ probes !! k = Some p)) as H.
  { induction keys as [|key keys IH]; intros probes; cbn [foldl].
    - rewrite elem_of_nil. tauto.
    - rewrite IH, addInstanceKey_lookup, elem_of_cons. destruct (decide (k = key)), (decide (k ∈ keys)); subst; naive_solver. }
  rewrite H, lookup_empty. naive_solver.
Qed.

Section RefreshProperties.
Context {DB URL : Type}.
Context (url_Parse : string -> URL + error) (url_Host url_Path : URL -> string)
  (url_setPath : string -> URL -> URL) (url_String : URL -> string)
  (haproxy_get : string -> string + error).
Context (sql_Open : string -> DB + error) (Ping : DB -> option error)
  (query : DB -> ProxySQLSettings -> (list pool_row + error) * option error).
Context (encode_cells : string -> string)
  (vitess_get : Duration -> string -> (Z * string * (string + error)) + error)
  (vitess_Unmarshal : string -> list Tablet * option error).

Abbreviation refresh := (refresh_cluster url_Parse url_Host url_Path url_setPath url_String haproxy_get
  sql_Open Ping query encode_cells vitess_get vitess_Unmarshal).

(** The state after a refresh of the cluster: only the thresholds and the ProxySQL client change. *)
Definition refreshed (now : Time) (clusterName : string) (cs : MySQLClusterSettings)
    (client : option (Client DB)) (t : Throttler DB) : Throttler DB :=
  set_proxysqlClient client
    (set_mysqlClusterThresholds
       (cache_Set now clusterName (mc_ThrottleThreshold cs) DefaultExpiration
          (mysqlClusterThresholds t)) t).

(** A refresh that returns sends the probes of some list of keys, with the ignore settings of the
    cluster unless its hosts are static. *)
Lemma refresh_cluster_inv now name cs t c r t' c' :
  refresh now name cs t c = Return (r, t', c') ->
  (exists client, t' = refreshed now name cs client t /\
     (is_Some (proxysqlClient t) -> is_Some client)) /\
  (forall cp, r = inl cp -> exists keys n thr,
     cp = mkClusterProbes name n thr (add_keys now cs (skippedHosts t) keys) /\
     ((n = mc_IgnoreHostsCount cs /\ thr = mc_IgnoreHostsThreshold cs) \/
      (n = 0 /\ thr = f_zero /\
       static_keys (sh_Hosts (mc_StaticHostsSettings cs)) (mc_Port cs) = inl keys))).
Proof.
  assert (Hsame : exists client, set_mysqlClusterThresholds
       (cache_Set now name (mc_ThrottleThreshold cs) DefaultExpiration (mysqlClusterThresholds t)) t =
     refreshed now name cs client t /\ (is_Some (proxysqlClient t) -> is_Some client)).
  { exists (proxysqlClient t). split; [by destruct t|done]. }
  unfold refresh_cluster. cbn zeta. destruct (negb (HAProxySettings_IsEmpty _ _ _)).
  { destruct (GetProxyAddresses _ _ _) as [addresses e].
    destruct (haproxy_hosts _ _ _ _ _ _ _ _ _) as [[[hosts|e'] c1]|]; simpl; [|intros [= <- <- <-]; by split|done].
    destruct (length hosts =? 0)%nat; intros [= <- <- <-]; split; try done.
    intros cp [= <-]. eexists _, _, _. split; [reflexivity|]. by left. }
  destruct (negb (ProxySQLSettings_IsEmpty _)).
  { cbn [proxysqlClient set_mysqlClusterThresholds]. destruct (proxysqlClient t) as [client|]; [|done].
    destruct (GetDB _ _ _ client) as [[[[db|] addr] [e|]] client1];
      try (intros [= <- <- <-]; split; [exists (Some client1); split; [by destruct t|done]|done]).
    destruct (query db _) as [rows rows_Err].
    destruct (GetServers _ _ _ _) as [[servers [e|]] client2]; intros [= <- <- <-]; split; try done.
    - exists (Some (CloseDB addr client2)). split; [by destruct t|done].
    - exists (Some client2). split; [by destruct t|done].
    - intros cp [= <-]. eexists _, _, _. split; [reflexivity|]. by left. }
  destruct (negb (VitessSettings_IsEmpty _)).
  { destruct (ParseTablets _ _ _ _) as [tablets [e|]]; intros [= <- <- <-]; split; try done.
    intros cp [= <-]. eexists _, _, _. split; [reflexivity|]. by left. }
  destruct (negb (StaticHostsSettings_IsEmpty _)); [|intros [= <- <- <-]; by split].
  destruct (static_keys _ _) as [keys|e] eqn:E; intros [= <- <- <-]; split; try done.
  intros cp [= <-]. exists keys, 0, f_zero. split; [done|]. by right.
Qed.

(** C31: whatever service discovery answers, a refresh only ever hands over probes that the
    configuration allows: each is a valid key, matches no IgnoreHosts pattern, is not skipped by an
    operator, and carries the cluster's credentials and query; and the cluster's threshold is
    published. *)
Theorem refresh_cluster_selects now later name cs t c cp t' c' :
  throttler_ok t ->
  refresh now name cs t c = Return (inl cp, t', c') ->
  cp_ClusterName cp = name /\
  (forall k p, cp_InstanceProbes cp !! k = Some p ->
     selectable now cs (skippedHosts t) k /\ p = cluster_probe cs k) /\
  cache_Get later name (mysqlClusterThresholds t') = Some (mc_ThrottleThreshold cs).
Proof.
  intros Ho H. destruct (refresh_cluster_inv _ _ _ _ _ _ _ _ H) as ((client & -> & _) & Hcp).
  destruct (Hcp cp eq_refl) as (keys & n & thr & -> & _). split_and!; [done| |].
  - intros k p. simpl. rewrite add_keys_lookup. tauto.
  - simpl. apply cache_Get_Set_forever. right. split; [done|]. apply Ho.
Qed.

(** The ignore settings of a cluster with static hosts are not used: its probes are handed over
    with IgnoreHostsCount 0, whatever the configuration says. *)
Theorem static_hosts_never_ignored now name cs t c cp t' c' :
  HAProxySettings_IsEmpty url_Parse url_Host (mc_HAProxySettings cs) = true ->
  ProxySQLSettings_IsEmpty (mc_ProxySQLSettings cs) = true ->
  VitessSettings_IsEmpty (mc_VitessSettings cs) = true ->
  refresh now name cs t c = Return (inl cp, t', c') ->
  cp_IgnoreHostsCount cp = 0 /\ cp_IgnoreHostsThreshold cp = f_zero /\
  exists keys, static_keys (sh_Hosts (mc_StaticHostsSettings cs)) (mc_Port cs) = inl keys /\
    forall k, is_Some (cp_InstanceProbes cp !! k) <-> k ∈ keys /\ selectable now cs (skippedHosts t) k.
Proof.
  intros H1 H2 H3. unfold refresh_cluster. rewrite H1, H2, H3. simpl.
  destruct (StaticHostsSettings_IsEmpty _); simpl; [done|].
  destruct (static_keys _ _) as [keys|e] eqn:E; [|done]. intros [= <- <- <-].
  split; [done|]. split; [done|]. exists keys. split; [done|]. intros k. simpl.
  unfold is_Some. setoid_rewrite add_keys_lookup. naive_solver.
Qed.

(** The ProxySQL client exists if some cluster needs it. *)
Definition client_inv (clusters : gmap string MySQLClusterSettings) (t : Throttler DB) : Prop :=
  hasProxySQLStores clusters = true -> is_Some (proxysqlClient t).

Lemma client_inv_New created ms mp clusters :
  client_inv clusters (NewThrottler created ms mp clusters).
Proof.
  intros H. unfold NewThrottler. rewrite H. unfold ThrottleApp, UnthrottleApp.
  by repeat case_if.
Qed.

Lemma client_inv_needed clusters name cs t :
  client_inv clusters t -> clusters !! name = Some cs ->
  ProxySQLSettings_IsEmpty (mc_ProxySQLSettings cs) = false -> is_Some (proxysqlClient t).
Proof.
  intros Hi Hc Hp. apply Hi. unfold hasProxySQLStores. apply existsb_exists. exists (name, cs).
  split; [by apply list_elem_of_In, elem_of_map_to_list|]. simpl. by rewrite Hp.
Qed.

(** The ProxySQL client is never nil when it is used: a throttler created for a configuration
    has a client if some cluster needs one and keeps it through refreshes, so that the refresh of a
    cluster without HAProxy always ends normally. *)
Theorem refresh_cluster_total created ms mp clusters now name cs t c :
  client_inv clusters (NewThrottler created ms mp clusters) /\
  (client_inv clusters t -> clusters !! name = Some cs ->
   HAProxySettings_IsEmpty url_Parse url_Host (mc_HAProxySettings cs) = true ->
   exists r t' c', refresh now name cs t c = Return (r, t', c') /\ client_inv clusters t').
Proof.
  split; [apply client_inv_New|]. intros Hi Hc Hh.
  assert (exists r t' c', refresh now name cs t c = Return (r, t', c')) as (r & t' & c' & E).
  { unfold refresh_cluster. rewrite Hh. simpl.
    destruct (ProxySQLSettings_IsEmpty (mc_ProxySQLSettings cs)) eqn:Hp; simpl.
    2: { destruct (client_inv_needed _ _ _ _ Hi Hc Hp) as [client ->].
         destruct (GetDB _ _ _ _) as [[[[db|] addr] [e|]] client1]; eauto.
         destruct (query db _). destruct (GetServers _ _ _ _) as [[servers [e|]] client2]; eauto. }
    destruct (VitessSettings_IsEmpty _); simpl.
    2: destruct (ParseTablets _ _ _ _) as [tablets [e|]]; eauto.
    destruct (StaticHostsSettings_IsEmpty _); simpl; eauto. destruct (static_keys _ _); eauto. }
  exists r, t', c'. split; [done|].
  destruct (refresh_cluster_inv _ _ _ _ _ _ _ _ E) as ((client & -> & Hk) & _).
  intros Hs. simpl. by apply Hk, Hi.
Qed.
End RefreshProperties.

(** *** Witnesses *)

Definition static_ex : MySQLClusterSettings :=
  mkMySQLClusterSettings "u" "p" "" 0 f_one 3306 1 f_zero 0 "" ["db3"]
    (mkHAProxySettings "" 0 "" "") (mkProxySQLSettings [] "" "" 0 0) (mkVitessSettings "" [] "" "" 0)
    (mkStaticHostsSettings ["db1"; "db2:3307"; "db3"]).

Definition refresh_ex_probes : ClusterProbes :=
  mkClusterProbes "c" 0 f_zero
    (add_keys (2 * Second) static_ex (skippedHosts throttler_ex)
       [mkInstanceKey "db1" 3306; mkInstanceKey "db2" 3307; mkInstanceKey "db3" 3306]).

Lemma refresh_cluster_selects_witness :
  cp_ClusterName refresh_ex_probes = "c" /\
  (forall k p, cp_InstanceProbes refresh_ex_probes !! k = Some p ->
     selectable (2 * Second) static_ex (skippedHosts throttler_ex) k /\ p = cluster_probe static_ex k) /\
  cache_Get (3 * Second) "c"
    (mysqlClusterThresholds (refreshed (2 * Second) "c" static_ex None throttler_ex)) = Some f_one.
Proof.
  apply (refresh_cluster_selects (URL := string) (fun s => inl s) id id (fun p _ => p) id
    (fun _ => inr (Errorf "")) (fun _ => inr (Errorf "")) (fun _ => None)
    (fun _ _ => (inr (Errorf ""), None)) id (fun _ _ => inr (Errorf "")) (fun _ => ([], None))
    (2 * Second) (3 * Second) "c" static_ex throttler_ex (cache_New Second) refresh_ex_probes
    (refreshed (2 * Second) "c" static_ex None throttler_ex) (cache_New Second) throttler_ex_ok).
  reflexivity.
Defined.

Lemma static_hosts_never_ignored_witness :
  mc_IgnoreHostsCount static_ex = 1 /\
  (cp_IgnoreHostsCount refresh_ex_probes = 0 /\ cp_IgnoreHostsThreshold refresh_ex_probes = f_zero /\
   exists keys, static_keys (sh_Hosts (mc_StaticHostsSettings static_ex)) (mc_Port static_ex) = inl keys /\
     forall k, is_Some (cp_InstanceProbes refresh_ex_probes !! k) <->
       k ∈ keys /\ selectable (2 * Second) static_ex (skippedHosts throttler_ex) k).
Proof.
  split; [reflexivity|].
  apply (static_hosts_never_ignored (URL := string) (fun s => inl s) id id (fun p _ => p) id
    (fun _ => inr (Errorf "")) (fun _ => inr (Errorf "")) (fun _ => None)
    (fun _ _ => (inr (Errorf ""), None)) id (fun _ _ => inr (Errorf "")) (fun _ => ([], None))
    (2 * Second) "c" static_ex throttler_ex (cache_New Second) refresh_ex_probes
    (refreshed (2 * Second) "c" static_ex None throttler_ex) (cache_New Second));
    reflexivity.
Defined.
