(* ===== verification/Operate.v ===== *)
(** * The main loop and the goroutines around it (pkg/throttle/throttler.go, Operate)

    The loop handles one event at a time; most events start goroutines.  A [System] is the state of
    the throttler, the caches of the packages it calls, and the goroutines that have been started and
    have not run yet ([tasks]); [exec] performs one event of the loop, one goroutine, or one call
    from the HTTP API.  Any sequence of labels is a possible interleaving: the results of this file
    hold for all of them. *)
From S2P Require Import Prelude GoStrings GoFloat GoCache Base Mysql Config Haproxy Proxysql Vitess.
From S2P Require Import Aggregate Throttler Refresh.

Open Scope string_scope.
Open Scope Z_scope.

(** What the outside world answers during one step. *)
Record World (DB URL : Type) := mkWorld {
  w_leader : bool;                              (* isLeaderFunc() *)
  w_services : list (string * string) + error;  (* sharedDomainServicesFunc() *)
  w_metrics_health : string -> MetricHealthMap + error;
  w_iterate : Probes -> list Probe;             (* the order of a range over probes *)
  w_collation : string;                         (* Stores.MySQL.Collation of the settings *)
  w_server : MySQLServer;
  w_http_check : string -> Z + error;
  w_url_Parse : string -> URL + error;
  w_url_Host : URL -> string;
  w_url_Path : URL -> string;
  w_url_setPath : string -> URL -> URL;
  w_url_String : URL -> string;
  w_haproxy_get : string -> string + error;
  w_sql_Open : string -> DB + error;
  w_Ping : DB -> option error;
  w_query : DB -> ProxySQLSettings -> (list pool_row + error) * option error;
  w_encode_cells : string -> string;
  w_vitess_get : Duration -> string -> (Z * string * (string + error)) + error;
  w_vitess_Unmarshal : string -> list Tablet * option error;
}.

(** A goroutine that has been started. *)
Inductive task :=
| RefreshInventory                                        (* go refreshMySQLInventory() *)
| RefreshCluster (name : string) (cs : MySQLClusterSettings)
| SendProbes (cp : ClusterProbes)                         (* blocked on mysqlClusterProbesChan *)
| ReadMetric (clusterName : string) (probe : Probe)
| SendMetric (m : MySQLThrottleMetric)                    (* blocked on mysqlThrottleMetricChan *)
| ReadHttpCheck (clusterName : string) (probe : Probe)
| SendHttpCheck (c : MySQLHttpCheck)                      (* blocked on mysqlHttpCheckChan *)
| StoreMetric (p : string * MetricResult)                 (* go aggregatedMetrics.Set(...) *)
| PushMemcache (p : string * MetricResult)                (* the goroutine that writes to memcache *)
| CollectShareDomain
| ExpireApps                                              (* go expireThrottledApps() *)
| ExpireApp (appName : string)                            (* the loop of it comes to an expired app *)
| ExpireHosts
| ExpireHost (hostName : string).

(** Calls of the HTTP API and of the checks that change the throttler. *)
Inductive api_call :=
| CallThrottleApp (appName : string) (expireAt : Time) (ratio : float64)
| CallUnthrottleApp (appName : string)
| CallSkipHost (hostName : string) (expireAt : Time)
| CallRecoverHost (hostName : string)
| CallMarkRecentApp (appName remoteAddr : string)
| CallMarkMetricHealthy (metricName : string)
| CallLowPriority (metricName : string).

Inductive label :=
| LeaderCheckTick | CollectTick | HttpCheckTick | RefreshTick | SharedDomainTick
| AggregateTick | ThrottledAppsTick | SkippedHostsTick
| Run (i : nat)      (* goroutine number [i] runs *)
| Skip (i : nat)     (* goroutine [i] is a reader that finds its probe busy and returns *)
| Api (c : api_call).

Section Operate.
Context {DB URL : Type}.

Record System := mkSystem {
  throttler : Throttler DB;
  csv_cache : Cache string;
  metric_cache : Cache MySQLThrottleMetric;
  memcache : list memcache_op;    (* what has been sent to memcache, oldest first *)
  tasks : list task;
}.

Definition set_throttler (t : Throttler DB) (s : System) : System :=
  mkSystem t (csv_cache s) (metric_cache s) (memcache s) (tasks s).
Definition set_tasks (l : list task) (s : System) : System :=
  mkSystem (throttler s) (csv_cache s) (metric_cache s) (memcache s) l.
Definition spawn (l : list task) (s : System) : System := set_tasks (tasks s ++ l)%list s.
Definition update (f : Throttler DB -> Throttler DB) (s : System) : System :=
  set_throttler (f (throttler s)) s.

(** [collectMySQLMetrics] and [collectMySQLHttpChecks]: one goroutine per probe. *)
Definition all_probes (t : Throttler DB) : list (string * Probe) :=
  p ← map_to_list (ClustersProbes (mysqlInventory t));
  (fun kp => (p.1, kp.2)) <$> map_to_list p.2.

Definition collectMySQLMetrics (t : Throttler DB) : list task :=
  if negb (isLeader t) then [] else (fun p => ReadMetric p.1 p.2) <$> all_probes t.

Definition collectMySQLHttpChecks (t : Throttler DB) : list task :=
  if negb (isLeader t) then [] else (fun p => ReadHttpCheck p.1 p.2) <$> all_probes t.

(** The settings the loop reads: they do not change after start. *)
Record Config := mkConfig {
  clusters : gmap string MySQLClusterSettings;
  ignoreDialTcpErrors : bool;
}.

(** One goroutine runs to its next blocking point; the loops that expire apps and hosts, which hold no
    lock, stop after their snapshot and before each deletion.  Go looks at an expired entry again when
    its turn comes, here the snapshot decides: a deletion that Go would skip is possible in addition.
    [None] is a panic, which ends the process. *)
Definition run_task (cfg : Config) (w : World DB URL) (now : Time) (k : task) (s : System)
  : option System :=
  match k with
  | RefreshInventory =>
      Some (spawn ((fun p => RefreshCluster p.1 p.2) <$> refreshMySQLInventory (clusters cfg) (throttler s)) s)
  | RefreshCluster name cs =>
      match refresh_cluster (w_url_Parse _ _ w) (w_url_Host _ _ w) (w_url_Path _ _ w)
              (w_url_setPath _ _ w) (w_url_String _ _ w) (w_haproxy_get _ _ w) (w_sql_Open _ _ w)
              (w_Ping _ _ w) (w_query _ _ w) (w_encode_cells _ _ w) (w_vitess_get _ _ w)
              (w_vitess_Unmarshal _ _ w) now name cs (throttler s) (csv_cache s) with
      | Return (r, t', csv') =>
          Some (mkSystem t' csv' (metric_cache s) (memcache s)
                  (tasks s ++ match r with inl cp => [SendProbes cp] | inr _ => [] end))
      | Panic _ => None
      end
  | SendProbes cp => Some (update (updateMySQLClusterProbes cp) s)
  | ReadMetric clusterName probe =>
      let '(m, mc) := ReadThrottleMetric (w_collation _ _ w) (w_server _ _ w) now probe clusterName
                        (metric_cache s) in
      Some (mkSystem (throttler s) (csv_cache s) mc (memcache s) (tasks s ++ [SendMetric m]))
  | SendMetric m => Some (update (receiveThrottleMetric m) s)
  | ReadHttpCheck clusterName probe =>
      Some (spawn [SendHttpCheck (CheckHttp (w_http_check _ _ w) clusterName probe)] s)
  | SendHttpCheck c => Some (update (receiveHttpCheck c) s)
  | StoreMetric p => Some (update (storeAggregatedMetric now p) s)
  | PushMemcache p =>
      Some (mkSystem (throttler s) (csv_cache s) (metric_cache s)
              (memcache s ++ [memcache_entry now (memcachePath (throttler s)) p.1 p.2]) (tasks s))
  | CollectShareDomain =>
      Some (update (collectShareDomainMetricHealth now (w_services _ _ w) (w_metrics_health _ _ w)) s)
  | ExpireApps => Some (spawn (ExpireApp <$> expired_apps now (throttler s)) s)
  | ExpireApp appName => Some (update (UnthrottleApp appName) s)
  | ExpireHosts => Some (spawn (ExpireHost <$> expired_hosts now (throttler s)) s)
  | ExpireHost hostName => Some (update (RecoverHost hostName) s)
  end.

Definition run_api (now : Time) (c : api_call) (t : Throttler DB) : Throttler DB :=
  match c with
  | CallThrottleApp a e r => ThrottleApp now a e r t
  | CallUnthrottleApp a => UnthrottleApp a t
  | CallSkipHost h e => SkipHost now h e t
  | CallRecoverHost h => RecoverHost h t
  | CallMarkRecentApp a r => markRecentApp now a r t
  | CallMarkMetricHealthy m => markMetricHealthy now m t
  | CallLowPriority m =>
      set_nonLowPriority (cache_SetDefault now m true (nonLowPriorityAppRequestsThrottled t)) t
  end.

Definition is_reader (k : task) : bool :=
  match k with ReadMetric _ _ | ReadHttpCheck _ _ => true | _ => false end.

(** One step at time [now]. *)
Definition exec (cfg : Config) (w : World DB URL) (now : Time) (l : label) (s : System)
  : option System :=
  match l with
  | LeaderCheckTick => Some (update (set_isLeader (w_leader _ _ w)) s)
  | CollectTick => Some (spawn (collectMySQLMetrics (throttler s)) s)
  | HttpCheckTick => Some (spawn (collectMySQLHttpChecks (throttler s)) s)
  | RefreshTick => Some (spawn [RefreshInventory] s)
  | SharedDomainTick => Some (spawn [CollectShareDomain] s)
  | AggregateTick =>
      let l := aggregateMySQLMetrics (ignoreDialTcpErrors cfg) (w_iterate _ _ w) (throttler s) in
      Some (spawn ((StoreMetric <$> l) ++
                   (if memcacheClient (throttler s) then PushMemcache <$> l else []))%list s)
  | ThrottledAppsTick => Some (spawn [ExpireApps] s)
  | SkippedHostsTick => Some (spawn [ExpireHosts] s)
  | Run i =>
      match tasks s !! i with
      | Some k => run_task cfg w now k (set_tasks (delete i (tasks s)) s)
      | None => None
      end
  | Skip i =>
      match tasks s !! i with
      | Some k => if is_reader k then Some (set_tasks (delete i (tasks s)) s) else None
      | None => None
      end
  | Api c => Some (update (run_api now c) s)
  end.

(** The start: a new throttler, and the initial [go refreshMySQLInventory()]. *)
Definition initial (now : Time) (ms : list string) (mp : string) (cfg : Config) : System :=
  mkSystem (NewThrottler now ms mp (clusters cfg)) (cache_New Second) (cache_New NoExpiration)
    [] [RefreshInventory].

(** Runs: they start after 1970 and the clock does not go back. *)
Inductive reachable (cfg : Config) : Time -> System -> Prop :=
| reach_start now ms mp : 0 < now -> reachable cfg now (initial now ms mp cfg)
| reach_step now now' w l s s' :
    reachable cfg now s -> now <= now' -> exec cfg w now' l s = Some s' -> reachable cfg now' s'.
End Operate.
Arguments System DB : clear implicits.

(** ** Invariants *)

Section Invariants.
Context {DB URL : Type}.
Implicit Types (s : System DB) (t : Throttler DB) (w : World DB URL).
Context (cfg : Config).

(** A probe the configuration asks for. *)
Definition probe_ok (clusterName : string) (key : InstanceKey) (p : Probe) : Prop :=
  exists cs, clusters cfg !! clusterName = Some cs /\ p = cluster_probe cs key /\
    InstanceKey_IsValid key = true /\
    Forall (fun ignore => Contains (InstanceKey_StringCode key) ignore = false) (mc_IgnoreHosts cs).

Definition probes_ok (clusterName : string) (ps : Probes) : Prop :=
  is_Some (clusters cfg !! clusterName) /\
  forall key p, ps !! key = Some p -> probe_ok clusterName key p.

(** The name of a metric of a configured cluster. *)
Definition published (name : string) : Prop :=
  exists clusterName, is_Some (clusters cfg !! clusterName) /\ name = metric_name clusterName.

Definition task_ok (k : task) : Prop :=
  match k with
  | RefreshCluster name cs => clusters cfg !! name = Some cs
  | SendProbes cp => probes_ok (cp_ClusterName cp) (cp_InstanceProbes cp)
  | ReadMetric c p | ReadHttpCheck c p => probe_ok c (Key p) p
  | StoreMetric p | PushMemcache p => published p.1
  | _ => True
  end.

Record core_ok t : Prop := {
  core_throttler : throttler_ok t;
  core_probes : forall c ps, ClustersProbes (mysqlInventory t) !! c = Some ps -> probes_ok c ps;
  core_metrics : forall name i, items (aggregatedMetrics t) !! name = Some i -> published name;
  core_thresholds : forall name i, items (mysqlClusterThresholds t) !! name = Some i ->
    exists cs, clusters cfg !! name = Some cs /\ Object i = mc_ThrottleThreshold cs;
}.

Definition system_ok s : Prop := core_ok (throttler s) /\ Forall task_ok (tasks s).

(** Operations that leave the inventory, the metrics and the thresholds alone. *)
Lemma core_ok_same t t' :
  throttler_ok t' -> mysqlInventory t' = mysqlInventory t -> aggregatedMetrics t' = aggregatedMetrics t ->
  mysqlClusterThresholds t' = mysqlClusterThresholds t -> core_ok t -> core_ok t'.
Proof. intros Ho Hi Ha Ht []. by split; rewrite ?Hi, ?Ha, ?Ht. Qed.

Lemma run_api_core now c t : core_ok t -> core_ok (run_api now c t).
Proof.
  intros Hc. pose proof (core_throttler _ Hc) as Ho. destruct c; simpl; (eapply core_ok_same; [| | | |exact Hc]);
    auto with freno.
  1-3: unfold ThrottleApp, UnthrottleApp; by repeat case_if.
  1-3: unfold SkipHost, RecoverHost; by repeat case_if.
  destruct Ho. by split.
Qed.

Lemma share_core now sv h t : core_ok t -> core_ok (collectShareDomainMetricHealth now sv h t).
Proof.
  intros Hc. pose proof (core_throttler _ Hc) as Ho. eapply core_ok_same; [| | | |exact Hc]; auto with freno.
  all: unfold collectShareDomainMetricHealth; destruct (isLeader t); [|done]; simpl;
    destruct sv; [|done]; by destruct (_ =? _)%nat.
Qed.

Lemma expire_core app host t : core_ok t -> core_ok (UnthrottleApp app t) /\ core_ok (RecoverHost host t).
Proof.
  intros Hc. pose proof (core_throttler _ Hc) as Ho.
  split; (eapply core_ok_same; [| | | |exact Hc]); auto with freno.
Qed.

Lemma store_core now p t : published p.1 -> core_ok t -> core_ok (storeAggregatedMetric now p t).
Proof.
  intros Hp [Ho H1 H2 H3]. split; auto with freno; simpl; try done.
  intros name i. rewrite lookup_insert_Some. intros [[<- _]|[_ H]]; eauto.
Qed.

Lemma probes_core cp t :
  probes_ok (cp_ClusterName cp) (cp_InstanceProbes cp) -> core_ok t ->
  core_ok (updateMySQLClusterProbes cp t).
Proof.
  intros Hp [Ho H1 H2 H3]. split; try done; [by destruct Ho|]. intros c ps. simpl.
  rewrite lookup_insert_Some. intros [[<- <-]|[_ H]]; auto.
Qed.

Lemma receive_core m c t :
  core_ok t -> core_ok (receiveThrottleMetric m t) /\ core_ok (receiveHttpCheck c t).
Proof. intros [Ho H1 H2 H3]. split; (split; [by destruct Ho|done..]). Qed.

Lemma refreshed_core now name cs client t :
  clusters cfg !! name = Some cs -> core_ok t -> core_ok (refreshed now name cs client t).
Proof.
  intros Hc [Ho H1 H2 H3]. split; [|done|done|].
  - destruct Ho. split; simpl; auto with freno.
  - intros n i. simpl. rewrite lookup_insert_Some. intros [[<- <-]|[_ H]]; eauto.
Qed.

(** The probes a refresh sends are the ones the configuration asks for. *)
Lemma add_keys_probes_ok now name cs skipped keys :
  clusters cfg !! name = Some cs -> probes_ok name (add_keys now cs skipped keys).
Proof.
  intros Hc. split; [eauto|]. intros key p. rewrite add_keys_lookup.
  intros (_ & (Hi & _ & Hv) & ->). by exists cs.
Qed.

Lemma collect_tasks_ok t (f : string * Probe -> task) :
  (forall p, probe_ok p.1 (Key p.2) p.2 -> task_ok (f p)) -> core_ok t ->
  Forall task_ok (f <$> all_probes t).
Proof.
  intros Hf Hc. rewrite Forall_fmap, Forall_forall. intros [c p] Hin. apply Hf. simpl.
  unfold all_probes in Hin. apply list_elem_of_bind in Hin as ([c' ps] & Hin & Hps).
  apply elem_of_map_to_list in Hps. apply list_elem_of_fmap in Hin as ([k p'] & [= -> ->] & Hk).
  apply elem_of_map_to_list in Hk. simpl in *.
  destruct (core_probes _ Hc _ _ Hps) as [_ H]. destruct (H _ _ Hk) as (cs & ? & -> & ?).
  by exists cs.
Qed.

Lemma aggregate_published ign iter t p :
  core_ok t -> p ∈ aggregateMySQLMetrics ign iter t -> published p.1.
Proof.
  intros Hc. unfold aggregateMySQLMetrics. destruct (isLeader t); simpl; [|by rewrite elem_of_nil].
  rewrite list_elem_of_fmap. intros ([c ps] & -> & Hin). apply elem_of_map_to_list in Hin. simpl.
  destruct (core_probes _ Hc _ _ Hin) as [? _]. by exists c.
Qed.

Lemma run_task_ok w now k s s' :
  task_ok k -> system_ok s -> run_task cfg w now k s = Some s' -> system_ok s'.
Proof.
  intros Hk [Hc Ht] E.
  destruct k as [|name cs|cp|c p|m|c p|ch|p|p| | |app| |host]; simpl in E, Hk.
  - simplify_eq. split; [done|]. simpl. apply Forall_app. split; [done|].
    unfold refreshMySQLInventory. destruct (isLeader _); simpl; [|constructor].
    rewrite Forall_fmap, Forall_forall. intros [n cs] Hin. by apply elem_of_map_to_list in Hin.
  - destruct (refresh_cluster _ _ _ _ _ _ _ _ _ _ _ _ _ _ _ _ _) as [[[r t'] csv]|] eqn:R; [|done].
    simplify_eq. destruct (refresh_cluster_inv _ _ _ _ _ _ _ _ _ _ _ _ _ _ _ _ _ _ _ _ R)
      as ((client & -> & _) & Hcp). split; [by apply refreshed_core|]. simpl.
    apply Forall_app. split; [done|]. destruct r as [cp|]; [|constructor].
    destruct (Hcp cp eq_refl) as (keys & n & thr & -> & _). constructor; [|constructor].
    by apply add_keys_probes_ok.
  - simplify_eq. split; [|done]. by apply probes_core.
  - destruct (ReadThrottleMetric _ _ _ _ _ _) as [m mc]. simplify_eq. split; [done|]. simpl.
    apply Forall_app. by repeat constructor.
  - simplify_eq. split; [|done]. by apply (receive_core m (mkMySQLHttpCheck "" (mkInstanceKey "" 0) 0)).
  - simplify_eq. split; [done|]. simpl. apply Forall_app. by repeat constructor.
  - simplify_eq. split; [|done].
    by apply (receive_core (mkMySQLThrottleMetric "" (mkInstanceKey "" 0) f_zero None) ch).
  - simplify_eq. split; [|done]. by apply store_core.
  - simplify_eq. by split.
  - simplify_eq. split; [|done]. by apply share_core.
  - simplify_eq. split; [done|]. simpl. apply Forall_app. split; [done|]. by apply Forall_fmap, Forall_true.
  - simplify_eq. split; [|done]. by apply (expire_core app "").
  - simplify_eq. split; [done|]. simpl. apply Forall_app. split; [done|]. by apply Forall_fmap, Forall_true.
  - simplify_eq. split; [|done]. by apply (expire_core "" host).
Qed.

Lemma exec_ok w now l s s' : system_ok s -> exec cfg w now l s = Some s' -> system_ok s'.
Proof.
  intros [Hc Ht] E.
  assert (Hspawn : forall l, Forall task_ok l -> system_ok (spawn l s)).
  { intros l' Hl. split; [done|]. simpl. by apply Forall_app. }
  destruct l as [| | | | | | | |i|i|c]; simpl in E.
  1: { simplify_eq. split; [|done]. eapply core_ok_same; [| | | |exact Hc]; try done.
       by destruct (core_throttler _ Hc). }
  1-7: simplify_eq; apply Hspawn; try (by repeat constructor).
  1,2: unfold collectMySQLMetrics, collectMySQLHttpChecks; destruct (isLeader _); simpl;
    [|constructor]; apply collect_tasks_ok; done.
  1: { assert (Hl : Forall (fun p => published p.1)
                  (aggregateMySQLMetrics (ignoreDialTcpErrors cfg) (w_iterate _ _ w) (throttler s))).
       { rewrite Forall_forall. intros p Hp. by eapply aggregate_published. }
       apply Forall_app. split; [by rewrite Forall_fmap|].
       destruct (memcacheClient _); [by rewrite Forall_fmap|constructor]. }
  - destruct (tasks s !! i) as [k|] eqn:Hi; [|done]. eapply run_task_ok; [| |exact E].
    + by eapply Forall_lookup_1.
    + split; [done|]. simpl. by apply Forall_delete.
  - destruct (tasks s !! i) as [k|]; [|done]. destruct (is_reader k); [|done]. simplify_eq.
    split; [done|]. simpl. by apply Forall_delete.
  - simplify_eq. split; [|done]. by apply run_api_core.
Qed.

Lemma initial_ok now ms mp : system_ok (initial (DB := DB) now ms mp cfg).
Proof.
  split; [|by repeat constructor]. split; [apply ok_NewThrottler|..].
  all: unfold initial, NewThrottler, ThrottleApp, UnthrottleApp; simpl; repeat case_if; simpl;
    intros ? ?; by rewrite lookup_empty.
Qed.

Lemma reachable_system_ok now s : reachable (URL := URL) cfg now s -> system_ok s.
Proof. induction 1; eauto using initial_ok, exec_ok. Qed.

(** C3: in every interleaving of the loop, its goroutines and the API, freno probes only hosts
    that the configuration asks for (valid keys of a configured cluster, with its credentials,
    matching none of its IgnoreHosts), publishes metrics of configured clusters only, and compares
    them with the thresholds of the configuration. *)
Theorem reachable_follows_configuration now s :
  reachable (URL := URL) cfg now s ->
  (forall c ps key p, ClustersProbes (mysqlInventory (throttler s)) !! c = Some ps ->
     ps !! key = Some p -> probe_ok c key p) /\
  (forall later name m, cache_Get later name (aggregatedMetrics (throttler s)) = Some m ->
     published name) /\
  (forall later c thr, cache_Get later c (mysqlClusterThresholds (throttler s)) = Some thr ->
     exists cs, clusters cfg !! c = Some cs /\ thr = mc_ThrottleThreshold cs).
Proof.
  intros Hr. destruct (reachable_system_ok _ _ Hr) as [[Ho H1 H2 H3] _]. split_and!.
  - intros c ps key p Hps Hp. by apply (H1 _ _ Hps).
  - intros later name m. unfold cache_Get. destruct (items _ !! name) as [i|] eqn:E; [|done]. eauto.
  - intros later c thr. rewrite never_expires_Get by apply Ho.
    destruct (items _ !! c) as [i|] eqn:E; [|done]. simpl. intros [= <-]. eauto.
Qed.

(** *** Freshness of the metrics *)

(** The step that stores an aggregated metric. *)
Definition stores s (l : label) (p : string * MetricResult) : Prop :=
  exists i, l = Run i /\ tasks s !! i = Some (StoreMetric p).

(** What a step does to the throttler. *)
Inductive change (now : Time) s (l : label) : Throttler DB -> Prop :=
| change_none : change now s l (throttler s)
| change_leader b : change now s l (set_isLeader b (throttler s))
| change_refresh name cs client : change now s l (refreshed now name cs client (throttler s))
| change_inventory i : change now s l (set_mysqlInventory i (throttler s))
| change_store p : stores s l p -> change now s l (storeAggregatedMetric now p (throttler s))
| change_share x : change now s l (set_shareDomainMetricHealth x (throttler s))
| change_expire_app i app : l = Run i -> tasks s !! i = Some (ExpireApp app) -> change now s l (UnthrottleApp app (throttler s))
| change_expire_host host : change now s l (RecoverHost host (throttler s))
| change_api c : l = Api c -> change now s l (run_api now c (throttler s)).

Lemma exec_change w now l s s' : exec cfg w now l s = Some s' -> change now s l (throttler s').
Proof.
  intros E. destruct l as [| | | | | | | |i|i|c]; simpl in E; try (simplify_eq; simpl; by econstructor).
  - destruct (tasks s !! i) as [k|] eqn:Hi; [|done].
    destruct k as [|name cs|cp|c p|m|c p|ch|p|p| | |app| |host]; simpl in E; try (simplify_eq; simpl; by econstructor).
    + destruct (refresh_cluster _ _ _ _ _ _ _ _ _ _ _ _ _ _ _ _ _) as [[[r t'] csv]|] eqn:R; [|done].
      simplify_eq. simpl. destruct (refresh_cluster_inv _ _ _ _ _ _ _ _ _ _ _ _ _ _ _ _ _ _ _ _ R) as ((? & -> & _) & _).
      constructor.
    + destruct (ReadThrottleMetric _ _ _ _ _ _) as [m mc]. simplify_eq. simpl. apply change_none.
    + simplify_eq. apply (change_store now s (Run i) p). by exists i.
    + simplify_eq. simpl. unfold collectShareDomainMetricHealth. destruct (isLeader _); [|constructor]. simpl.
      destruct (w_services _ _ w); [|constructor]. destruct (_ =? _)%nat; constructor.
  - destruct (tasks s !! i) as [k|]; [|done]. destruct (is_reader k); [|done]. simplify_eq. simpl. apply change_none.
Qed.

Lemma exec_aggregated w now l s s' :
  exec cfg w now l s = Some s' ->
  aggregatedMetrics (throttler s') = aggregatedMetrics (throttler s) \/
  exists p, stores s l p /\
    aggregatedMetrics (throttler s') =
      cache_Set now p.1 p.2 DefaultExpiration (aggregatedMetrics (throttler s)).
Proof.
  intros E. apply exec_change in E. destruct E; eauto. left. destruct c; simpl; try done;
    unfold ThrottleApp, UnthrottleApp, SkipHost, RecoverHost; by repeat case_if.
Qed.

(** Every metric in the cache runs out at most five seconds from now. *)
Definition fresh (now : Time) s : Prop :=
  forall name i, items (aggregatedMetrics (throttler s)) !! name = Some i ->
    0 < Expiration i <= now + aggregatedMetricsExpiration.

Lemma reachable_positive now s : reachable (URL := URL) cfg now s -> 0 < now.
Proof. induction 1; lia. Qed.

Lemma reachable_fresh now s :
  reachable (URL := URL) cfg now s -> now + aggregatedMetricsExpiration < 2 ^ 63 -> fresh now s.
Proof.
  induction 1 as [now ms mp Hn|now now' w l s s' Hr IH Hle E]; intros Hb.
  { intros name i. unfold initial, NewThrottler, ThrottleApp, UnthrottleApp. simpl.
    repeat case_if; simpl; by rewrite lookup_empty. }
  assert (IH' : fresh now' s).
  { intros name i Hi. destruct (IH ltac:(unfold Time, Duration in *; lia) name i Hi). lia. }
  destruct (exec_aggregated _ _ _ _ _ E) as [Heq|(p & _ & Heq)]; intros name i; rewrite Heq; [apply IH'|].
  simpl. rewrite lookup_insert_Some. intros [[_ <-]|[_ H]]; [|by apply (IH' name)].
  pose proof (reachable_positive _ _ Hr). destruct (reachable_system_ok _ _ Hr) as [[Ho _ _ _] _].
  simpl. unfold cache_expiration. simpl. rewrite (ok_aggregated _ Ho).
  unfold aggregatedMetricsExpiration, Second, Time_UnixNano, Time_Add in *. simpl in *.
  rewrite wrap64_id by (unfold int64_ok, Time in *; lia). unfold Time in *. lia.
Qed.

(** Runs in which every step is allowed by [ok]. *)
Inductive runs (ok : System DB -> label -> Prop) : Time -> System DB -> Time -> System DB -> Prop :=
| runs_refl now s : runs ok now s now s
| runs_step now s now1 s1 now2 w l s2 :
    runs ok now s now1 s1 -> now1 <= now2 -> exec cfg w now2 l s1 = Some s2 -> ok s1 l ->
    runs ok now s now2 s2.

Lemma runs_le ok now s now' s' : runs ok now s now' s' -> now <= now'.
Proof. induction 1; lia. Qed.

(** What every allowed step keeps holds at the end. *)
Lemma runs_keep ok (P : Time -> System DB -> Prop) now s now' s' :
  runs ok now s now' s' ->
  (forall now1 s1 now2 w l s2, now <= now1 -> now1 <= now2 -> now2 <= now' -> P now1 s1 ->
     exec cfg w now2 l s1 = Some s2 -> ok s1 l -> P now2 s2) ->
  P now s -> P now' s'.
Proof.
  induction 1 as [|now s now1 s1 now2 w l s2 Hq IH Hle E Hn]; intros Hstep H0; [done|].
  pose proof (runs_le _ _ _ _ _ Hq). apply (Hstep now1 s1 now2 w l s2); [lia|done|done| |done|done].
  apply IH; [|done]. intros n1 x1 n2 w' l' x2 ? ? ? Hp Hx Ho. by apply (Hstep n1 x1 n2 w' l' x2); [lia|lia|lia|..].
Qed.

(** A run during which no aggregated metric is stored, as on a node that is not the leader. *)
Definition quiet : Time -> System DB -> Time -> System DB -> Prop :=
  runs (fun s l => forall p, ~ stores s l p).

Lemma quiet_aggregated now s now' s' :
  quiet now s now' s' -> aggregatedMetrics (throttler s') = aggregatedMetrics (throttler s).
Proof.
  intros Hq. apply (runs_keep _ (fun _ s1 => aggregatedMetrics (throttler s1) = aggregatedMetrics (throttler s))
    _ _ _ _ Hq); [|done].
  intros now1 s1 now2 w l s2 _ _ _ IH E Hn. destruct (exec_aggregated _ _ _ _ _ E) as [->|(p & Hp & _)]; [done|].
  by destruct (Hn p).
Qed.

(** Metrics do not outlive their collection: once no aggregate has been stored for more than
    five seconds, as after losing the leadership, every metric is answered as "no such metric",
    so that a node that does not collect cannot answer with an old value. *)
Lemma stale_metrics_vanish now s now' s' later name :
  reachable (URL := URL) cfg now s -> quiet now s now' s' ->
  now + aggregatedMetricsExpiration < later -> later < 2 ^ 63 ->
  getNamedMetric later name (throttler s') = NoSuchMetric.
Proof.
  intros Hr Hq Hlt Hb. pose proof (reachable_positive _ _ Hr).
  assert (Hf : fresh now s) by (apply reachable_fresh; [done|unfold Time, Duration in *; lia]).
  unfold getNamedMetric, cache_Get. rewrite (quiet_aggregated _ _ _ _ Hq).
  destruct (items _ !! name) as [i|] eqn:Hi; [|done]. destruct (Hf _ _ Hi) as [H1 H2].
  unfold item_expired, Time_UnixNano. rewrite wrap64_id by (unfold int64_ok, Time in *; lia).
  by rewrite (proj2 (Z.ltb_lt _ _) H1), (proj2 (Z.ltb_lt _ _) (Z.le_lt_trans _ _ _ H2 Hlt)).
Qed.

(** *** What a run keeps *)

(** The thresholds that have been read stay. *)
Lemma exec_thresholds w now l s s' c :
  exec cfg w now l s = Some s' -> is_Some (items (mysqlClusterThresholds (throttler s)) !! c) ->
  is_Some (items (mysqlClusterThresholds (throttler s')) !! c).
Proof.
  intros E Hc. apply exec_change in E. destruct E; try done; simpl.
  - apply lookup_insert_is_Some'. by right.
  - destruct c0; simpl; try done; unfold ThrottleApp, UnthrottleApp, SkipHost, RecoverHost; by repeat case_if.
Qed.

(** The steps that change the throttles of an app. *)
Definition about_app (app : string) (l : label) : Prop :=
  match l with
  | Api (CallThrottleApp a _ _) | Api (CallUnthrottleApp a) => a = app
  | _ => False
  end.

(** The purge comes to an app only if it found the app expired. *)
Lemma exec_expire_app w now l s s' app :
  exec cfg w now l s = Some s' -> ExpireApp app ∈ tasks s' ->
  ExpireApp app ∈ tasks s \/
  exists i, items (throttledApps (throttler s)) !! app = Some i /\ item_expired now i = false /\
    throttle_expired now (Object i) = true.
Proof.
  assert (Hfmap : forall A (f : A -> task) (xs : list A), (forall x, f x <> ExpireApp app) -> ExpireApp app ∉ f <$> xs).
  { intros A f xs Hf. rewrite list_elem_of_fmap. intros (x & Hx & _). by apply (Hf x). }
  assert (Hdel : forall i, ExpireApp app ∈ delete i (tasks s) -> ExpireApp app ∈ tasks s).
  { intros i. apply list_elem_of_delete_inv. }
  assert (Hnew : forall ks : list task, ExpireApp app ∉ ks -> forall i, ExpireApp app ∈ (delete i (tasks s) ++ ks)%list -> ExpireApp app ∈ tasks s).
  { intros ks Hks i. rewrite elem_of_app. intros [Hin|Hin]; [by eapply Hdel|done]. }
  intros E. destruct l as [| | | | | | | |i|i|c]; simpl in E.
  9: { destruct (tasks s !! i) as [k|] eqn:Ek; [|done].
    destruct k as [|name cs|cp|c0 p|m|c0 p|ch|p|p| | |app'| |host]; simpl in E.
    2: { destruct (refresh_cluster _ _ _ _ _ _ _ _ _ _ _ _ _ _ _ _ _) as [[[r t'] csv]|]; [|done]. simplify_eq. simpl.
         intros Hin. left. revert Hin. apply Hnew. destruct r; set_solver. }
    3: { destruct (ReadThrottleMetric _ _ _ _ _ _) as [m mc]. simplify_eq. simpl. intros Hin. left. revert Hin.
         apply Hnew. set_solver. }
    all: simplify_eq; simpl; intros Hin; try (left; by eapply Hdel).
    - left. revert Hin. apply Hnew, Hfmap. done.
    - left. revert Hin. apply Hnew. set_solver.
    - apply elem_of_app in Hin as [Hin|Hin]; [left; by eapply Hdel|].
      right. apply list_elem_of_fmap in Hin as (app' & [= <-] & Hin). by apply elem_of_expired_apps in Hin.
    - left. revert Hin. apply Hnew, Hfmap. done. }
  9: { destruct (tasks s !! i) as [k|]; [|done]. destruct (is_reader k); [|done]. simplify_eq. simpl. left. by eapply Hdel. }
  all: simplify_eq; simpl; intros Hin; left; try done; apply elem_of_app in Hin as [Hin|Hin]; try done; exfalso.
  - revert Hin. unfold collectMySQLMetrics. destruct (isLeader _); [by apply Hfmap|apply not_elem_of_nil].
  - revert Hin. unfold collectMySQLHttpChecks. destruct (isLeader _); [by apply Hfmap|apply not_elem_of_nil].
  - set_solver.
  - set_solver.
  - apply elem_of_app in Hin as [Hin|Hin]; revert Hin; [by apply Hfmap|].
    destruct (memcacheClient _); [by apply Hfmap|apply not_elem_of_nil].
  - set_solver.
  - set_solver.
Qed.

(** A throttle that no other call is about lasts until it expires: the purge finds it at most then. *)
Lemma exec_throttle w now l s s' app a :
  exec cfg w now l s = Some s' -> ~ about_app app l -> ExpireApp app ∉ tasks s ->
  (Object <$> items (throttledApps (throttler s)) !! app) = Some a -> throttle_expired now a = false ->
  ExpireApp app ∉ tasks s' /\ (Object <$> items (throttledApps (throttler s')) !! app) = Some a.
Proof.
  intros E Hl Hn Hi He. split.
  - intros Hin. apply (exec_expire_app _ _ _ _ _ _ E) in Hin as [Hin|(it & Hit & _ & Hx)]; [done|].
    rewrite Hit in Hi. injection Hi as <-. congruence.
  - apply exec_change in E. destruct E as [| | | | | |i app' -> Ht| |c ->]; try done; simpl.
    + rewrite lookup_delete_ne; [done|]. intros <-. apply Hn. by eapply list_elem_of_lookup_2.
    + destruct c as [a0 e0 r0|a0| | | | |]; simpl in *; try done; try (unfold SkipHost, RecoverHost; by repeat case_if).
      * unfold ThrottleApp, UnthrottleApp. repeat case_if; simpl; by rewrite ?lookup_insert_ne, ?lookup_delete_ne.
      * by rewrite lookup_delete_ne.
Qed.

(** The mark that a normal app was throttled is only renewed. *)
Lemma exec_lowprio w now l s s' m e :
  system_ok s -> 0 < now -> now + nonDeprioritizedAppMapExpiration < 2 ^ 63 -> e <= now + nonDeprioritizedAppMapExpiration ->
  exec cfg w now l s = Some s' ->
  (exists i, items (nonLowPriorityAppRequestsThrottled (throttler s)) !! m = Some i /\ e <= Expiration i) ->
  exists i, items (nonLowPriorityAppRequestsThrottled (throttler s')) !! m = Some i /\ e <= Expiration i.
Proof.
  intros [[Ho _ _ _] _] Hn Hb He E Hm. apply exec_change in E. destruct E as [| | | | | | | |c ->]; try done.
  destruct c as [| | | | | |m']; try (simpl; unfold ThrottleApp, UnthrottleApp, SkipHost, RecoverHost; by repeat case_if).
  simpl. destruct (decide (m' = m)) as [->|Hne]; [|by rewrite lookup_insert_ne].
  rewrite lookup_insert_eq. eexists. split; [done|]. simpl. unfold cache_expiration. simpl. rewrite (ok_lowprio _ Ho).
  unfold nonDeprioritizedAppMapExpiration, Second, Time_UnixNano, Time_Add in *. simpl in *.
  by rewrite wrap64_id by (unfold int64_ok; lia).
Qed.

Lemma runs_system_ok ok now s now' s' : runs ok now s now' s' -> system_ok s -> system_ok s'.
Proof. intros Hr. apply (runs_keep _ (fun _ => system_ok) _ _ _ _ Hr). eauto using exec_ok. Qed.

(** What the leader collects is what it serves: an aggregation tick starts, for every cluster of the
    inventory, the store of the aggregate of its probes. *)
Lemma aggregate_is_started w now s s1 c ps :
  isLeader (throttler s) = true -> ClustersProbes (mysqlInventory (throttler s)) !! c = Some ps ->
  exec cfg w now AggregateTick s = Some s1 ->
  StoreMetric (metric_name c, aggregate_cluster (ignoreDialTcpErrors cfg) (mysqlInventory (throttler s)) c
                                (w_iterate _ _ w ps)) ∈ tasks s1.
Proof.
  intros HL Hps E. simpl in E. simplify_eq. simpl. rewrite !elem_of_app. right. left. apply list_elem_of_fmap.
  eexists. split; [done|]. unfold aggregateMySQLMetrics. rewrite HL. simpl. apply list_elem_of_fmap. exists (c, ps).
  split; [done|]. by apply elem_of_map_to_list.
Qed.

(** A metric that was stored is served for five seconds, whatever happens, until it is stored again. *)
Lemma stored_is_served w now s i name m s1 now' s2 later :
  system_ok s -> tasks s !! i = Some (StoreMetric (name, m)) -> 0 < now -> now + aggregatedMetricsExpiration < 2 ^ 63 ->
  exec cfg w now (Run i) s = Some s1 -> runs (fun s l => forall m', ~ stores s l (name, m')) now s1 now' s2 ->
  clock_ok later -> later <= now + aggregatedMetricsExpiration -> getNamedMetric later name (throttler s2) = m.
Proof.
  intros [[Ho _ _ _] _] Hi Hn Hb E Hr Hok Hle.
  set (item := mkItem m (cache_expiration (aggregatedMetrics (throttler s)) now DefaultExpiration)).
  assert (Hitem : items (aggregatedMetrics (throttler s2)) !! name = Some item).
  { apply (runs_keep _ (fun _ s => items (aggregatedMetrics (throttler s)) !! name = Some item) _ _ _ _ Hr).
    - intros now1 s3 now2 w' l s4 _ _ _ IH E4 Hns. destruct (exec_aggregated _ _ _ _ _ E4) as [->|([name' m'] & Hst & ->)]; [done|].
      simpl. rewrite lookup_insert_ne; [done|]. intros ->. by apply (Hns m').
    - unfold exec in E. rewrite Hi in E. simpl in E. simplify_eq. simpl. by rewrite lookup_insert_eq. }
  unfold getNamedMetric, cache_Get. rewrite Hitem.
  pose proof (cache_Get_SetDefault now later name m (aggregatedMetrics (throttler s))) as Hg.
  rewrite (ok_aggregated _ Ho) in Hg. specialize (Hg ltac:(done) Hok Hn Hb). unfold cache_Get in Hg. simpl in Hg.
  rewrite lookup_insert_eq, (proj2 (Z.ltb_ge _ _) Hle) in Hg. fold item in Hg. by destruct (item_expired later item).
Qed.
End Invariants.

(** *** Witnesses *)

(** A sequence of steps at one time. *)
Fixpoint exec_all {DB URL} (cfg : Config) (w : World DB URL) (now : Time) (ls : list label)
    (s : System DB) : option (System DB) :=
  match ls with
  | [] => Some s
  | l :: ls' => match exec cfg w now l s with Some s' => exec_all cfg w now ls' s' | None => None end
  end.

Lemma reachable_exec_all {DB URL} cfg (w : World DB URL) now ls : forall s s',
  reachable (URL := URL) cfg now s -> exec_all cfg w now ls s = Some s' ->
  reachable (URL := URL) cfg now s'.
Proof.
  induction ls as [|l ls IH]; intros s s' Hr E; simpl in E; [by simplify_eq|].
  destruct (exec cfg w now l s) as [s1|] eqn:E1; [|done]. eapply IH; [|exact E].
  eapply reach_step; [exact Hr|reflexivity|exact E1].
Qed.

Definition world_ex : World unit string :=
  mkWorld unit string true (inr (Errorf "")) (fun _ => inr (Errorf ""))
    (fun ps => (map_to_list ps).*2) ""
    (mkMySQLServer (fun _ => None) (fun _ _ => (f_one, None)) (fun _ _ => (f_one, None))
       (fun _ => inl []))
    (fun _ => inl 200) (fun s => inl s) id id (fun p _ => p) id
    (fun _ => inr (Errorf "")) (fun _ => inr (Errorf "")) (fun _ => None)
    (fun _ _ => (inr (Errorf ""), None)) id (fun _ _ => inr (Errorf "")) (fun _ => ([], None)).

Definition config_ex : Config := mkConfig {["c" := static_ex]} false.

(** The first seconds of a leader with one cluster of static hosts: the inventory is read, the
    probes are queried, and the aggregate is stored. *)
Definition start_ex : System unit := initial Second [] "" config_ex.
Definition labels_ex : list label :=
  [LeaderCheckTick; Run 0; Run 0; Run 0; CollectTick; Run 0; Run 0; Run 0; Run 0].
Definition running_ex : System unit := default start_ex (exec_all config_ex world_ex Second labels_ex start_ex).

Lemma running_ex_reachable : reachable (URL := string) config_ex Second running_ex.
Proof.
  unfold running_ex. destruct (exec_all _ _ _ _ _) as [s|] eqn:E; simpl.
  - eapply reachable_exec_all; [|exact E]. by constructor.
  - by constructor.
Qed.

Lemma running_ex_probes :
  ((map_to_list (ClustersProbes (mysqlInventory (throttler running_ex)))).*2
     ≫= fun ps => Hostname ∘ Key <$> (map_to_list ps).*2) = ["db2"; "db1"].
Proof. vm_compute. reflexivity. Qed.

Lemma reachable_follows_configuration_witness :
  (forall c ps key p, ClustersProbes (mysqlInventory (throttler running_ex)) !! c = Some ps ->
     ps !! key = Some p -> probe_ok config_ex c key p) /\
  (forall later name m, cache_Get later name (aggregatedMetrics (throttler running_ex)) = Some m ->
     published config_ex name) /\
  (forall later c thr, cache_Get later c (mysqlClusterThresholds (throttler running_ex)) = Some thr ->
     exists cs, clusters config_ex !! c = Some cs /\ thr = mc_ThrottleThreshold cs).
Proof. exact (reachable_follows_configuration config_ex Second running_ex running_ex_reachable). Defined.
