(* ===== verification/Check.v ===== *)
(** * Checks: may an app write now? (pkg/throttle/check.go, check_result.go)

    A check reads the throttler and starts goroutines that update it; those updates are returned as
    the [api_call]s of Operate.v.  [Check] returns a pointer to a result: a fresh one, or the shared
    global [NoSuchMetricCheckResult], which callers can change. *)
From S2P Require Import Prelude GoStrings GoFloat GoCache Base Mysql Config Aggregate Throttler Refresh.
From S2P Require Import Operate.

Open Scope string_scope.
Open Scope Z_scope.

Definition frenoAppName : string := "freno".
Definition frenoShareDmainAppName : string := "freno-share-domain".
Definition selfCheckInterval : Duration := 100 * Millisecond.

Record CheckFlags := mkCheckFlags {
  fl_ReadCheck : bool;
  fl_OverrideThreshold : float64;
  fl_LowPriority : bool;
  fl_OKIfNotExists : bool;
}.

(** [&CheckFlags{}]. *)
Definition zeroCheckFlags : CheckFlags := mkCheckFlags false f_zero false false.

Record CheckResult := mkCheckResult {
  cr_StatusCode : Z;
  cr_Value : float64;
  cr_Threshold : float64;
  cr_Error : option error;
  cr_Message : string;
}.

Definition NewCheckResult (statusCode : Z) (value threshold : float64) (err : option error)
  : CheckResult :=
  mkCheckResult statusCode value threshold err
    (match err with Some e => error_msg e | None => "" end).

Definition NewErrorCheckResult (statusCode : Z) (err : option error) : CheckResult :=
  NewCheckResult statusCode f_zero f_zero err.

(** The initial value of the shared global. *)
Definition NoSuchMetricCheckResult : CheckResult :=
  NewErrorCheckResult StatusNotFound (Some NoSuchMetricError).

(** A [*CheckResult] that [Check] returns. *)
Inductive result_ptr :=
| FreshResult (r : CheckResult)
| SharedNoSuchMetric.

Definition deref (shared : CheckResult) (p : result_ptr) : CheckResult :=
  match p with FreshResult r => r | SharedNoSuchMetric => shared end.

Section Check.
Context {DB : Type}.
Implicit Types (t : Throttler DB).

(** [checkAppMetricResult]: the result, and the goroutine it starts when a normal app is throttled. *)
Definition checkAppMetricResult (now : Time) (rand : nat -> float64)
    (appName storeType storeName : string) (metricResultFunc : unit -> MetricResult * float64)
    (flags : CheckFlags) (t : Throttler DB) : CheckResult * list api_call :=
  let metricName := storeType ++ "/" ++ storeName in
  let denyApp :=
    if fl_LowPriority flags then
      match cache_Get now metricName (nonLowPriorityAppRequestsThrottled t) with
      | Some _ => true
      | None => false
      end
    else false in
  let '(metricResult, threshold) :=
    AppRequestMetricResult now rand appName storeName metricResultFunc denyApp t in
  let threshold := if f_gtb (fl_OverrideThreshold flags) f_zero
                   then fl_OverrideThreshold flags else threshold in
  let '(value, err) := MetricResult_Get metricResult in
  if decide (appName = "") then
    (NewCheckResult StatusExpectationFailed value threshold (Some (Errorf "no app indicated")), [])
  else if decide (err = Some AppDeniedError) then
    (NewCheckResult StatusExpectationFailed value threshold err, [])
  else if decide (err = Some NoSuchMetricError) then
    (NewCheckResult StatusNotFound value threshold err, [])
  else
    match err with
    | Some _ => (NewCheckResult StatusInternalServerError value threshold err, [])
    | None =>
        if f_gtb value threshold then
          (NewCheckResult StatusTooManyRequests value threshold (Some ThresholdExceededError),
           if negb (fl_LowPriority flags) && negb (fl_ReadCheck flags) &&
              negb (bool_decide (appName = frenoAppName))
           then [CallLowPriority metricName] else [])
        else if negb (bool_decide (appName = frenoAppName)) &&
                (1 <=? getShareDomainSecondsSinceHealth now metricName t) then
          (NewCheckResult StatusTooManyRequests value threshold (Some ThresholdExceededError), [])
        else (NewCheckResult StatusOK value threshold None, [])
    end.

(** The counters [Check] increments. *)
Definition check_counters (statusCode : Z) (appName storeType storeName : string) : list string :=
  let four suffix :=
    ["check.any." ++ suffix; "check." ++ appName ++ "." ++ suffix;
     "check.any." ++ storeType ++ "." ++ storeName ++ "." ++ suffix;
     "check." ++ appName ++ "." ++ storeType ++ "." ++ storeName ++ "." ++ suffix] in
  (four "total" ++
   (if negb (statusCode =? StatusOK) then
      four "error" ++ (if statusCode =? StatusInternalServerError then four "internal-error" else [])
    else []))%list.

(** [Check]: the pointer it returns, the updates of the throttler and the counters it starts. *)
Definition Check (now : Time) (rand : nat -> float64)
    (appName storeType storeName remoteAddr : string) (flags : CheckFlags) (t : Throttler DB)
  : result_ptr * list api_call * list string :=
  if decide (storeType = "mysql") then
    let '(checkResult, calls) :=
      checkAppMetricResult now rand appName storeType storeName
        (fun _ => getMySQLClusterMetrics now storeName t) flags t in
    (FreshResult checkResult, (calls ++ [CallMarkRecentApp appName remoteAddr])%list,
     check_counters (cr_StatusCode checkResult) appName storeType storeName)
  else (SharedNoSuchMetric, [], []).

Definition splitMetricTokens (metricName : string) : (string * string) + error :=
  match Split metricName "/" with
  | [storeType; storeName] => inl (storeType, storeName)
  | _ => inr NoSuchMetricError
  end.

(** [localCheck] on behalf of freno, with the value of [StandardCheckFlags] at that time: the
    result, the throttler after [markMetricHealthy], and the updates started.  The check on behalf of
    the share domain app runs with its own random numbers. *)
Definition localCheck (now : Time) (rand rand' : nat -> float64) (standard : CheckFlags)
    (shared : CheckResult) (metricName : string) (t : Throttler DB)
  : result_ptr * Throttler DB * list api_call :=
  match splitMetricTokens metricName with
  | inr _ => (SharedNoSuchMetric, t, [])
  | inl (storeType, storeName) =>
      let '(checkResult, calls, _) :=
        Check now rand frenoAppName storeType storeName "local" standard t in
      let '(_, calls', _) :=
        Check now rand' frenoShareDmainAppName storeType storeName "local" standard t in
      (checkResult,
       if cr_StatusCode (deref shared checkResult) =? StatusOK then markMetricHealthy now metricName t
       else t,
       (calls ++ calls')%list)
  end.

Definition AggregatedMetrics (now : Time) (t : Throttler DB) : gmap string MetricResult :=
  aggregatedMetricsSnapshot now t.

Definition MetricsHealth (now : Time) (t : Throttler DB) : MetricHealthMap :=
  metricsHealthSnapshot now t.

(** [SelfChecks]: the metrics checked at each tick. *)
Definition self_check_metrics (now : Time) (t : Throttler DB) : list string :=
  (map_to_list (AggregatedMetrics now t)).*1.
End Check.

(** ** Properties *)

(** The name of a cluster's metric splits back, if the cluster name has no slash. *)
Lemma splitMetricTokens_mysql store :
  str_mem "/" store = false -> splitMetricTokens ("mysql/" ++ store) = inl ("mysql", store).
Proof.
  intros H. unfold splitMetricTokens. change ("mysql/" ++ store) with ("mysql" ++ String "/" store).
  by rewrite Split_at, Split_single.
Qed.

Section Properties.
Context {DB : Type}.
Implicit Types (t : Throttler DB) (now later : Time).

(** The app is turned away before the metric is looked at. *)
Definition denied (now : Time) (rand : nat -> float64) (app store : string) (flags : CheckFlags) t : Prop :=
  (fl_LowPriority flags = true /\
   is_Some (cache_Get now ("mysql/" ++ store) (nonLowPriorityAppRequestsThrottled t))) \/
  IsAppThrottled now rand app store t = true.

#[export] Instance denied_dec now rand app store flags t : Decision (denied now rand app store flags t).
Proof. unfold denied. apply _. Defined.

(** The threshold in force: a positive override, or the one of the cluster. *)
Definition effective_threshold (flags : CheckFlags) (threshold : float64) : float64 :=
  if f_gtb (fl_OverrideThreshold flags) f_zero then fl_OverrideThreshold flags else threshold.

(** What a check on MySQL sees. *)
Lemma Check_request now rand app store flags t :
  AppRequestMetricResult now rand app store (fun _ => getMySQLClusterMetrics now store t)
    (if fl_LowPriority flags then
       match cache_Get now ("mysql" ++ "/" ++ store) (nonLowPriorityAppRequestsThrottled t) with
       | Some _ => true | None => false end
     else false) t =
  if decide (denied now rand app store flags t) then (AppDeniedMetric, f_zero)
  else getMySQLClusterMetrics now store t.
Proof.
  unfold AppRequestMetricResult. change ("mysql" ++ "/" ++ store) with ("mysql/" ++ store).
  case_decide as D; unfold denied in D.
  - destruct (fl_LowPriority flags); [destruct (cache_Get now ("mysql/" ++ store) _)|]; try done.
    all: destruct D as [[H1 H2]|H]; [|by rewrite H]; try done; by destruct H2.
  - destruct (fl_LowPriority flags); [destruct (cache_Get now ("mysql/" ++ store) _)|]; try done.
    1: exfalso; eauto.
    all: destruct (IsAppThrottled _ _ _ _ _); [exfalso; auto|done].
Qed.

(** The result of a check on MySQL. *)
Definition mysql_check now rand app store remote flags t : CheckResult :=
  deref NoSuchMetricCheckResult (Check now rand app "mysql" store remote flags t).1.1.

Lemma mysql_check_eq now rand app store remote flags t :
  mysql_check now rand app store remote flags t =
  (checkAppMetricResult now rand app "mysql" store (fun _ => getMySQLClusterMetrics now store t) flags t).1.
Proof. unfold mysql_check, Check. simpl. by destruct (checkAppMetricResult _ _ _ _ _ _ _ _). Qed.

(** The status code in terms of what the check sees. *)
Lemma mysql_check_status now rand app store remote flags t m thr value err :
  (if decide (denied now rand app store flags t) then (AppDeniedMetric, f_zero)
   else getMySQLClusterMetrics now store t) = (m, thr) ->
  MetricResult_Get m = (value, err) ->
  cr_StatusCode (mysql_check now rand app store remote flags t) =
    if decide (app = "") then StatusExpectationFailed
    else if decide (err = Some AppDeniedError) then StatusExpectationFailed
    else if decide (err = Some NoSuchMetricError) then StatusNotFound
    else match err with
         | Some _ => StatusInternalServerError
         | None =>
             if f_gtb value (effective_threshold flags thr) then StatusTooManyRequests
             else if negb (bool_decide (app = frenoAppName)) &&
                     (1 <=? getShareDomainSecondsSinceHealth now ("mysql/" ++ store) t)
             then StatusTooManyRequests else StatusOK
         end.
Proof.
  intros E G. rewrite mysql_check_eq. unfold checkAppMetricResult. rewrite Check_request, E.
  cbv zeta. rewrite G. fold (effective_threshold flags thr).
  destruct (decide (app = "")); [done|]. destruct (decide (err = Some AppDeniedError)); [done|].
  destruct (decide (err = Some NoSuchMetricError)); [done|]. destruct err; [done|].
  destruct (f_gtb value _); [done|].
  change ("mysql" ++ "/" ++ store) with ("mysql/" ++ store). by destruct (_ && _).
Qed.

(** C1: a check answers 200 exactly when an app is named, it is neither throttled nor a low
    priority app behind a throttled normal one, the metric of the cluster has a value, the value does
    not exceed the threshold in force (the override of a read check, or the cluster's), and the share
    domain has not been unhealthy for a second or more, unless the app is freno itself. *)
Theorem Check_OK_iff now rand app store remote flags t :
  cr_StatusCode (mysql_check now rand app store remote flags t) = StatusOK <->
  app <> "" /\ ~ denied now rand app store flags t /\
  exists m thr value,
    getMySQLClusterMetrics now store t = (m, thr) /\ MetricResult_Get m = (value, None) /\
    f_gtb value (effective_threshold flags thr) = false /\
    (app = frenoAppName \/ getShareDomainSecondsSinceHealth now ("mysql/" ++ store) t < 1).
Proof.
  destruct (if decide (denied now rand app store flags t) then (AppDeniedMetric, f_zero)
            else getMySQLClusterMetrics now store t) as [m thr] eqn:E.
  destruct (MetricResult_Get m) as [value err] eqn:G.
  rewrite (mysql_check_status _ _ _ _ _ _ _ _ _ _ _ E G).
  destruct (decide (app = "")) as [->|Ha]; [split; [done|]; tauto|].
  destruct (decide (denied now rand app store flags t)) as [D|D].
  { simplify_eq. simpl in G. simplify_eq. split; [done|tauto]. }
  assert (Hsame : forall m' thr' v', getMySQLClusterMetrics now store t = (m', thr') ->
    MetricResult_Get m' = (v', None) -> m' = m /\ thr' = thr /\ v' = value /\ err = None).
  { intros m' thr' v' E' G'. rewrite E in E'. injection E' as <- <-. rewrite G in G'.
    by injection G' as <- <-. }
  assert (Hbad : forall code, code <> StatusOK -> err <> None \/
      f_gtb value (effective_threshold flags thr) = true ->
    (code = StatusOK <-> app <> "" /\ ~ denied now rand app store flags t /\
     exists m thr value, getMySQLClusterMetrics now store t = (m, thr) /\
       MetricResult_Get m = (value, None) /\ f_gtb value (effective_threshold flags thr) = false /\
       (app = frenoAppName \/ getShareDomainSecondsSinceHealth now ("mysql/" ++ store) t < 1))).
  { intros code Hc Hx. split; [done|]. intros (_ & _ & m' & thr' & v' & E' & G' & F & _).
    destruct (Hsame _ _ _ E' G') as (-> & -> & -> & ->). destruct Hx; congruence. }
  destruct (decide (err = Some AppDeniedError)) as [->|]; [apply Hbad; auto|].
  destruct (decide (err = Some NoSuchMetricError)) as [->|]; [apply Hbad; auto|].
  destruct err as [e|]; [apply Hbad; auto|].
  destruct (f_gtb value _) eqn:F; [apply Hbad; auto|].
  destruct (bool_decide_reflect (app = frenoAppName)); simpl.
  { split; [|done]. intros _. split_and!; [done|done|]. by exists m, thr, value; auto. }
  destruct (Z.leb_spec 1 (getShareDomainSecondsSinceHealth now ("mysql/" ++ store) t)).
  - split; [done|]. intros (_ & _ & m' & thr' & v' & _ & _ & _ & [?|?]); [done|lia].
  - split; [|done]. intros _. split_and!; [done|done|]. by exists m, thr, value; auto.
Qed.

(** An app that is denied is refused. *)
Lemma denied_417 now rand app store remote flags t :
  denied now rand app store flags t ->
  cr_StatusCode (mysql_check now rand app store remote flags t) = StatusExpectationFailed.
Proof.
  intros D. rewrite (mysql_check_status _ _ _ _ _ _ _ AppDeniedMetric f_zero f_zero (Some AppDeniedError)).
  - by case_decide.
  - by rewrite decide_True.
  - done.
Qed.

(** A check of a normal app for writing that finds the metric above its threshold starts the mark that
    low priority apps look at. *)
Lemma Check_starts_mark now rand app store remote flags t :
  app <> "" -> app <> frenoAppName -> fl_LowPriority flags = false -> fl_ReadCheck flags = false ->
  let r := mysql_check now rand app store remote flags t in
  cr_StatusCode r = StatusTooManyRequests -> f_gtb (cr_Value r) (cr_Threshold r) = true ->
  (Check now rand app "mysql" store remote flags t).1.2 =
    [CallLowPriority ("mysql/" ++ store); CallMarkRecentApp app remote].
Proof.
  intros Ha Hf HL HR r Hcode Hgt. unfold r in *. rewrite mysql_check_eq in Hcode, Hgt. unfold Check. simpl. revert Hcode Hgt.
  unfold checkAppMetricResult. rewrite Check_request.
  destruct (if decide _ then _ else _) as [m thr]. cbv zeta. destruct (MetricResult_Get m) as [v e].
  rewrite (decide_False (P := app = "")) by done. repeat (case_decide; [done|]).
  destruct e; [done|]. rewrite HL, HR. rewrite (bool_decide_false (app = frenoAppName)) by done.
  destruct (f_gtb v _) eqn:F; simpl; [done|].
  destruct (1 <=? _); simpl; [|done]. intros _ Hgt. congruence.
Qed.

(** Freno's own checks do not depend on the health its share domain reports, so that services
    polling each other cannot keep each other unhealthy: the result of a self check and the health it
    records are the same whatever the domain says. *)
Theorem self_check_ignores_share_domain now rand rand' standard shared metricName x t :
  let '(r, t1, _) := localCheck now rand rand' standard shared metricName t in
  let '(r', t1', _) := localCheck now rand rand' standard shared metricName
                         (set_shareDomainMetricHealth x t) in
  r' = r /\ metricsHealth t1' = metricsHealth t1.
Proof.
  unfold localCheck. destruct (splitMetricTokens metricName) as [[ty st]|]; [|done].
  assert (E : forall now rand store remote,
    (Check now rand frenoAppName ty store remote standard (set_shareDomainMetricHealth x t)).1.1 =
    (Check now rand frenoAppName ty store remote standard t).1.1).
  { intros n rd store remote. unfold Check. case_decide; [|done].
    unfold checkAppMetricResult. simpl.
    destruct (AppRequestMetricResult _ _ _ _ _ _ t) as [m thr] eqn:EA.
    change (AppRequestMetricResult _ _ _ _ _ _ (set_shareDomainMetricHealth x t))
      with (AppRequestMetricResult n rd frenoAppName store
              (fun _ => getMySQLClusterMetrics n store t)
              (if fl_LowPriority standard then
                 match cache_Get n (ty ++ "/" ++ store) (nonLowPriorityAppRequestsThrottled t) with
                 | Some _ => true | None => false end else false) t).
    rewrite EA. destruct (MetricResult_Get m) as [v e]. repeat (case_decide; [done|]).
    destruct e; [done|]. by destruct (f_gtb v _). }
  specialize (E now rand st "local").
  destruct (Check now rand frenoAppName ty st "local" standard t) as [[r1 c1] n1].
  destruct (Check now rand frenoAppName ty st "local" standard (set_shareDomainMetricHealth x t))
    as [[r2 c2] n2].
  destruct (Check now rand' frenoShareDmainAppName ty st "local" standard t) as [[r3 c3] n3].
  destruct (Check now rand' frenoShareDmainAppName ty st "local" standard
              (set_shareDomainMetricHealth x t)) as [[r4 c4] n4].
  simpl in E. subst. split; [done|]. by destruct (_ =? _).
Qed.
End Properties.

(** ** The whole system *)

Section EndToEnd.
Context {DB URL : Type} (cfg : Config).

(** A node that does not collect does not answer from old metrics: when no aggregate has been
    stored for more than five seconds, as after losing the leadership, every check that is not
    refused for its app is answered 404, in every interleaving. *)
Theorem idle_node_answers_404 now (s : System DB) now' s' later rand app store remote flags :
  reachable (URL := URL) cfg now s -> quiet (URL := URL) cfg now s now' s' ->
  now + aggregatedMetricsExpiration < later -> later < 2 ^ 63 ->
  app <> "" -> ~ denied later rand app store flags (throttler s') ->
  cr_StatusCode (mysql_check later rand app store remote flags (throttler s')) = StatusNotFound.
Proof.
  intros Hr Hq Hlt Hb Ha Hd.
  destruct (getMySQLClusterMetrics later store (throttler s')) as [m thr] eqn:E.
  assert (Hm : m = NoSuchMetric).
  { unfold getMySQLClusterMetrics in E. rewrite (stale_metrics_vanish cfg now s now' s' later) in E by done.
    by destruct (cache_Get _ _ _); simplify_eq. }
  subst. rewrite (mysql_check_status _ _ _ _ _ _ _ NoSuchMetric thr f_zero (Some NoSuchMetricError)).
  - by rewrite decide_False by done.
  - by rewrite decide_False.
  - done.
Qed.

(** C2: an overloaded cluster throttles its writers.  On a leader that has taken over the threshold of a
    configured cluster, and whose probes of the cluster aggregate to a value, the aggregation tick starts a
    goroutine that stores the value; whenever that runs, and whatever runs after it other than the store of a newer
    aggregate of this cluster: for five seconds every check on the cluster, of whatever kind, is answered
    429, if the aggregate exceeds the threshold in force for the check (its own positive override, or the
    cluster's) and the check names an app that is not denied (throttled, or of low priority behind a
    normal app that was throttled in the last second). *)
Theorem overloaded_cluster_throttles w now (s s1 : System DB) c ps cs v :
  system_ok cfg s -> isLeader (throttler s) = true ->
  ClustersProbes (mysqlInventory (throttler s)) !! c = Some ps ->
  clusters cfg !! c = Some cs -> is_Some (items (mysqlClusterThresholds (throttler s)) !! c) ->
  aggregate_cluster (ignoreDialTcpErrors cfg) (mysqlInventory (throttler s)) c
    (w_iterate DB URL w ps) = simpleMetricResult v ->
  exec cfg w now AggregateTick s = Some s1 ->
  StoreMetric (metric_name c, simpleMetricResult v) ∈ tasks s1 /\
  forall now1 s2 i (w' : World DB URL) now2 s3 now3 s4 later rand app remote flags,
    runs (URL := URL) cfg (fun _ _ => True) now s1 now1 s2 ->
    tasks s2 !! i = Some (StoreMetric (metric_name c, simpleMetricResult v)) ->
    0 < now2 -> now2 + aggregatedMetricsExpiration < 2 ^ 63 -> exec cfg w' now2 (Run i) s2 = Some s3 ->
    runs (URL := URL) cfg (fun s l => forall m, ~ stores s l (metric_name c, m)) now2 s3 now3 s4 ->
    now3 <= later <= now2 + aggregatedMetricsExpiration -> clock_ok later ->
    app <> "" -> ~ denied later rand app c flags (throttler s4) ->
    f_gtb v (effective_threshold flags (mc_ThrottleThreshold cs)) = true ->
    cr_StatusCode (mysql_check later rand app c remote flags (throttler s4)) = StatusTooManyRequests.
Proof.
  intros Hok HL Hps Hcs Hthr Hagg E. split.
  { rewrite <- Hagg. by eapply aggregate_is_started. }
  intros now1 s2 i w' now2 s3 now3 s4 later rand app remote flags Hr12 Hi Hn Hb E3 Hr34 Hle Hc Ha Hd Hgt.
  assert (Hok2 : system_ok cfg s2) by (eapply runs_system_ok; [done|by eapply exec_ok]).
  assert (Hok4 : system_ok cfg s4) by (eapply runs_system_ok; [done|by eapply exec_ok]).
  assert (Hthr4 : is_Some (items (mysqlClusterThresholds (throttler s4)) !! c)).
  { apply (runs_keep cfg _ (fun _ s => is_Some (items (mysqlClusterThresholds (throttler s)) !! c)) _ _ _ _ Hr34).
    { intros. by eapply exec_thresholds. }
    eapply exec_thresholds; [done|].
    apply (runs_keep cfg _ (fun _ s => is_Some (items (mysqlClusterThresholds (throttler s)) !! c)) _ _ _ _ Hr12).
    { intros. by eapply exec_thresholds. }
    by eapply exec_thresholds. }
  assert (Hm : getMySQLClusterMetrics later c (throttler s4) = (simpleMetricResult v, mc_ThrottleThreshold cs)).
  { unfold getMySQLClusterMetrics. destruct Hok4 as [Hcore _]. rewrite never_expires_Get by apply Hcore.
    destruct Hthr4 as [it Hit]. rewrite Hit. simpl. destruct (core_thresholds _ _ Hcore _ _ Hit) as (cs' & Hc' & ->).
    simplify_eq. f_equal. eapply (stored_is_served cfg w' now2 s2 i); try done. lia. }
  rewrite (mysql_check_status _ _ _ _ _ _ _ (simpleMetricResult v) (mc_ThrottleThreshold cs) v None).
  - rewrite decide_False by done. simpl. by rewrite Hgt.
  - by rewrite decide_False.
  - done.
Qed.

(** C15: throttling an app reaches its checks.  From the call to the expiry (for ever without one), over
    every run of the loop, its goroutines and the API in which no other call throttles or unthrottles the
    app (and no purge that found an earlier throttle of it expired is under way): every check of the app,
    on every cluster, whatever the state of the cluster, is answered 417 when its random numbers are below
    the ratio; and on a store the app is not throttled for separately it is denied as throttled exactly
    when its first random number is.  The ratio is the one given, or, when that is negative, the one of
    the throttle before, or 1. *)
Theorem throttled_app_gets_417 (w : World DB URL) now app expireAt ratio share (s s1 : System DB) now' s2 later rand
    store remote flags :
  system_ok cfg s -> ExpireApp app ∉ tasks s -> asks_ratio now app ratio (throttler s) share ->
  Time_IsZero expireAt = true \/ (now < expireAt /\ later <= expireAt) ->
  exec cfg w now (Api (CallThrottleApp app expireAt ratio)) s = Some s1 ->
  runs (URL := URL) cfg (fun _ l => ~ about_app app l) now s1 now' s2 -> now' <= later ->
  ((forall n, f_ltb (rand n) share = true) ->
   cr_StatusCode (mysql_check later rand app store remote flags (throttler s2)) = StatusExpectationFailed) /\
  (cache_Get later (app ++ "/" ++ store) (throttledApps (throttler s2)) = None ->
   IsAppThrottled later rand app store (throttler s2) = f_ltb (rand 0%nat) share).
Proof.
  intros Hok Hex Hr He E Hrun Hle. set (a := mkAppThrottle expireAt share).
  assert (Hlive : forall n, n <= later -> throttle_expired n a = false).
  { intros n Hn. unfold throttle_expired, Time_Before. simpl. destruct He as [-> | [_ He]]; [done|].
    rewrite (proj2 (Z.ltb_ge _ _)) by lia. apply andb_false_r. }
  assert (Hok2 : system_ok cfg s2) by (eapply runs_system_ok; [done|by eapply exec_ok]).
  assert (Hinv : ExpireApp app ∉ tasks s2 /\ (Object <$> items (throttledApps (throttler s2)) !! app) = Some a).
  { apply (runs_keep cfg _ (fun _ s => ExpireApp app ∉ tasks s /\ (Object <$> items (throttledApps (throttler s)) !! app) = Some a)
      _ _ _ _ Hrun).
    - intros n1 x1 n2 w' l x2 _ _ Hn2 [Hx Hi] Ex Hl. eapply exec_throttle; [done|done|done|done|]. apply Hlive. lia.
    - simpl in E. injection E as <-. split; [done|]. destruct Hok as [[Ho _ _ _] _]. simpl.
      rewrite <- (never_expires_Get now) by (apply (ok_ThrottleApp now app expireAt ratio _ Ho)).
      rewrite ThrottleApp_Get by done. rewrite (throttle_entry_asked _ _ _ _ _ share) by done.
      destruct He as [-> | [He _]]; [done|]. unfold Time_Before. by rewrite (proj2 (Z.ltb_lt _ _) He), orb_true_r. }
  destruct Hinv as [_ Hi]. destruct Hok2 as [[Ho2 _ _ _] _].
  rewrite <- (never_expires_Get later) in Hi by apply Ho2.
  destruct (entry_decides later app store rand (throttler s2) a Hi (Hlive later ltac:(lia))) as [H1 H2].
  split; [|exact H2]. intros Hrand. apply denied_417. right. by apply H1.
Qed.

(** C24: low priority apps back off first.  A check for writing (not a read check) of a normal app that
    finds the metric above its threshold (429) starts a goroutine that marks the metric; from the moment
    that has run, and whatever runs after it, every check of a low priority app on the same cluster is
    refused with 417 for one second. *)
Theorem low_priority_backs_off now (s : System DB) app store remote flags rand :
  app <> "" -> app <> frenoAppName -> fl_LowPriority flags = false -> fl_ReadCheck flags = false ->
  let r := mysql_check now rand app store remote flags (throttler s) in
  cr_StatusCode r = StatusTooManyRequests -> f_gtb (cr_Value r) (cr_Threshold r) = true ->
  CallLowPriority ("mysql/" ++ store) ∈ (Check now rand app "mysql" store remote flags (throttler s)).1.2 /\
  forall (w : World DB URL) now1 s0 s1 now2 s2 later app' remote' flags' rand',
    system_ok cfg s0 -> 0 < now1 -> now1 + 2 * Second < 2 ^ 63 ->
    exec cfg w now1 (Api (CallLowPriority ("mysql/" ++ store))) s0 = Some s1 ->
    runs (URL := URL) cfg (fun _ _ => True) now1 s1 now2 s2 -> now2 <= later <= now1 + Second ->
    fl_LowPriority flags' = true ->
    cr_StatusCode (mysql_check later rand' app' store remote' flags' (throttler s2)) = StatusExpectationFailed.
Proof.
  intros Ha Hf HL HR r Hcode Hgt. split.
  { rewrite (Check_starts_mark now rand app store remote flags) by done. set_solver. }
  intros w now1 s0 s1 now2 s2 later app' remote' flags' rand' Hok Hn Hb E Hrun Hle HL'.
  assert (Hok1 : system_ok cfg s1) by by eapply exec_ok.
  set (m := "mysql/" ++ store) in *.
  assert (Hm : system_ok cfg s2 /\ exists i, items (nonLowPriorityAppRequestsThrottled (throttler s2)) !! m = Some i /\
    now1 + Second <= Expiration i).
  { apply (runs_keep cfg _ (fun _ s => system_ok cfg s /\ exists i, items (nonLowPriorityAppRequestsThrottled (throttler s)) !! m = Some i /\
      now1 + Second <= Expiration i) _ _ _ _ Hrun).
    - intros n1 x1 n2 w' l x2 H1' H2' H3' [Hx Hi] Ex _. split; [by eapply exec_ok|].
      eapply (exec_lowprio cfg w' n2 l x1 x2 m (now1 + Second)); try done;
        unfold nonDeprioritizedAppMapExpiration in *; unfold Time, Duration in *; lia.
    - split; [done|]. simpl in E. injection E as <-. simpl. rewrite lookup_insert_eq. eexists. split; [done|]. simpl.
      destruct Hok as [[Ho _ _ _] _]. unfold cache_expiration. simpl. rewrite (ok_lowprio _ Ho).
      unfold nonDeprioritizedAppMapExpiration, Second, Time_UnixNano, Time_Add in *. simpl in *.
      by rewrite wrap64_id by (unfold int64_ok; unfold Time in *; lia). }
  destruct Hm as (_ & i & Hi & He). apply denied_417. left. split; [done|]. unfold cache_Get. fold m. rewrite Hi.
  unfold item_expired, Time_UnixNano. rewrite (proj2 (Z.ltb_ge (Expiration i) _)).
  - rewrite andb_false_r. eauto.
  - pose proof (runs_le _ _ _ _ _ _ Hrun). rewrite wrap64_id by (unfold int64_ok, Time, Second in *; lia).
    unfold Time in *. lia.
Qed.
End EndToEnd.

(** *** Witnesses *)

Definition half : float64 := f_div f_one (f_of_Z 2).

(** A leader whose cluster reports lag 1 against the given threshold. *)
Definition lagging_cluster (threshold : float64) : Config :=
  mkConfig {["c" := mkMySQLClusterSettings "u" "p" "select lag" 0 threshold 3306 0 f_zero 0 "" []
    (mkHAProxySettings "" 0 "" "") (mkProxySQLSettings [] "" "" 0 0) (mkVitessSettings "" [] "" "" 0)
    (mkStaticHostsSettings ["db1"; "db2:3307"])]} false.

Definition lagging_ex : System unit :=
  default (initial Second [] "" (lagging_cluster half))
    (exec_all (lagging_cluster half) world_ex Second labels_ex
       (initial Second [] "" (lagging_cluster half))).

Lemma lagging_ex_reachable : reachable (URL := string) (lagging_cluster half) Second lagging_ex.
Proof.
  unfold lagging_ex. destruct (exec_all _ _ _ _ _) as [s|] eqn:E; simpl.
  - eapply reachable_exec_all; [|exact E]. by constructor.
  - by constructor.
Qed.

Definition lagging_stored : System unit :=
  default lagging_ex (exec_all (lagging_cluster half) world_ex Second [AggregateTick; Run 0] lagging_ex).

Lemma lagging_stored_reachable : reachable (URL := string) (lagging_cluster half) Second lagging_stored.
Proof.
  unfold lagging_stored. destruct (exec_all _ _ _ _ lagging_ex) as [s|] eqn:E; simpl.
  - eapply reachable_exec_all; [|exact E]. apply lagging_ex_reachable.
  - apply lagging_ex_reachable.
Qed.

Lemma idle_node_answers_404_witness :
  cr_StatusCode (mysql_check (3 * Second) (fun _ => half) "app" "c" "" zeroCheckFlags
                   (throttler lagging_stored)) = 429 /\
  cr_StatusCode (mysql_check (7 * Second) (fun _ => half) "app" "c" "" zeroCheckFlags
                   (throttler lagging_stored)) = 404.
Proof.
  split; [vm_compute; reflexivity|].
  apply (idle_node_answers_404 (URL := string) (lagging_cluster half) Second lagging_stored Second);
    [apply lagging_stored_reachable|apply runs_refl|vm_compute; reflexivity|vm_compute; reflexivity|
     discriminate|].
  intros [[? _]|H]; [discriminate|]. vm_compute in H. discriminate.
Defined.

(** Its next aggregation, the store of the aggregate, and a check for reading in between. *)
Definition lagging_tick : System unit :=
  default lagging_ex (exec (lagging_cluster half) world_ex Second AggregateTick lagging_ex).
Definition lagging_after : System unit :=
  default lagging_ex (exec (lagging_cluster half) world_ex Second (Run 0) lagging_tick).
Definition lagging_later : System unit :=
  default lagging_ex (exec (lagging_cluster half) world_ex (3 * Second) (Api (CallMarkRecentApp "app" "")) lagging_after).

Lemma overloaded_cluster_throttles_witness :
  cr_StatusCode (mysql_check (4 * Second) (fun _ => half) "app" "c" "" (mkCheckFlags true half true false)
    (throttler lagging_later)) = 429.
Proof.
  edestruct (overloaded_cluster_throttles (URL := string) (lagging_cluster half) world_ex Second lagging_ex lagging_tick "c")
    as [_ Hc].
  - exact (reachable_system_ok (lagging_cluster half) Second lagging_ex lagging_ex_reachable).
  - vm_compute. reflexivity.
  - vm_compute. reflexivity.
  - vm_compute. reflexivity.
  - vm_compute. eauto.
  - vm_compute. reflexivity.
  - reflexivity.
  - apply (Hc Second lagging_tick 0%nat world_ex Second lagging_after (3 * Second)).
    + constructor.
    + vm_compute. reflexivity.
    + reflexivity.
    + reflexivity.
    + vm_compute. reflexivity.
    + eapply (runs_step _ _ Second lagging_after Second lagging_after (3 * Second) world_ex (Api (CallMarkRecentApp "app" "")));
        [constructor|vm_compute; discriminate|vm_compute; reflexivity|]. intros m (j & Hj & _). discriminate Hj.
    + vm_compute. split; discriminate.
    + vm_compute. split; [discriminate|reflexivity].
    + discriminate.
    + apply (bool_decide_unpack _). vm_compute. exact I.
    + vm_compute. reflexivity.
Defined.

(** An app is throttled for half of its requests, another app in between is not of interest. *)
Definition throttled_ex : System unit :=
  default lagging_ex (exec (lagging_cluster half) world_ex (2 * Second) (Api (CallThrottleApp "app" (5 * Second) half)) lagging_ex).
Definition throttled_later : System unit :=
  default lagging_ex (exec (lagging_cluster half) world_ex (3 * Second) (Api (CallUnthrottleApp "other")) throttled_ex).

Lemma throttled_app_gets_417_witness :
  cr_StatusCode (mysql_check (4 * Second) (fun _ => f_zero) "app" "c" "10.0.0.1" zeroCheckFlags (throttler throttled_later)) = 417 /\
  IsAppThrottled (4 * Second) (fun _ => half) "app" "c" (throttler throttled_later) = false.
Proof.
  assert (Hall : forall rand, ((forall n, f_ltb (rand n) half = true) ->
     cr_StatusCode (mysql_check (4 * Second) rand "app" "c" "10.0.0.1" zeroCheckFlags (throttler throttled_later)) = StatusExpectationFailed) /\
    (cache_Get (4 * Second) ("app" ++ "/" ++ "c") (throttledApps (throttler throttled_later)) = None ->
     IsAppThrottled (4 * Second) rand "app" "c" (throttler throttled_later) = f_ltb (rand 0%nat) half)).
  { intros rand. apply (throttled_app_gets_417 (URL := string) (lagging_cluster half) world_ex (2 * Second) "app" (5 * Second) half half
      lagging_ex throttled_ex (3 * Second) throttled_later).
    - exact (reachable_system_ok (lagging_cluster half) Second lagging_ex lagging_ex_reachable).
    - vm_compute. intros Hin. repeat (apply elem_of_cons in Hin as [Hin|Hin]; [discriminate Hin|]). by apply elem_of_nil in Hin.
    - left. split; vm_compute; reflexivity.
    - right. vm_compute. split; [reflexivity|discriminate].
    - vm_compute. reflexivity.
    - eapply (runs_step _ _ (2 * Second) throttled_ex (2 * Second) throttled_ex (3 * Second) world_ex (Api (CallUnthrottleApp "other")));
        [constructor|vm_compute; discriminate|vm_compute; reflexivity|discriminate].
    - vm_compute. discriminate. }
  split.
  - apply Hall. intros _. vm_compute. reflexivity.
  - destruct (Hall (fun _ => half)) as [_ H]. rewrite H; vm_compute; reflexivity.
Defined.

Definition marked_ex : System unit :=
  default lagging_ex (exec (lagging_cluster half) world_ex (2 * Second) (Api (CallLowPriority "mysql/c")) lagging_stored).

Lemma low_priority_backs_off_witness :
  cr_StatusCode (mysql_check (3 * Second) (fun _ => half) "batch" "c" "" (mkCheckFlags false f_zero true false)
    (throttler marked_ex)) = 417.
Proof.
  eapply (low_priority_backs_off (URL := string) (lagging_cluster half) (2 * Second) lagging_stored "web" "c" "" zeroCheckFlags
    (fun _ => half)) with (w := world_ex) (now1 := 2 * Second) (s0 := lagging_stored) (s1 := marked_ex) (now2 := 2 * Second).
  - discriminate.
  - discriminate.
  - reflexivity.
  - reflexivity.
  - vm_compute. reflexivity.
  - vm_compute. reflexivity.
  - exact (reachable_system_ok _ _ _ lagging_stored_reachable).
  - reflexivity.
  - reflexivity.
  - vm_compute. reflexivity.
  - constructor.
  - vm_compute. split; discriminate.
  - reflexivity.
Defined.
