(* ===== verification/Fsm.v ===== *)
(** * The raft store: commands, the state machine, snapshots (pkg/group/store.go, fsm.go,
    fsm_snapshot.go)

    A command is proposed by [genericCommand] on the leader, agreed on by raft, and applied on every
    node by [fsm_Apply] at that node's own time. *)
From S2P Require Import Prelude GoStrings GoFloat GoCache Base Mysql Config Throttler Operate.

Open Scope string_scope.
Open Scope Z_scope.

Record command := mkCommand {
  cmd_Operation : string;
  cmd_Key : string;
  cmd_Value : string;
  cmd_ExpireAt : Time;
  cmd_Ratio : float64;
}.

(** [json.Marshal] of a command: it fails for a ratio that is not a finite number and for a time
    whose year is outside 0..9999.  [json.Unmarshal] reads back what it accepts, but for the bytes of
    strings that are not UTF-8 and the sign of a zero ratio (GroupStore.v states when it is exact). *)
Definition json_float_ok (x : float64) : bool :=
  match x with S754_nan | S754_infinity _ => false | _ => true end.
Definition json_time_ok (t : Time) : bool :=
  (- 62167219200 * Second <=? t) && (t <? 253402300800 * Second).

Definition command_Marshal (c : command) : command + error :=
  if negb (json_time_ok (cmd_ExpireAt c)) then
    inr (Errorf "Time.MarshalJSON: year outside of range [0,9999]")
  else if negb (json_float_ok (cmd_Ratio c)) then inr (Errorf "json: unsupported value")
  else inl c.

(** The commands the store proposes. *)
Definition throttle_command (appName : string) (expireAt : Time) (ratio : float64) : command :=
  mkCommand "throttle" appName "" expireAt ratio.
Definition unthrottle_command (appName : string) : command :=
  mkCommand "unthrottle" appName "" zero_time f_zero.
Definition skip_command (hostName : string) (expireAt : Time) : command :=
  mkCommand "skip" hostName "" expireAt f_zero.
Definition recover_command (hostName : string) : command :=
  mkCommand "recover" hostName "" zero_time f_zero.

Section Fsm.
Context {DB : Type}.
Implicit Types (t : Throttler DB).

Definition applyThrottleApp (now : Time) (appName : string) (expireAt : Time) (ratio : float64) t :=
  ThrottleApp now appName expireAt ratio t.
Definition applyUnthrottleApp (appName : string) t := UnthrottleApp appName t.
Definition applySkipHost (now : Time) (hostName : string) (expireAt : Time) t :=
  SkipHost now hostName expireAt t.
Definition applyRecoverHost (hostName : string) t := RecoverHost hostName t.

(** [Apply] on a log entry; [c] is what [json.Unmarshal] leaves in the variable.  Its error is only
    logged: a command that was read in part is applied as it is. *)
Definition fsm_Apply (now : Time) (c : command) t : Throttler DB * option error :=
  if decide (cmd_Operation c = "throttle") then
    (applyThrottleApp now (cmd_Key c) (cmd_ExpireAt c) (cmd_Ratio c) t, None)
  else if decide (cmd_Operation c = "unthrottle") then (applyUnthrottleApp (cmd_Key c) t, None)
  else if decide (cmd_Operation c = "skip") then (applySkipHost now (cmd_Key c) (cmd_ExpireAt c) t, None)
  else if decide (cmd_Operation c = "recover") then (applyRecoverHost (cmd_Key c) t, None)
  else (t, Some (Errorf ("unrecognized command operation: " ++ cmd_Operation c))).

(** ** Snapshots *)

Record snapshotData := mkSnapshotData {
  sd_throttledApps : gmap string AppThrottle;
  sd_skippedHosts : gmap string Time;
}.

Definition newSnapshotData : snapshotData := mkSnapshotData ∅ ∅.

(** [fsm.Snapshot]. *)
Definition fsm_Snapshot (now : Time) t : snapshotData :=
  mkSnapshotData (ThrottledAppsMap now t) (SkippedHostsMap now t).

(** The JSON object of a struct: encoding/json visits exported fields only, those whose name starts
    with an upper case letter; decoding matches the members of the object with exported fields. *)
Inductive field_value :=
| FieldApps (m : gmap string AppThrottle)
| FieldHosts (m : gmap string Time).

Definition exported (name : string) : bool :=
  match name with
  | String c _ => (N_of_ascii "A" <=? N_of_ascii c)%N && (N_of_ascii c <=? N_of_ascii "Z")%N
  | EmptyString => false
  end.

Definition snapshot_fields (d : snapshotData) : list (string * field_value) :=
  [("throttledApps", FieldApps (sd_throttledApps d)); ("skippedHosts", FieldHosts (sd_skippedHosts d))].

Definition json_Marshal (d : snapshotData) : list (string * field_value) :=
  filter (fun f => exported f.1 = true) (snapshot_fields d).

Definition set_field (d : snapshotData) (f : string * field_value) : snapshotData :=
  if negb (exported f.1) then d
  else
    match f with
    | ("throttledApps", FieldApps m) => mkSnapshotData m (sd_skippedHosts d)
    | ("skippedHosts", FieldHosts m) => mkSnapshotData (sd_throttledApps d) m
    | _ => d
    end.

Definition json_Decode (o : list (string * field_value)) (d : snapshotData) : snapshotData :=
  foldl set_field d o.

(** [fsmSnapshot.Persist]: the object written to the sink, or the error after which the sink is
    cancelled; [write] and [close] are the sink's answers. *)
Definition fsmSnapshot_Persist (d : snapshotData) (write close : option error)
  : list (string * field_value) + error :=
  let b := json_Marshal d in
  match write with
  | Some e => inr e
  | None => match close with Some e => inr e | None => inl b end
  end.

(** [fsm.Restore]: the throttles and the skipped hosts of the snapshot are applied. *)
Definition fsm_Restore (now : Time) (o : list (string * field_value)) t : Throttler DB :=
  let data := json_Decode o newSnapshotData in
  let t := foldl (fun t p => ThrottleApp now p.1 (ExpireAt p.2) (Ratio p.2) t) t
             (map_to_list (sd_throttledApps data)) in
  foldl (fun t p => SkipHost now p.1 p.2 t) t (map_to_list (sd_skippedHosts data)).
End Fsm.

(** ** Properties *)

Section Properties.
Context {DB : Type}.
Implicit Types (t : Throttler DB).

(** A raft snapshot of freno loses everything: the snapshot object that is written has no
    members, so restoring it, as a node does after a restart or when it catches up with a truncated
    log, leaves the throttler exactly as it was, whatever was throttled or skipped. *)
Theorem snapshot_restores_nothing now later t t' :
  fsmSnapshot_Persist (fsm_Snapshot now t) None None = inl [] /\
  fsm_Restore later [] t' = t'.
Proof. done. Qed.

(** *** Agreement of replicas *)

(** The history of a replica: it applies commands, each at its own time, and purges expired throttles
    every few seconds ([None]). *)
Definition replica_step t (p : Time * option command) : Throttler DB :=
  match p.2 with
  | Some c => (fsm_Apply p.1 c t).1
  | None => expireThrottledApps p.1 t
  end.

Definition replica (history : list (Time * option command)) t : Throttler DB :=
  foldl replica_step t history.

Definition commands (history : list (Time * option command)) : list command := omap snd history.

(** The throttle a command leaves for a key, seen at time [later]. *)
Definition live now (o : option AppThrottle) : option AppThrottle :=
  match o with
  | Some a => if throttle_expired now a then None else Some a
  | None => None
  end.

Lemma throttled_keys_live_ext now keys t t' : forall rand,
  (forall key, key ∈ keys -> live now (cache_Get now key (throttledApps t)) =
                             live now (cache_Get now key (throttledApps t'))) ->
  throttled_keys now rand keys t = throttled_keys now rand keys t'.
Proof.
  induction keys as [|k keys IH]; intros rand H; [done|]. simpl.
  assert (IH' : forall rand, throttled_keys now rand keys t = throttled_keys now rand keys t').
  { intros r. apply IH. intros key Hk. apply H. by right. }
  specialize (H k (list_elem_of_here _ _)). unfold live in H.
  destruct (cache_Get now k (throttledApps t)) as [a|], (cache_Get now k (throttledApps t')) as [a'|];
    [destruct (throttle_expired now a), (throttle_expired now a')|
     destruct (throttle_expired now a)|destruct (throttle_expired now a')|];
    simplify_eq; rewrite ?IH'; done.
Qed.

(** A throttle command with a ratio. *)
Definition has_ratio (c : command) : Prop :=
  cmd_Operation c = "throttle" -> f_geb (cmd_Ratio c) f_zero = true.

(** What a command does to the live throttle of a key, independent of the time it is applied. *)
Definition command_effect (later : Time) (c : command) (key : string) (o : option AppThrottle)
  : option AppThrottle :=
  if decide (cmd_Operation c = "throttle" /\ cmd_Key c = key) then
    live later (Some (mkAppThrottle (cmd_ExpireAt c) (cmd_Ratio c)))
  else if decide (cmd_Operation c = "unthrottle" /\ cmd_Key c = key) then None
  else o.

Lemma throttle_entry_ratio now app e r t :
  f_geb r f_zero = true -> throttle_entry now app e r t = mkAppThrottle e r.
Proof.
  intros Hr. apply throttle_entry_asked. by left.
Qed.

Lemma fsm_Apply_ok now c t : throttler_ok t -> throttler_ok (fsm_Apply now c t).1.
Proof. intros Ho. unfold fsm_Apply. repeat case_decide; simpl; auto with freno. Qed.

Lemma fsm_Apply_effect now later c key t :
  throttler_ok t -> now < later -> has_ratio c ->
  live later (cache_Get later key (throttledApps (fsm_Apply now c t).1)) =
  command_effect later c key (live later (cache_Get later key (throttledApps t))).
Proof.
  intros Ho Hle Hr. unfold fsm_Apply, command_effect. simpl.
  destruct (decide (cmd_Operation c = "throttle")) as [E|E].
  { unfold applyThrottleApp; simpl. destruct (decide (cmd_Key c = key)) as [<-|Hk].
    - rewrite decide_True by done. rewrite ThrottleApp_Get by done.
      rewrite throttle_entry_ratio by (by apply Hr). unfold live, throttle_expired.
      destruct (Time_IsZero (cmd_ExpireAt c)) eqn:Hz; cbn [orb ExpireAt]; rewrite ?Hz; [done|].
      unfold Time_Before. destruct (Z.ltb_spec now (cmd_ExpireAt c)); cbn [ExpireAt]; rewrite ?Hz; [done|].
      by rewrite (proj2 (Z.ltb_lt _ _)) by lia.
    - rewrite ThrottleApp_Get_ne by done. by rewrite !decide_False by naive_solver congruence. }
  rewrite (decide_False (P := _ /\ _)) by tauto.
  destruct (decide (cmd_Operation c = "unthrottle")) as [E'|E'].
  { unfold applyUnthrottleApp; simpl. destruct (decide (cmd_Key c = key)) as [<-|Hk].
    - rewrite decide_True by done. by rewrite cache_Get_Delete.
    - rewrite cache_Get_Delete_ne by done. by rewrite decide_False by tauto. }
  rewrite (decide_False (P := _ /\ _)) by tauto.
  unfold applySkipHost, applyRecoverHost, SkipHost, RecoverHost. by repeat case_if.
Qed.

(** The purge does not change what is live. *)
Lemma expire_live now later key t :
  throttler_ok t -> now < later ->
  live later (cache_Get later key (throttledApps (expireThrottledApps now t))) =
  live later (cache_Get later key (throttledApps t)).
Proof.
  intros Ho Hle. rewrite expireThrottledApps_purge. simpl. rewrite cache_purge_Get by apply Ho.
  destruct (cache_Get _ _ _) as [a|]; [|done]. unfold live.
  destruct (throttle_expired now a) eqn:E; [|done].
  unfold throttle_expired, Time_Before in *. zbool.
  by rewrite H, (proj2 (Z.ltb_lt _ _)) by lia.
Qed.
(** What is live on a replica depends on the commands only. *)
Lemma replica_live later history key : forall t,
  throttler_ok t -> Forall (fun p => p.1 < later) history -> Forall has_ratio (commands history) ->
  live later (cache_Get later key (throttledApps (replica history t))) =
  foldl (fun o c => command_effect later c key o) (live later (cache_Get later key (throttledApps t)))
    (commands history).
Proof.
  unfold replica, commands. induction history as [|[n [c|]] h IH]; intros t Ho Hl Hr; [done|..];
    apply Forall_cons in Hl as [Hl1 Hl]; cbn [foldl omap list_omap snd] in *.
  - apply Forall_cons in Hr as [Hr1 Hr]. unfold replica_step at 2. simpl in *.
    rewrite IH by (auto using fsm_Apply_ok). by rewrite fsm_Apply_effect.
  - unfold replica_step at 2. simpl in *. rewrite IH by (auto with freno). by rewrite expire_live.
Qed.

(** C9: replicas agree: two nodes that start alike and apply the same commands answer
    [IsAppThrottled] alike at any later time, although they apply the commands at different times and
    purge expired throttles whenever they like, provided every throttle command carries a ratio. *)
Theorem replicas_agree history history' later t rand app store :
  throttler_ok t ->
  commands history = commands history' -> Forall has_ratio (commands history) ->
  Forall (fun p => p.1 < later) history -> Forall (fun p => p.1 < later) history' ->
  IsAppThrottled later rand app store (replica history t) =
  IsAppThrottled later rand app store (replica history' t).
Proof.
  intros Ho Heq Hr Hl Hl'. apply throttled_keys_live_ext. intros key _.
  rewrite !replica_live by (rewrite <- ?Heq; done). by rewrite Heq.
Qed.
End Properties.

Definition history_a : list (Time * option command) :=
  [(2 * Second, Some (throttle_command "app" (4 * Second) f_zero));
   (6 * Second, Some (throttle_command "app" (60 * Second) f_one))].
Definition history_b : list (Time * option command) :=
  [(3 * Second, Some (throttle_command "app" (4 * Second) f_zero));
   (5 * Second, None);
   (9 * Second, Some (throttle_command "app" (60 * Second) f_one))].

Lemma replicas_agree_witness :
  IsAppThrottled (10 * Second) (fun _ => f_zero) "app" "c" (replica history_a throttler_ex) =
  IsAppThrottled (10 * Second) (fun _ => f_zero) "app" "c" (replica history_b throttler_ex).
Proof.
  apply (replicas_agree history_a history_b (10 * Second) throttler_ex).
  - exact throttler_ex_ok.
  - reflexivity.
  - repeat (apply Forall_cons; split); [intros _; vm_compute; reflexivity..|constructor].
  - repeat (apply Forall_cons; split); [vm_compute; reflexivity..|constructor].
  - repeat (apply Forall_cons; split); [vm_compute; reflexivity..|constructor].
Defined.

(** The same two histories without the ratio in the second command. *)
Definition drop_ratio (c : command) : command :=
  if Time_Before (4 * Second) (cmd_ExpireAt c)
  then throttle_command (cmd_Key c) (cmd_ExpireAt c) f_minus_one else c.
Definition without_ratio (h : list (Time * option command)) : list (Time * option command) :=
  map (fun p => (p.1, option_map drop_ratio p.2)) h.

(** Without a ratio in the command replicas can disagree: the ratio is then taken from the
    previous throttle of the app even when that is over, unless the replica has purged it.  The same
    two commands leave one replica refusing every request of the app and the other none. *)
Theorem replicas_diverge_without_ratio :
  commands (without_ratio history_a) = commands (without_ratio history_b) /\
  IsAppThrottled (10 * Second) (fun _ => f_zero) "app" "c" (replica (without_ratio history_a) throttler_ex)
    = false /\
  IsAppThrottled (10 * Second) (fun _ => f_zero) "app" "c" (replica (without_ratio history_b) throttler_ex)
    = true.
Proof. vm_compute. auto. Qed.
