(* ===== verification/MysqlBackend.v ===== *)
(** * Consensus on a MySQL backend (pkg/group/mysql.go)

    The tables of the backend are maps by primary key; times in the database are whole seconds
    ([n] is now() there), times of the process are as elsewhere.  Each SQL statement of the code is a
    function on its table; MySQL evaluates the assignments of an update from left to right, and a
    later one sees the columns set by an earlier one.  A statement that fails leaves its table
    unchanged. *)
From S2P Require Import Prelude GoStrings GoFloat GoCache Base Mysql Config Throttler Operate Fsm.

Open Scope string_scope.
Open Scope Z_scope.

Definition electionExpireSeconds : Z := 5.
Definition electionInterval : Duration := Second.
Definition healthInterval : Duration := 2 * electionInterval.
Definition stateInterval : Duration := 10 * Second.

(** ** State *)

Record MySQLBackend := mkMySQLBackend {
  be_domain : string;
  be_shareDomain : string;
  be_serviceId : string;
  be_leaderState : Z;
  be_healthState : Z;
}.

(** [NewMySQLBackend], from the settings and the host name. *)
Definition NewMySQLBackend (s : ConfigurationSettings) (hostname : string) : MySQLBackend :=
  mkMySQLBackend
    (if decide (cs_Domain s = "") then cs_DataCenter s ++ ":" ++ cs_Environment s else cs_Domain s)
    (cs_ShareDomain s) (hostname ++ ":" ++ Itoa (cs_ListenPort s)) 0 0.

Definition getBackendDBUri (s : ConfigurationSettings) : string :=
  let dsnCharsetCollation :=
    if decide (cs_BackendMySQLCollation s = "") then "charset=utf8mb4,utf8,latin1"
    else "collation=" ++ cs_BackendMySQLCollation s in
  cs_BackendMySQLUser s ++ ":" ++ cs_BackendMySQLPassword s ++ "@tcp(" ++ cs_BackendMySQLHost s ++
  ":" ++ Itoa (cs_BackendMySQLPort s) ++ ")/" ++ cs_BackendMySQLSchema s ++
  "?interpolateParams=true&" ++ dsnCharsetCollation ++ "&timeout=500ms".

(** A row of service_election and of service_health. *)
Record ServiceRow := mkServiceRow {
  sr_domain : string;
  sr_share_domain : string;
  sr_service_id : string;
  sr_last_seen_active : Z;
}.

(** service_election, by domain; service_health, by service id. *)
Abbreviation ElectionTable := (gmap string ServiceRow).
Abbreviation HealthTable := (gmap string ServiceRow).
(** throttled_apps: expiry, NULL for none, and ratio; skipped_hosts: expiry. *)
Abbreviation AppsTable := (gmap string (option Z * float64)).
Abbreviation HostsTable := (gmap string Z).

(** ** Statements on the election tables *)

Definition RegisterHealth (n : Z) (b : MySQLBackend) (tbl : HealthTable) : HealthTable :=
  <[be_serviceId b := mkServiceRow (be_domain b) (be_shareDomain b) (be_serviceId b) n]> tbl.

Definition GetHealthyDomainServices (n : Z) (b : MySQLBackend) (tbl : HealthTable) : list string :=
  (fun p => p.1) <$> filter (fun p : string * ServiceRow =>
      sr_domain p.2 = be_domain b /\ n - electionExpireSeconds <= sr_last_seen_active p.2)
    (map_to_list tbl).

Definition AttemptLeadership (n : Z) (b : MySQLBackend) (tbl : ElectionTable) : ElectionTable :=
  match tbl !! be_domain b with
  | None => <[be_domain b := mkServiceRow (be_domain b) (be_shareDomain b) (be_serviceId b) n]> tbl
  | Some r =>
      let service_id := if sr_last_seen_active r <? n - electionExpireSeconds
                        then be_serviceId b else sr_service_id r in
      let share_domain := if decide (service_id = be_serviceId b)
                          then be_shareDomain b else sr_share_domain r in
      let last_seen_active := if decide (service_id = be_serviceId b)
                              then n else sr_last_seen_active r in
      <[be_domain b := mkServiceRow (be_domain b) share_domain service_id last_seen_active]> tbl
  end.

Definition Reelect (b : MySQLBackend) (tbl : ElectionTable) : ElectionTable :=
  delete (be_domain b) tbl.

Definition ReadLeadership (b : MySQLBackend) (tbl : ElectionTable) : Z * string :=
  match tbl !! be_domain b with
  | Some r => (if decide (sr_service_id r = be_serviceId b) then 1 else 0, sr_service_id r)
  | None => (0, "")
  end.

Definition GetSharedDomainServices (n : Z) (b : MySQLBackend) (tbl : ElectionTable)
  : gmap string string :=
  if decide (be_shareDomain b = "") then ∅
  else
    sr_service_id <$> filter (fun p : string * ServiceRow =>
        sr_share_domain p.2 = be_shareDomain b /\
        n - electionExpireSeconds <= sr_last_seen_active p.2 /\
        sr_service_id p.2 <> be_serviceId b) tbl.

(** ** Reading the state back *)

(** [readThrottledApps]: the goroutines it starts, at process time [now]. *)
Definition readThrottledApps (n : Z) (now : Time) (tbl : AppsTable) : list api_call :=
  (fun p : string * (option Z * float64) =>
     let ttlSeconds := default n p.2.1 - n in
     let expiresAt := if ttlSeconds =? 0 then zero_time
                      else Time_Add now (wrap64 (ttlSeconds * Second)) in
     CallThrottleApp p.1 expiresAt p.2.2) <$> map_to_list tbl.

Definition readSkippedHosts (n : Z) (now : Time) (tbl : HostsTable) : list api_call :=
  (fun p : string * Z => CallSkipHost p.1 (Time_Add now (wrap64 ((p.2 - n) * Second)))) <$> map_to_list tbl.

(** [onLeaderStateChange]. *)
Definition onLeaderStateChange (n : Z) (now : Time) (newLeaderState : Z) (apps : AppsTable)
    (hosts : HostsTable) : list api_call :=
  if 0 <? newLeaderState then (readThrottledApps n now apps ++ readSkippedHosts n now hosts)%list
  else [].

(** The election case of [continuousOperations] after the attempt: [read] is the answer of
    [ReadLeadership], [None] when the statement failed. *)
Definition afterElection (n : Z) (now : Time) (read : option (Z * string)) (apps : AppsTable)
    (hosts : HostsTable) (b : MySQLBackend) : MySQLBackend * list api_call :=
  match read with
  | Some (newLeaderState, _) =>
      (mkMySQLBackend (be_domain b) (be_shareDomain b) (be_serviceId b)
         (if negb (newLeaderState =? be_leaderState b) then newLeaderState else be_leaderState b) 1,
       if negb (newLeaderState =? be_leaderState b)
       then onLeaderStateChange n now newLeaderState apps hosts else [])
  | None =>
      (mkMySQLBackend (be_domain b) (be_shareDomain b) (be_serviceId b) (be_leaderState b) 0, [])
  end.

Definition Backend_IsHealthy (b : MySQLBackend) : bool := 0 <? be_healthState b.
Definition Backend_IsLeader (forced : bool) (b : MySQLBackend) : bool :=
  if forced then true else 0 <? be_leaderState b.
Definition Backend_GetLeader (b : MySQLBackend) (tbl : ElectionTable) : string := (ReadLeadership b tbl).2.
Definition Backend_GetStateDescription (b : MySQLBackend) : string :=
  if 0 <? be_leaderState b then "Leader"
  else if 0 <? be_healthState b then "Healthy" else "Unhealthy".

(** [ForceLeadership]: the statement gives no share_domain, a column without a default; a server in
    strict mode rejects it, any other stores the empty string. *)
Definition Backend_ForceLeadership (strict : bool) (n : Z) (b : MySQLBackend) (tbl : ElectionTable)
    : ElectionTable * option error :=
  if strict then (tbl, Some (Errorf "Field 'share_domain' doesn't have a default value"))
  else (<[be_domain b := mkServiceRow (be_domain b) "" (be_serviceId b) n]> tbl, None).

(** [ConsensusServiceStatus] of consensus_service.go. *)
Record ConsensusServiceStatus := mkStatus {
  ss_ServiceID : string;
  ss_Healthy : bool;
  ss_IsLeader : bool;
  ss_Leader : string;
  ss_State : string;
  ss_Domain : string;
  ss_ShareDomain : string;
  ss_ShareDomainServices : gmap string string;
  ss_ShareDomainServicesList : list string;
  ss_HealthyDomainServicesList : list string;
}.

(** [GetStatus], on a database that answers. *)
Definition Backend_GetStatus (forced : bool) (n : Z) (b : MySQLBackend) (election : ElectionTable)
    (health : HealthTable) : ConsensusServiceStatus :=
  let shareDomainServices := GetSharedDomainServices n b election in
  {| ss_ServiceID := be_serviceId b;
     ss_Healthy := Backend_IsHealthy b;
     ss_IsLeader := Backend_IsLeader forced b;
     ss_Leader := Backend_GetLeader b election;
     ss_State := Backend_GetStateDescription b;
     ss_Domain := be_domain b;
     ss_ShareDomain := be_shareDomain b;
     ss_ShareDomainServices := shareDomainServices;
     ss_ShareDomainServicesList := be_serviceId b :: (map_to_list shareDomainServices).*2;
     ss_HealthyDomainServicesList := GetHealthyDomainServices n b health |}.

(** One tick of [Monitor]: the gauges. *)
Definition Backend_Monitor (b : MySQLBackend) : list (string * Z) :=
  [("backend.mysql.is_leader", be_leaderState b); ("backend.mysql.is_healthy", be_healthState b)].

(** ** The loop of a backend *)

(** The tables of the database, its clock, and the answers of the next statements: [None] for a
    statement that works; one that fails leaves the tables alone. *)
Record Database := mkDatabase {
  db_election : ElectionTable;
  db_health : HealthTable;
  db_apps : AppsTable;
  db_hosts : HostsTable;
  db_now : Z;
  db_faults : list (option error);
}.

Definition db_next (d : Database) : option error * Database :=
  (mjoin (head (db_faults d)),
   mkDatabase (db_election d) (db_health d) (db_apps d) (db_hosts d) (db_now d) (tail (db_faults d))).
Definition db_set_election (t : ElectionTable) (d : Database) : Database :=
  mkDatabase t (db_health d) (db_apps d) (db_hosts d) (db_now d) (db_faults d).
Definition db_set_health (t : HealthTable) (d : Database) : Database :=
  mkDatabase (db_election d) t (db_apps d) (db_hosts d) (db_now d) (db_faults d).

(** The tickers of [continuousOperations]. *)
Inductive backend_tick := HealthTick | ElectionTick | StateTick.

#[export] Instance backend_tick_eq_dec : EqDecision backend_tick.
Proof. solve_decision. Defined.

(** One case of the loop at process time [now]: the backend, the database, and the updates of the
    throttler it starts.  On the election ticker a gained leadership reads both tables of the shared
    state, each with a statement that may fail; the state ticker reads the throttled apps only. *)
Definition read_apps (now : Time) (d : Database) : list api_call * Database :=
  let '(err, d) := db_next d in
  (if err is None then readThrottledApps (db_now d) now (db_apps d) else [], d).
Definition read_hosts (now : Time) (d : Database) : list api_call * Database :=
  let '(err, d) := db_next d in
  (if err is None then readSkippedHosts (db_now d) now (db_hosts d) else [], d).

Definition be_set (leader health : Z) (b : MySQLBackend) : MySQLBackend :=
  mkMySQLBackend (be_domain b) (be_shareDomain b) (be_serviceId b) leader health.

Definition continuousOperations (now : Time) (k : backend_tick) (b : MySQLBackend) (d : Database)
    : MySQLBackend * Database * list api_call :=
  match k with
  | HealthTick =>
      let '(err, d) := db_next d in
      (b, if err is None then db_set_health (RegisterHealth (db_now d) b (db_health d)) d else d, [])
  | ElectionTick =>
      let '(err, d) := db_next d in
      let d := if err is None
               then db_set_election (AttemptLeadership (db_now d) b (db_election d)) d else d in
      let '(err, d) := db_next d in
      match err with
      | Some _ => (be_set (be_leaderState b) 0 b, d, [])
      | None =>
          let newLeaderState := (ReadLeadership b (db_election d)).1 in
          if newLeaderState =? be_leaderState b then (be_set (be_leaderState b) 1 b, d, [])
          else if 0 <? newLeaderState then
            let '(apps, d) := read_apps now d in
            let '(hosts, d) := read_hosts now d in
            (be_set newLeaderState 1 b, d, (apps ++ hosts)%list)
          else (be_set newLeaderState 1 b, d, [])
      end
  | StateTick => let '(calls, d) := read_apps now d in (b, d, calls)
  end.

(** ** Throttling and skipping through the backend *)

Section Ops.
Context {DB : Type}.

(** The error of the statement is returned; the local throttler is updated either way. *)
Definition Backend_ThrottleApp (n : Z) (now : Time) (sql_err : option error) (appName : string)
    (ttlMinutes : Z) (expireAt : Time) (ratio : float64) (st : AppsTable * Throttler DB)
  : (AppsTable * Throttler DB) * option error :=
  let '(tbl, t) := st in
  let tbl' := if 0 <? ttlMinutes then <[appName := (Some (n + 60 * ttlMinutes), ratio)]> tbl
              else <[appName := (None, ratio)]> tbl in
  ((match sql_err with Some _ => tbl | None => tbl' end, ThrottleApp now appName expireAt ratio t),
   sql_err).

Definition Backend_UnthrottleApp (n : Z) (sql_err : option error) (appName : string)
    (st : AppsTable * Throttler DB) : (AppsTable * Throttler DB) * option error :=
  let '(tbl, t) := st in
  let tbl' := alter (fun r => (Some n, r.2)) appName tbl in
  ((match sql_err with Some _ => tbl | None => tbl' end, UnthrottleApp appName t), sql_err).

Definition Backend_SkipHost (n : Z) (now : Time) (sql_err : option error) (hostName : string)
    (ttlMinutes : Z) (expireAt : Time) (st : HostsTable * Throttler DB)
  : (HostsTable * Throttler DB) * option error :=
  let '(tbl, t) := st in
  let ttl := if ttlMinutes =? 0 then DefaultSkipTTLMinutes else ttlMinutes in
  ((match sql_err with Some _ => tbl | None => <[hostName := n + 60 * ttl]> tbl end,
    SkipHost now hostName expireAt t), sql_err).

Definition Backend_RecoverHost (n : Z) (sql_err : option error) (hostName : string)
    (st : HostsTable * Throttler DB) : (HostsTable * Throttler DB) * option error :=
  let '(tbl, t) := st in
  ((match sql_err with Some _ => tbl | None => alter (fun _ => n) hostName tbl end,
    RecoverHost hostName t), sql_err).
End Ops.

(** ** Runs of the loop *)

(** An election tick on a database that answers is an attempt followed by the step of [afterElection]. *)
Lemma election_tick_eq now b d : db_faults d = [] ->
  continuousOperations now ElectionTick b d =
    let tbl := AttemptLeadership (db_now d) b (db_election d) in
    let '(b', calls) := afterElection (db_now d) now (Some (ReadLeadership b tbl)) (db_apps d) (db_hosts d) b in
    (b', db_set_election tbl d, calls).
Proof.
  intros Hf. destruct d as [e h a hs n fs]. simpl in Hf. subst fs. cbn. unfold afterElection.
  destruct (ReadLeadership b (AttemptLeadership n b e)) as [l s]. cbn [fst snd].
  destruct (Z.eqb_spec l (be_leaderState b)) as [->|Hne]; cbn [negb]; [done|].
  unfold onLeaderStateChange. by destruct (0 <? l).
Qed.

Fixpoint run_ticks (ks : list (Time * backend_tick)) (b : MySQLBackend) (d : Database)
    : MySQLBackend * Database * list api_call :=
  match ks with
  | [] => (b, d, [])
  | (now, k) :: ks =>
      let '(b, d, calls) := continuousOperations now k b d in
      let '(b, d, calls') := run_ticks ks b d in (b, d, (calls ++ calls')%list)
  end.

(** The statements of a tick, at most. *)
Definition outage (n : nat) (d : Database) : Prop :=
  exists es, length es = n /\ Forall is_Some es /\ exists fs, db_faults d = (es ++ fs)%list.

Lemma outage_S n d : outage (S n) d ->
  exists e d', db_next d = (Some e, d') /\ outage n d' /\
    (db_election d', db_health d', db_apps d', db_hosts d', db_now d') =
    (db_election d, db_health d, db_apps d, db_hosts d, db_now d).
Proof.
  intros ([|o es] & Hn & Hes & fs & Hf); [done|]. apply Forall_cons in Hes as [[e ->] Hes].
  unfold db_next. rewrite Hf. eexists e, _. split; [reflexivity|]. split; [|done].
  exists es. split; [by injection Hn|]. split; [done|]. by exists fs.
Qed.

(** An outage of the database is ridden out: while every statement fails, a backend keeps its leader
    state and changes nothing, in the database or in the throttler; the first election tick makes it
    report itself unhealthy. *)
Theorem outage_keeps_leader_state ks : forall b d,
  outage (2 * length ks) d ->
  exists b' d', run_ticks ks b d = (b', d', []) /\
    (be_leaderState b', be_serviceId b', be_domain b') = (be_leaderState b, be_serviceId b, be_domain b) /\
    (ElectionTick ∈ ks.*2 -> Backend_IsHealthy b' = false) /\
    (ElectionTick ∉ ks.*2 -> b' = b) /\
    (db_election d', db_health d', db_apps d', db_hosts d') = (db_election d, db_health d, db_apps d, db_hosts d).
Proof.
  assert (Hless : forall n d, outage (S n) d -> outage n d).
  { intros n d (es & Hn & Hes & fs & Hf). destruct es as [|e es _] using rev_ind; [done|].
    apply Forall_app in Hes as [Hes _]. rewrite length_app in Hn. simpl in Hn. exists es. split; [lia|]. split; [done|].
    exists (e :: fs). by rewrite Hf, <- app_assoc. }
  induction ks as [|[now k] ks IH]; intros b d Ho.
  { exists b, d. split_and!; try done. intros Hin. by apply elem_of_nil in Hin. }
  replace (2 * length ((now, k) :: ks))%nat with (S (S (2 * length ks))) in Ho by (simpl; lia). cbn [run_ticks].
  destruct (outage_S _ d Ho) as (e1 & d1 & E1 & Ho1 & H1). destruct (outage_S _ d1 Ho1) as (e2 & d2 & E2 & Ho2 & H2).
  destruct k; cbn [continuousOperations]; unfold read_apps; rewrite E1; [| |].
  - destruct (IH b d1 (Hless _ _ Ho1)) as (b' & d' & -> & Hb & Hh & Hs & Ht). exists b', d'.
    split_and!; [done|done| | |congruence]; intros Hin; [apply Hh|apply Hs]; set_solver.
  - rewrite E2. destruct (IH (be_set (be_leaderState b) 0 b) d2 Ho2) as (b' & d' & -> & Hb & Hh & Hs & Ht).
    exists b', d'. split_and!; [done|done| |set_solver|congruence].
    intros _. destruct (decide (ElectionTick ∈ ks.*2)); [by apply Hh|]. by rewrite (Hs ltac:(done)).
  - destruct (IH b d1 (Hless _ _ Ho1)) as (b' & d' & -> & Hb & Hh & Hs & Ht). exists b', d'.
    split_and!; [done|done| | |congruence]; intros Hin; [apply Hh|apply Hs]; set_solver.
Qed.

(** ** Leader election *)

(** The row a service finds after its attempt: its own, or one of another service that is not older
    than the lease. *)
Lemma AttemptLeadership_row n b tbl :
  exists r, AttemptLeadership n b tbl !! be_domain b = Some r /\
    ((sr_service_id r = be_serviceId b /\ sr_last_seen_active r = n) \/
     (sr_service_id r <> be_serviceId b /\ exists r0, tbl !! be_domain b = Some r0 /\
        sr_service_id r = sr_service_id r0 /\ sr_last_seen_active r = sr_last_seen_active r0 /\
        n - electionExpireSeconds <= sr_last_seen_active r0)).
Proof.
  unfold AttemptLeadership. destruct (tbl !! be_domain b) as [r0|] eqn:E.
  2: { eexists. rewrite lookup_insert_eq. split; [reflexivity|]. by left. }
  eexists. rewrite lookup_insert_eq. split; [reflexivity|]. simpl.
  destruct (Z.ltb_spec (sr_last_seen_active r0) (n - electionExpireSeconds)).
  { left. by rewrite !decide_True. }
  case_decide as D; [by left|]. right. split; [done|]. exists r0. by auto.
Qed.

Lemma AttemptLeadership_other n b tbl d :
  d <> be_domain b -> AttemptLeadership n b tbl !! d = tbl !! d.
Proof.
  intros Hd. unfold AttemptLeadership. destruct (tbl !! be_domain b); by rewrite lookup_insert_ne.
Qed.

(** A group of services on one backend: the time of the database, the election table, and for every
    service its backend state with the [last_seen_active] it read when it last found itself leader. *)
Record Election := mkElection {
  el_now : Z;
  el_table : ElectionTable;
  el_nodes : gmap string (MySQLBackend * Z);
}.

(** The lease a service reads. *)
Definition lease_of (b : MySQLBackend) (tbl : ElectionTable) : Z :=
  match tbl !! be_domain b with Some r => sr_last_seen_active r | None => 0 end.

(** The statements of the services in any order and at any pace; a failed attempt changes nothing. *)
Inductive election_step : Election -> Election -> Prop :=
| step_clock e n : el_now e <= n -> election_step e (mkElection n (el_table e) (el_nodes e))
| step_attempt e i b lease :
    el_nodes e !! i = Some (b, lease) ->
    election_step e (mkElection (el_now e) (AttemptLeadership (el_now e) b (el_table e)) (el_nodes e))
| step_read e i b lease now apps hosts :
    el_nodes e !! i = Some (b, lease) ->
    election_step e
      (mkElection (el_now e) (el_table e)
         (<[i := ((afterElection (el_now e) now (Some (ReadLeadership b (el_table e))) apps hosts b).1,
                  lease_of b (el_table e))]> (el_nodes e)))
| step_read_failed e i b lease now apps hosts :
    el_nodes e !! i = Some (b, lease) ->
    election_step e
      (mkElection (el_now e) (el_table e)
         (<[i := ((afterElection (el_now e) now None apps hosts b).1, lease)]> (el_nodes e))).

Inductive election_reachable : Election -> Prop :=
| election_start n nodes :
    (forall i b lease, nodes !! i = Some (b, lease) -> be_serviceId b = i /\ be_leaderState b = 0) ->
    election_reachable (mkElection n ∅ nodes)
| election_next e e' : election_reachable e -> election_step e e' -> election_reachable e'.

(** A service that believes to lead holds the row, or its lease is over. *)
Record election_inv (e : Election) : Prop := {
  inv_past : forall d r, el_table e !! d = Some r -> sr_last_seen_active r <= el_now e;
  inv_id : forall i b lease, el_nodes e !! i = Some (b, lease) -> be_serviceId b = i;
  inv_leader : forall i b lease, el_nodes e !! i = Some (b, lease) -> 0 < be_leaderState b ->
    (exists r, el_table e !! be_domain b = Some r /\ sr_service_id r = i /\
               lease <= sr_last_seen_active r) \/
    lease + electionExpireSeconds < el_now e;
}.

Lemma election_inv_step e e' : election_inv e -> election_step e e' -> election_inv e'.
Proof.
  intros [Hp Hid Hl] Hs. destruct Hs as [e n Hn|e i b lease Hi|e i b lease now apps hosts Hi
    |e i b lease now apps hosts Hi].
  - split; simpl; [intros d r Hr; specialize (Hp d r Hr); lia|done|].
    intros i b lease Hi Hb. destruct (Hl i b lease Hi Hb) as [?|?]; [by left|right; lia].
  - destruct (AttemptLeadership_row (el_now e) b (el_table e)) as (r & Hr & Hcase).
    assert (Hother := AttemptLeadership_other (el_now e) b (el_table e)).
    split; simpl; [|done|].
    + intros d r' Hr'. destruct (decide (d = be_domain b)) as [->|Hd].
      * rewrite Hr in Hr'. simplify_eq. destruct Hcase as [[_ ->]|(_ & r0 & Hr0 & _ & -> & _)]; [lia|].
        by apply (Hp _ _ Hr0).
      * rewrite Hother in Hr' by done. by apply (Hp _ _ Hr').
    + intros j b' lease' Hj Hb'. destruct (Hl j b' lease' Hj Hb') as [(r' & Hr' & Hsid & Hle)|?]; [|by right].
      destruct (decide (be_domain b' = be_domain b)) as [Ed|Ed].
      2: { left. exists r'. by rewrite Hother. }
      rewrite Ed in *. pose proof (Hp _ _ Hr').
      destruct Hcase as [[Hs Hls]|(_ & r0 & Hr0 & Hs & Hls & Hlease)].
      * destruct (decide (be_serviceId b = j)) as [Ej|Ej].
        -- left. exists r. rewrite Hs, Hls. split_and!; [done|done|lia].
        -- right. unfold AttemptLeadership in Hr. rewrite Hr', lookup_insert_eq in Hr. simplify_eq.
           simpl in *. destruct (Z.ltb_spec (sr_last_seen_active r') (el_now e - electionExpireSeconds));
             [lia|congruence].
      * simplify_eq. left. exists r. rewrite Hs, Hls. done.
  - split; simpl; [done| |].
    + intros j b' lease'. rewrite lookup_insert_Some. intros [[<- [= <- <-]]|[_ Hj]]; [|by eapply Hid].
      unfold afterElection. destruct (ReadLeadership _ _). simpl. by eapply Hid.
    + intros j b' lease'. rewrite lookup_insert_Some. intros [[<- [= <- <-]]|[_ Hj]]; [|by eapply Hl].
      unfold afterElection, ReadLeadership, lease_of.
      destruct (el_table e !! be_domain b) as [r|] eqn:Hr; simpl.
      * case_decide as D; simpl.
        -- intros _. left. exists r. rewrite Hr, D. split_and!; [done|by eapply Hid|lia].
        -- destruct (be_leaderState b); simpl; intros; exfalso; lia.
      * destruct (be_leaderState b); simpl; intros; exfalso; lia.
  - split; simpl; [done| |].
    + intros j b' lease'. rewrite lookup_insert_Some. intros [[<- [= <- <-]]|[_ Hj]]; simpl; by eapply Hid.
    + intros j b' lease'. rewrite lookup_insert_Some. intros [[<- [= <- <-]]|[_ Hj]]; [|by eapply Hl].
      simpl. by eapply Hl.
Qed.

Lemma election_reachable_inv e : election_reachable e -> election_inv e.
Proof.
  induction 1 as [n nodes Hn|e e' _ IH Hs]; [|by eapply election_inv_step].
  split; simpl.
  - intros d r. by rewrite lookup_empty.
  - intros i b lease Hi. by destruct (Hn i b lease Hi).
  - intros i b lease Hi. destruct (Hn i b lease Hi) as [_ ->]. lia.
Qed.

(** C10: at most one leader per domain: two services of the same domain that both believe to lead,
    and whose leases (the [last_seen_active] they last read for themselves) are not older than five
    seconds, are the same service; this holds whatever the order and pace of their statements, failed
    ones included. *)
Theorem at_most_one_leader e i j b b' lease lease' :
  election_reachable e ->
  el_nodes e !! i = Some (b, lease) -> el_nodes e !! j = Some (b', lease') ->
  be_domain b = be_domain b' ->
  Backend_IsLeader false b = true -> Backend_IsLeader false b' = true ->
  el_now e <= lease + electionExpireSeconds -> el_now e <= lease' + electionExpireSeconds ->
  i = j.
Proof.
  intros Hr Hi Hj Hd HL HL' Hle Hle'. apply election_reachable_inv in Hr as [_ _ Hl].
  unfold Backend_IsLeader in *. zbool.
  destruct (Hl i b lease Hi HL) as [(r & Hr & Hs & _)|]; [|lia].
  destruct (Hl j b' lease' Hj HL') as [(r' & Hr' & Hs' & _)|]; [|lia].
  rewrite Hd in Hr. congruence.
Qed.

(** C29: leadership is not stuck: when the leader has not renewed its row for more than five seconds,
    or there is none, the first attempt of a service makes it the leader at its next read; and while
    the row is renewed in time no attempt of another service changes hands. *)
Theorem leadership_takeover n now b tbl apps hosts :
  (match tbl !! be_domain b with
   | None => True
   | Some r => sr_last_seen_active r < n - electionExpireSeconds
   end ->
   Backend_IsLeader false
     (afterElection n now (Some (ReadLeadership b (AttemptLeadership n b tbl))) apps hosts b).1 = true) /\
  (forall r, tbl !! be_domain b = Some r -> sr_service_id r <> be_serviceId b ->
     n <= sr_last_seen_active r + electionExpireSeconds ->
     Backend_IsLeader false
       (afterElection n now (Some (ReadLeadership b (AttemptLeadership n b tbl))) apps hosts b).1 = false /\
     (ReadLeadership b (AttemptLeadership n b tbl)).2 = sr_service_id r).
Proof.
  destruct (AttemptLeadership_row n b tbl) as (r & Hr & Hcase). unfold ReadLeadership. rewrite Hr. split.
  - intros H. destruct Hcase as [[-> _]|(Hne & r0 & Hr0 & _ & _ & Hlease)].
    + rewrite decide_True by done. unfold Backend_IsLeader, afterElection. cbn [fst be_leaderState].
      by destruct (Z.eqb_spec 1 (be_leaderState b)) as [<-|].
    + rewrite Hr0 in H. unfold electionExpireSeconds in *. lia.
  - intros r' Hr' Hne Hle. destruct Hcase as [[Hs _]|(Hne' & r0 & Hr0 & Hs & _)].
    + exfalso. unfold AttemptLeadership in Hr. rewrite Hr', lookup_insert_eq in Hr. simplify_eq. simpl in *.
      destruct (Z.ltb_spec (sr_last_seen_active r') (n - electionExpireSeconds)); [lia|done].
    + simplify_eq. rewrite decide_False by done. split; [|done].
      unfold Backend_IsLeader, afterElection. cbn [fst be_leaderState].
      by destruct (Z.eqb_spec 0 (be_leaderState b)) as [<-|].
Qed.

(** ** Throttles through the backend *)

Section Throttles.
Context {DB : Type}.
Implicit Types (t : Throttler DB).

(** The goroutines of [readThrottledApps], run in some order at process time [now]. *)
Definition run_throttles (now : Time) (rows : list (string * (Time * float64))) t : Throttler DB :=
  foldl (fun t p => run_api now (CallThrottleApp p.1 p.2.1 p.2.2) t) t rows.

(** The arguments [readThrottledApps] computes from a row. *)
Definition row_throttle (n : Z) (now : Time) (row : option Z * float64) : Time * float64 :=
  let ttlSeconds := default n row.1 - n in
  (if ttlSeconds =? 0 then zero_time else Time_Add now (wrap64 (ttlSeconds * Second)), row.2).

Lemma readThrottledApps_rows n now tbl :
  readThrottledApps n now tbl =
  (fun p => CallThrottleApp p.1 p.2.1 p.2.2) <$> ((fun p => (p.1, row_throttle n now p.2)) <$> map_to_list tbl).
Proof. unfold readThrottledApps. by rewrite <- list_fmap_compose. Qed.

Lemma run_throttles_ok now rows : forall t, throttler_ok t -> throttler_ok (run_throttles now rows t).
Proof.
  unfold run_throttles. induction rows as [|p rows IH]; intros t Ho; [done|]. cbn [foldl].
  apply IH. simpl. auto with freno.
Qed.

Lemma run_throttles_other now later rows app : forall t,
  app ∉ rows.*1 ->
  cache_Get later app (throttledApps (run_throttles now rows t)) = cache_Get later app (throttledApps t).
Proof.
  unfold run_throttles. induction rows as [|p rows IH]; intros t Hn; [done|].
  rewrite fmap_cons, not_elem_of_cons in Hn. destruct Hn as [Hp Hn]. cbn [foldl].
  rewrite IH by done. simpl. by rewrite ThrottleApp_Get_ne by done.
Qed.

(** The row of an app decides its throttle, whatever the order of the goroutines. *)
Lemma run_throttles_Get now later rows app e r : forall t,
  NoDup rows.*1 -> (app, (e, r)) ∈ rows -> f_geb r f_zero = true -> throttler_ok t ->
  cache_Get later app (throttledApps (run_throttles now rows t)) =
    if Time_IsZero e || Time_Before now e then Some (mkAppThrottle e r) else None.
Proof.
  induction rows as [|[a [e' r']] rows IH]; intros t Hnd Hin Hr Ho; [by rewrite elem_of_nil in Hin|].
  rewrite fmap_cons, NoDup_cons in Hnd. destruct Hnd as [Ha Hnd]. simpl in Ha.
  change (run_throttles now ((a, (e', r')) :: rows) t) with
    (run_throttles now rows (ThrottleApp now a e' r' t)).
  rewrite elem_of_cons in Hin. destruct Hin as [[= <- <- <-]|Hin].
  - rewrite run_throttles_other by done. rewrite ThrottleApp_Get by done. by rewrite throttle_entry_ratio.
  - apply IH; auto with freno.
Qed.


(** C40: an app unthrottled through the backend comes back: [UnthrottleApp] sets its expiry to now(),
    and a read of the backend within the same second sees a remaining time of 0 seconds, which
    [readThrottledApps] takes for "no expiry".  The app is throttled again, with no expiry of its own,
    until the next read, in a later second, finds a negative remaining time and lifts the throttle. *)
Theorem unthrottled_app_comes_back n app ratio apps (t : Throttler DB) now later rand store n' now' later' :
  apps !! app = Some ratio -> f_geb ratio.2 f_zero = true -> throttler_ok t ->
  (forall k, f_ltb (rand k) ratio.2 = true) ->
  n < n' -> n' - n < 2 ^ 32 -> 0 < now' < 2 ^ 63 ->
  let '((apps', t'), err) := Backend_UnthrottleApp n None app (apps, t) in
  let read := fun n now t => run_throttles now ((fun p => (p.1, row_throttle n now p.2)) <$> map_to_list apps') t in
  err = None /\
  cache_Get later app (throttledApps t') = None /\
  cache_Get later app (throttledApps (read n now t')) = Some (mkAppThrottle zero_time ratio.2) /\
  IsAppThrottled later rand app store (read n now t') = true /\
  cache_Get later' app (throttledApps (read n' now' (read n now t'))) = None.
Proof.
  intros Ha Hr Ho Hrand Hn Hn' Hnow. simpl. split; [done|]. split; [apply cache_Get_Delete|].
  set (tbl := alter _ app apps). set (rows := fun n now => (fun p => (p.1, row_throttle n now p.2)) <$> map_to_list tbl).
  assert (Hnd : forall n now, NoDup (rows n now).*1).
  { intros. unfold rows. rewrite <- list_fmap_compose. apply NoDup_fst_map_to_list. }
  assert (Hin : forall m now, (app, row_throttle m now (Some n, ratio.2)) ∈ rows m now).
  { intros. apply list_elem_of_fmap. exists (app, (Some n, ratio.2)). split; [done|].
    apply elem_of_map_to_list. unfold tbl. by rewrite lookup_alter_eq, Ha. }
  assert (Hzero : row_throttle n now (Some n, ratio.2) = (zero_time, ratio.2)).
  { unfold row_throttle. simpl. by rewrite Z.sub_diag. }
  assert (Hget : forall later, cache_Get later app (throttledApps (run_throttles now (rows n now) (UnthrottleApp app t))) =
    Some (mkAppThrottle zero_time ratio.2)).
  { intros l. rewrite (run_throttles_Get _ _ _ _ zero_time ratio.2); auto with freno. rewrite <- Hzero. apply Hin. }
  split; [apply Hget|]. split.
  { eapply (throttled_keys_live _ _ _ _ app (mkAppThrottle zero_time ratio.2)); [set_solver|apply Hget|done|done]. }
  set (e := now' + (n - n') * Second).
  assert (He : row_throttle n' now' (Some n, ratio.2) = (e, ratio.2)).
  { unfold row_throttle, Time_Add. simpl default. destruct (Z.eqb_spec (n - n') 0); [lia|].
    unfold Second in *. rewrite wrap64_id by (unfold int64_ok; lia). done. }
  rewrite (run_throttles_Get _ _ (rows n' now') app e ratio.2); [|apply Hnd|specialize (Hin n' now'); by rewrite He in Hin|done|].
  - unfold Time_IsZero, Time_Before, zero_time, e, Second in *.
    by rewrite (proj2 (Z.eqb_neq _ _)), (proj2 (Z.ltb_ge _ _)) by lia.
  - apply run_throttles_ok. auto with freno.
Qed.
End Throttles.

(** *** Witnesses *)

Definition backend_ex (id : string) : MySQLBackend := mkMySQLBackend "d" "" id 0 0.
Definition election_ex : Election :=
  mkElection 100 ∅ {["a" := (backend_ex "a", 0); "b" := (backend_ex "b", 0)]}.

(** Service a attempts and reads, then b does. *)
Definition attempt (i : string) (e : Election) : Election :=
  match el_nodes e !! i with
  | Some (b, _) => mkElection (el_now e) (AttemptLeadership (el_now e) b (el_table e)) (el_nodes e)
  | None => e
  end.
Definition read (i : string) (e : Election) : Election :=
  match el_nodes e !! i with
  | Some (b, _) =>
      mkElection (el_now e) (el_table e)
        (<[i := ((afterElection (el_now e) 0 (Some (ReadLeadership b (el_table e))) ∅ ∅ b).1,
                 lease_of b (el_table e))]> (el_nodes e))
  | None => e
  end.

Lemma attempt_reachable i e : election_reachable e -> election_reachable (attempt i e).
Proof.
  intros H. unfold attempt. destruct (el_nodes e !! i) as [[b l]|] eqn:E; [|done].
  eapply election_next; [done|]. by econstructor.
Qed.

Lemma read_reachable i e : election_reachable e -> election_reachable (read i e).
Proof.
  intros H. unfold read. destruct (el_nodes e !! i) as [[b l]|] eqn:E; [|done].
  eapply election_next; [done|]. by apply (step_read e i b l 0 ∅ ∅).
Qed.

Definition elected_ex : Election := read "b" (attempt "b" (read "a" (attempt "a" election_ex))).

Lemma elected_ex_reachable : election_reachable elected_ex.
Proof.
  apply read_reachable, attempt_reachable, read_reachable, attempt_reachable. constructor.
  intros i b lease. rewrite lookup_insert_Some. intros [[<- [= <- <-]]|[_ H]]; [done|].
  rewrite lookup_singleton_Some in H. by destruct H as [<- [= <- <-]].
Qed.

Lemma at_most_one_leader_witness :
  el_nodes elected_ex !! "a" = Some (mkMySQLBackend "d" "" "a" 1 1, 100) /\
  el_nodes elected_ex !! "b" = Some (mkMySQLBackend "d" "" "b" 0 1, 100) /\ "a" = "a".
Proof.
  split; [vm_compute; reflexivity|]. split; [vm_compute; reflexivity|].
  apply (at_most_one_leader elected_ex "a" "a" (mkMySQLBackend "d" "" "a" 1 1)
           (mkMySQLBackend "d" "" "a" 1 1) 100 100);
    [apply elected_ex_reachable|vm_compute; reflexivity|vm_compute; reflexivity|reflexivity
    |reflexivity|reflexivity|vm_compute; discriminate|vm_compute; discriminate].
Defined.


Lemma unthrottled_app_comes_back_witness :
  let apps := alter (fun r => (Some 1010, r.2)) "app" ({["app" := (Some 1300, f_one)]} : AppsTable) in
  let read := fun n now t => run_throttles now ((fun p => (p.1, row_throttle n now p.2)) <$> map_to_list apps) t in
  let t := read 1010 (100 * Second) (UnthrottleApp "app" throttler_ex) in
  IsAppThrottled (105 * Second) (fun _ => f_zero) "app" "c" t = true /\
  cache_Get (115 * Second) "app" (throttledApps (read 1020 (110 * Second) t)) = None.
Proof.
  intros apps read t.
  destruct (unthrottled_app_comes_back 1010 "app" (Some 1300, f_one) {["app" := (Some 1300, f_one)]} throttler_ex
    (100 * Second) (105 * Second) (fun _ => f_zero) "c" 1020 (110 * Second) (115 * Second)) as (_ & _ & _ & H1 & H2).
  - vm_compute. reflexivity.
  - vm_compute. reflexivity.
  - exact throttler_ex_ok.
  - intros _. vm_compute. reflexivity.
  - lia.
  - lia.
  - vm_compute. split; reflexivity.
  - split; [exact H1|exact H2].
Defined.
