(* ===== verification/RaftBase.v ===== *)
(** * Raft: shared vocabulary (internal/raft/{log,commands,config,state,util,peer}.go and the peer
    coding of net_transport.go)

    The vendored fork of hashicorp/raft that replicates freno's commands.  This file holds the types
    every part of it shares (log entries, RPC messages, the volatile state of a node, the
    configuration) and its helper functions: peer lists, the exponential backoff, random timeouts.
    Bytes are strings; [EncodePeer] and [DecodePeer] of the TCP transport convert between them. *)
From S2P Require Import Prelude GoStrings.

Open Scope string_scope.
Open Scope Z_scope.

(** ** Log entries *)

Inductive LogType :=
| LogCommand
| LogNoop
| LogAddPeer
| LogRemovePeer
| LogBarrier
| LogUnknown (code : Z).

#[export] Instance LogType_eq_dec : EqDecision LogType.
Proof. solve_decision. Defined.

Record Log := mkLog {
  log_Index : Z;
  log_Term : Z;
  log_Type : LogType;
  log_Data : string;
  log_peer : string;
}.

#[export] Instance Log_eq_dec : EqDecision Log.
Proof. solve_decision. Defined.

(** The zero value: [var l Log]. *)
Definition zeroLog : Log := mkLog 0 0 LogCommand "" "".

Definition ErrLogNotFound : error := Sentinel "log not found".
Definition ErrNotLeader : error := Sentinel "node is not the leader".
Definition ErrRaftShutdown : error := Sentinel "raft is already shutdown".
Definition ErrLeadershipLost : error := Sentinel "leadership lost while committing log".
Definition ErrKnownPeer : error := Sentinel "peer already known".
Definition ErrUnknownPeer : error := Sentinel "peer is unknown".
Definition ErrLeader : error := Sentinel "node is the leader".
Definition ErrEnqueueTimeout : error := Sentinel "timed out enqueuing operation".
Definition ErrNothingNewToSnapshot : error := Sentinel "Nothing new to snapshot".

(** ** Messages *)

Record AppendEntriesRequest := mkAppendEntriesRequest {
  ae_Term : Z;
  ae_Leader : string;
  ae_PrevLogEntry : Z;
  ae_PrevLogTerm : Z;
  ae_Entries : list Log;
  ae_LeaderCommitIndex : Z;
}.

Record AppendEntriesResponse := mkAppendEntriesResponse {
  aer_Term : Z;
  aer_LastLog : Z;
  aer_Success : bool;
  aer_NoRetryBackoff : bool;
}.

Record RequestVoteRequest := mkRequestVoteRequest {
  rv_Term : Z;
  rv_Candidate : string;
  rv_LastLogIndex : Z;
  rv_LastLogTerm : Z;
}.

Record RequestVoteResponse := mkRequestVoteResponse {
  rvr_Term : Z;
  rvr_Peers : list string;
  rvr_Granted : bool;
}.

Record InstallSnapshotRequest := mkInstallSnapshotRequest {
  is_Term : Z;
  is_Leader : string;
  is_LastLogIndex : Z;
  is_LastLogTerm : Z;
  is_Peers : string;
  is_Size : Z;
}.

Record InstallSnapshotResponse := mkInstallSnapshotResponse {
  isr_Term : Z;
  isr_Success : bool;
}.

(** ** The state of a node *)

Inductive RaftState := Follower | Candidate | Leader | Shutdown.

#[export] Instance RaftState_eq_dec : EqDecision RaftState.
Proof. solve_decision. Defined.

Definition RaftState_String (s : RaftState) : string :=
  match s with
  | Follower => "Follower"
  | Candidate => "Candidate"
  | Leader => "Leader"
  | Shutdown => "Shutdown"
  end.

Record raftState := mkRaftState {
  rs_currentTerm : Z;
  rs_commitIndex : Z;
  rs_lastApplied : Z;
  rs_lastSnapshotIndex : Z;
  rs_lastSnapshotTerm : Z;
  rs_lastLogIndex : Z;
  rs_lastLogTerm : Z;
  rs_state : RaftState;
}.

(** [min] and [max] of util.go on [uint64]. *)
Definition umin (a b : Z) : Z := if a <=? b then a else b.
Definition umax (a b : Z) : Z := if a >=? b then a else b.

Definition getLastIndex (r : raftState) : Z := umax (rs_lastLogIndex r) (rs_lastSnapshotIndex r).

Definition getLastEntry (r : raftState) : Z * Z :=
  if rs_lastLogIndex r >=? rs_lastSnapshotIndex r then (rs_lastLogIndex r, rs_lastLogTerm r)
  else (rs_lastSnapshotIndex r, rs_lastSnapshotTerm r).

(** The setters: each stores its own fields. *)
Definition rs_setState (s : RaftState) (r : raftState) : raftState :=
  mkRaftState (rs_currentTerm r) (rs_commitIndex r) (rs_lastApplied r) (rs_lastSnapshotIndex r)
    (rs_lastSnapshotTerm r) (rs_lastLogIndex r) (rs_lastLogTerm r) s.
Definition rs_setCurrentTerm (t : Z) (r : raftState) : raftState :=
  mkRaftState t (rs_commitIndex r) (rs_lastApplied r) (rs_lastSnapshotIndex r)
    (rs_lastSnapshotTerm r) (rs_lastLogIndex r) (rs_lastLogTerm r) (rs_state r).
Definition rs_setLastLog (i t : Z) (r : raftState) : raftState :=
  mkRaftState (rs_currentTerm r) (rs_commitIndex r) (rs_lastApplied r) (rs_lastSnapshotIndex r)
    (rs_lastSnapshotTerm r) i t (rs_state r).
Definition rs_setLastSnapshot (i t : Z) (r : raftState) : raftState :=
  mkRaftState (rs_currentTerm r) (rs_commitIndex r) (rs_lastApplied r) i t
    (rs_lastLogIndex r) (rs_lastLogTerm r) (rs_state r).
Definition rs_setCommitIndex (i : Z) (r : raftState) : raftState :=
  mkRaftState (rs_currentTerm r) i (rs_lastApplied r) (rs_lastSnapshotIndex r)
    (rs_lastSnapshotTerm r) (rs_lastLogIndex r) (rs_lastLogTerm r) (rs_state r).
Definition rs_setLastApplied (i : Z) (r : raftState) : raftState :=
  mkRaftState (rs_currentTerm r) (rs_commitIndex r) i (rs_lastSnapshotIndex r)
    (rs_lastSnapshotTerm r) (rs_lastLogIndex r) (rs_lastLogTerm r) (rs_state r).

(** ** Configuration *)

Record RaftConfig := mkRaftConfig {
  rc_HeartbeatTimeout : Duration;
  rc_ElectionTimeout : Duration;
  rc_CommitTimeout : Duration;
  rc_MaxAppendEntries : Z;
  rc_ShutdownOnRemove : bool;
  rc_DisableBootstrapAfterElect : bool;
  rc_TrailingLogs : Z;
  rc_SnapshotInterval : Duration;
  rc_SnapshotThreshold : Z;
  rc_EnableSingleNode : bool;
  rc_LeaderLeaseTimeout : Duration;
  rc_StartAsLeader : bool;
}.

Definition DefaultConfig : RaftConfig := {|
  rc_HeartbeatTimeout := 1000 * Millisecond;
  rc_ElectionTimeout := 1000 * Millisecond;
  rc_CommitTimeout := 50 * Millisecond;
  rc_MaxAppendEntries := 64;
  rc_ShutdownOnRemove := true;
  rc_DisableBootstrapAfterElect := true;
  rc_TrailingLogs := 10240;
  rc_SnapshotInterval := 120 * Second;
  rc_SnapshotThreshold := 8192;
  rc_EnableSingleNode := false;
  rc_LeaderLeaseTimeout := 500 * Millisecond;
  rc_StartAsLeader := false;
|}.

Definition ValidateConfig (c : RaftConfig) : option error :=
  if rc_HeartbeatTimeout c <? 5 * Millisecond then Some (Errorf "Heartbeat timeout is too low")
  else if rc_ElectionTimeout c <? 5 * Millisecond then Some (Errorf "Election timeout is too low")
  else if rc_CommitTimeout c <? Millisecond then Some (Errorf "Commit timeout is too low")
  else if rc_MaxAppendEntries c <=? 0 then Some (Errorf "MaxAppendEntries must be positive")
  else if rc_MaxAppendEntries c >? 1024 then Some (Errorf "MaxAppendEntries is too large")
  else if rc_SnapshotInterval c <? 5 * Millisecond then Some (Errorf "Snapshot interval is too low")
  else if rc_LeaderLeaseTimeout c <? 5 * Millisecond then
    Some (Errorf "Leader lease timeout is too low")
  else if rc_LeaderLeaseTimeout c >? rc_HeartbeatTimeout c then
    Some (Errorf "Leader lease timeout cannot be larger than heartbeat timeout")
  else if rc_ElectionTimeout c <? rc_HeartbeatTimeout c then
    Some (Errorf "Election timeout must be equal or greater than Heartbeat Timeout")
  else None.

(** ** Timeouts and backoff *)

(** [randomTimeout]: [None] is a nil channel; [r] is what [rand.Int63()] draws. *)
Definition randomTimeout (minVal : Duration) (r : Z) : option Duration :=
  if minVal =? 0 then None else Some (wrap64 (minVal + Z.rem r minVal)).

Definition failureWait : Duration := 10 * Millisecond.
Definition maxFailureScale : Z := 12.

(** [backoff]: [for power > 2 { base *= 2; power-- }]. *)
Definition backoff (base : Duration) (round limit : Z) : Duration :=
  let power := umin round limit in
  Nat.iter (Z.to_nat (power - 2)) (fun b => wrap64 (b * 2)) base.

(** ** Peer lists *)

Fixpoint ExcludePeer (peers : list string) (peer : string) : list string :=
  match peers with
  | [] => []
  | p :: peers => if decide (p = peer) then ExcludePeer peers peer else p :: ExcludePeer peers peer
  end.

Fixpoint PeerContained (peers : list string) (peer : string) : bool :=
  match peers with
  | [] => false
  | p :: peers => if decide (p = peer) then true else PeerContained peers peer
  end.

Definition AddUniquePeer (peers : list string) (peer : string) : list string :=
  if PeerContained peers peer then peers else (peers ++ [peer])%list.

(** [NetworkTransport.EncodePeer] and [DecodePeer]: conversions between [string] and [[]byte]. *)
Definition EncodePeer (p : string) : string := p.
Definition DecodePeer (buf : string) : string := buf.

(** [encodePeers] and [decodePeers] over the msgpack codec, a panic when it fails. *)
Section Codec.
Context (encodeMsgPack : list string -> string + error).
Context (decodeMsgPack : string -> list string + error).

Definition encodePeers (peers : list string) : outcome string :=
  match encodeMsgPack (EncodePeer <$> peers) with
  | inl buf => Return buf
  | inr e => Panic ("failed to encode peers: " ++ error_msg e)
  end.

Definition decodePeers (buf : string) : outcome (list string) :=
  match decodeMsgPack buf with
  | inl l => Return (DecodePeer <$> l)
  | inr e => Panic ("failed to decode peers: " ++ error_msg e)
  end.
End Codec.

(** ** Peer stores *)

(** [StaticPeers], the store freno gives to raft. *)
Record StaticPeers := mkStaticPeers { sp_peers : list string }.
Definition StaticPeers_Peers (s : StaticPeers) : list string := sp_peers s.
Definition StaticPeers_SetPeers (p : list string) (s : StaticPeers) : StaticPeers := mkStaticPeers p.

(** [JSONPeers]: the content of peers.json.  [None] is a file that does not exist; reading and
    writing may fail with an error of the file system; the JSON codec is encoding/json's. *)
Section JSONPeers.
Context (json_Encode : list string -> string + error) (json_Decode : string -> list string + error).

Definition JSONPeers_Peers (file : option string + error) : list string + error :=
  match file with
  | inr e => inr e
  | inl None => inl []
  | inl (Some buf) =>
      if decide (buf = "") then inl []
      else match json_Decode buf with
           | inr e => inr e
           | inl peerSet => inl (DecodePeer <$> peerSet)
           end
  end.

(** [write] is what writing the file reports; a failed write leaves the file unknown to the store. *)
Definition JSONPeers_SetPeers (peers : list string) (write : option error)
    (file : option string + error) : (option string + error) * option error :=
  match json_Encode (EncodePeer <$> peers) with
  | inr e => (file, Some e)
  | inl buf =>
      match write with
      | Some e => (inr e, Some e)
      | None => (inl (Some buf), None)
      end
  end.
End JSONPeers.

(** ** Store.Open: the peers and the configuration freno starts raft with *)

Definition Open_peers (peerNodes : list string) : list string :=
  foldl (fun peers p => AddUniquePeer peers (TrimSpace p)) [] peerNodes.

Definition Open_config (peerNodes : list string) : RaftConfig :=
  let c := DefaultConfig in
  if (Z.of_nat (length peerNodes) =? 0) && (Z.of_nat (length (Open_peers peerNodes)) <=? 1) then
    mkRaftConfig (rc_HeartbeatTimeout c) (rc_ElectionTimeout c) (rc_CommitTimeout c)
      (rc_MaxAppendEntries c) (rc_ShutdownOnRemove c) false (rc_TrailingLogs c)
      (rc_SnapshotInterval c) (rc_SnapshotThreshold c) true (rc_LeaderLeaseTimeout c)
      (rc_StartAsLeader c)
  else c.

(** ** Lemmas *)

Lemma umin_spec a b : umin a b = Z.min a b.
Proof. unfold umin. destruct (Z.leb_spec a b); lia. Qed.

Lemma umax_spec a b : umax a b = Z.max a b.
Proof. unfold umax. rewrite Z.geb_leb. destruct (Z.leb_spec b a); lia. Qed.

#[export] Hint Rewrite umin_spec umax_spec : freno.

Lemma PeerContained_spec peers p : PeerContained peers p = true <-> p ∈ peers.
Proof.
  induction peers as [|q l IH]; simpl; [by rewrite elem_of_nil|].
  rewrite elem_of_cons, <- IH. case_decide; naive_solver.
Qed.

Lemma elem_of_ExcludePeer peers p q : q ∈ ExcludePeer peers p <-> q <> p /\ q ∈ peers.
Proof.
  induction peers as [|x l IH]; simpl; [set_solver|].
  case_decide; subst; rewrite ?elem_of_cons, IH; naive_solver.
Qed.

Lemma ExcludePeer_NoDup peers p : NoDup peers -> NoDup (ExcludePeer peers p).
Proof.
  induction 1 as [|x l Hx Hl IH]; simpl; [constructor|].
  case_decide; [done|]. constructor; [|done]. rewrite elem_of_ExcludePeer. naive_solver.
Qed.

Lemma ExcludePeer_length peers p :
  NoDup peers -> p ∈ peers -> length peers = S (length (ExcludePeer peers p)).
Proof.
  induction 1 as [|x l Hx Hl IH]; [set_solver|]. intros Hp. simpl. case_decide; simpl.
  - subst. f_equal. clear IH Hl Hp. induction l as [|y l IH]; [done|]. simpl.
    rewrite decide_False by set_solver. simpl. f_equal. apply IH. set_solver.
  - f_equal. apply IH. set_solver.
Qed.

Lemma AddUniquePeer_NoDup peers p : NoDup peers -> NoDup (AddUniquePeer peers p).
Proof.
  intros H. unfold AddUniquePeer. destruct (PeerContained peers p) eqn:E; [done|].
  apply NoDup_app. split; [done|]. split; [|apply NoDup_singleton].
  intros x Hx ->%list_elem_of_singleton. apply PeerContained_spec in Hx. congruence.
Qed.

#[export] Hint Resolve ExcludePeer_NoDup AddUniquePeer_NoDup : freno.

(** Raft is opened with distinct peers: the trimmed nodes of the configuration, each once. *)
Lemma Open_peers_NoDup nodes : NoDup (Open_peers nodes).
Proof.
  unfold Open_peers. enough (forall acc, NoDup acc ->
    NoDup (foldl (fun peers p => AddUniquePeer peers (TrimSpace p)) acc nodes)) by (apply H; constructor).
  induction nodes as [|n l IH]; simpl; eauto with freno.
Qed.

Lemma Open_peers_from nodes p : p ∈ Open_peers nodes -> exists node, node ∈ nodes /\ p = TrimSpace node.
Proof.
  unfold Open_peers. enough (H : forall acc, p ∈ foldl (fun peers p => AddUniquePeer peers (TrimSpace p)) acc nodes ->
    p ∈ acc \/ exists node, node ∈ nodes /\ p = TrimSpace node) by (intros [?%elem_of_nil|?]%H; done).
  induction nodes as [|n l IH]; intros acc; simpl; [by left|]. intros [Hacc|(node & ? & ->)]%IH; [|right; set_solver].
  unfold AddUniquePeer in Hacc. destruct (PeerContained acc (TrimSpace n)); [by left|].
  apply elem_of_app in Hacc as [?|?%list_elem_of_singleton]; [by left|]. right. set_solver.
Qed.

Lemma Open_config_valid nodes : ValidateConfig (Open_config nodes) = None.
Proof. unfold Open_config. by case_if. Qed.

Lemma iter_double n : forall b,
  0 <= b -> b * 2 ^ Z.of_nat n < 2 ^ 63 -> Nat.iter n (fun b => wrap64 (b * 2)) b = b * 2 ^ Z.of_nat n.
Proof.
  induction n as [|n IH]; intros b Hb Hlt; [simpl; lia|].
  rewrite Nat2Z.inj_succ, Z.pow_succ_r in * by lia.
  change (Nat.iter (S n) ?f b) with (f (Nat.iter n f b)). rewrite IH by nia.
  rewrite wrap64_id; unfold int64_ok; nia.
Qed.

(** The backoff of the replicator: 10 ms doubled per failure from the third one on, at most
    10.24 seconds, without overflow for any number of failures. *)
Lemma backoff_bounded failures :
  uint64_ok failures ->
  backoff failureWait failures maxFailureScale =
    failureWait * 2 ^ (Z.max 0 (Z.min failures maxFailureScale - 2)) /\
  failureWait <= backoff failureWait failures maxFailureScale <= 10240 * Millisecond.
Proof.
  unfold uint64_ok. intros H. unfold backoff. rewrite umin_spec. unfold maxFailureScale.
  assert (E : Nat.iter (Z.to_nat (Z.min failures 12 - 2)) (fun b => wrap64 (b * 2)) failureWait =
              failureWait * 2 ^ Z.max 0 (Z.min failures 12 - 2)).
  { replace (Z.max 0 (Z.min failures 12 - 2)) with (Z.of_nat (Z.to_nat (Z.min failures 12 - 2))) by lia.
    apply iter_double; [done|].
    assert (2 ^ Z.of_nat (Z.to_nat (Z.min failures 12 - 2)) <= 2 ^ 10) by (apply Z.pow_le_mono_r; lia).
    unfold failureWait, Millisecond. lia. }
  rewrite E. split; [done|].
  assert (2 ^ 0 <= 2 ^ Z.max 0 (Z.min failures 12 - 2) <= 2 ^ 10)
    by (split; apply Z.pow_le_mono_r; lia).
  unfold failureWait, Millisecond. lia.
Qed.

Lemma randomTimeout_bounds minVal r :
  0 < minVal < 2 ^ 62 -> 0 <= r < 2 ^ 63 ->
  exists d, randomTimeout minVal r = Some d /\ minVal <= d < 2 * minVal.
Proof.
  intros Hm Hr. unfold randomTimeout. destruct (Z.eqb_spec minVal 0); [lia|].
  pose proof (Z.rem_bound_pos r minVal). eexists. split; [done|].
  rewrite wrap64_id; unfold int64_ok; lia.
Qed.

(** What is written to peers.json is read back. *)
Lemma JSONPeers_roundtrip json_Encode json_Decode peers file :
  (forall l buf, json_Encode l = inl buf -> buf <> "" /\ json_Decode buf = inl l) ->
  forall file', JSONPeers_SetPeers json_Encode peers None file = (file', None) ->
  JSONPeers_Peers json_Decode file' = inl peers.
Proof.
  intros Hcodec file'. unfold JSONPeers_SetPeers, JSONPeers_Peers.
  destruct (json_Encode (EncodePeer <$> peers)) as [buf|e] eqn:E; intros [= <-].
  apply Hcodec in E as [Hne ->]. rewrite decide_False by done.
  by rewrite <- list_fmap_compose, list_fmap_id.
Qed.
