(* ===== verification/Inflight.v ===== *)
(** * Raft: in-flight log entries (internal/raft/inflight.go)

    The leader tracks the entries it has dispatched until a quorum of the nodes has stored them.
    Followers acknowledge in any order and entries can need quorums of different sizes (a membership
    change), yet the entries must be handed to the state machine in the order of the log.

    [inflight] keeps the futures in a map by index with the bounds [minCommit] and [maxCommit]; the
    specification is the list of the entries started so far with their votes, of which the longest
    prefix with a quorum is committed ([inflight_refines]). *)
From S2P Require Import Prelude RaftBase.

Open Scope string_scope.
Open Scope Z_scope.
Local Open Scope go_scope.

(** ** Quorum policy *)

Record majorityQuorum := mkMajorityQuorum {
  mq_count : Z;
  mq_votesNeeded : Z;
}.

Definition newMajorityQuorum (clusterSize : Z) : majorityQuorum :=
  mkMajorityQuorum 0 (Z.quot clusterSize 2 + 1).

Definition mq_IsCommitted (m : majorityQuorum) : bool := mq_count m >=? mq_votesNeeded m.

Definition mq_Commit (m : majorityQuorum) : majorityQuorum * bool :=
  let m := mkMajorityQuorum (mq_count m + 1) (mq_votesNeeded m) in (m, mq_IsCommitted m).

(** [logFuture]: the channel its answer is sent on ([None]: the future was never initialised and
    nobody waits for it), the entry and its policy.  The policy is reached through a pointer that only
    the operations map is used to update. *)
Record logFuture := mkLogFuture {
  lf_errCh : option nat;
  lf_log : Log;
  lf_policy : majorityQuorum;
}.

(** ** State *)

(** A channel of capacity one used as a signal. *)
Inductive signal := Open (pending : bool) | Closed.

Record inflight := mkInflight {
  if_committed : list logFuture;
  if_commitCh : signal;
  if_minCommit : Z;
  if_maxCommit : Z;
  if_operations : gmap Z logFuture;
  if_stopCh : signal;
}.

Definition newInflight : inflight := mkInflight [] (Open false) 0 0 ∅ (Open false).

Definition set_operations (ops : gmap Z logFuture) (i : inflight) : inflight :=
  mkInflight (if_committed i) (if_commitCh i) (if_minCommit i) (if_maxCommit i) ops (if_stopCh i).

(** [asyncNotifyCh]: sending on a closed channel panics, a full one is left alone. *)
Definition asyncNotifyCh (ch : signal) : outcome signal :=
  match ch with
  | Open _ => Return (Open true)
  | Closed => Panic "send on closed channel"
  end.

(** ** Operations *)

Definition notify_done (i : inflight) : outcome inflight :=
  let! ch := asyncNotifyCh (if_commitCh i) in
  Return (mkInflight (if_committed i) ch (if_minCommit i) (if_maxCommit i) (if_operations i)
            (if_stopCh i)).

(** From the label [NOTIFY] on.  Every round stops tracking one operation, so the number of tracked
    operations bounds the rounds ([notify_fuel_enough]). *)
Fixpoint notify (fuel : nat) (index : Z) (op : logFuture) (i : inflight) : outcome inflight :=
  match fuel with
  | O => Panic "out of fuel"
  | S fuel =>
      let committed := (if_committed i ++ [op])%list in
      let ops := delete index (if_operations i) in
      let '(mn, mx) :=
        if index =? if_maxCommit i then (0, 0) else (wrapu64 (if_minCommit i + 1), if_maxCommit i) in
      let i := mkInflight committed (if_commitCh i) mn mx ops (if_stopCh i) in
      if negb (mn =? 0) then
        match ops !! mn with
        | None => Panic "nil pointer dereference"
        | Some op => if mq_IsCommitted (lf_policy op) then notify fuel mn op i else notify_done i
        end
      else notify_done i
  end.

Definition commit (index : Z) (i : inflight) : outcome inflight :=
  match if_operations i !! index with
  | None => Return i
  | Some op =>
      let '(policy, ok) := mq_Commit (lf_policy op) in
      let op := mkLogFuture (lf_errCh op) (lf_log op) policy in
      let i := set_operations (<[index := op]> (if_operations i)) i in
      if negb ok then Return i
      else if negb (index =? if_minCommit i) then Return i
      else notify (size (if_operations i)) index op i
  end.

Definition start (l : logFuture) (i : inflight) : outcome inflight :=
  let idx := log_Index (lf_log l) in
  commit idx
    (mkInflight (if_committed i) (if_commitCh i)
       (if if_minCommit i =? 0 then idx else if_minCommit i)
       (if idx >? if_maxCommit i then idx else if_maxCommit i)
       (<[idx := l]> (if_operations i)) (if_stopCh i)).

Definition Start (l : logFuture) (i : inflight) : outcome inflight := start l i.

Fixpoint StartAll (logs : list logFuture) (i : inflight) : outcome inflight :=
  match logs with
  | [] => Return i
  | l :: logs => let! i := start l i in StartAll logs i
  end.

Fixpoint commit_each (indexes : list Z) (i : inflight) : outcome inflight :=
  match indexes with
  | [] => Return i
  | idx :: indexes => let! i := commit idx i in commit_each indexes i
  end.

Definition Commit (index : Z) (i : inflight) : outcome inflight := commit index i.

(** [CommitRange]: the loop [for idx := minIndex; idx <= maxIndex; idx++], for a [maxIndex] below the
    largest [uint64]. *)
Definition CommitRange (minIndex maxIndex : Z) (i : inflight) : outcome inflight :=
  let minIndex := umax (if_minCommit i) minIndex in
  commit_each (seqZ minIndex (maxIndex - minIndex + 1)) i.

Definition Committed (i : inflight) : list logFuture * inflight :=
  (if_committed i,
   mkInflight [] (if_commitCh i) (if_minCommit i) (if_maxCommit i) (if_operations i) (if_stopCh i)).

(** [Cancel]: the futures that are sent the error, and the new state. *)
Definition Cancel (err : error) (i : inflight) : outcome (list (logFuture * error) * inflight) :=
  match if_stopCh i, if_commitCh i with
  | Open _, Open _ =>
      Return (((fun p => (p.2, err)) <$> map_to_list (if_operations i))
                ++ ((fun f => (f, err)) <$> if_committed i),
              mkInflight [] Closed 0 0 ∅ Closed)%list
  | _, _ => Panic "close of closed channel"
  end.

(** ** What happens to the tracker of a leader *)

Inductive inflight_event :=
| EvStart (l : logFuture)
| EvStartAll (ls : list logFuture)
| EvCommit (index : Z)
| EvCommitRange (minIndex maxIndex : Z)
| EvCommitted.

(** The events in order; the futures handed out by [Committed] are collected. *)
Fixpoint run_inflight (evs : list inflight_event) (taken : list logFuture) (i : inflight)
    : outcome (list logFuture * inflight) :=
  match evs with
  | [] => Return (taken, i)
  | ev :: evs =>
      match ev with
      | EvStart l => let! i := Start l i in run_inflight evs taken i
      | EvStartAll ls => let! i := StartAll ls i in run_inflight evs taken i
      | EvCommit idx => let! i := Commit idx i in run_inflight evs taken i
      | EvCommitRange a b => let! i := CommitRange a b i in run_inflight evs taken i
      | EvCommitted => let '(l, i) := Committed i in run_inflight evs (taken ++ l)%list i
      end
  end.

(** ** Specification: the started entries with all their votes *)

Definition vote (f : logFuture) : logFuture :=
  mkLogFuture (lf_errCh f) (lf_log f) (mkMajorityQuorum (mq_count (lf_policy f) + 1) (mq_votesNeeded (lf_policy f))).
Definition quorum (f : logFuture) : bool := mq_IsCommitted (lf_policy f).

(** A vote for the entry with index [idx], where the first entry has index [base]. *)
Definition spec_ack (base idx : Z) (s : list logFuture) : list logFuture :=
  if base <=? idx then alter vote (Z.to_nat (idx - base)) s else s.

Definition spec_step (base : Z) (s : list logFuture) (ev : inflight_event) : list logFuture :=
  match ev with
  | EvStart l => (s ++ [vote l])%list
  | EvStartAll ls => (s ++ (vote <$> ls))%list
  | EvCommit idx => spec_ack base idx s
  | EvCommitRange a b => foldl (fun s idx => spec_ack base idx s) s (seqZ a (b - a + 1))
  | EvCommitted => s
  end.

Definition spec_run (base : Z) (evs : list inflight_event) : list logFuture :=
  foldl (spec_step base) [] evs.

(** The longest prefix of entries that all have their quorum. *)
Fixpoint quorum_prefix (s : list logFuture) : list logFuture :=
  match s with
  | [] => []
  | f :: s => if quorum f then f :: quorum_prefix s else []
  end.

Fixpoint after_prefix (s : list logFuture) : list logFuture :=
  match s with
  | [] => []
  | f :: s' => if quorum f then after_prefix s' else s
  end.

(** [dispatchLogs] numbers the entries it starts consecutively. *)
Definition ev_starts (ev : inflight_event) : list logFuture :=
  match ev with EvStart l => [l] | EvStartAll ls => ls | _ => [] end.
Definition starts (evs : list inflight_event) : list logFuture := mjoin (ev_starts <$> evs).
Definition numbered (base : Z) (fs : list logFuture) : Prop :=
  (fun f => log_Index (lf_log f)) <$> fs = seqZ base (Z.of_nat (length fs)).

(** ** The representation of the entries that wait for their quorum *)

Definition inflight_rep (lo : Z) (committed pending : list logFuture) (b : bool) : inflight :=
  mkInflight committed (Open b)
    (if decide (pending = []) then 0 else lo)
    (if decide (pending = []) then 0 else lo + Z.of_nat (length pending) - 1)
    (map_seqZ lo pending) (Open false).

Lemma prefix_split s : (quorum_prefix s ++ after_prefix s)%list = s.
Proof. induction s as [|f s IH]; simpl; [done|]. destruct (quorum f); simpl; [by rewrite IH|done]. Qed.

Lemma quorum_prefix_Forall s : Forall (fun f => quorum f = true) (quorum_prefix s).
Proof. induction s as [|f s IH]; simpl; [constructor|]. destruct (quorum f) eqn:E; by repeat constructor. Qed.

Lemma after_prefix_idem s : after_prefix (after_prefix s) = after_prefix s.
Proof. induction s as [|f s IH]; simpl; [done|]. destruct (quorum f) eqn:E; [done|]. simpl. by rewrite E. Qed.

Lemma quorum_prefix_app s p :
  Forall (fun f => quorum f = true) s -> after_prefix p = p -> quorum_prefix (s ++ p)%list = s.
Proof.
  intros Hs Hp. induction Hs as [|f s Hf Hs IH]; simpl.
  - destruct p as [|f p]; simpl in *; [done|]. destruct (quorum f) eqn:E; [|done].
    apply (f_equal length) in Hp. pose proof (f_equal length (prefix_split p)) as H.
    rewrite length_app in H. simpl in Hp. lia.
  - by rewrite Hf, IH.
Qed.

(** The loop hands over the head of the pending entries and all that follow with a quorum. *)
Lemma notify_rep fuel : forall lo op ps c b,
  0 < lo -> lo + Z.of_nat (length (op :: ps)) < 2 ^ 64 -> (length (op :: ps) <= fuel)%nat ->
  notify fuel lo op (inflight_rep lo c (op :: ps) b) =
  Return (inflight_rep (lo + Z.of_nat (length (op :: quorum_prefix ps)))
            (c ++ op :: quorum_prefix ps)%list (after_prefix ps) true).
Proof.
  induction fuel as [|fuel IH]; intros lo op ps c b Hlo Hhi Hfuel; [simpl in *; lia|].
  cbn [notify inflight_rep if_committed if_operations if_maxCommit if_minCommit if_commitCh if_stopCh].
  rewrite !decide_False by done. simpl length in *.
  assert (Hdel : delete lo (map_seqZ lo (op :: ps)) =@{gmap Z logFuture} map_seqZ (lo + 1) ps).
  { rewrite map_seqZ_cons, delete_insert_id; [done|].
    apply lookup_map_seqZ_None. left. lia. }
  rewrite Hdel. destruct ps as [|op' ps].
  - simpl length. rewrite (proj2 (Z.eqb_eq _ _)) by lia. simpl.
    unfold notify_done, inflight_rep. simpl. done.
  - simpl length in *. rewrite (proj2 (Z.eqb_neq lo _)) by lia.
    rewrite wrapu64_id by (unfold uint64_ok; lia).
    rewrite (proj2 (Z.eqb_neq (lo + 1) 0)) by lia.
    cbn [negb]. rewrite map_seqZ_cons, lookup_insert_eq, <- map_seqZ_cons.
    fold (quorum op'). simpl quorum_prefix. simpl after_prefix.
    assert (Erep : mkInflight (c ++ [op])%list (Open b) (lo + 1) (lo + Z.of_nat (S (S (length ps))) - 1)
                     (map_seqZ (lo + 1) (op' :: ps)) (Open false) =
                   inflight_rep (lo + 1) (c ++ [op])%list (op' :: ps) b).
    { unfold inflight_rep. rewrite !decide_False by done. f_equal. simpl. lia. }
    rewrite Erep. destruct (quorum op') eqn:E.
    + rewrite IH by (simpl; lia). f_equal. f_equal; [simpl; lia|]. by rewrite <- app_assoc.
    + unfold notify_done, inflight_rep. simpl. done.
Qed.

Lemma size_map_seqZ lo (p : list logFuture) : size (map_seqZ lo p : gmap Z logFuture) = length p.
Proof.
  revert lo. induction p as [|f p IH]; intros lo; [done|].
  rewrite map_seqZ_cons, map_size_insert_None by apply map_seqZ_cons_disjoint.
  simpl. by rewrite IH.
Qed.

(** The commit of an index that waits: one more vote, then the entries that are ready leave. *)
Lemma commit_rep lo c p b n op :
  0 < lo -> lo + Z.of_nat (length p) < 2 ^ 64 -> after_prefix p = p -> p !! n = Some op ->
  exists b',
  commit (lo + Z.of_nat n) (inflight_rep lo c p b) =
  let p' := <[n := vote op]> p in
  Return (inflight_rep (lo + Z.of_nat (length (quorum_prefix p'))) (c ++ quorum_prefix p')%list
            (after_prefix p') b').
Proof.
  intros Hlo Hhi Hp Hop. pose proof (lookup_lt_Some _ _ _ Hop) as Hlen.
  assert (Hne : p <> []) by (intros ->; simpl in Hlen; lia).
  set (p' := <[n := vote op]> p).
  assert (Hne' : p' <> []) by (intros H; apply (f_equal length) in H; unfold p' in H;
    rewrite length_insert in H; simpl in H; lia).
  assert (Hset : set_operations (<[lo + Z.of_nat n := vote op]> (map_seqZ lo p)) (inflight_rep lo c p b)
                 = inflight_rep lo c p' b).
  { unfold set_operations, inflight_rep. simpl. rewrite <- map_seqZ_insert by done.
    rewrite !decide_False by done. unfold p'. by rewrite length_insert. }
  unfold commit. change (if_operations (inflight_rep lo c p b)) with (map_seqZ lo p : gmap Z logFuture).
  assert (Hlook : (map_seqZ lo p : gmap Z logFuture) !! (lo + Z.of_nat n) = Some op).
  { apply lookup_map_seqZ_Some. split; [lia|]. by rewrite Z.add_simpl_l, Nat2Z.id. }
  rewrite Hlook. unfold mq_Commit. cbn zeta iota beta.
  change (mkLogFuture (lf_errCh op) (lf_log op) (mkMajorityQuorum (mq_count (lf_policy op) + 1) (mq_votesNeeded (lf_policy op))))
    with (vote op).
  change (mq_IsCommitted (mkMajorityQuorum (mq_count (lf_policy op) + 1) (mq_votesNeeded (lf_policy op))))
    with (quorum (vote op)).
  rewrite Hset. change (if_minCommit (inflight_rep lo c p' b)) with (if decide (p' = []) then 0 else lo).
  rewrite decide_False by done.
  destruct n as [|n].
  - rewrite Z.add_0_r. destruct p as [|op0 ps]; [done|]. simpl in Hop. injection Hop as ->.
    change p' with (vote op :: ps). simpl quorum_prefix. simpl after_prefix.
    destruct (quorum (vote op)); cbn [negb].
    + rewrite Z.eqb_refl. cbn [negb]. exists true.
      change (if_operations (inflight_rep lo c (vote op :: ps) b))
        with (map_seqZ lo (vote op :: ps) : gmap Z logFuture).
      apply notify_rep; [done|done|].
      by rewrite size_map_seqZ.
    + exists b. simpl. by rewrite Z.add_0_r, app_nil_r.
  - exists b.
    assert (Hhead : quorum_prefix p' = [] /\ after_prefix p' = p').
    { destruct p as [|op0 ps]; [done|]. unfold p'. simpl. simpl in Hp.
      destruct (quorum op0) eqn:E; [|done].
      apply (f_equal length) in Hp. pose proof (f_equal length (prefix_split ps)) as H.
      rewrite length_app in H. simpl in Hp. lia. }
    destruct Hhead as [-> ->]. simpl length. rewrite Z.add_0_r, app_nil_r.
    destruct (quorum (vote op)); cbn [negb]; [|done].
    by rewrite (proj2 (Z.eqb_neq _ _)) by lia.
Qed.

(** The fuel of [commit] suffices in every state, also where the invariants do not hold. *)
Lemma notify_fuel_enough fuel : forall index op i,
  is_Some (if_operations i !! index) -> (size (if_operations i) <= fuel)%nat ->
  notify fuel index op i <> Panic "out of fuel".
Proof.
  induction fuel as [|fuel IH]; intros index op i [x Hx] Hsize.
  { assert (E : size (if_operations i) = 0%nat) by lia. apply map_size_empty_inv in E.
    rewrite E, lookup_empty in Hx. done. }
  cbn [notify]. destruct (index =? if_maxCommit i); cbn [negb Z.eqb].
  { unfold notify_done. simpl. by destruct (if_commitCh i). }
  case_if.
  - destruct (delete index (if_operations i) !! wrapu64 (if_minCommit i + 1)) as [op'|] eqn:E; [|done].
    case_if; [|unfold notify_done; simpl; by destruct (if_commitCh i)].
    apply IH; simpl; [by rewrite E|]. rewrite map_size_delete_Some by (by eexists). lia.
  - unfold notify_done. simpl. by destruct (if_commitCh i).
Qed.

(** An index that does not wait is ignored. *)
Lemma commit_ignored lo c p b idx :
  (idx < lo \/ lo + Z.of_nat (length p) <= idx) -> commit idx (inflight_rep lo c p b) = Return (inflight_rep lo c p b).
Proof.
  intros H. unfold commit. simpl.
  assert (E : (map_seqZ lo p : gmap Z logFuture) !! idx = None) by by apply lookup_map_seqZ_None.
  by rewrite E.
Qed.

(** ** Simulation *)

(** A committed future against the entry of the specification: the same entry and the same policy,
    with the votes it had when it was committed. *)
Definition committed_as (f g : logFuture) : Prop :=
  lf_errCh f = lf_errCh g /\ lf_log f = lf_log g /\ mq_votesNeeded (lf_policy f) = mq_votesNeeded (lf_policy g) /\
  quorum f = true /\ mq_count (lf_policy f) <= mq_count (lf_policy g).

(** The futures [taken] by the main loop and those in the committed list are the prefix with a
    quorum, the tracked operations are the rest. *)
Definition inflight_sim (base : Z) (s taken : list logFuture) (i : inflight) : Prop :=
  exists D p c b,
    s = (D ++ p)%list /\ Forall2 committed_as (taken ++ c)%list D /\ after_prefix p = p /\
    i = inflight_rep (base + Z.of_nat (length D)) c p b.

Lemma committed_as_refl f : quorum f = true -> committed_as f f.
Proof. by repeat split. Qed.

Lemma committed_as_vote f g : committed_as f g -> committed_as f (vote g).
Proof. intros (?&?&?&?&?). repeat split; simpl; [done..|lia]. Qed.

Lemma committed_as_quorum f g : committed_as f g -> quorum g = true.
Proof. intros (_&H1&H2&H3). unfold quorum, mq_IsCommitted in *. rewrite Z.geb_leb in *. zbool. lia. Qed.

Lemma Forall2_alter_vote l D n : Forall2 committed_as l D -> Forall2 committed_as l (alter vote n D).
Proof.
  intros H. apply Forall2_same_length_lookup. rewrite length_alter.
  split; [by apply Forall2_length in H|]. intros k x y Hx. rewrite list_lookup_alter. case_decide; [subst|intros; by eapply Forall2_lookup_lr].
  intros (z & Hz & ->)%fmap_Some_1. apply committed_as_vote. by eapply Forall2_lookup_lr.
Qed.

Lemma alter_out_of_range {A} (f : A -> A) n (l : list A) : (length l <= n)%nat -> alter f n l = l.
Proof.
  intros H. apply list_eq. intros k. rewrite list_lookup_alter. case_decide; [|done]. subst.
  by rewrite lookup_ge_None_2.
Qed.

Lemma alter_insert {A} (f : A -> A) n (l : list A) x : l !! n = Some x -> alter f n l = <[n := f x]> l.
Proof. intros H. rewrite list_insert_alter. apply list_alter_ext; [naive_solver|done]. Qed.

Section Sim.
Context (base : Z) (Hbase : 0 < base).

(** One vote. *)
Lemma sim_commit idx s taken i :
  base + Z.of_nat (length s) < 2 ^ 64 -> inflight_sim base s taken i ->
  exists i', commit idx i = Return i' /\ inflight_sim base (spec_ack base idx s) taken i'.
Proof.
  intros Hhi (D & p & c & b & -> & HD & Hp & ->). rewrite length_app in Hhi.
  set (lo := base + Z.of_nat (length D)) in *. unfold spec_ack.
  destruct (decide (lo <= idx < lo + Z.of_nat (length p))) as [Hin|Hout].
  - set (n := Z.to_nat (idx - lo)). destruct (lookup_lt_is_Some_2 p n) as [op Hop]; [lia|].
    destruct (commit_rep lo c p b n op) as [b' E]; [lia|lia|done|done|].
    replace (lo + Z.of_nat n) with idx in E by lia. rewrite E. eexists. split; [done|].
    rewrite (proj2 (Z.leb_le _ _)) by lia. rewrite alter_app, decide_False by lia.
    replace (Z.to_nat (idx - base) - length D)%nat with n by lia.
    rewrite (alter_insert _ _ _ _ Hop). set (p' := <[n := vote op]> p).
    exists (D ++ quorum_prefix p')%list, (after_prefix p'), (c ++ quorum_prefix p')%list, b'.
    rewrite length_app, Nat2Z.inj_add, Z.add_assoc. fold lo.
    rewrite <- app_assoc, prefix_split. split; [done|]. split; [|by rewrite after_prefix_idem].
    rewrite app_assoc. apply Forall2_app; [done|].
    apply Forall_Forall2_diag. eapply Forall_impl; [apply quorum_prefix_Forall|apply committed_as_refl].
  - rewrite commit_ignored by lia. eexists. split; [done|].
    destruct (Z.leb_spec base idx); [|by exists D, p, c, b].
    rewrite alter_app. case_decide.
    + exists (alter vote (Z.to_nat (idx - base)) D), p, c, b. rewrite length_alter.
      eauto using Forall2_alter_vote.
    + rewrite alter_out_of_range by lia. by exists D, p, c, b.
Qed.

(** The start of the next entry. *)
Lemma sim_start l s taken i :
  log_Index (lf_log l) = base + Z.of_nat (length s) -> quorum l = false ->
  base + Z.of_nat (S (length s)) < 2 ^ 64 -> inflight_sim base s taken i ->
  exists i', start l i = Return i' /\ inflight_sim base (s ++ [vote l])%list taken i'.
Proof.
  intros Hidx Hl Hhi (D & p & c & b & -> & HD & Hp & ->). rewrite length_app in *.
  set (lo := base + Z.of_nat (length D)) in *. unfold start. rewrite Hidx.
  replace (base + Z.of_nat (length D + length p)) with (lo + Z.of_nat (length p)) by lia.
  set (q := (p ++ [l])%list).
  assert (Hq : after_prefix q = q).
  { unfold q. destruct p as [|f p]; simpl; [by rewrite Hl|]. simpl in Hp.
    destruct (quorum f); [|done]. apply (f_equal length) in Hp.
    pose proof (f_equal length (prefix_split p)) as H. rewrite length_app in H. simpl in Hp. lia. }
  assert (Erep : mkInflight c (Open b)
            (if (if decide (p = []) then 0 else lo) =? 0 then lo + Z.of_nat (length p)
             else if decide (p = []) then 0 else lo)
            (if lo + Z.of_nat (length p) >?
                (if decide (p = []) then 0 else lo + Z.of_nat (length p) - 1)
             then lo + Z.of_nat (length p)
             else if decide (p = []) then 0 else lo + Z.of_nat (length p) - 1)
            (<[lo + Z.of_nat (length p) := l]> (map_seqZ lo p)) (Open false)
          = inflight_rep lo c q b).
  { unfold inflight_rep, q. rewrite map_seqZ_snoc, length_app.
    rewrite !(decide_False (P := (p ++ [l])%list = [])) by (by destruct p).
    assert (lo <> 0) by lia. f_equal; case_decide; subst; simpl length; rewrite ?Z.gtb_ltb.
    - simpl. lia.
    - by rewrite (proj2 (Z.eqb_neq _ _)) by done.
    - rewrite (proj2 (Z.ltb_lt _ _)) by lia. lia.
    - rewrite (proj2 (Z.ltb_lt _ _)) by lia. lia. }
  change (if_committed (inflight_rep lo c p b)) with c.
  change (if_commitCh (inflight_rep lo c p b)) with (Open b).
  change (if_stopCh (inflight_rep lo c p b)) with (Open false).
  change (if_minCommit (inflight_rep lo c p b)) with (if decide (p = []) then 0 else lo).
  change (if_maxCommit (inflight_rep lo c p b))
    with (if decide (p = []) then 0 else lo + Z.of_nat (length p) - 1).
  change (if_operations (inflight_rep lo c p b)) with (map_seqZ lo p : gmap Z logFuture).
  rewrite Erep.
  destruct (sim_commit (lo + Z.of_nat (length p)) (D ++ q)%list taken (inflight_rep lo c q b))
    as (i' & Hc & Hsim).
  { unfold q. rewrite !length_app. simpl. lia. }
  { by exists D, q, c, b. }
  exists i'. split; [done|].
  assert (Espec : spec_ack base (lo + Z.of_nat (length p)) (D ++ q)%list = ((D ++ p) ++ [vote l])%list).
  { unfold spec_ack. rewrite (proj2 (Z.leb_le _ _)) by lia. unfold q. rewrite app_assoc.
    replace (Z.to_nat (lo + Z.of_nat (length p) - base)) with (length (D ++ p)%list + 0)%nat
      by (rewrite length_app; lia).
    by rewrite alter_app_r. }
  by rewrite <- Espec.
Qed.

Lemma sim_StartAll ls : forall s taken i,
  numbered (base + Z.of_nat (length s)) ls -> Forall (fun l => quorum l = false) ls ->
  base + Z.of_nat (length s + length ls) < 2 ^ 64 -> inflight_sim base s taken i ->
  exists i', StartAll ls i = Return i' /\ inflight_sim base (s ++ (vote <$> ls))%list taken i'.
Proof.
  induction ls as [|l ls IH]; intros s taken i Hn Hq Hhi Hsim; simpl.
  { exists i. by rewrite app_nil_r. }
  unfold numbered in Hn. simpl in Hn, Hhi. rewrite seqZ_cons in Hn by lia. injection Hn as Hn0 Hn.
  apply Forall_cons in Hq as [Hl Hq].
  destruct (sim_start l s taken i) as (i1 & E1 & Hsim1); [done|done|lia|done|].
  rewrite E1. simpl.
  destruct (IH (s ++ [vote l])%list taken i1) as (i2 & E2 & Hsim2).
  - unfold numbered. etrans; [exact Hn|]. rewrite length_app. simpl. f_equal; lia.
  - done.
  - rewrite length_app. simpl. lia.
  - done.
  - exists i2. split; [done|]. by rewrite <- app_assoc in Hsim2.
Qed.

Lemma spec_ack_length idx s : length (spec_ack base idx s) = length s.
Proof. unfold spec_ack. case_if; [apply length_alter|done]. Qed.

Lemma sim_commit_each l : forall s taken i,
  base + Z.of_nat (length s) < 2 ^ 64 -> inflight_sim base s taken i ->
  exists i', commit_each l i = Return i' /\
    inflight_sim base (foldl (fun s idx => spec_ack base idx s) s l) taken i'.
Proof.
  induction l as [|idx l IH]; intros s taken i Hhi Hsim; simpl; [by exists i|].
  destruct (sim_commit idx s taken i) as (i1 & -> & Hsim1); [done|done|]. simpl.
  apply IH; [by rewrite spec_ack_length|done].
Qed.

(** Votes below [minCommit] reach committed entries only: skipping them changes nothing. *)
Lemma sim_skip l : forall s taken i,
  Forall (fun idx => idx < if_minCommit i) l -> inflight_sim base s taken i ->
  inflight_sim base (foldl (fun s idx => spec_ack base idx s) s l) taken i.
Proof.
  induction l as [|idx l IH]; intros s taken i Hl Hsim; simpl; [done|].
  apply Forall_cons in Hl as [Hidx Hl]. apply IH; [done|].
  destruct Hsim as (D & p & c & b & -> & HD & Hp & ->). unfold spec_ack.
  simpl in Hidx. case_decide; subst; destruct (Z.leb_spec base idx); try by exists D, p, c, b.
  - lia.
  - by exists D, [], c, b.
  - rewrite alter_app, decide_True by lia. exists (alter vote (Z.to_nat (idx - base)) D), p, c, b.
    rewrite length_alter. eauto using Forall2_alter_vote.
Qed.

Lemma sim_CommitRange a b s taken i :
  base + Z.of_nat (length s) < 2 ^ 64 -> inflight_sim base s taken i ->
  exists i', CommitRange a b i = Return i' /\
    inflight_sim base (spec_step base s (EvCommitRange a b)) taken i'.
Proof.
  intros Hhi Hsim. unfold CommitRange. rewrite umax_spec. simpl.
  set (m := if_minCommit i) in *.
  destruct (decide (b < Z.max m a)) as [Hb|Hb].
  - rewrite (seqZ_nil (Z.max m a)) by lia. simpl. exists i. split; [done|].
    apply sim_skip; [|done]. apply Forall_forall. intros x [? ?]%elem_of_seqZ. fold m. lia.
  - replace (b - a + 1) with ((Z.max m a - a) + (b - Z.max m a + 1)) by lia.
    rewrite (seqZ_app a) by lia. rewrite foldl_app.
    replace (a + (Z.max m a - a)) with (Z.max m a) by lia.
    apply sim_commit_each.
    + set (l := seqZ a _). clearbody l. clear -Hhi. revert s Hhi.
      induction l as [|x l IH]; intros s Hhi; simpl; [done|]. apply IH. by rewrite spec_ack_length.
    + apply sim_skip; [|done]. apply Forall_forall. intros x [? ?]%elem_of_seqZ. fold m. lia.
Qed.

Lemma sim_Committed s taken i :
  inflight_sim base s taken i ->
  inflight_sim base s (taken ++ (Committed i).1)%list (Committed i).2.
Proof.
  intros (D & p & c & b & -> & HD & Hp & ->). exists D, p, [], b. simpl. by rewrite app_nil_r.
Qed.
End Sim.

(** ** Theorems *)

(** The events of a leader's term: consecutive indices from [base] on, fresh policies. *)
Definition well_numbered (base : Z) (evs : list inflight_event) : Prop :=
  0 < base /\ numbered base (starts evs) /\ Forall (fun l => quorum l = false) (starts evs) /\
  base + Z.of_nat (length (starts evs)) < 2 ^ 64.

Lemma spec_step_length base s ev :
  length (spec_step base s ev) = (length s + length (ev_starts ev))%nat.
Proof.
  destruct ev as [l|ls|idx|a b|]; simpl; rewrite ?length_app, ?length_fmap, ?spec_ack_length, ?Nat.add_0_r; try done.
  generalize (seqZ a (b - a + 1)). intros l. revert s.
  induction l as [|x l IH]; intros s; simpl; [done|]. by rewrite IH, spec_ack_length.
Qed.

Lemma numbered_app base l1 l2 :
  numbered base (l1 ++ l2)%list -> numbered base l1 /\ numbered (base + Z.of_nat (length l1)) l2.
Proof.
  unfold numbered. rewrite fmap_app, length_app, Nat2Z.inj_add, seqZ_app by lia.
  intros H. apply app_inj_1 in H; [done|]. rewrite length_fmap, length_seqZ. lia.
Qed.

Lemma sim_run base evs : forall s taken i,
  0 < base -> numbered (base + Z.of_nat (length s)) (starts evs) ->
  Forall (fun l => quorum l = false) (starts evs) ->
  base + Z.of_nat (length s + length (starts evs)) < 2 ^ 64 -> inflight_sim base s taken i ->
  exists taken' i', run_inflight evs taken i = Return (taken', i') /\
    inflight_sim base (foldl (spec_step base) s evs) taken' i'.
Proof.
  induction evs as [|ev evs IH]; intros s taken i Hb Hn Hq Hhi Hsim; [by exists taken, i|].
  change (starts (ev :: evs)) with (ev_starts ev ++ starts evs)%list in *.
  rewrite length_app in Hhi. apply Forall_app in Hq as [Hq1 Hq2].
  apply numbered_app in Hn as [Hn1 Hn2]. rewrite <- Z.add_assoc, <- Nat2Z.inj_add in Hn2.
  cbn [foldl]. rewrite <- (spec_step_length base s ev) in Hn2.
  assert (Hgo : forall taken' i', inflight_sim base (spec_step base s ev) taken' i' ->
    exists taken'' i'', run_inflight evs taken' i' = Return (taken'', i'') /\
      inflight_sim base (foldl (spec_step base) (spec_step base s ev) evs) taken'' i'').
  { intros taken' i' H. apply IH; [done|done|done| |done]. rewrite spec_step_length. lia. }
  destruct ev as [l|ls|idx|a b|]; cbn [run_inflight]; simpl ev_starts in *; simpl length in *.
  - destruct (sim_StartAll base Hb [l] s taken i) as (i' & E & H); [done|done|simpl; lia|done|].
    simpl in E. unfold Start. destruct (start l i) as [i1|]; [|done]. injection E as ->.
    by apply Hgo.
  - destruct (sim_StartAll base Hb ls s taken i) as (i' & -> & H); [done|done|lia|done|]. by apply Hgo.
  - destruct (sim_commit base Hb idx s taken i) as (i' & E & H); [lia|done|].
    unfold Commit. rewrite E. by apply Hgo.
  - destruct (sim_CommitRange base Hb a b s taken i) as (i' & -> & H); [lia|done|]. by apply Hgo.
  - pose proof (sim_Committed base s taken i Hsim) as H. destruct (Committed i). by apply Hgo.
Qed.

(** C7: the in-flight tracker implements its specification.  Whatever the interleaving of starts
    (numbered consecutively by the leader), follower acknowledgements for any index or range of
    indices that ends below 2^64-1 (where the loop over the range would not end), and collections by the
    main loop: the tracker never panics (no nil operation, no send on
    a closed channel), its loops terminate, and the entries handed over or ready to be are exactly
    the longest prefix of the started entries in which every entry has reached its own quorum, in log
    order, each once; everything after that prefix is still tracked with its votes. *)
Theorem inflight_refines base evs :
  well_numbered base evs ->
  exists taken i, run_inflight evs [] newInflight = Return (taken, i) /\
    lf_log <$> (taken ++ if_committed i)%list = lf_log <$> quorum_prefix (spec_run base evs) /\
    Forall (fun f => quorum f = true) (taken ++ if_committed i) /\
    if_operations i =
      map_seqZ (base + Z.of_nat (length (taken ++ if_committed i))) (after_prefix (spec_run base evs)).
Proof.
  intros (Hb & Hn & Hq & Hhi).
  destruct (sim_run base evs [] [] newInflight) as (taken & i & E & D & p & c & b & Hs & HD & Hp & ->).
  - done.
  - by rewrite Z.add_0_r.
  - done.
  - done.
  - exists [], [], [], false. repeat split; try constructor.
  - exists taken, (inflight_rep (base + Z.of_nat (length D)) c p b). split; [done|].
    fold (spec_run base evs) in Hs. rewrite Hs.
    assert (HDq : Forall (fun f => quorum f = true) D).
    { clear -HD. induction HD as [|x y l k Hxy _ IH]; constructor; [|done]. by eapply committed_as_quorum. }
    rewrite (quorum_prefix_app D p) by done.
    assert (Hafter : after_prefix (D ++ p)%list = p).
    { apply (app_inv_head D). rewrite <- (quorum_prefix_app D p) at 1 by done. by rewrite prefix_split. }
    rewrite Hafter. simpl if_committed. simpl if_operations. split_and!.
    + clear -HD. induction HD as [|x y l k Hxy _ IH]; [done|]. rewrite !fmap_cons. f_equal; [|done]. apply Hxy.
    + clear -HD. induction HD as [|x y l k Hxy _ IH]; constructor; [|done]. apply Hxy.
    + by rewrite (Forall2_length _ _ _ HD).
Qed.

Definition future_ex (index needed : Z) : logFuture :=
  mkLogFuture None (mkLog index 1 LogCommand "" "") (mkMajorityQuorum 0 needed).

(** Entry 8 has its quorum before entry 7, which needs three votes: both leave when 7 has them. *)
Definition inflight_ex : list inflight_event :=
  [EvStart (future_ex 7 3); EvStartAll [future_ex 8 2; future_ex 9 2]; EvCommitRange 7 8; EvCommitted;
   EvCommit 7].

Lemma inflight_refines_witness :
  well_numbered 7 inflight_ex /\
  exists taken i, run_inflight inflight_ex [] newInflight = Return (taken, i) /\
    (log_Index ∘ lf_log) <$> (taken ++ if_committed i)%list = [7; 8] /\ if_minCommit i = 9.
Proof.
  assert (H : well_numbered 7 inflight_ex).
  { split; [done|]. split; [reflexivity|]. split; [|done]. by repeat constructor. }
  split; [exact H|]. destruct (inflight_refines 7 inflight_ex H) as (taken & i & E & _).
  exists taken, i. split; [exact E|]. revert E. vm_compute. intros [= <- <-]. done.
Defined.

(** After [Cancel] the tracker is inert: replicators that are still running acknowledge without
    effect, and every future that was tracked or not yet collected got the error once. *)
Lemma Cancel_inert err base s taken i :
  inflight_sim base s taken i ->
  exists responses i', Cancel err i = Return (responses, i') /\
    responses.*1 ≡ₚ (if_committed i ++ (map_to_list (if_operations i)).*2)%list /\
    (forall a b, CommitRange a b i' = Return i') /\ (forall idx, Commit idx i' = Return i').
Proof.
  intros (D & p & c & b & -> & HD & Hp & ->). unfold Cancel. simpl.
  eexists _, _. split; [done|]. split.
  - rewrite fmap_app, <- !list_fmap_compose. rewrite Permutation_app_comm. f_equiv.
    + by rewrite list_fmap_id.
    + done.
  - assert (Hc : forall idx, commit idx (mkInflight [] Closed 0 0 ∅ Closed) =
                             Return (mkInflight [] Closed 0 0 ∅ Closed)).
    { intros idx. unfold commit. simpl. by rewrite lookup_empty. }
    split; [|done]. intros a b'. unfold CommitRange. cbn [if_minCommit].
    generalize (seqZ (umax 0 a) (b' - umax 0 a + 1)). intros l. induction l as [|x l IH]; [done|]. simpl. by rewrite Hc.
Qed.
