(* ===== verification/BoltStore.v ===== *)
(** * Raft: durable storage (internal/raft-boltdb/{util,bolt_store}.go and the interfaces of
    internal/raft/{log,stable}.go)

    The log and the vote of a node live in a BoltDB file.  Log entries are kept in a bucket under
    their index in big-endian, so that the byte order of the keys, in which a cursor walks, is the
    order of the log.

    [LogStore] and [StableStore] are the interfaces the raft node uses, with the laws it relies on
    ([LogStoreLaws], [StableStoreLaws]); [BoltStore] implements them over any bucket that keeps
    BoltDB's documented contract ([BucketLaws]), with transactions that may fail.  The failures of
    the environment are part of the state of a store: a list consumed by its transactions. *)
From S2P Require Import Prelude GoStrings RaftBase.

Open Scope string_scope.
Open Scope Z_scope.
Local Open Scope go_scope.

(** ** Keys *)

Definition byte_value (c : ascii) : Z := Z.of_N (N_of_ascii c).
Definition byte_of (z : Z) : ascii := ascii_of_N (Z.to_N (Z.land z 255)).

(** [binary.BigEndian.PutUint64]: the bytes [u >> 8(n-1)], ..., [u >> 0]. *)
Fixpoint put_be (n : nat) (u : Z) : string :=
  match n with
  | O => ""
  | S n => String (byte_of (Z.shiftr u (8 * Z.of_nat n))) (put_be n u)
  end.

(** [binary.BigEndian.Uint64]: the first [n] bytes; indexing panics when there are fewer. *)
Fixpoint get_be (n : nat) (s : string) : outcome Z :=
  match n with
  | O => Return 0
  | S n =>
      match s with
      | "" => Panic "index out of range"
      | String c s =>
          let! v := get_be n s in
          Return (Z.lor (Z.shiftl (byte_value c) (8 * Z.of_nat n)) v)
      end
  end.

Definition uint64ToBytes (u : Z) : string := put_be 8 u.
Definition bytesToUint64 (b : string) : outcome Z := get_be 8 b.

Lemma byte_value_of z : byte_value (byte_of z) = z `mod` 256.
Proof.
  unfold byte_value, byte_of. change 255 with (Z.ones 8). rewrite Z.land_ones by lia.
  change (2 ^ 8) with 256. pose proof (Z.mod_pos_bound z 256).
  rewrite N_ascii_embedding by lia. lia.
Qed.

Lemma byte_value_bound c : 0 <= byte_value c < 256.
Proof. unfold byte_value. pose proof (N_ascii_bounded c). lia. Qed.

Lemma put_be_head n u :
  byte_value (byte_of (Z.shiftr u (8 * Z.of_nat n))) = (u / 2 ^ (8 * Z.of_nat n)) `mod` 256.
Proof. by rewrite byte_value_of, Z.shiftr_div_pow2 by lia. Qed.

(** The value of [n] bytes is the number modulo [2^8n]. *)
Lemma get_put_be n u : 0 <= u -> get_be n (put_be n u) = Return (u `mod` 2 ^ (8 * Z.of_nat n)).
Proof.
  intros Hu. induction n as [|n IH]; [by rewrite Z.mod_1_r|].
  cbn [get_be put_be]. rewrite IH. cbn [outcome_bind]. f_equal. rewrite put_be_head.
  replace (8 * Z.of_nat (S n)) with (8 * Z.of_nat n + 8) by lia.
  set (k := 8 * Z.of_nat n). assert (0 <= k) by lia. assert (0 < 2 ^ k) by lia.
  rewrite Z.pow_add_r by lia. change (2 ^ 8) with 256.
  rewrite Z.rem_mul_r by lia. rewrite <- Z.add_nocarry_lor.
  { rewrite Z.shiftl_mul_pow2 by lia. lia. }
  apply Z.bits_inj'. intros m Hm. rewrite Z.land_spec, Z.bits_0.
  destruct (decide (m < k)).
  - by rewrite Z.shiftl_spec_low by lia.
  - rewrite <- (Z.land_ones u k), Z.land_spec by lia. rewrite Z.ones_spec_high by lia.
    by rewrite !andb_false_r.
Qed.

Lemma bytesToUint64_roundtrip u : uint64_ok u -> bytesToUint64 (uint64ToBytes u) = Return u.
Proof.
  unfold uint64_ok. intros H. unfold bytesToUint64, uint64ToBytes. rewrite get_put_be by lia.
  by rewrite Z.mod_small.
Qed.

Lemma byte_value_inj c d : byte_value c = byte_value d -> c = d.
Proof.
  unfold byte_value. intros H. apply N2Z.inj in H.
  rewrite <- (ascii_N_embedding c), <- (ascii_N_embedding d). by f_equal.
Qed.

(** The low bytes depend on the low bits only. *)
Lemma put_be_mod m u : forall k, (m <= k)%nat -> put_be m u = put_be m (u `mod` 2 ^ (8 * Z.of_nat k)).
Proof.
  induction m as [|m IH]; intros k Hk; [done|]. cbn [put_be]. rewrite (IH k) by lia. f_equal.
  apply byte_value_inj. rewrite !put_be_head.
  replace (8 * Z.of_nat k) with (8 * Z.of_nat m + (8 + 8 * (Z.of_nat k - Z.of_nat m - 1))) by lia.
  set (x := 8 * Z.of_nat m). set (y := 8 * (Z.of_nat k - Z.of_nat m - 1)).
  assert (0 <= x /\ 0 <= y) as [? ?] by lia.
  rewrite Z.pow_add_r by lia. assert (0 < 2 ^ x) by lia. assert (0 < 2 ^ y) by lia.
  rewrite (Z.rem_mul_r u (2 ^ x)) by lia. pose proof (Z.mod_pos_bound u (2 ^ x) ltac:(done)).
  rewrite (Z.mul_comm (2 ^ x)), Z.div_add, (Z.div_small (u `mod` 2 ^ x)) by lia. rewrite Z.add_0_l.
  rewrite Z.pow_add_r by lia. change (2 ^ 8) with 256.
  rewrite (Z.rem_mul_r (u / 2 ^ x) 256) by lia.
  by rewrite (Z.mul_comm 256), Z_mod_plus_full, Z.mod_mod by lia.
Qed.

(** The byte order of keys is the order of the numbers. *)
Lemma put_be_order n : forall a b,
  0 <= a < 2 ^ (8 * Z.of_nat n) -> 0 <= b < 2 ^ (8 * Z.of_nat n) ->
  str_ltb (put_be n a) (put_be n b) = (a <? b).
Proof.
  induction n as [|n IH]; intros a b Ha Hb.
  { simpl in *. symmetry. apply Z.ltb_ge. lia. }
  cbn [put_be str_ltb]. rewrite (put_be_mod n a n), (put_be_mod n b n) by lia.
  replace (8 * Z.of_nat (S n)) with (8 * Z.of_nat n + 8) in * by lia.
  assert (Hk : 0 <= 8 * Z.of_nat n) by lia. set (k := 8 * Z.of_nat n) in *.
  rewrite Z.pow_add_r in * by lia. change (2 ^ 8) with 256 in *. assert (0 < 2 ^ k) by lia.
  pose proof (Z.div_mod a (2 ^ k)). pose proof (Z.div_mod b (2 ^ k)).
  pose proof (Z.mod_pos_bound a (2 ^ k)). pose proof (Z.mod_pos_bound b (2 ^ k)).
  assert (Hqa : 0 <= a / 2 ^ k < 256) by (split; [apply Z.div_pos|apply Z.div_lt_upper_bound]; lia).
  assert (Hqb : 0 <= b / 2 ^ k < 256) by (split; [apply Z.div_pos|apply Z.div_lt_upper_bound]; lia).
  assert (Ea : byte_value (byte_of (Z.shiftr a k)) = a / 2 ^ k)
    by (unfold k; rewrite put_be_head; apply Z.mod_small; exact Hqa).
  assert (Eb : byte_value (byte_of (Z.shiftr b k)) = b / 2 ^ k)
    by (unfold k; rewrite put_be_head; apply Z.mod_small; exact Hqb).
  case_decide as E.
  - rewrite E in Ea. rewrite IH by lia.
    apply Bool.eq_iff_eq_true. rewrite !Z.ltb_lt. nia.
  - unfold byte_value in Ea, Eb. apply Bool.eq_iff_eq_true. rewrite N.ltb_lt, Z.ltb_lt.
    assert (a / 2 ^ k <> b / 2 ^ k).
    { intros Heq. apply E, byte_value_inj. unfold byte_value. lia. }
    rewrite N2Z.inj_lt, Ea, Eb. nia.
Qed.

Lemma uint64ToBytes_order a b :
  uint64_ok a -> uint64_ok b -> str_ltb (uint64ToBytes a) (uint64ToBytes b) = (a <? b).
Proof. unfold uint64_ok. intros. by apply put_be_order. Qed.

Lemma uint64ToBytes_inj a b :
  uint64_ok a -> uint64_ok b -> uint64ToBytes a = uint64ToBytes b -> a = b.
Proof.
  intros Ha Hb E. pose proof (bytesToUint64_roundtrip a Ha) as H. rewrite E in H.
  rewrite bytesToUint64_roundtrip in H by done. congruence.
Qed.

(** ** The interfaces *)

(** An operation on a store: it may panic, and it changes the store. *)
Definition op (S A : Type) : Type := S -> outcome (A * S).

(** [LogStore] of log.go. *)
Class LogStore (S : Type) := {
  FirstIndex : op S (Z + error);
  LastIndex : op S (Z + error);
  GetLog : Z -> op S (Log + error);
  StoreLogs : list Log -> op S (option error);
  DeleteRange : Z -> Z -> op S (option error);
}.

(** [StableStore] of stable.go. *)
Class StableStore (S : Type) := {
  stable_Set : string -> string -> op S (option error);
  stable_Get : string -> op S (string + error);
  SetUint64 : string -> Z -> op S (option error);
  GetUint64 : string -> op S (Z + error);
}.

(** The entries after storing some: a later entry with the same index replaces an earlier one. *)
Definition insert_logs (ls : list Log) (m : gmap Z Log) : gmap Z Log :=
  foldl (fun m l => <[log_Index l := l]> m) m ls.

(** The entries outside of a range. *)
Definition delete_logs (lo hi : Z) (m : gmap Z Log) : gmap Z Log :=
  filter (fun p => ~ (lo <= p.1 <= hi)) m.

(** An unexported field is not stored. *)
Definition erase_peer (l : Log) : Log := mkLog (log_Index l) (log_Term l) (log_Type l) (log_Data l) "".

Definition is_first (m : gmap Z Log) (n : Z) : Prop :=
  (m = ∅ /\ n = 0) \/ (is_Some (m !! n) /\ forall i, is_Some (m !! i) -> n <= i).
Definition is_last (m : gmap Z Log) (n : Z) : Prop :=
  (m = ∅ /\ n = 0) \/ (is_Some (m !! n) /\ forall i, is_Some (m !! i) -> i <= n).

(** What a log store promises.  [log_rep s m]: the store [s] holds the entries [m].  An operation
    that reports an error has changed nothing. *)
Class LogStoreLaws (S : Type) `{LogStore S} := {
  log_rep : S -> gmap Z Log -> Prop;
  GetLog_law s m i : log_rep s m -> uint64_ok i ->
    exists r s', GetLog i s = Return (r, s') /\ log_rep s' m /\
      match r with
      | inl l => m !! i = Some l
      | inr e => e = ErrLogNotFound -> m !! i = None
      end;
  StoreLogs_law s m ls : log_rep s m -> Forall (fun l => uint64_ok (log_Index l)) ls ->
    exists r s', StoreLogs ls s = Return (r, s') /\
      log_rep s' (if r is None then insert_logs (erase_peer <$> ls) m else m);
  DeleteRange_law s m lo hi : log_rep s m -> uint64_ok lo -> uint64_ok hi ->
    exists r s', DeleteRange lo hi s = Return (r, s') /\
      log_rep s' (if r is None then delete_logs lo hi m else m);
  FirstIndex_law s m : log_rep s m ->
    exists r s', FirstIndex s = Return (r, s') /\ log_rep s' m /\
      (if r is inl n then is_first m n else True);
  LastIndex_law s m : log_rep s m ->
    exists r s', LastIndex s = Return (r, s') /\ log_rep s' m /\
      (if r is inl n then is_last m n else True);
}.

Definition ErrKeyNotFound : error := Sentinel "not found".

(** A failed [Get]: the key is missing, or the error is another one (and says so). *)
Definition get_error_law (missing : Prop) (e : error) : Prop :=
  if decide (error_msg e = "not found") then missing else True.

(** What a stable store promises: [conf_rep s m], the values under their keys. *)
Class StableStoreLaws (S : Type) `{StableStore S} := {
  conf_rep : S -> gmap string string -> Prop;
  stable_Set_law s m k v : conf_rep s m -> k <> "" ->
    exists r s', stable_Set k v s = Return (r, s') /\
      conf_rep s' (if r is None then <[k := v]> m else m);
  stable_Get_law s m k : conf_rep s m ->
    exists r s', stable_Get k s = Return (r, s') /\ conf_rep s' m /\
      match r with inl v => m !! k = Some v | inr e => get_error_law (m !! k = None) e end;
  SetUint64_law s m k u : conf_rep s m -> k <> "" ->
    exists r s', SetUint64 k u s = Return (r, s') /\
      conf_rep s' (if r is None then <[k := uint64ToBytes u]> m else m);
  GetUint64_law s m k : conf_rep s m ->
    (forall v, m !! k = Some v -> exists u, uint64_ok u /\ v = uint64ToBytes u) ->
    exists r s', GetUint64 k s = Return (r, s') /\ conf_rep s' m /\
      match r with
      | inl u => uint64_ok u /\ m !! k = Some (uint64ToBytes u)
      | inr e => get_error_law (m !! k = None) e
      end;
}.

(** ** BoltDB *)

(** A bucket: [bucket_keys] is the order in which a cursor visits the keys. *)
Class Bucket (B : Type) := {
  bucket_Get : string -> B -> option string;
  bucket_Put : string -> string -> B -> B + error;
  bucket_Delete : string -> B -> B + error;
  bucket_keys : B -> list string;
}.

(** Its documented contract: a map, iterated in byte-sorted order. *)
Class BucketLaws (B : Type) `{Bucket B} := {
  Get_Put k v b b' j : bucket_Put k v b = inl b' ->
    bucket_Get j b' = if decide (j = k) then Some v else bucket_Get j b;
  Get_Delete k b b' j : bucket_Delete k b = inl b' ->
    bucket_Get j b' = if decide (j = k) then None else bucket_Get j b;
  keys_spec b k : k ∈ bucket_keys b <-> is_Some (bucket_Get k b);
  keys_sorted b : StronglySorted str_sle (bucket_keys b);
  keys_nodup b : NoDup (bucket_keys b);
}.

(** The msgpack codec for log entries; unexported fields are not encoded. *)
Class LogCodec := {
  encodeMsgPack : Log -> string + error;
  decodeMsgPack : string -> Log + error;
}.
Class LogCodecLaws `{LogCodec} := {
  decode_encode l v : encodeMsgPack l = inl v -> decodeMsgPack v = inl (erase_peer l);
}.

(** The outcome of a transaction that is not the program's doing: [Begin] and [Commit] may fail. *)
Record fault := mkFault { f_begin : option error; f_commit : option error }.

(** The store: the two buckets and the faults its next transactions meet (none when exhausted). *)
Record BoltStore (B : Type) := mkBoltStore {
  bs_logs : B;
  bs_conf : B;
  bs_faults : list fault;
}.
Arguments mkBoltStore {B}.
Arguments bs_logs {B}.
Arguments bs_conf {B}.
Arguments bs_faults {B}.

Section BoltStore.
Context `{BucketLaws B} `{LogCodecLaws}.
Implicit Types (s : BoltStore B) (m : gmap Z Log).

Definition next_fault s : fault * BoltStore B :=
  (match bs_faults s with [] => mkFault None None | f :: _ => f end,
   mkBoltStore (bs_logs s) (bs_conf s) (tail (bs_faults s))).

(** A read transaction: [Begin(false)], the body, the deferred [Rollback]. *)
Definition view_tx {A} (body : BoltStore B -> outcome (A + error)) : op (BoltStore B) (A + error) :=
  fun s => let '(f, s) := next_fault s in
           match f_begin f with
           | Some e => Return (inr e, s)
           | None => let! r := body s in Return (r, s)
           end.

(** A write transaction: [Begin(true)], the body, [Commit]; rolled back on every error. *)
Definition update_tx (body : BoltStore B -> outcome (BoltStore B + error))
    : op (BoltStore B) (option error) :=
  fun s => let '(f, s) := next_fault s in
           match f_begin f with
           | Some e => Return (Some e, s)
           | None =>
               let! r := body s in
               match r with
               | inr e => Return (Some e, s)
               | inl s' => match f_commit f with
                           | Some e => Return (Some e, s)
                           | None => Return (None, s')
                           end
               end
           end.

(** *** Opening the file *)

(** A database file: its buckets may be missing. *)
Record bolt_file := mkBoltFile {
  bf_logs : option B;
  bf_conf : option B;
  bf_faults : list fault;
}.

(** [initialize]: one transaction creates the buckets that are missing; [create] answers the two
    [CreateBucketIfNotExists]. *)
Definition initialize (empty : B) (create : option error * option error) (f : bolt_file)
    : (BoltStore B + error) * bolt_file :=
  let fault := default (mkFault None None) (head (bf_faults f)) in
  let f := mkBoltFile (bf_logs f) (bf_conf f) (tail (bf_faults f)) in
  match f_begin fault, create, f_commit fault with
  | Some e, _, _ | None, (Some e, _), _ | None, (None, Some e), _ | None, (None, None), Some e => (inr e, f)
  | None, (None, None), None =>
      let logs := default empty (bf_logs f) in
      let conf := default empty (bf_conf f) in
      (inl (mkBoltStore logs conf (bf_faults f)), mkBoltFile (Some logs) (Some conf) (bf_faults f))
  end.

(** [NewBoltStore]; [opened]: the answer of [bolt.Open]. *)
Definition NewBoltStore (empty : B) (opened : option error) (create : option error * option error) (f : bolt_file)
    : (BoltStore B + error) * bolt_file :=
  match opened with
  | Some e => (inr e, f)
  | None => initialize empty create f
  end.

(** What a store leaves in its file. *)
Definition bolt_Close s : bolt_file := mkBoltFile (Some (bs_logs s)) (Some (bs_conf s)) (bs_faults s).

Definition set_logs (b : B) s : BoltStore B := mkBoltStore b (bs_conf s) (bs_faults s).
Definition set_conf (b : B) s : BoltStore B := mkBoltStore (bs_logs s) b (bs_faults s).

(** [FirstIndex] and [LastIndex]: the key under the cursor, 0 for an empty bucket. *)
Definition index_at (k : option string) : outcome (Z + error) :=
  match k with
  | None => Return (inl 0)
  | Some k => let! u := bytesToUint64 k in Return (inl u)
  end.

Definition bolt_FirstIndex : op (BoltStore B) (Z + error) :=
  view_tx (fun s => index_at (head (bucket_keys (bs_logs s)))).
Definition bolt_LastIndex : op (BoltStore B) (Z + error) :=
  view_tx (fun s => index_at (last (bucket_keys (bs_logs s)))).

Definition bolt_GetLog (idx : Z) : op (BoltStore B) (Log + error) :=
  view_tx (fun s => match bucket_Get (uint64ToBytes idx) (bs_logs s) with
                    | None => Return (inr ErrLogNotFound)
                    | Some v => Return (decodeMsgPack v)
                    end).

Fixpoint put_logs (logs : list Log) (b : B) : B + error :=
  match logs with
  | [] => inl b
  | log :: logs =>
      match encodeMsgPack log with
      | inr e => inr e
      | inl v => match bucket_Put (uint64ToBytes (log_Index log)) v b with
                 | inr e => inr e
                 | inl b => put_logs logs b
                 end
      end
  end.

Definition bolt_StoreLogs (logs : list Log) : op (BoltStore B) (option error) :=
  update_tx (fun s => Return (match put_logs logs (bs_logs s) with
                              | inr e => inr e
                              | inl b => inl (set_logs b s)
                              end)).

(** The keys from [Seek(minKey)] on. *)
Fixpoint seek (minKey : string) (keys : list string) : list string :=
  match keys with
  | [] => []
  | k :: keys' => if str_ltb k minKey then seek minKey keys' else keys
  end.

(** The loop of [DeleteRange], over the keys the cursor had in front of it when the loop began.  The
    source goes on with [Next] after [Delete] on the same cursor: bolt's documentation asks for the
    cursor to be repositioned after a change, but the cursor of a new transaction walks the pages of the
    file, which do not change, while the deletions are made in nodes in memory until the commit. *)
Fixpoint delete_keys (keys : list string) (max : Z) (b : B) : outcome (B + error) :=
  match keys with
  | [] => Return (inl b)
  | k :: keys =>
      let! u := bytesToUint64 k in
      if u >? max then Return (inl b)
      else match bucket_Delete k b with
           | inr e => Return (inr e)
           | inl b => delete_keys keys max b
           end
  end.

Definition bolt_DeleteRange (min max : Z) : op (BoltStore B) (option error) :=
  update_tx (fun s => let! r := delete_keys (seek (uint64ToBytes min) (bucket_keys (bs_logs s)))
                                  max (bs_logs s) in
                      Return (match r with inr e => inr e | inl b => inl (set_logs b s) end)).

Definition bolt_Set (k v : string) : op (BoltStore B) (option error) :=
  update_tx (fun s => Return (match bucket_Put k v (bs_conf s) with
                              | inr e => inr e
                              | inl b => inl (set_conf b s)
                              end)).

Definition bolt_Get (k : string) : op (BoltStore B) (string + error) :=
  view_tx (fun s => Return (match bucket_Get k (bs_conf s) with
                            | None => inr ErrKeyNotFound
                            | Some v => inl v
                            end)).

Definition bolt_SetUint64 (k : string) (v : Z) : op (BoltStore B) (option error) :=
  bolt_Set k (uint64ToBytes v).

Definition bolt_GetUint64 (k : string) : op (BoltStore B) (Z + error) :=
  fun s => let! (r, s) := bolt_Get k s in
           match r with
           | inr e => Return (inr e, s)
           | inl v => let! u := bytesToUint64 v in Return (inl u, s)
           end.

#[export] Instance bolt_log_store : LogStore (BoltStore B) := {
  FirstIndex := bolt_FirstIndex;
  LastIndex := bolt_LastIndex;
  GetLog := bolt_GetLog;
  StoreLogs := bolt_StoreLogs;
  DeleteRange := bolt_DeleteRange;
}.

#[export] Instance bolt_stable_store : StableStore (BoltStore B) := {
  stable_Set := bolt_Set;
  stable_Get := bolt_Get;
  SetUint64 := bolt_SetUint64;
  GetUint64 := bolt_GetUint64;
}.

(** *** The contract holds *)

(** The failures of a transaction are not the errors the store itself reports. *)
Definition fault_ok (f : fault) : Prop :=
  match f_begin f with
  | Some e => e <> ErrLogNotFound /\ error_msg e <> "not found"
  | None => True
  end.

Definition logs_hold (b : B) m : Prop :=
  (forall k, is_Some (bucket_Get k b) -> exists i, uint64_ok i /\ k = uint64ToBytes i) /\
  (forall i, is_Some (m !! i) -> uint64_ok i) /\
  (forall i, uint64_ok i ->
     match m !! i with
     | Some l => exists v, bucket_Get (uint64ToBytes i) b = Some v /\ decodeMsgPack v = inl l
     | None => bucket_Get (uint64ToBytes i) b = None
     end).

Definition bolt_log_rep s m : Prop := Forall fault_ok (bs_faults s) /\ logs_hold (bs_logs s) m.

Definition bolt_conf_rep s (m : gmap string string) : Prop :=
  Forall fault_ok (bs_faults s) /\ forall k, bucket_Get k (bs_conf s) = m !! k.

Lemma next_fault_ok s :
  Forall fault_ok (bs_faults s) ->
  fault_ok (next_fault s).1 /\ Forall fault_ok (bs_faults (next_fault s).2).
Proof. unfold next_fault. intros H'. destruct H'; simpl; by repeat constructor. Qed.

(** A read transaction changes nothing but the pending faults. *)
Lemma view_tx_law {A} (body : BoltStore B -> outcome (A + error)) s r :
  Forall fault_ok (bs_faults s) -> body (next_fault s).2 = Return r ->
  exists r', view_tx body s = Return (r', (next_fault s).2) /\
    (r' = r \/ exists e, r' = inr e /\ e <> ErrLogNotFound /\ error_msg e <> "not found").
Proof.
  intros Hf Hb. destruct (next_fault_ok s Hf) as [Hf1 _]. unfold view_tx.
  destruct (next_fault s) as [f s'] eqn:E. simpl in *. unfold fault_ok in Hf1.
  destruct (f_begin f) as [e|]; [|rewrite Hb; eauto]. eexists. split; [done|]. right. by exists e.
Qed.

(** A write transaction either commits its body or changes nothing. *)
Lemma update_tx_law body s r :
  body (next_fault s).2 = Return r ->
  exists err s', update_tx body s = Return (err, s') /\
    ((err <> None /\ s' = (next_fault s).2) \/ (err = None /\ r = inl s')).
Proof.
  intros Hb. unfold update_tx. destruct (next_fault s) as [f s'] eqn:E. simpl in *.
  destruct (f_begin f) as [e|]; [eexists _, _; split; [done|]; by left|].
  rewrite Hb. simpl. destruct r as [s''|e]; [|eexists _, _; split; [done|]; by left].
  destruct (f_commit f); eexists _, _; (split; [done|]); [by left|by right].
Qed.

Lemma logs_hold_put l v b b' m :
  logs_hold b m -> uint64_ok (log_Index l) -> decodeMsgPack v = inl (erase_peer l) ->
  bucket_Put (uint64ToBytes (log_Index l)) v b = inl b' ->
  logs_hold b' (<[log_Index l := erase_peer l]> m).
Proof.
  intros (Hk & Hdom & Hget) Hl Hv Hput. split_and!.
  - intros k. rewrite (Get_Put _ _ _ _ k Hput). case_decide; [subst; eauto|apply Hk].
  - intros i. destruct (decide (i = log_Index l)) as [->|]; [done|].
    rewrite lookup_insert_ne by done. apply Hdom.
  - intros i Hi. rewrite (Get_Put _ _ _ _ _ Hput).
    destruct (decide (i = log_Index l)) as [->|Hne].
    + rewrite lookup_insert_eq, decide_True by done. eauto.
    + rewrite lookup_insert_ne by done. rewrite decide_False; [by apply Hget|].
      intros E. by apply Hne, uint64ToBytes_inj.
Qed.

Lemma put_logs_law logs : forall b m b',
  logs_hold b m -> Forall (fun l => uint64_ok (log_Index l)) logs ->
  put_logs logs b = inl b' -> logs_hold b' (insert_logs (erase_peer <$> logs) m).
Proof.
  induction logs as [|l logs IH]; intros b m b' Hb Hl; simpl; [by intros [= <-]|].
  apply Forall_cons in Hl as [Hl Hls].
  destruct (encodeMsgPack l) as [v|] eqn:Ev; [|done].
  destruct (bucket_Put _ v b) as [b1|] eqn:Eput; [|done]. intros Hrest.
  eapply IH; [|done|done]. eapply logs_hold_put; eauto using decode_encode.
Qed.

(** Deleting an entry. *)
Lemma logs_hold_delete i b b' m :
  logs_hold b m -> uint64_ok i -> bucket_Delete (uint64ToBytes i) b = inl b' ->
  logs_hold b' (delete i m).
Proof.
  intros (Hk & Hdom & Hget) Hi Hdel. split_and!.
  - intros k. rewrite (Get_Delete _ _ _ k Hdel). case_decide; [by intros []|apply Hk].
  - intros j. destruct (decide (i = j)) as [->|]; [done|]. rewrite lookup_delete_ne by done. apply Hdom.
  - intros j Hj. rewrite (Get_Delete _ _ _ _ Hdel). destruct (decide (j = i)) as [->|Hne].
    + by rewrite lookup_delete_eq, decide_True.
    + rewrite lookup_delete_ne by done. rewrite decide_False; [by apply Hget|].
      intros E. by apply Hne, uint64ToBytes_inj.
Qed.

(** The loop over the keys in order deletes the entries up to [hi] and stops at the first beyond. *)
Lemma delete_keys_law hi ks : forall b m,
  logs_hold b m -> Forall (fun k => exists i, uint64_ok i /\ k = uint64ToBytes i) ks ->
  StronglySorted str_sle ks ->
  exists r, delete_keys ks hi b = Return r /\
    (forall b', r = inl b' -> exists m', logs_hold b' m' /\
       forall j, uint64_ok j ->
         m' !! j = if decide (uint64ToBytes j ∈ ks /\ j <= hi) then None else m !! j).
Proof.
  induction ks as [|k ks IH]; intros b m Hb Hks Hsort; cbn [delete_keys].
  { eexists. split; [done|]. intros b' [= <-]. exists m. split; [done|]. intros j _.
    rewrite decide_False; [done|]. by intros [?%elem_of_nil _]. }
  apply Forall_cons in Hks as [(i & Hi & ->) Hks]. apply StronglySorted_inv in Hsort as [Hsort Hle].
  rewrite bytesToUint64_roundtrip by done. cbn [outcome_bind]. rewrite Z.gtb_ltb.
  destruct (Z.ltb_spec hi i) as [Hhi|Hhi].
  - eexists. split; [done|]. intros b' [= <-]. exists m. split; [done|]. intros j Hj.
    rewrite decide_False; [done|]. intros [Hin Hj'].
    assert (Hij : i <= j); [|lia]. apply elem_of_cons in Hin as [E|Hin].
    + apply uint64ToBytes_inj in E; [lia|done|done].
    + rewrite Forall_forall in Hle. specialize (Hle _ Hin). unfold str_sle in Hle.
      rewrite uint64ToBytes_order in Hle by done. zbool. lia.
  - destruct (bucket_Delete (uint64ToBytes i) b) as [b1|e] eqn:Ed; [|eexists; by split].
    destruct (IH b1 (delete i m)) as (r & -> & Hr); [by eapply logs_hold_delete|done|done|].
    exists r. split; [done|]. intros b' Hb'. destruct (Hr b' Hb') as (m' & Hm' & Hlook).
    exists m'. split; [done|]. intros j Hj. rewrite Hlook by done.
    destruct (decide (j = i)) as [->|Hne].
    + rewrite lookup_delete_eq. case_decide; case_decide; set_solver.
    + rewrite lookup_delete_ne by done.
      assert (uint64ToBytes j <> uint64ToBytes i) by (intros E; by apply Hne, uint64ToBytes_inj).
      apply decide_ext. rewrite elem_of_cons. tauto.
Qed.

Lemma elem_of_seek mk ks k :
  StronglySorted str_sle ks -> (k ∈ seek mk ks <-> k ∈ ks /\ str_ltb k mk = false).
Proof.
  induction 1 as [|x ks Hsort IH Hle]; simpl; [set_solver|].
  destruct (str_ltb x mk) eqn:E.
  - rewrite IH, elem_of_cons. split; [naive_solver|]. intros [[->|] ?]; [congruence|done].
  - split; [|naive_solver]. intros Hin. split; [done|]. apply elem_of_cons in Hin as [->|Hin]; [done|].
    rewrite Forall_forall in Hle. specialize (Hle _ Hin). change (str_sle mk k). by trans x.
Qed.

Lemma seek_sorted mk ks : StronglySorted str_sle ks -> StronglySorted str_sle (seek mk ks).
Proof. induction 1; simpl; [constructor|]. case_if; [done|by constructor]. Qed.

Lemma seek_incl mk ks k : k ∈ seek mk ks -> k ∈ ks.
Proof. induction ks as [|x ks IH]; simpl; [done|]. case_if; set_solver. Qed.

Lemma logs_hold_key b m k :
  logs_hold b m -> k ∈ bucket_keys b -> exists i, uint64_ok i /\ k = uint64ToBytes i /\ is_Some (m !! i).
Proof.
  intros (Hk & Hdom & Hget) Hin%keys_spec. destruct (Hk k Hin) as (i & Hi & ->).
  exists i. split; [done|]. split; [done|]. specialize (Hget i Hi). destruct (m !! i); [eauto|].
  rewrite Hget in Hin. by destruct Hin.
Qed.

Lemma logs_hold_index b m i : logs_hold b m -> is_Some (m !! i) -> uint64ToBytes i ∈ bucket_keys b.
Proof.
  intros (Hk & Hdom & Hget) Hi. apply keys_spec. specialize (Hget i (Hdom i Hi)).
  destruct Hi as [l Hl]. rewrite Hl in Hget. destruct Hget as (v & -> & _). eauto.
Qed.

Lemma delete_range_law lo hi b m :
  logs_hold b m -> uint64_ok lo -> uint64_ok hi ->
  exists r, delete_keys (seek (uint64ToBytes lo) (bucket_keys b)) hi b = Return r /\
    (forall b', r = inl b' -> logs_hold b' (delete_logs lo hi m)).
Proof.
  intros Hb Hlo Hhi.
  destruct (delete_keys_law hi (seek (uint64ToBytes lo) (bucket_keys b)) b m) as (r & E & Hr).
  - done.
  - apply Forall_forall. intros k Hk%seek_incl. destruct (logs_hold_key b m k Hb Hk) as (i & ? & ? & ?). eauto.
  - apply seek_sorted, keys_sorted.
  - exists r. split; [done|]. intros b' Hb'. destruct (Hr b' Hb') as (m' & Hm' & Hlook).
    enough (delete_logs lo hi m = m') as -> by done. apply map_eq. intros j. unfold delete_logs.
    destruct (decide (uint64_ok j)) as [Hj|Hj].
    + rewrite Hlook by done. rewrite map_lookup_filter.
      case_decide as Hd; [|destruct (m !! j) as [l|] eqn:El; simpl; [|done]].
      * destruct Hd as [Hin Hle]. apply elem_of_seek in Hin as [Hin Hge]; [|apply keys_sorted].
        rewrite uint64ToBytes_order in Hge by done. zbool.
        destruct (m !! j); simpl; [|done]. rewrite option_guard_False; [done|]. simpl. lia.
      * rewrite option_guard_True; [done|]. simpl. intros [? ?]. apply Hd. split; [|done].
        apply elem_of_seek; [apply keys_sorted|].
        split; [by eapply logs_hold_index; [done|]; eauto|].
        rewrite uint64ToBytes_order by done. apply Z.ltb_ge. lia.
    + assert (Hno : forall x : gmap Z Log, (forall i, is_Some (x !! i) -> uint64_ok i) -> x !! j = None).
      { intros x Hx. destruct (x !! j) eqn:Ex; [|done]. exfalso. eauto. }
      rewrite (Hno m') by apply Hm'. rewrite map_lookup_filter, (Hno m) by apply Hb. done.
Qed.

Lemma logs_hold_empty b m : logs_hold b m -> bucket_keys b = [] -> m = ∅.
Proof.
  intros Hb E. apply map_empty. intros i. destruct (m !! i) eqn:Ei; [|done]. exfalso.
  pose proof (logs_hold_index b m i Hb ltac:(eauto)) as Hin. rewrite E in Hin. by apply elem_of_nil in Hin.
Qed.

(** The key at an end of the cursor is the index at that end of the log. *)
Lemma index_at_law (end_of : gmap Z Log -> Z -> Prop) b m k :
  logs_hold b m -> (m = ∅ -> end_of m 0) ->
  (k = None -> bucket_keys b = []) ->
  (forall key, k = Some key -> key ∈ bucket_keys b /\
     forall i, uint64_ok i -> key = uint64ToBytes i -> is_Some (m !! i) -> end_of m i) ->
  exists r, index_at k = Return r /\ (if r is inl n then end_of m n else True).
Proof.
  intros Hb Hempty Hnone Hkey. destruct k as [key|]; simpl.
  - destruct (Hkey key eq_refl) as [Hin Hend].
    destruct (logs_hold_key b m key Hb Hin) as (i & Hi & -> & Hm).
    rewrite bytesToUint64_roundtrip by done. eexists. split; [done|]. by apply Hend.
  - eexists. split; [done|]. apply Hempty. eauto using logs_hold_empty.
Qed.

Lemma sorted_key_le i j :
  uint64_ok i -> uint64_ok j -> str_sle (uint64ToBytes i) (uint64ToBytes j) -> i <= j.
Proof. intros Hi Hj. unfold str_sle. rewrite uint64ToBytes_order by done. intros. zbool. lia. Qed.

Lemma first_index_law b m :
  logs_hold b m -> exists r, index_at (head (bucket_keys b)) = Return r /\ (if r is inl n then is_first m n else True).
Proof.
  intros Hb. apply (index_at_law is_first b m); [done|by left|by destruct (bucket_keys b)|].
  intros key Hkey. pose proof (keys_sorted b) as Hs. pose proof (logs_hold_index b m) as Hidx.
  destruct (bucket_keys b) as [|x ks]; [done|]. injection Hkey as ->. split; [set_solver|].
  intros i Hi -> Hm. right. split; [done|]. intros j Hj. specialize (Hidx j Hb Hj).
  apply elem_of_cons in Hidx as [E|Hin].
  - apply uint64ToBytes_inj in E; [lia|by apply Hb|done].
  - apply StronglySorted_inv in Hs as [_ Hle]. rewrite Forall_forall in Hle.
    apply sorted_key_le; [done|by apply Hb|by apply Hle].
Qed.

Lemma StronglySorted_last (ks : list string) k x :
  StronglySorted str_sle ks -> last ks = Some k -> x ∈ ks -> str_sle x k.
Proof.
  induction 1 as [|y ks Hs IH Hle]; [done|]. intros Hl Hx. destruct ks as [|z ks].
  - simpl in Hl. injection Hl as ->. apply list_elem_of_singleton in Hx as ->. unfold str_sle. apply str_ltb_irrefl.
  - rewrite last_cons_cons in Hl. apply elem_of_cons in Hx as [->|Hx]; [|by apply IH].
    rewrite Forall_forall in Hle. apply Hle. by apply last_Some_elem_of.
Qed.

Lemma last_index_law b m :
  logs_hold b m -> exists r, index_at (last (bucket_keys b)) = Return r /\ (if r is inl n then is_last m n else True).
Proof.
  intros Hb. apply (index_at_law is_last b m); [done|by left|apply last_None|].
  intros key Hkey. split; [by apply last_Some_elem_of|].
  intros i Hi -> Hm. right. split; [done|]. intros j Hj.
  pose proof (logs_hold_index b m j Hb Hj) as Hin.
  apply sorted_key_le; [by apply Hb|done|].
  eapply StronglySorted_last; [apply keys_sorted|done|done].
Qed.

Lemma bolt_GetLog_law s m i : bolt_log_rep s m -> uint64_ok i ->
  exists r s', bolt_GetLog i s = Return (r, s') /\ bolt_log_rep s' m /\
    match r with
    | inl l => m !! i = Some l
    | inr e => e = ErrLogNotFound -> m !! i = None
    end.
Proof.
  intros [Hf Hb] Hi. destruct (next_fault_ok s Hf) as [_ Hf'].
  set (body := fun s => match bucket_Get (uint64ToBytes i) (bs_logs s) with
                        | None => Return (inr ErrLogNotFound)
                        | Some v => Return (decodeMsgPack v)
                        end).
  assert (Hbody : exists r, body (next_fault s).2 = Return r /\
            match r with inl l => m !! i = Some l | inr e => m !! i = None end).
  { unfold body. simpl. destruct Hb as (_ & _ & Hget). specialize (Hget i Hi). destruct (m !! i).
    - destruct Hget as (v & -> & ->). eexists. by split.
    - rewrite Hget. eexists. by split. }
  destruct Hbody as (r & Er & Hr).
  destruct (view_tx_law body s r Hf Er) as (r' & E & Hcase). exists r', (next_fault s).2.
  split; [exact E|]. split; [by split|]. destruct Hcase as [->|(e & -> & He & _)]; [|done].
  destruct r; [done|]. by intros _.
Qed.

Lemma bolt_StoreLogs_law s m ls : bolt_log_rep s m -> Forall (fun l => uint64_ok (log_Index l)) ls ->
  exists r s', bolt_StoreLogs ls s = Return (r, s') /\
    bolt_log_rep s' (if r is None then insert_logs (erase_peer <$> ls) m else m).
Proof.
  intros [Hf Hb] Hls. destruct (next_fault_ok s Hf) as [_ Hf'].
  destruct (update_tx_law (fun s => Return (match put_logs ls (bs_logs s) with
                            | inr e => inr e
                            | inl b => inl (set_logs b s)
                            end)) s _ eq_refl) as (err & s' & E & Hcase).
  exists err, s'. split; [exact E|]. destruct Hcase as [[Herr ->]|[-> Hs']].
  + by destruct err.
  + destruct (put_logs ls _) as [b|] eqn:Ep; [|done]. injection Hs' as <-. split; [done|].
    by eapply put_logs_law.
Qed.

Lemma bolt_DeleteRange_law s m lo hi : bolt_log_rep s m -> uint64_ok lo -> uint64_ok hi ->
  exists r s', bolt_DeleteRange lo hi s = Return (r, s') /\
    bolt_log_rep s' (if r is None then delete_logs lo hi m else m).
Proof.
  intros [Hf Hb] Hlo Hhi. destruct (next_fault_ok s Hf) as [_ Hf'].
  destruct (delete_range_law lo hi (bs_logs s) m Hb Hlo Hhi) as (r & Er & Hr).
  destruct (update_tx_law (fun s => let! r := delete_keys (seek (uint64ToBytes lo) (bucket_keys (bs_logs s)))
                                hi (bs_logs s) in
                    Return (match r with inr e => inr e | inl b => inl (set_logs b s) end)) s
             (match r with inr e => inr e | inl b => inl (set_logs b (next_fault s).2) end))
    as (err & s' & E & Hcase); [simpl; by rewrite Er|].
  exists err, s'. split; [exact E|]. destruct Hcase as [[Herr ->]|[-> Hs']].
  + by destruct err.
  + destruct r as [b|]; [|done]. injection Hs' as <-. split; [done|]. by apply Hr.
Qed.

Lemma bolt_FirstIndex_law s m : bolt_log_rep s m ->
  exists r s', bolt_FirstIndex s = Return (r, s') /\ bolt_log_rep s' m /\
    (if r is inl n then is_first m n else True).
Proof.
  intros [Hf Hb]. destruct (next_fault_ok s Hf) as [_ Hf'].
  destruct (first_index_law (bs_logs s) m Hb) as (r & Er & Hr).
  destruct (view_tx_law (fun s => index_at (head (bucket_keys (bs_logs s)))) s r Hf Er)
    as (r' & E & Hcase).
  exists r', (next_fault s).2. split; [exact E|]. split; [by split|].
  destruct Hcase as [->|(e & -> & _)]; done.
Qed.

Lemma bolt_LastIndex_law s m : bolt_log_rep s m ->
  exists r s', bolt_LastIndex s = Return (r, s') /\ bolt_log_rep s' m /\
    (if r is inl n then is_last m n else True).
Proof.
  intros [Hf Hb]. destruct (next_fault_ok s Hf) as [_ Hf'].
  destruct (last_index_law (bs_logs s) m Hb) as (r & Er & Hr).
  destruct (view_tx_law (fun s => index_at (last (bucket_keys (bs_logs s)))) s r Hf Er)
    as (r' & E & Hcase).
  exists r', (next_fault s).2. split; [exact E|]. split; [by split|].
  destruct Hcase as [->|(e & -> & _)]; done.
Qed.

#[export] Instance bolt_log_laws : LogStoreLaws (BoltStore B) := {
  log_rep := bolt_log_rep;
  GetLog_law := bolt_GetLog_law;
  StoreLogs_law := bolt_StoreLogs_law;
  DeleteRange_law := bolt_DeleteRange_law;
  FirstIndex_law := bolt_FirstIndex_law;
  LastIndex_law := bolt_LastIndex_law;
}.

(** *** The stable store *)

Lemma bolt_Set_law s (m : gmap string string) k v : bolt_conf_rep s m -> k <> "" ->
  exists r s', bolt_Set k v s = Return (r, s') /\
    bolt_conf_rep s' (if r is None then <[k := v]> m else m).
Proof.
  intros [Hf Hb] _. destruct (next_fault_ok s Hf) as [_ Hf'].
  destruct (update_tx_law (fun s => Return (match bucket_Put k v (bs_conf s) with
                              | inr e => inr e
                              | inl b => inl (set_conf b s)
                              end)) s _ eq_refl) as (err & s' & E & Hcase).
  exists err, s'. split; [exact E|]. destruct Hcase as [[Herr ->]|[-> Hs']].
  - by destruct err.
  - destruct (bucket_Put k v _) as [b|] eqn:Ep; [|done]. injection Hs' as <-. split; [done|].
    intros j. simpl in *. rewrite (Get_Put _ _ _ _ j Ep). case_decide; subst.
    + by rewrite lookup_insert_eq.
    + rewrite lookup_insert_ne by done. apply Hb.
Qed.

Lemma bolt_Get_law s (m : gmap string string) k : bolt_conf_rep s m ->
  exists r s', bolt_Get k s = Return (r, s') /\ bolt_conf_rep s' m /\
    match r with inl v => m !! k = Some v | inr e => get_error_law (m !! k = None) e end.
Proof.
  intros [Hf Hb]. destruct (next_fault_ok s Hf) as [_ Hf'].
  destruct (view_tx_law (fun s => Return (match bucket_Get k (bs_conf s) with
                            | None => inr ErrKeyNotFound
                            | Some v => inl v
                            end)) s _ Hf eq_refl) as (r' & E & Hcase).
  exists r', (next_fault s).2. split; [exact E|]. split; [by split|].
  simpl in Hcase. rewrite Hb in Hcase. destruct Hcase as [->|(e & -> & _ & He)].
  - by destruct (m !! k).
  - unfold get_error_law. by rewrite decide_False.
Qed.

Lemma bolt_GetUint64_law s (m : gmap string string) k : bolt_conf_rep s m ->
  (forall v, m !! k = Some v -> exists u, uint64_ok u /\ v = uint64ToBytes u) ->
  exists r s', bolt_GetUint64 k s = Return (r, s') /\ bolt_conf_rep s' m /\
    match r with
    | inl u => uint64_ok u /\ m !! k = Some (uint64ToBytes u)
    | inr e => get_error_law (m !! k = None) e
    end.
Proof.
  intros Hs Hk. destruct (bolt_Get_law s m k Hs) as (r & s' & E & Hs' & Hr).
  unfold bolt_GetUint64. rewrite E. simpl. destruct r as [v|e].
  - destruct (Hk v Hr) as (u & Hu & ->). rewrite bytesToUint64_roundtrip by done. simpl.
    eexists _, _. split; [done|]. split; [done|]. by split.
  - eexists _, _. split; [done|]. by split.
Qed.

#[export] Instance bolt_stable_laws : StableStoreLaws (BoltStore B) := {
  conf_rep := bolt_conf_rep;
  stable_Set_law := bolt_Set_law;
  stable_Get_law := bolt_Get_law;
  SetUint64_law s (m : gmap string string) k u := bolt_Set_law s m k (uint64ToBytes u);
  GetUint64_law := bolt_GetUint64_law;
}.
End BoltStore.

(** ** Stores that do not fail *)

(** What a log store does while its disk works ([log_calm]): every operation succeeds on entries that
    can be encoded ([log_storable]), and a missing entry is reported as such. *)
Class LogStoreCalm (S : Type) `{LogStoreLaws S} := {
  log_calm : S -> Prop;
  log_storable : Log -> Prop;
  GetLog_calm s m i : log_calm s -> log_rep s m -> uint64_ok i ->
    exists s', GetLog i s = Return (match m !! i with Some l => inl l | None => inr ErrLogNotFound end, s') /\
      log_calm s';
  StoreLogs_calm s m ls : log_calm s -> log_rep s m ->
    Forall (fun l => uint64_ok (log_Index l)) ls -> Forall log_storable ls ->
    exists s', StoreLogs ls s = Return (None, s') /\ log_calm s';
  DeleteRange_calm s m lo hi : log_calm s -> log_rep s m -> uint64_ok lo -> uint64_ok hi ->
    exists s', DeleteRange lo hi s = Return (None, s') /\ log_calm s';
}.

Class StableStoreCalm (S : Type) `{StableStore S} := {
  stable_calm : S -> Prop;
  SetUint64_calm s k u : stable_calm s -> k <> "" ->
    exists s', SetUint64 k u s = Return (None, s') /\ stable_calm s';
}.

(** BoltDB without failures of its own. *)
Class BucketTotal (B : Type) `{Bucket B} := {
  Put_total k v b : k <> "" -> exists b', bucket_Put k v b = inl b';
  Delete_total k b : exists b', bucket_Delete k b = inl b';
}.

Section Calm.
Context `{BucketLaws B} `{!BucketTotal B} `{LogCodecLaws}.
Implicit Types (s : BoltStore B) (m : gmap Z Log).

Definition bolt_calm s : Prop := bs_faults s = [].
Definition encodable (l : Log) : Prop := exists v, encodeMsgPack l = inl v.

Lemma view_tx_calm {A} (body : BoltStore B -> outcome (A + error)) s r :
  bolt_calm s -> body s = Return r -> view_tx body s = Return (r, s).
Proof.
  unfold bolt_calm, view_tx, next_fault. destruct s as [b c fs]. simpl. intros -> Hb. simpl. by rewrite Hb.
Qed.

Lemma update_tx_calm body s s' :
  bolt_calm s -> body s = Return (inl s') -> update_tx body s = Return (None, s').
Proof.
  unfold bolt_calm, update_tx, next_fault. destruct s as [b c fs]. simpl. intros -> Hb. simpl. by rewrite Hb.
Qed.

Lemma uint64ToBytes_nonempty u : uint64ToBytes u <> "".
Proof. done. Qed.

Lemma put_logs_total ls : forall b, Forall encodable ls -> exists b', put_logs ls b = inl b'.
Proof.
  induction ls as [|l ls IH]; intros b Hls; simpl; [eauto|].
  apply Forall_cons in Hls as [[v ->] Hls].
  destruct (Put_total (uint64ToBytes (log_Index l)) v b (uint64ToBytes_nonempty _)) as [b' ->]. by apply IH.
Qed.

Lemma delete_keys_total hi ks : forall b,
  Forall (fun k => exists i, uint64_ok i /\ k = uint64ToBytes i) ks ->
  exists b', delete_keys ks hi b = Return (inl b').
Proof.
  induction ks as [|k ks IH]; intros b Hks; simpl; [eauto|].
  apply Forall_cons in Hks as [(i & Hi & ->) Hks]. rewrite bytesToUint64_roundtrip by done.
  cbn [outcome_bind]. case_if; [eauto|]. destruct (Delete_total (uint64ToBytes i) b) as [b' ->]. by apply IH.
Qed.

#[export] Instance bolt_log_calm : LogStoreCalm (BoltStore B).
Proof.
  refine {| log_calm := bolt_calm; log_storable := encodable |}.
  - intros s m i Hc [_ (_ & _ & Hget)] Hi. exists s. split; [|done]. apply view_tx_calm; [done|].
    specialize (Hget i Hi). destruct (m !! i) as [l|]; [|by rewrite Hget].
    destruct Hget as (v & -> & ->). done.
  - intros s m ls Hc _ _ Hls. destruct (put_logs_total ls (bs_logs s) Hls) as [b' E]. exists (set_logs b' s).
    split; [|done]. apply update_tx_calm; [done|]. by rewrite E.
  - intros s m lo hi Hc [_ Hb] Hlo Hhi.
    destruct (delete_keys_total hi (seek (uint64ToBytes lo) (bucket_keys (bs_logs s))) (bs_logs s)) as [b' E].
    { apply Forall_forall. intros k Hk%seek_incl. destruct (logs_hold_key _ m k Hb Hk) as (i & ? & ? & ?). eauto. }
    exists (set_logs b' s). split; [|done]. apply update_tx_calm; [done|]. by rewrite E.
Defined.

#[export] Instance bolt_stable_calm : StableStoreCalm (BoltStore B).
Proof.
  refine {| stable_calm := bolt_calm |}.
  intros s k u Hc Hk. destruct (Put_total k (uint64ToBytes u) (bs_conf s) Hk) as [b' E].
  exists (set_conf b' s). split; [|done]. apply update_tx_calm; [done|]. by rewrite E.
Defined.
End Calm.

(** ** Sequences of operations, against the interface *)

Inductive log_op :=
| OpStore (ls : list Log)
| OpDelete (lo hi : Z).

Definition log_op_ok (o : log_op) : Prop :=
  match o with
  | OpStore ls => Forall (fun l => uint64_ok (log_Index l)) ls
  | OpDelete lo hi => uint64_ok lo /\ uint64_ok hi
  end.

(** What an operation that succeeds does to the entries. *)
Definition log_op_spec (m : gmap Z Log) (o : log_op * option error) : gmap Z Log :=
  match o with
  | (OpStore ls, None) => insert_logs (erase_peer <$> ls) m
  | (OpDelete lo hi, None) => delete_logs lo hi m
  | (_, Some _) => m
  end.

Section Run.
Context `{LogStoreLaws St}.

Definition run_log_op (o : log_op) : op St (option error) :=
  match o with OpStore ls => StoreLogs ls | OpDelete lo hi => DeleteRange lo hi end.

Fixpoint run_log_ops (os : list log_op) (s : St) : outcome (list (option error) * St) :=
  match os with
  | [] => Return ([], s)
  | o :: os =>
      let! (e, s) := run_log_op o s in
      let! (es, s) := run_log_ops os s in
      Return (e :: es, s)
  end.

Lemma run_log_op_law o s m :
  log_rep s m -> log_op_ok o ->
  exists e s', run_log_op o s = Return (e, s') /\ log_rep s' (log_op_spec m (o, e)).
Proof.
  intros Hs Ho. destruct o as [ls|lo hi]; simpl in *.
  - destruct (StoreLogs_law s m ls Hs Ho) as (r & s' & E & H'). exists r, s'. split; [done|]. by destruct r.
  - destruct Ho. destruct (DeleteRange_law s m lo hi) as (r & s' & E & H'); [done..|].
    exists r, s'. split; [done|]. by destruct r.
Qed.

Lemma run_log_ops_law os : forall s m,
  log_rep s m -> Forall log_op_ok os ->
  exists es s', run_log_ops os s = Return (es, s') /\ length es = length os /\
    log_rep s' (foldl log_op_spec m (zip os es)).
Proof.
  induction os as [|o os IH]; intros s m Hs Hos; simpl; [by exists [], s|].
  apply Forall_cons in Hos as [Ho Hos]. destruct (run_log_op_law o s m Hs Ho) as (e & s1 & -> & Hs1).
  simpl. destruct (IH s1 _ Hs1 Hos) as (es & s2 & -> & Hlen & Hs2). simpl.
  exists (e :: es), s2. split; [done|]. split; [simpl; by f_equal|done].
Qed.
End Run.

(** A file without entries. *)
Lemma bolt_empty_rep `{BucketLaws B} `{LogCodecLaws} (b conf : B) faults :
  bucket_keys b = [] -> Forall fault_ok faults -> log_rep (mkBoltStore b conf faults) ∅.
Proof.
  intros Hb Hf. split; [done|]. assert (Hnone : forall k, bucket_Get k b = None).
  { intros k. destruct (bucket_Get k b) eqn:E; [|done]. exfalso.
    assert (Hin : k ∈ bucket_keys b) by (apply keys_spec; eauto). rewrite Hb in Hin.
    by apply elem_of_nil in Hin. }
  split_and!; simpl.
  - intros k. rewrite Hnone. by intros [].
  - intros i. rewrite lookup_empty. by intros [].
  - intros i _. by rewrite lookup_empty.
Qed.

(** C13: the durable log refines a map from indices to entries.  From an empty file, after any
    sequence of [StoreLogs] and [DeleteRange] calls, with BoltDB transactions failing at any point:
    nothing panics; the entries are those the successful calls leave (a failed call leaves none of
    its effects; a cursor goes through the keys it had before the deletions made through it); [GetLog] returns the entry stored last under the index and [ErrLogNotFound] only
    where there is none; [FirstIndex] and [LastIndex] are the ends of the log in numeric order, 0 when
    it is empty. *)
Theorem bolt_store_refines `{BucketLaws B} `{LogCodecLaws} (b conf : B) faults os :
  bucket_keys b = [] -> Forall fault_ok faults -> Forall log_op_ok os ->
  exists es s, run_log_ops os (mkBoltStore b conf faults) = Return (es, s) /\
    length es = length os /\
    let m := foldl log_op_spec ∅ (zip os es) in
    (forall i, uint64_ok i -> exists r s', bolt_GetLog i s = Return (r, s') /\
       match r with inl l => m !! i = Some l | inr e => e = ErrLogNotFound -> m !! i = None end) /\
    (exists r s', bolt_FirstIndex s = Return (r, s') /\ (if r is inl n then is_first m n else True)) /\
    (exists r s', bolt_LastIndex s = Return (r, s') /\ (if r is inl n then is_last m n else True)).
Proof.
  intros Hb Hf Hos.
  pose proof (bolt_empty_rep b conf faults Hb Hf) as Hrep.
  destruct (run_log_ops_law os _ _ Hrep Hos) as (es & s & E & Hlen & Hs).
  exists es, s. split; [exact E|]. split; [done|]. cbn zeta. split_and!.
  - intros i Hi. destruct (bolt_GetLog_law s _ i Hs Hi) as (r & s' & ? & _ & ?). eauto.
  - destruct (bolt_FirstIndex_law s _ Hs) as (r & s' & ? & _ & ?). eauto.
  - destruct (bolt_LastIndex_law s _ Hs) as (r & s' & ? & _ & ?). eauto.
Qed.

(** What a node persists about itself (its term, the term of its vote) is read back after a
    restart: an unsigned 64-bit number survives [SetUint64] and [GetUint64], whatever other keys are
    written in between. *)
Theorem stable_roundtrip `{BucketLaws B} `{LogCodecLaws} (s s1 s2 : BoltStore B) m k k' u v :
  bolt_conf_rep s m -> k <> "" -> k' <> "" -> k' <> k -> uint64_ok u ->
  bolt_SetUint64 k u s = Return (None, s1) -> bolt_Set k' v s1 = Return (None, s2) ->
  bs_faults s2 = [] -> exists s3, bolt_GetUint64 k s2 = Return (inl u, s3).
Proof.
  intros Hs Hk Hk' Hne Hu E1 E2 Hnf.
  destruct (bolt_Set_law s m k (uint64ToBytes u) Hs Hk) as (r1 & s1' & E1' & Hs1).
  unfold bolt_SetUint64 in E1. rewrite E1 in E1'. injection E1' as <- <-.
  destruct (bolt_Set_law s1 _ k' v Hs1 Hk') as (r2 & s2' & E2' & Hs2).
  rewrite E2 in E2'. injection E2' as <- <-. destruct Hs2 as [_ Hs2].
  unfold bolt_GetUint64, bolt_Get, view_tx, next_fault. rewrite Hnf.
  cbn [outcome_bind f_begin bs_conf bs_faults bs_logs tail]. rewrite Hs2.
  rewrite lookup_insert_ne, lookup_insert_eq by done. cbn [outcome_bind].
  rewrite bytesToUint64_roundtrip by done. cbn [outcome_bind]. eauto.
Qed.

(** ** A concrete bucket and codec *)

#[export] Instance map_bucket : Bucket (gmap string string) := {
  bucket_Get k b := b !! k;
  bucket_Put k v b := if decide (k = "") then inr (Sentinel "key required") else inl (<[k := v]> b);
  bucket_Delete k b := inl (delete k b);
  bucket_keys b := sort_Strings (map_to_list b).*1;
}.

#[export] Instance map_bucket_laws : BucketLaws (gmap string string).
Proof.
  split; simpl.
  - intros k v b b' j. case_decide; [done|]. intros [= <-]. rewrite lookup_insert.
    by repeat case_decide; subst.
  - intros k b b' j [= <-]. rewrite lookup_delete. by repeat case_decide; subst.
  - intros b k. rewrite sort_Strings_perm, list_elem_of_fmap. split.
    + intros ([k' v] & -> & Hin). apply elem_of_map_to_list in Hin. eauto.
    + intros [v Hv]. exists (k, v). split; [done|]. by apply elem_of_map_to_list.
  - intros b. apply sort_Strings_sorted.
  - intros b. rewrite sort_Strings_perm. apply NoDup_fst_map_to_list.
Qed.

Definition type_code (t : LogType) : Z :=
  match t with
  | LogCommand => 0 | LogNoop => 1 | LogAddPeer => 2 | LogRemovePeer => 3 | LogBarrier => 4
  | LogUnknown c => c
  end.
Definition code_type (c : Z) : LogType :=
  if c =? 0 then LogCommand else if c =? 1 then LogNoop else if c =? 2 then LogAddPeer
  else if c =? 3 then LogRemovePeer else if c =? 4 then LogBarrier else LogUnknown c.

Definition flat_decode (v : string) : Log + error :=
  match get_be 8 v, get_be 8 (str_drop 8 v), get_be 8 (str_drop 16 v) with
  | Return i, Return t, Return c => inl (mkLog i t (code_type c) (str_drop 24 v) "")
  | _, _, _ => inr (Errorf "EOF")
  end.
Definition flat_bytes (l : Log) : string :=
  put_be 8 (log_Index l) ++ put_be 8 (log_Term l) ++ put_be 8 (type_code (log_Type l)) ++ log_Data l.

(** A codec with fixed-width fields; it refuses what it cannot read back. *)
#[export] Instance flat_codec : LogCodec := {
  encodeMsgPack l :=
    if decide (flat_decode (flat_bytes l) = inl (erase_peer l)) then inl (flat_bytes l)
    else inr (Errorf "field out of range");
  decodeMsgPack := flat_decode;
}.

#[export] Instance flat_codec_laws : LogCodecLaws.
Proof.
  split. intros l v. unfold encodeMsgPack, decodeMsgPack, flat_codec.
  case_decide as E; [|done]. intros [= <-]. exact E.
Qed.

Definition log_ex (i t : Z) (d : string) : Log := mkLog i t LogCommand d "".

(** Three entries, one transaction that fails to commit, and a conflicting suffix replaced. *)
Definition bolt_ops_ex : list log_op :=
  [OpStore [log_ex 1 1 "a"; log_ex 2 1 "b"; log_ex 300 1 "c"]; OpDelete 1 1; OpDelete 2 300;
   OpStore [log_ex 2 2 "d"]].
Definition bolt_faults_ex : list fault :=
  [mkFault None None; mkFault None (Some (Errorf "disk full")); mkFault None None; mkFault None None].

Lemma bolt_store_refines_witness :
  exists es s, run_log_ops bolt_ops_ex (mkBoltStore (∅ : gmap string string) ∅ bolt_faults_ex)
      = Return (es, s) /\ length es = 4%nat /\
    let m := foldl log_op_spec ∅ (zip bolt_ops_ex es) in
    exists r s', bolt_LastIndex s = Return (r, s') /\ (if r is inl n then is_last m n else True).
Proof.
  destruct (bolt_store_refines (∅ : gmap string string) ∅ bolt_faults_ex bolt_ops_ex)
    as (es & s & E & Hlen & _ & _ & Hlast).
  - vm_compute. reflexivity.
  - repeat constructor; simpl; done.
  - repeat (constructor; [unfold log_op_ok, uint64_ok; repeat constructor; simpl; lia|]). constructor.
  - exists es, s. split; [exact E|]. split; [exact Hlen|exact Hlast].
Defined.

Lemma stable_roundtrip_witness :
  exists s3, bolt_GetUint64 "LastVoteTerm"
    (mkBoltStore ∅ (<["LastVoteCand" := "n2"]> (<["LastVoteTerm" := uint64ToBytes 1000]> ∅)) [])
    = Return (inl 1000, s3).
Proof.
  apply (stable_roundtrip (mkBoltStore ∅ (∅ : gmap string string) [])
           (mkBoltStore ∅ (<["LastVoteTerm" := uint64ToBytes 1000]> ∅) [])
           (mkBoltStore ∅ (<["LastVoteCand" := "n2"]> (<["LastVoteTerm" := uint64ToBytes 1000]> ∅)) [])
           ∅ "LastVoteTerm" "LastVoteCand" 1000 "n2").
  - split; [constructor|]. intros k. reflexivity.
  - done.
  - done.
  - done.
  - unfold uint64_ok. lia.
  - reflexivity.
  - reflexivity.
  - reflexivity.
Defined.

#[export] Instance map_bucket_total : BucketTotal (gmap string string).
Proof.
  split; intros; simpl; [|eauto]. rewrite decide_False by done. eauto.
Qed.
