(* ===== verification/RaftStores.v ===== *)
(** * Raft: the store in memory and the log cache (internal/raft/inmem_store.go, log_cache.go)

    [InmemStore] keeps the log and the node's own numbers in maps, for tests.  [LogCache] puts a ring
    buffer in front of any log store; it is modelled over the [LogStore] interface of BoltStore.v and
    is itself an instance of it.  Both keep pointers to the entries they are given; no code changes an
    entry after it was stored, so they are modelled as values. *)
From S2P Require Import Prelude GoStrings RaftBase Inflight BoltStore.

Open Scope string_scope.
Open Scope Z_scope.
Local Open Scope go_scope.

(** ** The cache *)

Record LogCache (L : Type) := mkLogCache {
  lc_store : L;
  lc_cache : list (option Log);
}.
Arguments mkLogCache {L}.
Arguments lc_store {L}.
Arguments lc_cache {L}.

Section Cache.
Context {L : Type} {HL : LogStore L}.
Implicit Types (c : LogCache L).

Definition NewLogCache (capacity : Z) (store : L) : LogCache L + error :=
  if capacity <=? 0 then inr (Errorf "capacity must be positive")
  else inl (mkLogCache store (replicate (Z.to_nat capacity) None)).

(** [idx % uint64(len(c.cache))]: a modulus of 0 panics. *)
Definition cache_slot (idx : Z) (cache : list (option Log)) : outcome Z :=
  if decide (cache = []) then Panic "runtime error: integer divide by zero"
  else Return (idx `mod` Z.of_nat (length cache)).

Definition set_store (s : L) c : LogCache L := mkLogCache s (lc_cache c).

Definition cache_GetLog (idx : Z) : op (LogCache L) (Log + error) := fun c =>
  let! slot := cache_slot idx (lc_cache c) in
  let! cached := slice_get (lc_cache c) slot in
  match cached with
  | Some l => if log_Index l =? idx then Return (inl l, c)
              else let! (r, s) := GetLog idx (lc_store c) in Return (r, set_store s c)
  | None => let! (r, s) := GetLog idx (lc_store c) in Return (r, set_store s c)
  end.

(** The loop of [StoreLogs] over the ring buffer. *)
Fixpoint cache_logs (logs : list Log) (cache : list (option Log)) : outcome (list (option Log)) :=
  match logs with
  | [] => Return cache
  | l :: logs =>
      let! slot := cache_slot (log_Index l) cache in
      cache_logs logs (<[Z.to_nat slot := Some l]> cache)
  end.

(** The buffer is filled before the store is asked. *)
Definition cache_StoreLogs (logs : list Log) : op (LogCache L) (option error) := fun c =>
  let! cache := cache_logs logs (lc_cache c) in
  let! (err, s) := StoreLogs logs (lc_store c) in
  Return (err, mkLogCache s cache).

Definition cache_StoreLog (l : Log) : op (LogCache L) (option error) := cache_StoreLogs [l].

Definition cache_FirstIndex : op (LogCache L) (Z + error) := fun c =>
  let! (r, s) := FirstIndex (lc_store c) in Return (r, set_store s c).
Definition cache_LastIndex : op (LogCache L) (Z + error) := fun c =>
  let! (r, s) := LastIndex (lc_store c) in Return (r, set_store s c).

Definition cache_DeleteRange (min max : Z) : op (LogCache L) (option error) := fun c =>
  let cache := replicate (length (lc_cache c)) None in
  let! (err, s) := DeleteRange min max (lc_store c) in
  Return (err, mkLogCache s cache).

#[export] Instance log_cache : LogStore (LogCache L) := {
  FirstIndex := cache_FirstIndex;
  LastIndex := cache_LastIndex;
  GetLog := cache_GetLog;
  StoreLogs := cache_StoreLogs;
  DeleteRange := cache_DeleteRange;
}.
End Cache.

(** *** What the cache holds *)

(** Every cached entry sits in its own slot and is the entry of the log under its index. *)
Definition cache_coherent (cache : list (option Log)) (m : gmap Z Log) : Prop :=
  forall j l, cache !! j = Some (Some l) ->
    log_Index l `mod` Z.of_nat (length cache) = Z.of_nat j /\ m !! log_Index l = Some (erase_peer l).

Lemma slot_lookup (cache : list (option Log)) idx :
  cache <> [] -> exists v, slice_get cache (idx `mod` Z.of_nat (length cache)) = Return v /\
    cache !! Z.to_nat (idx `mod` Z.of_nat (length cache)) = Some v.
Proof.
  intros Hne. assert (0 < Z.of_nat (length cache)) by (destruct cache; simpl in *; [done|lia]).
  pose proof (Z.mod_pos_bound idx (Z.of_nat (length cache)) ltac:(lia)) as Hb.
  destruct (lookup_lt_is_Some_2 cache (Z.to_nat (idx `mod` Z.of_nat (length cache)))) as [v Hv]; [lia|].
  exists v. split; [|done]. unfold slice_get. case_if; zbool; [lia|]. by rewrite Hv.
Qed.

Lemma cache_coherent_empty n m : cache_coherent (replicate n None) m.
Proof. intros j l Hj. apply lookup_replicate in Hj as [? _]. done. Qed.

Lemma cache_logs_spec logs : forall cache, cache <> [] ->
  exists cache', cache_logs logs cache = Return cache' /\ length cache' = length cache /\
    forall m, cache_coherent cache m -> cache_coherent cache' (insert_logs (erase_peer <$> logs) m).
Proof.
  induction logs as [|l logs IH]; intros cache Hne; simpl; [by exists cache|].
  unfold cache_slot. case_decide; [done|]. simpl.
  set (n := Z.of_nat (length cache)). set (j := Z.to_nat _).
  assert (Hn : 0 < n) by (destruct cache; simpl in *; [done|lia]).
  pose proof (Z.mod_pos_bound (log_Index l) n Hn) as Hb.
  destruct (IH (<[j := Some l]> cache)) as (c' & -> & Hlen & Hc').
  { intros E. apply (f_equal length) in E. rewrite length_insert in E. by destruct cache. }
  rewrite length_insert in Hlen. exists c'. split; [done|]. split; [done|]. intros m Hco.
  apply (Hc' (<[log_Index l := erase_peer l]> m)). intros i l' Hi. rewrite length_insert. fold n.
  apply list_lookup_insert_Some in Hi as [(<- & [= <-] & _)|[Hij Hi]].
  - split; [subst j; lia|]. apply lookup_insert_eq.
  - destruct (Hco i l' Hi) as [Hmod Hm]. split; [done|]. rewrite lookup_insert_ne; [done|].
    intros E. rewrite <- E in Hmod. apply Hij. subst j. fold n in Hmod. lia.
Qed.

(** ** A cache is transparent *)

Section CacheLaws.
Context `{LogStoreLaws L}.
Implicit Types (c : LogCache L) (m : gmap Z Log).

Definition cache_rep c m : Prop :=
  lc_cache c <> [] /\ log_rep (lc_store c) m /\ cache_coherent (lc_cache c) m.

Lemma cache_GetLog_law c m i : cache_rep c m -> uint64_ok i ->
  exists r c', GetLog i c = Return (r, c') /\ cache_rep c' m /\
    match r with inl l => m !! i = Some (erase_peer l) \/ m !! i = Some l
               | inr e => e = ErrLogNotFound -> m !! i = None end.
Proof.
  intros (Hne & Hrep & Hco) Hi. unfold GetLog, log_cache, cache_GetLog, cache_slot.
  case_decide; [done|]. cbn [outcome_bind]. destruct (slot_lookup (lc_cache c) i Hne) as (v & -> & Hv).
  cbn [outcome_bind].
  assert (Hmiss : exists r c', (let! (r, s) := GetLog i (lc_store c) in Return (r, set_store s c)) = Return (r, c') /\
    cache_rep c' m /\ match r with inl l => m !! i = Some (erase_peer l) \/ m !! i = Some l
                                 | inr e => e = ErrLogNotFound -> m !! i = None end).
  { destruct (GetLog_law (lc_store c) m i Hrep Hi) as (r & s & -> & Hs & Hr). cbn [outcome_bind].
    exists r, (set_store s c). split; [done|]. split; [done|]. destruct r; auto. }
  destruct v as [l|]; [|done]. case_if; [|done]. zbool. subst i. exists (inl l), c. split; [done|].
  split; [done|]. left. by apply (Hco _ l Hv).
Qed.

Lemma cache_run_law os : forall c m es c',
  cache_rep c m -> Forall log_op_ok os -> run_log_ops os c = Return (es, c') ->
  (forall ls e, (OpStore ls, Some e) ∉ zip os es) ->
  length es = length os /\ cache_rep c' (foldl log_op_spec m (zip os es)).
Proof.
  induction os as [|o os IH]; intros c m es c' Hc Hos E Hno; simpl in E; [by simplify_eq|].
  apply Forall_cons in Hos as [Ho Hos].
  destruct (run_log_op o c) as [[e c1]|] eqn:Eo; [|done]. cbn [outcome_bind] in E.
  destruct (run_log_ops os c1) as [[es' c2]|] eqn:Er; [|done]. simplify_eq/=.
  assert (Hc1 : cache_rep c1 (log_op_spec m (o, e))).
  { destruct Hc as (Hne & Hrep & Hco). destruct o as [ls|lo hi]; simpl in *.
    - unfold cache_StoreLogs in Eo. destruct (cache_logs_spec ls _ Hne) as (cc & Ecc & Hlen & Hcc).
      rewrite Ecc in Eo. cbn [outcome_bind] in Eo.
      destruct (StoreLogs_law (lc_store c) m ls Hrep Ho) as (r & s & Es & Hs). rewrite Es in Eo. simplify_eq/=.
      destruct e as [e|]; [exfalso; apply (Hno ls e); set_solver|].
      split; [|split; [done|by apply Hcc]]. simpl. intros ->. by destruct (lc_cache c).
    - unfold cache_DeleteRange in Eo. destruct Ho as [Hlo Hhi].
      destruct (DeleteRange_law (lc_store c) m lo hi Hrep Hlo Hhi) as (r & s & Es & Hs). rewrite Es in Eo. simplify_eq/=.
      split; [by destruct (lc_cache c)|]. destruct e; (split; [done|]); apply cache_coherent_empty. }
  destruct (IH c1 _ es' c' Hc1 Hos Er) as [Hlen Hc']; [set_solver|]. split; [by f_equal|done].
Qed.

(** No sequence of operations panics, failed ones included. *)
Lemma cache_run_returns os : forall c m, lc_cache c <> [] -> log_rep (lc_store c) m -> Forall log_op_ok os ->
  exists es c', run_log_ops os c = Return (es, c').
Proof.
  induction os as [|o os IH]; intros c m Hne Hrep Hos; simpl; [by eexists _, _|].
  apply Forall_cons in Hos as [Ho Hos].
  assert (Hstep : exists e c1 m1, run_log_op o c = Return (e, c1) /\ lc_cache c1 <> [] /\ log_rep (lc_store c1) m1).
  { destruct o as [ls|lo hi]; simpl in *.
    - unfold cache_StoreLogs.
      destruct (cache_logs_spec ls (lc_cache c) Hne) as (cc & -> & Hlen & _). cbn [outcome_bind].
      destruct (StoreLogs_law (lc_store c) m ls Hrep Ho) as (r & s & -> & Hs). cbn [outcome_bind].
      eexists _, _, _. split; [done|]. split; [|done]. simpl. intros ->. by destruct (lc_cache c).
    - unfold cache_DeleteRange. destruct Ho as [Hlo Hhi].
      destruct (DeleteRange_law (lc_store c) m lo hi Hrep Hlo Hhi) as (r & s & -> & Hs). cbn [outcome_bind].
      eexists _, _, _. split; [done|]. split; [by destruct (lc_cache c)|done]. }
  destruct Hstep as (e & c1 & m1 & -> & Hne1 & Hrep1). cbn [outcome_bind].
  destruct (IH c1 m1 Hne1 Hrep1 Hos) as (es & c' & ->). by eexists _, _.
Qed.

(** C23: the cache is transparent.  A [LogCache] over any log store that keeps its promises answers
    as that store would: no sequence of operations panics, and as long as no [StoreLogs] failed,
    [GetLog] returns the entry of the log under the index (from the buffer with its unexported field,
    which is not stored) and [ErrLogNotFound] only where there is none; [FirstIndex] and [LastIndex] are
    the ends of the log. *)
Theorem log_cache_transparent capacity (s : L) m c os :
  NewLogCache capacity s = inl c -> log_rep s m -> Forall log_op_ok os ->
  exists es c', run_log_ops os c = Return (es, c') /\
    ((forall ls e, (OpStore ls, Some e) ∉ zip os es) ->
     let m' := foldl log_op_spec m (zip os es) in
     (forall i, uint64_ok i -> exists r c'', GetLog i c' = Return (r, c'') /\
        match r with inl l => m' !! i = Some (erase_peer l) \/ m' !! i = Some l
                   | inr e => e = ErrLogNotFound -> m' !! i = None end) /\
     (exists r c'', FirstIndex c' = Return (r, c'') /\ (if r is inl n then is_first m' n else True)) /\
     (exists r c'', LastIndex c' = Return (r, c'') /\ (if r is inl n then is_last m' n else True))).
Proof.
  unfold NewLogCache. case_if; [done|]. zbool. intros [= <-] Hrep Hos.
  set (c := mkLogCache _ _).
  assert (Hc : cache_rep c m).
  { split; [|split; [done|apply cache_coherent_empty]]. simpl. destruct (Z.to_nat capacity) eqn:E; [lia|done]. }
  destruct (cache_run_returns os c m (proj1 Hc) (proj1 (proj2 Hc)) Hos) as (es & c' & E).
  exists es, c'. split; [done|]. intros Hno. cbn zeta. destruct (cache_run_law os c m es c' Hc Hos E Hno) as [_ Hc'].
  split_and!.
  - intros i Hi. destruct (cache_GetLog_law c' _ i Hc' Hi) as (r & c'' & ? & _ & ?). eauto.
  - destruct Hc' as (_ & Hrep' & _). destruct (FirstIndex_law _ _ Hrep') as (r & s' & Es & _ & Hr).
    exists r, (set_store s' c'). unfold FirstIndex, log_cache, cache_FirstIndex. by rewrite Es.
  - destruct Hc' as (_ & Hrep' & _). destruct (LastIndex_law _ _ Hrep') as (r & s' & Es & _ & Hr).
    exists r, (set_store s' c'). unfold LastIndex, log_cache, cache_LastIndex. by rewrite Es.
Qed.
End CacheLaws.

(** A cache of two slots over a disk that fails once, in a [DeleteRange]. *)
Definition cache_ex_store : BoltStore (gmap string string) := mkBoltStore ∅ ∅ bolt_faults_ex.

Lemma log_cache_transparent_witness :
  exists c es c', NewLogCache 2 cache_ex_store = inl c /\ run_log_ops bolt_ops_ex c = Return (es, c') /\
  exists r c'', GetLog 2 c' = Return (r, c'') /\
    match r with inl l => erase_peer l = log_ex 2 2 "d" | inr e => e <> ErrLogNotFound end.
Proof.
  destruct (NewLogCache 2 cache_ex_store) as [c|] eqn:Ec; [|discriminate].
  destruct (log_cache_transparent 2 cache_ex_store ∅ c bolt_ops_ex) as (es & c' & E & Hget).
  - exact Ec.
  - apply bolt_empty_rep; [vm_compute; reflexivity|]. repeat constructor; simpl; done.
  - repeat (constructor; [unfold log_op_ok, uint64_ok; repeat constructor; simpl; lia|]). constructor.
  - exists c, es, c'. split; [reflexivity|]. split; [exact E|].
    assert (Hes : es = [None; Some (Errorf "disk full"); None; None]).
    { injection Ec as <-. 
      transitivity (match run_log_ops bolt_ops_ex (mkLogCache cache_ex_store [None; None]) with Return (es, _) => es | _ => [] end).
      - change (replicate _ _) with ([None; None] : list (option Log)) in E. by rewrite E.
      - vm_compute. reflexivity. }
    subst es. destruct Hget as [Hget _].
    + intros ls e Hin. simpl in Hin. repeat (apply elem_of_cons in Hin as [Hin|Hin]; [done|]). by apply elem_of_nil in Hin.
    + destruct (Hget 2) as (r & c'' & Er & Hr); [unfold uint64_ok; lia|]. exists r, c''. split; [exact Er|].
      assert (Hm : foldl log_op_spec ∅ (zip bolt_ops_ex [None; Some (Errorf "disk full"); None; None]) !! 2 = Some (log_ex 2 2 "d"))
        by (vm_compute; reflexivity).
      rewrite Hm in Hr. destruct r as [l|e].
      { destruct Hr as [Hr|Hr]; apply (inj Some) in Hr; [by rewrite Hr|by rewrite <- Hr]. }
      intros ->. by specialize (Hr eq_refl).
Defined.

(** An entry that was never stored can be read.  The buffer is filled before the store is
    asked and is not emptied when the store fails: after a [StoreLogs] that failed, [GetLog] returns the
    entry all the same, and the node replicates or applies an entry that is not on its disk. *)
Theorem cache_serves_lost_entry `{LogStore L} (c : LogCache L) l e c' :
  StoreLogs [l] c = Return (Some e, c') -> GetLog (log_Index l) c' = Return (inl l, c').
Proof.
  unfold StoreLogs, log_cache, cache_StoreLogs. intros E.
  unfold cache_logs, cache_slot in E. case_decide as Hne; [done|]. cbn [outcome_bind] in E.
  destruct (StoreLogs [l] (lc_store c)) as [[e' s]|]; [|done]. injection E as _ <-.
  set (n := Z.of_nat (length (lc_cache c))) in *. set (cc := <[_ := _]> _).
  assert (Hn : 0 < n) by (destruct (lc_cache c); simpl in *; [done|lia]).
  assert (Hl : length cc = length (lc_cache c)) by apply length_insert.
  assert (Hcc : cc <> []) by (intros E; rewrite E in Hl; by destruct (lc_cache c)).
  unfold GetLog, cache_GetLog, cache_slot. cbn [lc_cache]. case_decide; [done|]. cbn [outcome_bind].
  destruct (slot_lookup cc (log_Index l) Hcc) as (v & -> & Hv). cbn [outcome_bind].
  rewrite Hl in Hv. fold n in Hv. unfold cc in Hv. rewrite list_lookup_insert_eq in Hv.
  - injection Hv as <-. by rewrite Z.eqb_refl.
  - pose proof (Z.mod_pos_bound (log_Index l) n Hn). lia.
Qed.

Definition cache_full_disk : LogCache (BoltStore (gmap string string)) :=
  mkLogCache (mkBoltStore ∅ ∅ [mkFault None (Some (Errorf "disk full"))]) [None; None].

Lemma cache_serves_lost_entry_witness :
  exists c', StoreLogs [log_ex 1 1 "a"] cache_full_disk = Return (Some (Errorf "disk full"), c') /\
    GetLog 1 c' = Return (inl (log_ex 1 1 "a"), c') /\ bs_logs (lc_store c') = ∅.
Proof.
  destruct (StoreLogs [log_ex 1 1 "a"] cache_full_disk) as [[e c']|] eqn:E;
    [|exfalso; vm_compute in E; discriminate].
  assert (Hc : c' = mkLogCache (mkBoltStore ∅ ∅ []) [None; Some (log_ex 1 1 "a")] /\ e = Some (Errorf "disk full"))
    by (vm_compute in E; injection E as <- <-; done).
  destruct Hc as [Hc ->]. exists c'. split; [reflexivity|]. split.
  - apply (cache_serves_lost_entry cache_full_disk (log_ex 1 1 "a") (Errorf "disk full") c' E).
  - rewrite Hc. reflexivity.
Defined.

(** ** The store in memory *)

Record InmemStore := mkInmemStore {
  im_lowIndex : Z;
  im_highIndex : Z;
  im_logs : gmap Z Log;
  im_kv : gmap string string;
  im_kvInt : gmap string Z;
}.

Definition NewInmemStore : InmemStore := mkInmemStore 0 0 ∅ ∅ ∅.

Definition inmem_FirstIndex (s : InmemStore) : Z + error := inl (im_lowIndex s).
Definition inmem_LastIndex (s : InmemStore) : Z + error := inl (im_highIndex s).
Definition inmem_GetLog (index : Z) (s : InmemStore) : Log + error :=
  match im_logs s !! index with Some l => inl l | None => inr ErrLogNotFound end.

Definition inmem_StoreLogs (logs : list Log) (s : InmemStore) : option error * InmemStore :=
  (None, foldl (fun s l =>
     mkInmemStore (if im_lowIndex s =? 0 then log_Index l else im_lowIndex s)
       (if im_highIndex s <? log_Index l then log_Index l else im_highIndex s)
       (<[log_Index l := l]> (im_logs s)) (im_kv s) (im_kvInt s)) s logs).
Definition inmem_StoreLog (l : Log) (s : InmemStore) : option error * InmemStore := inmem_StoreLogs [l] s.

(** The loop of [DeleteRange]; [j++] wraps around, so it may not end: [None] is out of fuel. *)
Fixpoint delete_from (fuel : nat) (j max : Z) (logs : gmap Z Log) : option (gmap Z Log) :=
  if j <=? max then
    match fuel with
    | O => None
    | S fuel => delete_from fuel (wrapu64 (j + 1)) max (delete j logs)
    end
  else Some logs.

Definition inmem_DeleteRange (fuel : nat) (min max : Z) (s : InmemStore) : option (option error * InmemStore) :=
  match delete_from fuel min max (im_logs s) with
  | Some logs => Some (None, mkInmemStore (wrapu64 (max + 1)) (im_highIndex s) logs (im_kv s) (im_kvInt s))
  | None => None
  end.

Definition inmem_Set (key val : string) (s : InmemStore) : option error * InmemStore :=
  (None, mkInmemStore (im_lowIndex s) (im_highIndex s) (im_logs s) (<[key := val]> (im_kv s)) (im_kvInt s)).
(** A missing key is the empty value, without an error. *)
Definition inmem_Get (key : string) (s : InmemStore) : string + error := inl (default "" (im_kv s !! key)).
Definition inmem_SetUint64 (key : string) (val : Z) (s : InmemStore) : option error * InmemStore :=
  (None, mkInmemStore (im_lowIndex s) (im_highIndex s) (im_logs s) (im_kv s) (<[key := val]> (im_kvInt s))).
Definition inmem_GetUint64 (key : string) (s : InmemStore) : Z + error := inl (default 0 (im_kvInt s !! key)).

Lemma delete_logs_step j max logs : j <= max -> delete_logs (j + 1) max (delete j logs) = delete_logs j max logs.
Proof.
  intros Hj. apply map_eq. intros i. apply option_eq. intros l. unfold delete_logs.
  rewrite !map_lookup_filter_Some, lookup_delete_Some. simpl. split.
  - intros [[? ?] ?]. split; [done|]. lia.
  - intros [? ?]. split; [split; [|done]|]; lia.
Qed.

Lemma delete_logs_none j max logs : ~ j <= max -> delete_logs j max logs = logs.
Proof. intros Hj. apply map_filter_id. intros i x _. simpl. lia. Qed.

(** Short of the largest index the loop ends and deletes the range. *)
Lemma delete_from_Some fuel : forall j max logs,
  0 <= j -> max < 2 ^ 64 - 1 ->
  delete_from fuel j max logs = (if max - j <? Z.of_nat fuel then Some (delete_logs j max logs) else None).
Proof.
  induction fuel as [|fuel IH]; intros j max logs Hj Hmax; cbn [delete_from]; (case_if; zbool).
  - case_if; zbool; [lia|done].
  - case_if; zbool; [|lia]. by rewrite delete_logs_none by lia.
  - rewrite wrapu64_id by (unfold uint64_ok; lia). rewrite IH, delete_logs_step by lia.
    case_if; case_if; zbool; done || lia.
  - case_if; zbool; [|lia]. by rewrite delete_logs_none by lia.
Qed.

(** Deleting up to the largest index never ends: the counter wraps around to 0. *)
Lemma delete_from_diverges fuel : forall j logs, 0 <= j < 2 ^ 64 -> delete_from fuel j (2 ^ 64 - 1) logs = None.
Proof.
  induction fuel as [|fuel IH]; intros j logs Hj; simpl; case_if; zbool; try lia; [done|].
  apply IH. unfold wrapu64. by apply Z.mod_pos_bound.
Qed.

(** The entries are exactly those between the two indices. *)
Definition inmem_window (s : InmemStore) : Prop :=
  uint64_ok (im_lowIndex s) /\ 0 <= im_highIndex s < 2 ^ 64 - 1 /\ im_lowIndex s <= im_highIndex s + 1 /\
  (im_lowIndex s = 0 -> im_highIndex s = 0) /\
  forall i, is_Some (im_logs s !! i) <-> im_lowIndex s <> 0 /\ im_lowIndex s <= i <= im_highIndex s.

(** How raft uses a log: new entries follow the last one, and compaction drops a prefix. *)
Inductive inmem_step : InmemStore -> InmemStore -> Prop :=
| inmem_append s l : log_Index l = im_highIndex s + 1 -> log_Index l < 2 ^ 64 - 1 ->
    inmem_step s (inmem_StoreLog l s).2
| inmem_compact s fuel max s' : im_lowIndex s <> 0 -> im_lowIndex s <= max <= im_highIndex s ->
    inmem_DeleteRange fuel (im_lowIndex s) max s = Some (None, s') -> inmem_step s s'.

Lemma inmem_step_window s s' : inmem_step s s' -> inmem_window s -> inmem_window s'.
Proof.
  intros Hst (Hlo & Hhi & Hle & H0 & Hin). unfold uint64_ok in *. destruct Hst as [s l Hl Hb|s fuel max s' Hnz Hmax E].
  - unfold inmem_StoreLog, inmem_StoreLogs, inmem_window, uint64_ok. cbn -[Z.pow]. rewrite (proj2 (Z.ltb_lt _ _)) by lia.
    destruct (Z.eqb_spec (im_lowIndex s) 0) as [Hz|Hz]; (split_and!; [lia..|]); intros i;
      rewrite lookup_insert_is_Some', Hin; lia.
  - unfold inmem_DeleteRange in E. rewrite delete_from_Some in E by lia. case_if; [|done]. simplify_eq.
    unfold inmem_window, uint64_ok. cbn -[Z.pow]. rewrite wrapu64_id by (unfold uint64_ok; lia).
    split_and!; try lia. intros i. split.
    + intros [l Hl]. apply map_lookup_filter_Some in Hl as [Hl Hn]. simpl in Hn.
      assert (Hi : is_Some (im_logs s !! i)) by eauto. apply Hin in Hi. lia.
    + intros Hi. destruct (proj2 (Hin i)) as [l Hl]; [lia|]. exists l. apply map_lookup_filter_Some. simpl. split; [done|lia].
Qed.

(** The store in memory keeps a window of the log.  From an empty store, after any number of entries
    appended one after the other and prefixes compacted, [FirstIndex] and [LastIndex] delimit exactly
    the entries [GetLog] finds. *)
Theorem inmem_keeps_window s i :
  rtc inmem_step NewInmemStore s -> is_Some (im_logs s !! i) <-> im_lowIndex s <> 0 /\ im_lowIndex s <= i <= im_highIndex s.
Proof.
  intros Hr. assert (Hw : inmem_window s).
  { assert (H0 : inmem_window NewInmemStore).
    { unfold inmem_window, uint64_ok. cbn -[Z.pow]. split_and!; try lia. intros j. rewrite lookup_empty. split; [by intros []|lia]. }
    revert H0. induction Hr as [|x y z Hxy Hyz IH]; [done|]. eauto using inmem_step_window. }
  apply Hw.
Qed.

(** The other deletion of raft, of a suffix that conflicts with the leader's log, breaks it: entry 1
    is still there, and the store says its log begins at 4 and ends at 3. *)
Theorem inmem_suffix_lost :
  exists s, inmem_DeleteRange 3 2 3 (inmem_StoreLogs [log_ex 1 1 "a"; log_ex 2 1 "b"; log_ex 3 1 "c"] NewInmemStore).2
      = Some (None, s) /\
    inmem_FirstIndex s = inl 4 /\ inmem_LastIndex s = inl 3 /\
    inmem_GetLog 1 s = inl (log_ex 1 1 "a") /\ inmem_GetLog 3 s = inr ErrLogNotFound.
Proof. eexists. split; [vm_compute; reflexivity|]. by vm_compute. Qed.
