(* ===== verification/GoCrc64.v ===== *)
(** * hash/crc64 with the ECMA polynomial

    The checksum of the snapshot files: a table of 256 words, one step per byte.  Writing a file in
    pieces gives the checksum of the whole ([crc64_update_app]), and two files of the same length
    that differ in one byte have different checksums ([crc64_single_byte]): each step is injective in
    the running checksum, because the top bytes of the table are pairwise different. *)
From S2P Require Import Prelude GoStrings RaftBase BoltStore.

Open Scope string_scope.
Open Scope Z_scope.

(** [crc64.ECMA] (reversed). *)
Definition crc_ECMA : Z := 14514072000185962306.
Definition crc_mask : Z := 2 ^ 64 - 1.

(** [makeTable]: eight shifts of the byte. *)
Definition crc_shift (c : Z) : Z :=
  if Z.land c 1 =? 1 then Z.lxor (Z.shiftr c 1) crc_ECMA else Z.shiftr c 1.
Definition crc_entry (i : Z) : Z := Nat.iter 8 crc_shift i.
Definition crc_table : list Z := Eval vm_compute in crc_entry <$> seqZ 0 256.

Definition crc_step (crc : Z) (v : Z) : Z :=
  Z.lxor (crc_table !!! Z.to_nat (Z.land (Z.lxor crc v) 255)) (Z.shiftr crc 8).

Fixpoint crc_bytes (crc : Z) (p : string) : Z :=
  match p with
  | "" => crc
  | String c p => crc_bytes (crc_step crc (byte_value c)) p
  end.

(** [update]: complement, the bytes, complement. *)
Definition crc64_update (crc : Z) (p : string) : Z :=
  Z.lxor (crc_bytes (Z.lxor crc crc_mask) p) crc_mask.

Definition crc64_checksum (p : string) : Z := crc64_update 0 p.
(** [Sum(nil)]: the checksum in big-endian. *)
Definition crc64_Sum (crc : Z) : string := uint64ToBytes crc.

(** ** Pieces *)

Lemma crc_bytes_app crc p q : crc_bytes crc (p ++ q) = crc_bytes (crc_bytes crc p) q.
Proof. revert crc. induction p as [|c p IH]; intros crc; [done|]. cbn. apply IH. Qed.

Lemma lxor_cancel a b : Z.lxor (Z.lxor a b) b = a.
Proof. by rewrite Z.lxor_assoc, Z.lxor_nilpotent, Z.lxor_0_r. Qed.

Lemma crc64_update_app crc p q : crc64_update crc (p ++ q) = crc64_update (crc64_update crc p) q.
Proof. unfold crc64_update. by rewrite crc_bytes_app, lxor_cancel. Qed.

(** ** Words *)

Lemma lxor_bound a b n : 0 <= n -> 0 <= a < 2 ^ n -> 0 <= b < 2 ^ n -> 0 <= Z.lxor a b < 2 ^ n.
Proof.
  intros Hn Ha Hb. assert (0 <= Z.lxor a b) by (apply Z.lxor_nonneg; lia).
  split; [done|]. destruct (decide (Z.lxor a b = 0)) as [->|Hne]; [lia|].
  apply Z.log2_lt_pow2; [lia|]. pose proof (Z.log2_lxor a b ltac:(lia) ltac:(lia)).
  destruct (decide (n = 0)) as [->|]; [simpl in *; assert (a = 0) by lia; assert (b = 0) by lia; by subst|].
  assert (forall x, 0 <= x < 2 ^ n -> Z.log2 x < n).
  { intros x Hx. destruct (decide (x = 0)) as [->|]; [simpl; lia|]. apply Z.log2_lt_pow2; lia. }
  pose proof (H1 a Ha). pose proof (H1 b Hb). lia.
Qed.

Lemma lxor_inj_r a b c : Z.lxor a c = Z.lxor b c -> a = b.
Proof. intros E. rewrite <- (lxor_cancel a c), <- (lxor_cancel b c). by rewrite E. Qed.

Lemma lxor_inj_l a b c : Z.lxor c a = Z.lxor c b -> a = b.
Proof. rewrite !(Z.lxor_comm c). apply lxor_inj_r. Qed.

Lemma land_255 x : Z.land x 255 = x `mod` 256.
Proof. change 255 with (Z.ones 8). by rewrite Z.land_ones by lia. Qed.

(** ** The table *)

(** The top bytes of the entries are pairwise different, and entries are 64-bit words. *)
Lemma crc_table_words : Forall (fun e => 0 <= e < 2 ^ 64) crc_table.
Proof. repeat (constructor; [lia|]). constructor. Qed.

Lemma crc_table_tops : NoDup ((fun e => Z.shiftr e 56) <$> crc_table).
Proof. apply (bool_decide_unpack _). vm_compute. exact I. Qed.

Lemma crc_table_lookup i : 0 <= i < 256 -> crc_table !! Z.to_nat i = Some (crc_table !!! Z.to_nat i).
Proof.
  intros Hi. apply list_lookup_lookup_total_lt.
  change (length crc_table) with 256%nat. lia.
Qed.

Lemma crc_table_bound i : 0 <= i < 256 -> 0 <= crc_table !!! Z.to_nat i < 2 ^ 64.
Proof.
  intros Hi%crc_table_lookup. exact (Forall_lookup_1 _ _ _ _ crc_table_words Hi).
Qed.

Lemma crc_table_inj i j :
  0 <= i < 256 -> 0 <= j < 256 ->
  Z.shiftr (crc_table !!! Z.to_nat i) 56 = Z.shiftr (crc_table !!! Z.to_nat j) 56 -> i = j.
Proof.
  intros Hi Hj E. apply Z2Nat.inj; [lia..|].
  eapply (NoDup_lookup _ _ _ (Z.shiftr (crc_table !!! Z.to_nat i) 56) crc_table_tops);
    rewrite list_lookup_fmap, crc_table_lookup by done; [done|]. cbn [fmap option_fmap option_map]. by rewrite E.
Qed.

(** ** Injectivity *)

Lemma crc_index_bound crc v : 0 <= Z.land (Z.lxor crc v) 255 < 256.
Proof. rewrite land_255. by apply Z.mod_pos_bound. Qed.

Lemma crc_step_bound crc v : 0 <= crc < 2 ^ 64 -> 0 <= crc_step crc v < 2 ^ 64.
Proof.
  intros Hc. unfold crc_step. apply lxor_bound; [lia|apply crc_table_bound, crc_index_bound|].
  rewrite Z.shiftr_div_pow2 by lia. split; [apply Z.div_pos; lia|].
  apply Z.div_lt_upper_bound; lia.
Qed.

Lemma crc_step_top crc v :
  0 <= crc < 2 ^ 64 ->
  Z.shiftr (crc_step crc v) 56 = Z.shiftr (crc_table !!! Z.to_nat (Z.land (Z.lxor crc v) 255)) 56.
Proof.
  intros Hc. unfold crc_step. rewrite Z.shiftr_lxor, Z.shiftr_shiftr by lia.
  rewrite (Z.shiftr_div_pow2 crc) by lia. change (2 ^ (8 + 56)) with (2 ^ 64).
  rewrite Z.div_small by lia. apply Z.lxor_0_r.
Qed.

(** A step determines the table entry it used, hence the rest of the checksum. *)
Lemma crc_step_inv c1 v1 c2 v2 :
  0 <= c1 < 2 ^ 64 -> 0 <= c2 < 2 ^ 64 -> crc_step c1 v1 = crc_step c2 v2 ->
  Z.land (Z.lxor c1 v1) 255 = Z.land (Z.lxor c2 v2) 255 /\ Z.shiftr c1 8 = Z.shiftr c2 8.
Proof.
  intros H1 H2 E. assert (Hi : Z.land (Z.lxor c1 v1) 255 = Z.land (Z.lxor c2 v2) 255).
  { apply crc_table_inj; [apply crc_index_bound..|]. rewrite <- !crc_step_top by done. by rewrite E. }
  split; [done|]. unfold crc_step in E. rewrite Hi in E. by apply lxor_inj_l in E.
Qed.

Lemma land_lxor_255 a b : Z.land (Z.lxor a b) 255 = Z.lxor (Z.land a 255) (Z.land b 255).
Proof.
  apply Z.bits_inj'. intros n Hn. rewrite !Z.land_spec, !Z.lxor_spec, !Z.land_spec.
  by destruct (Z.testbit a n), (Z.testbit b n), (Z.testbit 255 n).
Qed.

Lemma crc_step_inj_crc c1 c2 v :
  0 <= c1 < 2 ^ 64 -> 0 <= c2 < 2 ^ 64 -> crc_step c1 v = crc_step c2 v -> c1 = c2.
Proof.
  intros H1 H2 [Hl Hh]%crc_step_inv; [|done..].
  rewrite !land_lxor_255 in Hl. apply lxor_inj_r in Hl. rewrite !land_255 in Hl.
  rewrite !Z.shiftr_div_pow2 in Hh by lia. change (2 ^ 8) with 256 in Hh.
  rewrite (Z.div_mod c1 256), (Z.div_mod c2 256) by lia. by rewrite Hl, Hh.
Qed.

Lemma crc_step_inj_byte c v1 v2 :
  0 <= c < 2 ^ 64 -> 0 <= v1 < 256 -> 0 <= v2 < 256 -> crc_step c v1 = crc_step c v2 -> v1 = v2.
Proof.
  intros Hc H1 H2 [Hl _]%crc_step_inv; [|done..].
  rewrite !land_lxor_255 in Hl. apply lxor_inj_l in Hl. rewrite !land_255 in Hl.
  by rewrite !Z.mod_small in Hl by lia.
Qed.

Lemma crc_bytes_bound c p : 0 <= c < 2 ^ 64 -> 0 <= crc_bytes c p < 2 ^ 64.
Proof.
  revert c. induction p as [|b p IH]; intros c Hc; [done|]. cbn. by apply IH, crc_step_bound.
Qed.

Lemma crc_bytes_inj c1 c2 p :
  0 <= c1 < 2 ^ 64 -> 0 <= c2 < 2 ^ 64 -> crc_bytes c1 p = crc_bytes c2 p -> c1 = c2.
Proof.
  revert c1 c2. induction p as [|b p IH]; intros c1 c2 H1 H2 E; [done|]. cbn in E.
  apply IH in E; [|by apply crc_step_bound..]. by apply crc_step_inj_crc in E.
Qed.

Lemma crc64_update_bound c p : 0 <= c < 2 ^ 64 -> 0 <= crc64_update c p < 2 ^ 64.
Proof.
  intros Hc. assert (0 <= crc_mask < 2 ^ 64) by (unfold crc_mask; lia).
  unfold crc64_update. apply lxor_bound; [lia| |done].
  by apply crc_bytes_bound, lxor_bound.
Qed.

Lemma crc64_checksum_bound p : uint64_ok (crc64_checksum p).
Proof. unfold uint64_ok. apply crc64_update_bound. lia. Qed.

(** Changing one byte changes the checksum. *)
Lemma crc64_single_byte p c d q :
  crc64_checksum (p ++ String c q) = crc64_checksum (p ++ String d q) -> c = d.
Proof.
  unfold crc64_checksum, crc64_update. intros E. apply lxor_inj_r in E.
  rewrite !crc_bytes_app in E. cbn in E.
  assert (Hm : 0 <= Z.lxor 0 crc_mask < 2 ^ 64) by (unfold crc_mask; rewrite Z.lxor_0_l; lia).
  pose proof (crc_bytes_bound _ p Hm) as Hb.
  apply crc_bytes_inj in E; [|by apply crc_step_bound..].
  apply crc_step_inj_byte in E; [by apply byte_value_inj|done|apply byte_value_bound..].
Qed.

Lemma crc64_Sum_inj p q :
  crc64_Sum (crc64_checksum p) = crc64_Sum (crc64_checksum q) -> crc64_checksum p = crc64_checksum q.
Proof. apply uint64ToBytes_inj; apply crc64_checksum_bound. Qed.

(** The check value of the algorithm. *)
Example crc64_check_value : crc64_checksum "123456789" = 11051210869376104954.
Proof. vm_compute. reflexivity. Qed.
