(* ===== verification/FileSnapshot.v ===== *)
(** * Raft: snapshots on disk (internal/raft/{file_snapshot,snapshot}.go)

    A snapshot is a directory with the metadata in meta.json and the state of the state machine in
    state.bin.  It is written under a name that ends in .tmp and moved into place when it is complete;
    a checksum in the metadata covers the state.

    The directory of the store is a map from names to files and directories.  Every system call may
    fail: [fs_faults] lists what happens to the calls to come (an exhausted list: they succeed).  A
    failing write may have written some of its bytes, a failing removal may have removed some files.
    encoding/json is a class with the round trip of metadata as its law; bufio and crc64 are
    modelled. *)
From S2P Require Import Prelude GoStrings RaftBase BoltStore GoCrc64.

Open Scope string_scope.
Open Scope Z_scope.

Definition testPath : string := "permTest".
Definition metaFilePath : string := "meta.json".
Definition stateFilePath : string := "state.bin".
Definition tmpSuffix : string := ".tmp".

(** [SnapshotMeta] of snapshot.go, and what is stored on disk.  A nil slice is the empty string. *)
Record SnapshotMeta := mkSnapshotMeta {
  sm_ID : string;
  sm_Index : Z;
  sm_Term : Z;
  sm_Peers : string;
  sm_Size : Z;
}.

Record fileSnapshotMeta := mkFileSnapshotMeta {
  fm_meta : SnapshotMeta;
  fm_CRC : string;
}.

(** ** The file system *)

Inductive node :=
| File (content : string)
| Dir (files : gmap string string).

(** A call that fails with [io_err], after [io_done] of its bytes (or removed files). *)
Record io_fault := mkIoFault {
  io_done : nat;
  io_err : error;
}.

Record FS := mkFS {
  fs_nodes : gmap string node;
  fs_faults : list (option io_fault);
}.

Definition set_nodes (m : gmap string node) (s : FS) : FS := mkFS m (fs_faults s).

(** What happens to the next call. *)
Definition next_io (s : FS) : option io_fault * FS :=
  match fs_faults s with
  | [] => (None, s)
  | f :: fs => (f, mkFS (fs_nodes s) fs)
  end.

Definition ENOENT : error := Errorf "no such file or directory".
Definition EEXIST : error := Errorf "file exists".
Definition ENOTDIR : error := Errorf "not a directory".
Definition ErrClosed : error := Errorf "file already closed".

Definition os_IsExist (e : error) : bool := bool_decide (e = EEXIST).

(** A call without an effect on the files: Close, Stat, Seek. *)
Definition os_touch (s : FS) : option error * FS :=
  let '(f, s) := next_io s in
  match f with Some f => (Some (io_err f), s) | None => (None, s) end.

Definition os_MkdirAll (d : string) (s : FS) : option error * FS :=
  let '(f, s) := next_io s in
  match f with
  | Some f => (Some (io_err f), s)
  | None =>
      match fs_nodes s !! d with
      | None => (None, set_nodes (<[d := Dir ∅]> (fs_nodes s)) s)
      | Some (Dir _) => (None, s)
      | Some (File _) => (Some ENOTDIR, s)
      end
  end.

(** [os.Create(filepath.Join(d, name))]: an empty file, whatever was there. *)
Definition os_Create (d name : string) (s : FS) : option error * FS :=
  let '(f, s) := next_io s in
  match f with
  | Some f => (Some (io_err f), s)
  | None =>
      match fs_nodes s !! d with
      | Some (Dir fs) => (None, set_nodes (<[d := Dir (<[name := ""]> fs)]> (fs_nodes s)) s)
      | _ => (Some ENOENT, s)
      end
  end.

(** Bytes at the end of a file; nothing is seen of them when the file has been removed. *)
Definition fs_append (d name data : string) (s : FS) : FS :=
  match fs_nodes s !! d with
  | Some (Dir fs) =>
      match fs !! name with
      | Some c => set_nodes (<[d := Dir (<[name := c ++ data]> fs)]> (fs_nodes s)) s
      | None => s
      end
  | _ => s
  end.

(** [fh.Write(p)]: the number of bytes written, and the error. *)
Definition os_Write (d name p : string) (s : FS) : (nat * option error) * FS :=
  let '(f, s) := next_io s in
  match f with
  | Some f =>
      let n := Nat.min (io_done f) (String.length p) in
      ((n, Some (io_err f)), fs_append d name (str_take n p) s)
  | None => ((String.length p, None), fs_append d name p s)
  end.

(** [os.Rename] of a directory: an existing target is an error. *)
Definition os_Rename (d d' : string) (s : FS) : option error * FS :=
  let '(f, s) := next_io s in
  match f with
  | Some f => (Some (io_err f), s)
  | None =>
      match fs_nodes s !! d, fs_nodes s !! d' with
      | None, _ => (Some ENOENT, s)
      | Some n, None => (None, set_nodes (<[d' := n]> (delete d (fs_nodes s))) s)
      | Some _, Some (Dir _) => (Some EEXIST, s)
      | Some _, Some (File _) => (Some ENOTDIR, s)
      end
  end.

(** [os.RemoveAll]: a failing call has removed some of the files of the directory. *)
Definition os_RemoveAll (d : string) (s : FS) : option error * FS :=
  let '(f, s) := next_io s in
  match f with
  | Some f =>
      match fs_nodes s !! d with
      | Some (Dir fs) =>
          (Some (io_err f),
           set_nodes (<[d := Dir (list_to_map (drop (io_done f) (map_to_list fs)))]> (fs_nodes s)) s)
      | _ => (Some (io_err f), s)
      end
  | None => (None, set_nodes (delete d (fs_nodes s)) s)
  end.

Definition is_dir (n : node) : bool := match n with Dir _ => true | File _ => false end.

(** [os.ReadDir]: names and kinds, sorted by name. *)
Definition os_ReadDir (s : FS) : (list (string * bool) + error) * FS :=
  let '(f, s) := next_io s in
  match f with
  | Some f => (inr (io_err f), s)
  | None =>
      (inl (omap (fun d => n ← fs_nodes s !! d; Some (d, is_dir n))
              (sort_Strings ((map_to_list (fs_nodes s)).*1))), s)
  end.

(** [os.Open] for reading. *)
Definition os_Open (d name : string) (s : FS) : (string + error) * FS :=
  let '(f, s) := next_io s in
  match f with
  | Some f => (inr (io_err f), s)
  | None =>
      match fs_nodes s !! d with
      | Some (Dir fs) => match fs !! name with Some c => (inl c, s) | None => (inr ENOENT, s) end
      | _ => (inr ENOENT, s)
      end
  end.

(** ** Metadata *)

(** encoding/json on [fileSnapshotMeta]. *)
Class MetaCodec := {
  json_Encode : fileSnapshotMeta -> string;
  json_Decode : string -> fileSnapshotMeta + error;
}.

(** Metadata as the store makes it: identifiers are digits and dashes. *)
Fixpoint id_ok (id : string) : Prop :=
  match id with
  | "" => True
  | String c id => (is_Some (digit_of c) \/ c = "-"%char) /\ id_ok id
  end.

Definition meta_ok (m : fileSnapshotMeta) : Prop :=
  id_ok (sm_ID (fm_meta m)) /\ uint64_ok (sm_Index (fm_meta m)) /\ uint64_ok (sm_Term (fm_meta m)).

(** Such metadata is read back, and from a file that was cut short either it is read back all the
    same (the trailing newline is missing) or decoding fails: the document is one JSON object. *)
Class MetaCodecLaws `{MetaCodec} := {
  json_roundtrip m : meta_ok m -> json_Decode (json_Encode m) = inl m;
  json_truncated m n : meta_ok m ->
    json_Decode (str_take n (json_Encode m)) = inl m \/
    exists e, json_Decode (str_take n (json_Encode m)) = inr e;
}.

(** [snapMetaSlice.Less]. *)
Definition meta_Less (a b : fileSnapshotMeta) : bool :=
  let a := fm_meta a in
  let b := fm_meta b in
  if negb (sm_Term a =? sm_Term b) then sm_Term a <? sm_Term b
  else if negb (sm_Index a =? sm_Index b) then sm_Index a <? sm_Index b
  else str_ltb (sm_ID a) (sm_ID b).

(** [sort.Sort(sort.Reverse(...))]: new to old. *)
Definition meta_newer (a b : fileSnapshotMeta) : Prop := meta_Less a b = false.
#[export] Instance meta_newer_dec : RelDecision meta_newer.
Proof. intros a b. unfold meta_newer. solve_decision. Defined.

#[export] Instance meta_newer_total : Total meta_newer.
Proof.
  intros a b. unfold meta_newer, meta_Less. rewrite !(Z.eqb_sym (_ (fm_meta a))).
  destruct (sm_Term (fm_meta b) =? sm_Term (fm_meta a)) eqn:Et; cbn; zbool; [|destruct (decide (sm_Term (fm_meta a) < sm_Term (fm_meta b))); [right|left]; apply Z.ltb_ge; lia].
  destruct (sm_Index (fm_meta b) =? sm_Index (fm_meta a)) eqn:Ei; cbn; zbool; [|destruct (decide (sm_Index (fm_meta a) < sm_Index (fm_meta b))); [right|left]; apply Z.ltb_ge; lia].
  destruct (str_ltb (sm_ID (fm_meta a)) (sm_ID (fm_meta b))) eqn:E1; [|by left]. right.
  destruct (str_ltb (sm_ID (fm_meta b)) (sm_ID (fm_meta a))) eqn:E2; [|done].
  pose proof (str_ltb_trans _ _ _ E1 E2) as E. by rewrite str_ltb_irrefl in E.
Qed.

(** ** Sinks *)

(** [FileSnapshotSink]: its directory and metadata, whether the state file is open, the running
    checksum, and the [bufio.Writer] (buffered bytes and the error it sticks to). *)
Record FileSnapshotSink := mkSink {
  sk_dir : string;
  sk_meta : fileSnapshotMeta;
  sk_open : bool;
  sk_hash : Z;
  sk_buf : string;
  sk_werr : option error;
  sk_closed : bool;
}.

Definition sk_set_buf (b : string) (e : option error) (k : FileSnapshotSink) : FileSnapshotSink :=
  mkSink (sk_dir k) (sk_meta k) (sk_open k) (sk_hash k) b e (sk_closed k).
Definition sk_set_hash (h : Z) (k : FileSnapshotSink) : FileSnapshotSink :=
  mkSink (sk_dir k) (sk_meta k) (sk_open k) h (sk_buf k) (sk_werr k) (sk_closed k).
Definition sk_set_closed (k : FileSnapshotSink) : FileSnapshotSink :=
  mkSink (sk_dir k) (sk_meta k) (sk_open k) (sk_hash k) (sk_buf k) (sk_werr k) true.
Definition sk_close_file (k : FileSnapshotSink) : FileSnapshotSink :=
  mkSink (sk_dir k) (sk_meta k) false (sk_hash k) (sk_buf k) (sk_werr k) (sk_closed k).
Definition sk_set_meta (m : fileSnapshotMeta) (k : FileSnapshotSink) : FileSnapshotSink :=
  mkSink (sk_dir k) m (sk_open k) (sk_hash k) (sk_buf k) (sk_werr k) (sk_closed k).

(** [io.MultiWriter(stateFile, stateHash)]: the hash sees what the file took. *)
Definition multi_Write (p : string) (k : FileSnapshotSink) (s : FS)
    : (nat * option error) * FileSnapshotSink * FS :=
  if negb (sk_open k) then ((0%nat, Some ErrClosed), k, s)
  else
    let '((n, err), s) := os_Write (sk_dir k) stateFilePath p s in
    match err with
    | Some e => ((n, Some e), k, s)
    | None => ((n, None), sk_set_hash (crc64_update (sk_hash k) p) k, s)
    end.

Definition bufio_size : nat := 4096.

(** [bufio.Writer.Flush]. *)
Definition bufio_Flush (k : FileSnapshotSink) (s : FS) : option error * FileSnapshotSink * FS :=
  match sk_werr k with
  | Some e => (Some e, k, s)
  | None =>
      if decide (sk_buf k = "") then (None, k, s)
      else
        let '((n, err), k, s) := multi_Write (sk_buf k) k s in
        match err with
        | Some e => (Some e, sk_set_buf (str_drop n (sk_buf k)) (Some e) k, s)
        | None => (None, sk_set_buf "" None k, s)
        end
  end.

(** Bytes that do not fit: they go straight to the file when the buffer is empty. *)
Definition bufio_rest (p : string) (k : FileSnapshotSink) (s : FS)
    : (nat * option error) * FileSnapshotSink * FS :=
  if (String.length p <=? bufio_size)%nat then
    ((String.length p, None), sk_set_buf (sk_buf k ++ p) None k, s)
  else
    let '((n, err), k, s) := multi_Write p k s in
    ((n, err), sk_set_buf (sk_buf k) err k, s).

(** [bufio.Writer.Write]: the buffer is filled and flushed at most once, after which it is empty. *)
Definition bufio_Write (p : string) (k : FileSnapshotSink) (s : FS)
    : (nat * option error) * FileSnapshotSink * FS :=
  match sk_werr k with
  | Some e => ((0%nat, Some e), k, s)
  | None =>
      let avail := (bufio_size - String.length (sk_buf k))%nat in
      if (String.length p <=? avail)%nat then
        ((String.length p, None), sk_set_buf (sk_buf k ++ p) None k, s)
      else if decide (sk_buf k = "") then bufio_rest p k s
      else
        let '(err, k, s) := bufio_Flush (sk_set_buf (sk_buf k ++ str_take avail p) None k) s in
        match err with
        | Some e => ((avail, Some e), k, s)
        | None =>
            let '((n, err), k, s) := bufio_rest (str_drop avail p) k s in
            (((avail + n)%nat, err), k, s)
        end
  end.

Section Store.
Context `{MetaCodec}.

(** [writeMeta].  Small documents stay in the buffer of the writer until the deferred flush, whose
    error is dropped, as is the error of the deferred Close. *)
Definition writeMeta (k : FileSnapshotSink) (s : FS) : option error * FS :=
  let '(err, s) := os_Create (sk_dir k) metaFilePath s in
  match err with
  | Some e => (Some e, s)
  | None =>
      let doc := json_Encode (sk_meta k) in
      let '((_, err), s) := os_Write (sk_dir k) metaFilePath doc s in
      let '(_, s) := os_touch s in
      (if (String.length doc <=? bufio_size)%nat then None else err, s)
  end.

(** [snapshotName]. *)
Definition snapshotName (now : Time) (term index : Z) : string :=
  Itoa term ++ "-" ++ Itoa index ++ "-" ++ Itoa (Z.quot (Time_UnixNano now) Millisecond).

(** [FileSnapshotStore.Create]. *)
Definition Create (now : Time) (index term : Z) (peers : string) (s : FS)
    : (FileSnapshotSink + error) * FS :=
  let name := snapshotName now term index in
  let path := name ++ tmpSuffix in
  let '(err, s) := os_MkdirAll path s in
  match err with
  | Some e => (inr e, s)
  | None =>
      let meta := mkFileSnapshotMeta (mkSnapshotMeta name index term peers 0) "" in
      let sink := mkSink path meta false 0 "" None false in
      let '(err, s) := writeMeta sink s in
      match err with
      | Some e => (inr e, s)
      | None =>
          let '(err, s) := os_Create path stateFilePath s in
          match err with
          | Some e => (inr e, s)
          | None => (inl (mkSink path meta true 0 "" None false), s)
          end
      end
  end.

(** [FileSnapshotSink.Write]. *)
Definition sink_Write (p : string) (k : FileSnapshotSink) (s : FS)
    : (nat * option error) * FileSnapshotSink * FS := bufio_Write p k s.

(** [readMeta]. *)
Definition readMeta (name : string) (s : FS) : (fileSnapshotMeta + error) * FS :=
  let '(c, s) := os_Open name metaFilePath s in
  match c with
  | inr e => (inr e, s)
  | inl c =>
      let '(err, s) := os_touch s in
      match err with
      | Some e => (inr e, s)
      | None => (json_Decode c, s)
      end
  end.

(** The loop of [getSnapshots] over the entries of the directory. *)
Fixpoint read_metas (entries : list (string * bool)) (s : FS) : list fileSnapshotMeta * FS :=
  match entries with
  | [] => ([], s)
  | (dirName, isDir) :: entries =>
      if negb isDir then read_metas entries s
      else if HasSuffix dirName tmpSuffix then read_metas entries s
      else
        let '(meta, s) := readMeta dirName s in
        let '(metas, s) := read_metas entries s in
        (match meta with inl m => m :: metas | inr _ => metas end, s)
  end.

Definition getSnapshots (s : FS) : (list fileSnapshotMeta + error) * FS :=
  let '(entries, s) := os_ReadDir s in
  match entries with
  | inr e => (inr e, s)
  | inl entries =>
      let '(metas, s) := read_metas entries s in
      (inl (merge_sort meta_newer metas), s)
  end.

(** The loop of [List]: it stops when [retain] snapshots are collected. *)
Fixpoint list_loop (retain : Z) (metas : list fileSnapshotMeta) (acc : list SnapshotMeta)
    : list SnapshotMeta :=
  match metas with
  | [] => acc
  | m :: metas =>
      let acc := (acc ++ [fm_meta m])%list in
      if Z.of_nat (length acc) =? retain then acc else list_loop retain metas acc
  end.

Definition List_snapshots (retain : Z) (s : FS) : (list SnapshotMeta + error) * FS :=
  let '(snapshots, s) := getSnapshots s in
  match snapshots with
  | inr e => (inr e, s)
  | inl metas => (inl (list_loop retain metas []), s)
  end.

(** [Open]: the metadata and the state, which is read through from the start. *)
Definition Open_snapshot (id : string) (s : FS) : (SnapshotMeta * string + error) * FS :=
  let '(meta, s) := readMeta id s in
  match meta with
  | inr e => (inr e, s)
  | inl meta =>
      let '(c, s) := os_Open id stateFilePath s in
      match c with
      | inr e => (inr e, s)
      | inl c =>
          let '(err, s) := os_touch s in
          match err with
          | Some e => (inr e, s)
          | None =>
              if negb (bool_decide (fm_CRC meta = crc64_Sum (crc64_update 0 c)))
              then (inr (Errorf "CRC mismatch"), s)
              else
                let '(err, s) := os_touch s in
                match err with
                | Some e => (inr e, s)
                | None => (inl (fm_meta meta, c), s)
                end
          end
      end
  end.

(** [ReapSnapshots]. *)
Fixpoint reap_loop (metas : list fileSnapshotMeta) (s : FS) : option error * FS :=
  match metas with
  | [] => (None, s)
  | m :: metas =>
      let '(err, s) := os_RemoveAll (sm_ID (fm_meta m)) s in
      match err with
      | Some e => (Some e, s)
      | None => reap_loop metas s
      end
  end.

Definition ReapSnapshots (retain : Z) (s : FS) : option error * FS :=
  let '(snapshots, s) := getSnapshots s in
  match snapshots with
  | inr e => (Some e, s)
  | inl metas => reap_loop (drop (Z.to_nat retain) metas) s
  end.

(** The size of the state file, for [Stat]. *)
Definition state_size (d : string) (s : FS) : Z :=
  match fs_nodes s !! d with
  | Some (Dir fs) => Z.of_nat (String.length (default "" (fs !! stateFilePath)))
  | _ => 0
  end.

(** [finalize]: flush, stat, close; the file counts as closed whatever Close reports. *)
Definition finalize (k : FileSnapshotSink) (s : FS) : option error * FileSnapshotSink * FS :=
  let '(err, k, s) := bufio_Flush k s in
  match err with
  | Some e => (Some e, k, s)
  | None =>
      let '(statErr, s) := os_touch s in
      let size := state_size (sk_dir k) s in
      let k := sk_close_file k in
      let '(err, s) := os_touch s in
      match err, statErr with
      | Some e, _ => (Some e, k, s)
      | None, Some e => (Some e, k, s)
      | None, None =>
          let m := fm_meta (sk_meta k) in
          let meta := mkFileSnapshotMeta
                        (mkSnapshotMeta (sm_ID m) (sm_Index m) (sm_Term m) (sm_Peers m) size)
                        (crc64_Sum (sk_hash k)) in
          (None, sk_set_meta meta k, s)
      end
  end.

(** [strings.TrimSuffix]. *)
Definition TrimSuffix (s suffix : string) : string :=
  if HasSuffix s suffix then str_take (String.length s - String.length suffix) s else s.

(** [FileSnapshotSink.Close]. *)
Definition sink_Close (retain : Z) (k : FileSnapshotSink) (s : FS)
    : option error * FileSnapshotSink * FS :=
  if sk_closed k then (None, k, s)
  else
    let k := sk_set_closed k in
    let '(err, k, s) := finalize k s in
    match err with
    | Some e => (Some e, k, s)
    | None =>
        let '(err, s) := writeMeta k s in
        match err with
        | Some e => (Some e, k, s)
        | None =>
            let '(err, s) := os_Rename (sk_dir k) (TrimSuffix (sk_dir k) tmpSuffix) s in
            match err with
            | Some e => (Some e, k, s)
            | None => let '(err, s) := ReapSnapshots retain s in (err, k, s)
            end
        end
    end.

(** [FileSnapshotSink.Cancel]. *)
Definition sink_Cancel (k : FileSnapshotSink) (s : FS) : option error * FileSnapshotSink * FS :=
  if sk_closed k then (None, k, s)
  else
    let k := sk_set_closed k in
    let '(err, k, s) := finalize k s in
    match err with
    | Some e => (Some e, k, s)
    | None => let '(err, s) := os_RemoveAll (sk_dir k) s in (err, k, s)
    end.

(** [NewFileSnapshotStoreWithLogger], on a directory that MkdirAll makes: the number of snapshots to
    retain is all the state of the store. *)
Definition testPermissions (s : FS) : option error * FS :=
  let '(f, s1) := next_io s in
  match f with
  | Some f => (Some (io_err f), s1)
  | None =>
      match fs_nodes s1 !! testPath with
      | Some (Dir _) => (Some (Errorf "is a directory"), s1)
      | _ =>
          let s2 := set_nodes (<[testPath := File ""]> (fs_nodes s1)) s1 in
          let '(err, s3) := os_touch s2 in
          match err with
          | Some e => (Some e, s3)
          | None =>
              let '(err, s4) := os_touch s3 in
              match err with
              | Some e => (Some e, s4)
              | None => (None, set_nodes (delete testPath (fs_nodes s4)) s4)
              end
          end
      end
  end.

Definition NewFileSnapshotStore (retain : Z) (s : FS) : (Z + error) * FS :=
  if retain <? 1 then (inr (Errorf "must retain at least one snapshot"), s)
  else
    let '(err, s) := os_touch s in
    match (e ← err; if os_IsExist e then None else Some e) with
    | Some e => (inr (Errorf ("snapshot path not accessible: " ++ error_msg e)), s)
    | None =>
        let '(err, s) := testPermissions s in
        match err with
        | Some e => (inr (Errorf ("permissions test failed: " ++ error_msg e)), s)
        | None => (inl retain, s)
        end
    end.
End Store.

(** ** System calls: what they change *)

(** [s'] differs from [s] at most at the name [d]. *)
Definition fs_frame (d : string) (s s' : FS) : Prop :=
  forall x, x <> d -> fs_nodes s' !! x = fs_nodes s !! x.

Lemma fs_frame_refl d s : fs_frame d s s.
Proof. by intros x _. Qed.

Lemma fs_frame_trans d s1 s2 s3 : fs_frame d s1 s2 -> fs_frame d s2 s3 -> fs_frame d s1 s3.
Proof. intros H1 H2 x Hx. by rewrite H2, H1. Qed.

Lemma next_io_nodes s f s' : next_io s = (f, s') -> fs_nodes s' = fs_nodes s.
Proof. unfold next_io. destruct (fs_faults s); by intros [= <- <-]. Qed.

Lemma next_io_no_faults s : fs_faults s = [] -> next_io s = (None, s).
Proof. unfold next_io. by intros ->. Qed.

Lemma os_touch_nodes s e s' : os_touch s = (e, s') -> fs_nodes s' = fs_nodes s.
Proof.
  unfold os_touch. destruct (next_io s) as [[f|] s1] eqn:E; intros [= <- <-]; by eapply next_io_nodes.
Qed.

Lemma fs_append_spec d x data s fs c :
  fs_nodes s !! d = Some (Dir fs) -> fs !! x = Some c ->
  fs_nodes (fs_append d x data s) = <[d := Dir (<[x := c ++ data]> fs)]> (fs_nodes s).
Proof. intros Hd Hx. unfold fs_append. by rewrite Hd, Hx. Qed.

(** A write to a file of an existing directory adds a prefix of the data, all of it on success. *)
Lemma os_Write_spec d x p s fs c n err s' :
  fs_nodes s !! d = Some (Dir fs) -> fs !! x = Some c ->
  os_Write d x p s = ((n, err), s') ->
  exists j, fs_nodes s' = <[d := Dir (<[x := c ++ str_take j p]> fs)]> (fs_nodes s) /\
    (err = None -> n = String.length p /\ str_take j p = p).
Proof.
  intros Hd Hx. unfold os_Write. destruct (next_io s) as [f s1] eqn:E.
  apply next_io_nodes in E. rewrite <- E in Hd. destruct f as [f|]; intros [= <- <- <-].
  - eexists. by rewrite (fs_append_spec _ _ _ _ fs c), E.
  - exists (String.length p). rewrite (fs_append_spec _ _ _ _ fs c), E by done.
    assert (Hp : str_take (String.length p) p = p)
      by (clear; induction p as [|a p IH]; [done|]; cbn; by rewrite IH).
    by rewrite Hp.
Qed.

Lemma os_Create_spec d x s fs err s' :
  fs_nodes s !! d = Some (Dir fs) -> os_Create d x s = (err, s') ->
  fs_nodes s' = match err with
                | None => <[d := Dir (<[x := ""]> fs)]> (fs_nodes s)
                | Some _ => fs_nodes s
                end.
Proof.
  intros Hd. unfold os_Create. destruct (next_io s) as [f s1] eqn:E. apply next_io_nodes in E.
  destruct f as [f|]; [by intros [= <- <-]|]. rewrite E, Hd. intros [= <- <-]. done.
Qed.

(** ** Writing through a sink *)

(** The parts of a sink that writing does not change. *)
Definition same_sink (k k' : FileSnapshotSink) : Prop :=
  sk_dir k' = sk_dir k /\ sk_meta k' = sk_meta k /\ sk_open k' = sk_open k /\ sk_closed k' = sk_closed k.

Lemma same_sink_refl k : same_sink k k.
Proof. by split_and!. Qed.

Lemma same_sink_trans k1 k2 k3 : same_sink k1 k2 -> same_sink k2 k3 -> same_sink k1 k3.
Proof. intros (?&?&?&?) (?&?&?&?). split_and!; congruence. Qed.

(** Writing state: the directory keeps its metadata file, and everything else stays. *)
Definition state_written (d : string) (s s' : FS) : Prop :=
  fs_frame d s s' /\
  forall fs, fs_nodes s !! d = Some (Dir fs) ->
    exists fs', fs_nodes s' !! d = Some (Dir fs') /\ fs' !! metaFilePath = fs !! metaFilePath.

Lemma state_written_refl d s s' : fs_nodes s' = fs_nodes s -> state_written d s s'.
Proof. intros E. split; [by intros x _; rewrite E|]. intros fs Hd. exists fs. by rewrite E. Qed.

Lemma state_written_trans d s1 s2 s3 :
  state_written d s1 s2 -> state_written d s2 s3 -> state_written d s1 s3.
Proof.
  intros [F1 D1] [F2 D2]. split; [by eapply fs_frame_trans|]. intros fs Hd.
  destruct (D1 fs Hd) as (fs2 & Hd2 & E2). destruct (D2 fs2 Hd2) as (fs3 & Hd3 & E3).
  exists fs3. split; [done|]. congruence.
Qed.

(** The bytes [w] given to an open sink so far: what the file holds, then what the buffer holds; the
    running checksum is that of the file.  After an error nothing is known. *)
Definition tracks (k : FileSnapshotSink) (w : string) (s : FS) : Prop :=
  exists fs, fs_nodes s !! sk_dir k = Some (Dir fs) /\
    (sk_werr k = None -> exists c, fs !! stateFilePath = Some c /\ c ++ sk_buf k = w /\
       sk_hash k = crc64_update 0 c).

Lemma str_take_drop n s : str_take n s ++ str_drop n s = s.
Proof. revert s. induction n as [|n IH]; intros [|c s]; [done..|]. exact (f_equal (String c) (IH s)). Qed.

Lemma str_drop_length n s :
  (n <= String.length s)%nat -> (n + String.length (str_drop n s) = String.length s)%nat.
Proof.
  revert s. induction n as [|n IH]; intros [|c s] Hn; cbn in *; try lia. by rewrite IH by lia.
Qed.

Lemma multi_Write_spec p k s w n err k' s' :
  sk_open k = true -> sk_werr k = None -> sk_buf k = "" \/ p = sk_buf k -> tracks k w s ->
  multi_Write p k s = ((n, err), k', s') ->
  state_written (sk_dir k) s s' /\ same_sink k k' /\ sk_buf k' = sk_buf k /\
  (exists fs, fs_nodes s' !! sk_dir k = Some (Dir fs)) /\
  (err = None -> n = String.length p /\ sk_werr k' = None /\
     tracks (sk_set_buf "" None k') (if decide (sk_buf k = "") then w ++ p else w) s').
Proof.
  intros Ho He Hbuf (fs & Hd & Ht). destruct (Ht He) as (c & Hc & Hw & Hh). unfold multi_Write.
  rewrite Ho. cbn [negb]. destruct (os_Write _ _ p s) as [[n1 e1] s1] eqn:E.
  destruct (os_Write_spec _ _ _ _ _ _ _ _ _ Hd Hc E) as (j & Hs1 & Hok). intros Eq.
  assert (Hst : state_written (sk_dir k) s s1).
  { split; [intros x Hx; by rewrite Hs1, lookup_insert_ne|]. intros fs0 Hd0.
    rewrite Hd in Hd0. injection Hd0 as <-. eexists. rewrite Hs1, lookup_insert_eq.
    split; [done|]. by rewrite lookup_insert_ne. }
  assert (Hex : exists fs, fs_nodes s1 !! sk_dir k = Some (Dir fs))
    by (eexists; by rewrite Hs1, lookup_insert_eq).
  destruct e1 as [e|]; injection Eq as <- <- <- <-; (split; [done|]); (split; [by split_and!|]);
    (split; [done|]); (split; [done|]); [done|].
  intros _. destruct (Hok eq_refl) as [-> Hp]. split; [done|]. split; [done|].
  eexists. cbn. rewrite Hs1, lookup_insert_eq. split; [done|]. intros _. exists (c ++ p).
  rewrite lookup_insert_eq, Hp. split; [done|]. rewrite Hh, crc64_update_app. split; [|done].
  rewrite str_app_nil_r. destruct Hbuf as [Hb| ->].
  - rewrite decide_True by done. by rewrite <- Hw, Hb, str_app_nil_r.
  - case_decide as Hb; [|done]. by rewrite <- Hw, Hb, !str_app_nil_r.
Qed.

Lemma bufio_Flush_spec k s w err k' s' :
  sk_open k = true -> tracks k w s -> bufio_Flush k s = (err, k', s') ->
  state_written (sk_dir k) s s' /\ same_sink k k' /\
  (exists fs, fs_nodes s' !! sk_dir k = Some (Dir fs)) /\
  match err with
  | Some _ => sk_werr k' <> None
  | None => sk_werr k' = None /\ sk_buf k' = "" /\ tracks k' w s'
  end.
Proof.
  intros Ho Ht. pose proof Ht as (fs & Hd & Ht'). unfold bufio_Flush.
  destruct (sk_werr k) as [e|] eqn:He.
  { intros [= <- <- <-]. split_and!; [by apply state_written_refl|done..|by eexists|congruence]. }
  case_decide as Hb.
  { intros [= <- <- <-]. split_and!; [by apply state_written_refl|done..|by eexists|done|done|done]. }
  destruct (multi_Write (sk_buf k) k s) as [[[n e1] k1] s1] eqn:E.
  apply (multi_Write_spec _ _ _ w) in E as (Hst & Hsame & Hbuf & Hex & Hok); [|done|done|by right|done].
  intros Eq. assert (Hs2 : forall b e, same_sink k (sk_set_buf b e k1)).
  { intros b e. destruct Hsame as (?&?&?&?). by split_and!. }
  destruct e1 as [e|]; injection Eq as <- <- <-; (split; [done|]); (split; [done|]); (split; [done|]); [done|].
  destruct (Hok eq_refl) as (_ & _ & Ht1). rewrite decide_False in Ht1 by done. done.
Qed.

(** What writing does to a sink and its file. *)
Definition write_post k w p s (r : (nat * option error) * FileSnapshotSink * FS) : Prop :=
  let '((n, err), k', s') := r in
  state_written (sk_dir k) s s' /\ same_sink k k' /\
  (exists fs, fs_nodes s' !! sk_dir k = Some (Dir fs)) /\
  match err with
  | Some _ => sk_werr k' <> None
  | None => n = String.length p /\ tracks k' (w ++ p) s'
  end.

(** Small writes stay in the buffer. *)
Lemma buffered_post p k s w :
  sk_werr k = None -> tracks k w s ->
  write_post k w p s ((String.length p, None), sk_set_buf (sk_buf k ++ p) None k, s).
Proof.
  intros He (fs & Hd & Ht). destruct (Ht He) as (c & Hc & Hw & Hh).
  split_and!; [by apply state_written_refl|by split_and!|by eexists|done|].
  exists fs. split; [done|]. intros _. exists c. cbn. rewrite <- str_app_assoc, Hw. by split_and!.
Qed.

Lemma bufio_rest_spec p k s w :
  sk_open k = true -> sk_werr k = None -> sk_buf k = "" -> tracks k w s ->
  write_post k w p s (bufio_rest p k s).
Proof.
  intros Ho He Hb Ht. unfold bufio_rest. case_if; [by apply buffered_post|].
  destruct (multi_Write p k s) as [[[n e1] k1] s1] eqn:E.
  apply (multi_Write_spec _ _ _ w) in E as (Hst & Hsame & Hbuf & Hex & Hok); [|done|done|by left|done].
  split; [done|]. split; [destruct Hsame as (?&?&?&?); by split_and!|]. split; [done|].
  destruct e1 as [e|]; [done|]. destruct (Hok eq_refl) as (-> & _ & Ht1). split; [done|].
  rewrite Hbuf, Hb. by rewrite decide_True in Ht1.
Qed.

Lemma bufio_Write_spec p k s w :
  sk_open k = true -> tracks k w s -> write_post k w p s (bufio_Write p k s).
Proof.
  intros Ho Ht. unfold bufio_Write. destruct (sk_werr k) as [e|] eqn:He.
  { destruct Ht as (fs & Hd & _). split_and!; [by apply state_written_refl|by split_and!|by eexists|congruence]. }
  case_if; [by apply buffered_post|]. case_decide as Hb; [by apply bufio_rest_spec|].
  set (avail := (bufio_size - String.length (sk_buf k))%nat) in *.
  destruct (buffered_post (str_take avail p) k s w He Ht) as (_ & _ & _ & _ & Ht1).
  destruct (bufio_Flush _ s) as [[err k2] s2] eqn:E.
  apply (bufio_Flush_spec _ _ (w ++ str_take avail p)) in E as (Hst & Hsame & Hex & Hok); [|done|done].
  assert (Hk2 : same_sink k k2) by (destruct Hsame as (?&?&?&?); by split_and!).
  destruct err as [e|]; [by split_and!|]. destruct Hok as (He2 & Hb2 & Ht2).
  assert (Hd2 : sk_dir k2 = sk_dir k) by apply Hk2.
  pose proof (bufio_rest_spec (str_drop avail p) k2 s2 _
    ltac:(destruct Hk2 as (_ & _ & -> & _); done) He2 Hb2 Ht2) as Hr.
  destruct (bufio_rest _ k2 s2) as [[[n e3] k3] s3]. destruct Hr as (Hst3 & Hsame3 & Hex3 & Hok3).
  rewrite Hd2 in *. split; [by eapply state_written_trans|]. split; [by eapply same_sink_trans|].
  split; [done|]. destruct e3 as [e|]; [done|]. destruct Hok3 as [-> Ht3].
  rewrite str_app_assoc, str_take_drop in Ht3. split; [|done].
  apply Nat.leb_gt in Heqb. apply str_drop_length. lia.
Qed.

(** ** Closing a sink *)

(** The metadata of a complete snapshot with the state [w]. *)
Definition sealed_meta (m : fileSnapshotMeta) (w : string) : fileSnapshotMeta :=
  mkFileSnapshotMeta
    (mkSnapshotMeta (sm_ID (fm_meta m)) (sm_Index (fm_meta m)) (sm_Term (fm_meta m))
       (sm_Peers (fm_meta m)) (Z.of_nat (String.length w)))
    (crc64_Sum (crc64_checksum w)).

Lemma finalize_spec k s w err k' s' :
  sk_open k = true -> tracks k w s -> finalize k s = (err, k', s') ->
  state_written (sk_dir k) s s' /\ sk_dir k' = sk_dir k /\ sk_closed k' = sk_closed k /\
  (sk_open k' = false \/ sk_werr k' <> None) /\
  match err with
  | Some _ => sk_meta k' = sk_meta k
  | None => sk_meta k' = sealed_meta (sk_meta k) w /\
      exists fs, fs_nodes s' !! sk_dir k = Some (Dir fs) /\ fs !! stateFilePath = Some w
  end.
Proof.
  intros Ho Ht. unfold finalize. destruct (bufio_Flush k s) as [[e1 k1] s1] eqn:E1.
  apply (bufio_Flush_spec _ _ w) in E1 as (Hst & (Hd & Hm & Hop & Hcl) & Hex & Hok); [|done|done].
  destruct e1 as [e|]; [intros [= <- <- <-]; split_and!; [done|done|done|by right|done]|].
  destruct Hok as (He1 & Hb1 & Ht1). destruct (os_touch s1) as [e2 s2] eqn:E2.
  destruct (os_touch s2) as [e3 s3] eqn:E3. apply os_touch_nodes in E2, E3.
  assert (Hst3 : state_written (sk_dir k) s s3).
  { eapply state_written_trans; [exact Hst|]. apply state_written_refl. congruence. }
  destruct e3 as [e|]; [intros [= <- <- <-]; split_and!; [done|done|done|by left|done]|].
  destruct e2 as [e|]; [intros [= <- <- <-]; split_and!; [done|done|done|by left|done]|].
  intros [= <- <- <-]. cbn. split_and!; [done|done|done|by left| |].
  - destruct Ht1 as (fs & Hfs & Hc). destruct (Hc He1) as (c & Hc1 & Hw & Hh).
    rewrite Hb1, str_app_nil_r in Hw. subst c. unfold sealed_meta. rewrite Hm, Hh. f_equal. f_equal.
    unfold state_size. rewrite E2, Hfs, Hc1. done.
  - destruct Ht1 as (fs & Hfs & Hc). destruct (Hc He1) as (c & Hc1 & Hw & Hh).
    rewrite Hb1, str_app_nil_r in Hw. subst c. exists fs. rewrite E3, E2, <- Hd. done.
Qed.

Section Snapshots.
Context `{MetaCodecLaws}.

(** The metadata file after [writeMeta]: as before, or some first bytes of the document. *)
Lemma writeMeta_spec k s fs err s' :
  fs_nodes s !! sk_dir k = Some (Dir fs) -> writeMeta k s = (err, s') ->
  fs_frame (sk_dir k) s s' /\
  exists fs', fs_nodes s' !! sk_dir k = Some (Dir fs') /\
    fs' !! stateFilePath = fs !! stateFilePath /\
    (fs' !! metaFilePath = fs !! metaFilePath \/
     exists j, fs' !! metaFilePath = Some (str_take j (json_Encode (sk_meta k)))).
Proof.
  intros Hd. unfold writeMeta. destruct (os_Create (sk_dir k) metaFilePath s) as [e1 s1] eqn:Ec.
  pose proof (os_Create_spec _ _ _ fs _ _ Hd Ec) as E1. destruct e1 as [e|].
  { intros [= <- <-]. split; [intros x _; by rewrite E1|]. exists fs. rewrite E1.
    split_and!; [done|done|by left]. }
  destruct (os_Write (sk_dir k) metaFilePath _ s1) as [[n e2] s2] eqn:E2.
  destruct (os_Write_spec _ _ _ _ (<[metaFilePath := ""]> fs) "" _ _ _
    ltac:(by rewrite E1, lookup_insert_eq) ltac:(by rewrite lookup_insert_eq) E2) as (j & Hs2 & _).
  destruct (os_touch s2) as [e3 s3] eqn:E3. apply os_touch_nodes in E3. intros [= <- <-].
  split; [intros x Hx; by rewrite E3, Hs2, lookup_insert_ne, E1, lookup_insert_ne|].
  eexists. rewrite E3, Hs2, lookup_insert_eq. split; [done|]. split.
  - by rewrite !lookup_insert_ne.
  - right. exists j. by rewrite lookup_insert_eq.
Qed.

(** ** Names *)

Lemma id_ok_app a b : id_ok (a ++ b) <-> id_ok a /\ id_ok b.
Proof.
  induction a as [|c a IH].
  - change ("" ++ b) with b. cbn. tauto.
  - change (String c a ++ b) with (String c (a ++ b)). cbn. tauto.
Qed.

Lemma pretty_N_id (n : N) s : id_ok s -> id_ok (pretty_N_go n s).
Proof.
  revert s. induction (N.lt_wf_0 n) as [n _ IH]. intros s Hs.
  destruct (decide (n = 0)%N) as [->|Hn]; [done|]. rewrite pretty_N_go_step by lia.
  apply IH; [apply N.div_lt; lia|]. split; [|done]. left. eexists. apply digit_of_pretty_char.
  by apply N.mod_lt.
Qed.

Lemma pretty_N_id_ok (n : N) : id_ok (pretty n).
Proof. unfold pretty, pretty_N. case_decide; [cbn; split; [left; by eexists|done]|by apply pretty_N_id]. Qed.

Lemma Itoa_id_ok z : id_ok (Itoa z).
Proof.
  unfold Itoa, pretty, pretty_Z. destruct z as [|p|p].
  - cbn. split; [left; by eexists|done].
  - apply (pretty_N_id_ok (Npos p)).
  - change (id_ok ("-" ++ pretty (Npos p))). apply id_ok_app. split; [cbn; tauto|apply pretty_N_id_ok].
Qed.

Lemma snapshotName_id_ok now term index : id_ok (snapshotName now term index).
Proof.
  unfold snapshotName. rewrite !id_ok_app. split_and!; try apply Itoa_id_ok; cbn; tauto.
Qed.

(** An identifier does not end in .tmp. *)
Lemma id_ok_no_dot id : id_ok id -> str_mem "." id = false.
Proof.
  induction id as [|c id IH]; [done|]. intros [Hc Hid]. cbn. rewrite IH by done.
  rewrite orb_false_r. apply bool_decide_eq_false. intros <-. destruct Hc as [[z Hz]|Hc]; done.
Qed.

Lemma str_drop_app a b : str_drop (String.length a) (a ++ b) = b.
Proof. induction a as [|c a IH]; [by destruct b|]. exact IH. Qed.

Lemma str_take_app a b : str_take (String.length a) (a ++ b) = a.
Proof. induction a as [|c a IH]; [by destruct b|]. exact (f_equal (String c) IH). Qed.

Lemma str_length_app a b : String.length (a ++ b) = (String.length a + String.length b)%nat.
Proof. induction a as [|c a IH]; [done|]. exact (f_equal S IH). Qed.

Lemma HasSuffix_tmp n : HasSuffix (n ++ tmpSuffix) tmpSuffix = true.
Proof.
  unfold HasSuffix. rewrite str_length_app, Nat.add_sub, str_drop_app.
  apply andb_true_iff. split; [apply Nat.leb_le; lia|done].
Qed.

Lemma TrimSuffix_tmp n : TrimSuffix (n ++ tmpSuffix) tmpSuffix = n.
Proof.
  unfold TrimSuffix. by rewrite HasSuffix_tmp, str_length_app, Nat.add_sub, str_take_app.
Qed.

Lemma id_ok_not_tmp n m : id_ok n -> n <> m ++ tmpSuffix.
Proof.
  intros Hn%id_ok_no_dot ->. rewrite str_mem_app in Hn. by apply orb_false_iff in Hn as [_ Hn].
Qed.

Lemma HasSuffix_tmp_id n : id_ok n -> HasSuffix n tmpSuffix = false.
Proof.
  intros Hn. destruct (HasSuffix n tmpSuffix) eqn:E; [|done]. exfalso.
  unfold HasSuffix in E. apply andb_true_iff in E as [_ E%HasPrefix_app].
  apply id_ok_no_dot in Hn.
  rewrite <- (str_take_drop (String.length n - String.length tmpSuffix) n), E in Hn.
  rewrite !str_mem_app in Hn. cbn in Hn. by rewrite orb_true_r in Hn.
Qed.

Lemma tmp_inj n m : n ++ tmpSuffix = m ++ tmpSuffix -> n = m.
Proof. intros E. rewrite <- (TrimSuffix_tmp n), E. apply TrimSuffix_tmp. Qed.
End Snapshots.

(** ** Histories of a store *)

(** The calls on a store.  Sinks are numbered in the order of their creation; a process that dies
    just leaves its sinks alone. *)
Inductive snap_op :=
| OpCreate (now : Time) (index term : Z) (peers : string)
| OpWrite (i : nat) (p : string)
| OpClose (i : nat)
| OpCancel (i : nat)
| OpReap.

(** The sinks, each with the bytes it has accepted before it was closed. *)
Notation sinks := (list (FileSnapshotSink * string)).

Definition run_snap_op `{MetaCodec} (retain : Z) (st : sinks * FS) (o : snap_op) : sinks * FS :=
  let '(ks, s) := st in
  match o with
  | OpCreate now index term peers =>
      match Create now index term peers s with
      | (inl k, s) => ((ks ++ [(k, "")])%list, s)
      | (inr _, s) => (ks, s)
      end
  | OpWrite i p =>
      match ks !! i with
      | None => (ks, s)
      | Some (k, w) =>
          let '((_, err), k', s) := sink_Write p k s in
          let w := if negb (sk_closed k) && bool_decide (err = None) then w ++ p else w in
          (<[i := (k', w)]> ks, s)
      end
  | OpClose i =>
      match ks !! i with
      | None => (ks, s)
      | Some (k, w) => let '(_, k, s) := sink_Close retain k s in (<[i := (k, w)]> ks, s)
      end
  | OpCancel i =>
      match ks !! i with
      | None => (ks, s)
      | Some (k, w) => let '(_, k, s) := sink_Cancel k s in (<[i := (k, w)]> ks, s)
      end
  | OpReap => let '(_, s) := ReapSnapshots retain s in (ks, s)
  end.

Definition run_snap_ops `{MetaCodec} (retain : Z) (os : list snap_op) (st : sinks * FS) : sinks * FS :=
  foldl (run_snap_op retain) st os.

(** The name a call creates. *)
Definition op_name (o : snap_op) : option string :=
  match o with OpCreate now index term _ => Some (snapshotName now term index) | _ => None end.

Definition snap_op_ok (o : snap_op) : Prop :=
  match o with OpCreate _ index term _ => uint64_ok index /\ uint64_ok term | _ => True end.

Section History.
Context `{MetaCodecLaws}.
Implicit Types (ks : sinks).

(** A directory of the store: its metadata, if it can be read, either has no checksum or is that of a
    closed sink, and then the state is what the sink was given. *)
Definition dir_ok (used : list string) ks (d : string) (fs : gmap string string) : Prop :=
  exists n, n ∈ used /\ (d = n \/ d = n ++ tmpSuffix) /\
    forall c m, fs !! metaFilePath = Some c -> json_Decode c = inl m ->
      sm_ID (fm_meta m) = n /\
      (fm_CRC m = "" \/
       exists i k w, ks !! i = Some (k, w) /\ sk_closed k = true /\ sk_meta k = m /\
         sm_Size (fm_meta m) = Z.of_nat (String.length w) /\
         (fs !! stateFilePath = None \/ fs !! stateFilePath = Some w)).

Definition sink_ok (used : list string) (k : FileSnapshotSink) (w : string) (s : FS) : Prop :=
  exists n, n ∈ used /\ id_ok n /\ sk_dir k = n ++ tmpSuffix /\ sm_ID (fm_meta (sk_meta k)) = n /\
    meta_ok (sk_meta k) /\
    if sk_closed k then sk_open k = false \/ sk_werr k <> None
    else sk_open k = true /\ fm_CRC (sk_meta k) = "" /\ tracks k w s.

Record snap_inv (used : list string) ks (s : FS) : Prop := {
  inv_used : Forall id_ok used;
  inv_nodes d n : fs_nodes s !! d = Some n -> exists fs, n = Dir fs /\ dir_ok used ks d fs;
  inv_sinks i k w : ks !! i = Some (k, w) -> sink_ok used k w s;
  inv_names i j k w k' w' : ks !! i = Some (k, w) -> ks !! j = Some (k', w') ->
    sk_dir k = sk_dir k' -> i = j;
}.

(** Closed sinks keep what they are. *)
Definition sinks_grow ks ks' : Prop :=
  forall i k w, ks !! i = Some (k, w) -> sk_closed k = true ->
    exists k', ks' !! i = Some (k', w) /\ sk_closed k' = true /\ sk_meta k' = sk_meta k.

Lemma dir_ok_mono used used' ks ks' d fs fs' :
  used ⊆ used' -> sinks_grow ks ks' ->
  (forall x c, fs' !! x = Some c -> fs !! x = Some c) ->
  dir_ok used ks d fs -> dir_ok used' ks' d fs'.
Proof.
  intros Hu Hk Hfs (n & Hn & Hd & Hm). exists n. split; [by apply Hu|]. split; [done|].
  intros c m Hc Hdec. destruct (Hm c m (Hfs _ _ Hc) Hdec) as [Hid Hcrc]. split; [done|].
  destruct Hcrc as [?|(i & k & w & Hi & Hcl & Hmeta & Hsz & Hst)]; [by left|]. right.
  destruct (Hk i k w Hi Hcl) as (k' & Hi' & Hcl' & Hm'). exists i, k', w.
  split_and!; [done|done|congruence|done|]. destruct (fs' !! stateFilePath) as [c'|] eqn:E; [|by left].
  right. apply Hfs in E. destruct Hst as [E'|E']; congruence.
Qed.

Lemma sinks_grow_refl ks : sinks_grow ks ks.
Proof. intros i k w Hi Hc. by exists k. Qed.

Lemma sinks_grow_insert ks i k w k' w' :
  ks !! i = Some (k, w) ->
  (sk_closed k = true -> sk_closed k' = true /\ sk_meta k' = sk_meta k /\ w' = w) ->
  sinks_grow ks (<[i := (k', w')]> ks).
Proof.
  intros Hi Hc j kj wj Hj Hcj. destruct (decide (i = j)) as [<-|Hne].
  - rewrite Hi in Hj. injection Hj as <- <-. destruct (Hc Hcj) as (? & ? & ->). exists k'.
    rewrite list_lookup_insert_eq by by eapply lookup_lt_Some. done.
  - exists kj. by rewrite list_lookup_insert_ne.
Qed.

(** Nothing changes outside of the two names of a sink. *)
Definition frame2 (n : string) (s s' : FS) : Prop :=
  forall x, x <> n -> x <> n ++ tmpSuffix -> fs_nodes s' !! x = fs_nodes s !! x.

Lemma fs_frame_frame2 n s s' : fs_frame (n ++ tmpSuffix) s s' -> frame2 n s s'.
Proof. intros Hf x _ Hx. by apply Hf. Qed.

Lemma tracks_same k w s s' :
  fs_nodes s' !! sk_dir k = fs_nodes s !! sk_dir k -> tracks k w s -> tracks k w s'.
Proof. intros E (fs & Hd & Ht). exists fs. by rewrite E. Qed.

Lemma sink_ok_same used k w s s' :
  (sk_closed k = false -> fs_nodes s' !! sk_dir k = fs_nodes s !! sk_dir k) ->
  sink_ok used k w s -> sink_ok used k w s'.
Proof.
  intros E (n & Hn & Hok & Hd & Hid & Hm & Hc). exists n. split_and!; [done..|].
  destruct (sk_closed k); [done|]. destruct Hc as (? & ? & Ht). split_and!; [done..|].
  by eapply tracks_same; [apply E|].
Qed.

(** A step of one sink. *)
Lemma inv_sink_step used ks s i k w k' w' s' n :
  snap_inv used ks s -> ks !! i = Some (k, w) -> n ∈ used -> sk_dir k = n ++ tmpSuffix ->
  frame2 n s s' -> sk_dir k' = sk_dir k ->
  (sk_closed k = true -> sk_closed k' = true /\ sk_meta k' = sk_meta k /\ w' = w) ->
  sink_ok used k' w' s' ->
  (forall d nd, d = n \/ d = n ++ tmpSuffix -> fs_nodes s' !! d = Some nd ->
     exists fs, nd = Dir fs /\ dir_ok used (<[i := (k', w')]> ks) d fs) ->
  snap_inv used (<[i := (k', w')]> ks) s'.
Proof.
  intros [Hu Hnodes Hsinks Hnames] Hi Hn Hd Hfr Hd' Hkeep Hok Hdirs.
  assert (Hlook : forall j kj wj, <[i := (k', w')]> ks !! j = Some (kj, wj) ->
    (j = i /\ kj = k' /\ wj = w') \/ (j <> i /\ ks !! j = Some (kj, wj))).
  { intros j kj wj. destruct (decide (j = i)) as [->|Hne].
    - rewrite list_lookup_insert_eq by by eapply lookup_lt_Some. intros [= <- <-]. by left.
    - rewrite list_lookup_insert_ne by done. by right. }
  assert (Hid : id_ok n) by by eapply Forall_forall in Hn.
  split; [done| | |].
  - intros d nd Hnd. destruct (decide (d = n \/ d = n ++ tmpSuffix)) as [Hdn|Hdn]; [by eapply Hdirs|].
    rewrite Hfr in Hnd by tauto. destruct (Hnodes d nd Hnd) as (fs & -> & Hdok). exists fs.
    split; [done|]. eapply dir_ok_mono; [done|by eapply sinks_grow_insert|done|done].
  - intros j kj wj [(-> & -> & ->)|[Hne Hj]]%Hlook; [done|]. pose proof (Hsinks j kj wj Hj) as Hsj.
    eapply sink_ok_same; [|done]. intros _. pose proof Hsj as (nj & _ & _ & Hdj & _).
    apply Hfr; rewrite Hdj; [intros E; by eapply id_ok_not_tmp|]. rewrite <- Hdj, <- Hd. intros E.
    apply Hne. by eapply Hnames.
  - intros j1 j2 k1 w1 k2 w2 [(-> & -> & ->)|[Hn1 Hj1]]%Hlook [(-> & -> & ->)|[Hn2 Hj2]]%Hlook E;
      [done| | |by eapply Hnames].
    + by eapply (Hnames _ _ k); [done|done|congruence].
    + by eapply (Hnames _ _ k1); [done|done|congruence].
Qed.

(** The metadata of a sink that is still open has no checksum on disk. *)
Lemma open_meta_blank used ks s i k w fs c m :
  snap_inv used ks s -> ks !! i = Some (k, w) -> sk_closed k = false ->
  fs_nodes s !! sk_dir k = Some (Dir fs) -> fs !! metaFilePath = Some c -> json_Decode c = inl m ->
  sm_ID (fm_meta m) = sm_ID (fm_meta (sk_meta k)) /\ fm_CRC m = "".
Proof.
  intros [Hu Hnodes Hsinks Hnames] Hi Hc Hd Hmf Hdec.
  destruct (Hsinks i k w Hi) as (n & Hn & Hid & Hdk & HID & _).
  destruct (Hnodes _ _ Hd) as (fs' & [= <-] & n' & Hn' & Hd' & Hm).
  assert (Hnn : n' = n).
  { rewrite Hdk in Hd'. destruct Hd' as [E|E]; [|by apply tmp_inj in E].
    exfalso. eapply id_ok_not_tmp; [|by symmetry]. by eapply Forall_forall in Hn'. }
  subst n'. destruct (Hm c m Hmf Hdec) as [Hidm [?|(j & k' & w' & Hj & Hcl & Hmeta & _)]];
    [split; congruence|]. exfalso.
  destruct (Hsinks j k' w' Hj) as (nj & _ & _ & Hdj & HIDj & _).
  assert (i = j) as <-.
  { eapply Hnames; [done|done|]. rewrite Hdk, Hdj. congruence. }
  congruence.
Qed.

(** A sink that is closed does not reach its file any more. *)
Lemma closed_multi p k s : sk_open k = false -> multi_Write p k s = ((0%nat, Some ErrClosed), k, s).
Proof. intros Ho. unfold multi_Write. by rewrite Ho. Qed.

Lemma closed_Write p k s r k' s' :
  sk_open k = false \/ sk_werr k <> None -> bufio_Write p k s = (r, k', s') ->
  fs_nodes s' = fs_nodes s /\ same_sink k k' /\ (sk_open k' = false \/ sk_werr k' <> None).
Proof.
  intros Hk. unfold bufio_Write. destruct (sk_werr k) as [e|] eqn:He.
  { intros [= <- <- <-]. split_and!; [done..|right; congruence]. }
  destruct Hk as [Ho|Hk]; [|done].
  assert (Hset : forall b e, same_sink k (sk_set_buf b e k) /\
    (sk_open (sk_set_buf b e k) = false \/ sk_werr (sk_set_buf b e k) <> None)).
  { intros b e. split; [by split_and!|by left]. }
  case_if; [intros [= <- <- <-]; split; [done|apply Hset]|]. case_decide as Hb.
  { unfold bufio_rest. case_if; [|rewrite closed_multi by done]; intros [= <- <- <-];
      (split; [done|apply Hset]). }
  set (b := sk_buf k ++ str_take _ p). unfold bufio_Flush. cbn [sk_werr sk_set_buf sk_buf].
  rewrite decide_False by (unfold b; by destruct (sk_buf k)).
  rewrite closed_multi by done. intros [= <- <- <-]. split; [done|apply (Hset _ (Some ErrClosed))].
Qed.

Lemma inv_write used ks s i k w p r k' s' :
  snap_inv used ks s -> ks !! i = Some (k, w) -> sink_Write p k s = (r, k', s') ->
  snap_inv used
    (<[i := (k', if negb (sk_closed k) && bool_decide (r.2 = None) then w ++ p else w)]> ks) s'.
Proof.
  intros Hinv Hi E. unfold sink_Write in E.
  destruct (inv_sinks _ _ _ Hinv i k w Hi) as (n & Hn & Hid & Hd & HID & Hm & Hc).
  destruct (sk_closed k) eqn:Hcl; cbn [negb andb].
  - apply closed_Write in E as (En & (Ed & Em & Eo & Ec) & Hk'); [|done].
    eapply (inv_sink_step _ _ s _ k w); [done|done|done|done| |done|by intros _; split_and!; [congruence|..]| |].
    + intros x _ _. by rewrite En.
    + exists n. rewrite Ed, Em, Ec, Hcl. by split_and!.
    + intros d nd _ Hnd. rewrite En in Hnd.
      destruct (inv_nodes _ _ _ Hinv d nd Hnd) as (fs & -> & Hdok). exists fs. split; [done|].
      eapply dir_ok_mono; [done|eapply sinks_grow_insert; [done|by intros _; split_and!; [congruence|..]]|done|done].
  - destruct Hc as (Ho & Hcrc & Ht). pose proof (bufio_Write_spec p k s w Ho Ht) as Hpost.
    rewrite E in Hpost. destruct r as [n' err]. cbn [snd].
    destruct Hpost as (Hst & (Ed & Em & Eo & Ec) & (fs' & Hfs') & Herr).
    eapply (inv_sink_step _ _ s _ k w); [done|done|done|done| |done|by rewrite Hcl| |].
    + apply fs_frame_frame2. rewrite <- Hd. apply Hst.
    + exists n. rewrite Ed, Em, Ec, Hcl, Eo. split_and!; [done..|].
      destruct err as [e|]; [|by destruct Herr]. exists fs'. by rewrite Ed.
    + intros d nd Hdn Hnd. destruct (decide (d = sk_dir k)) as [->|Hne].
      * rewrite Hfs' in Hnd. injection Hnd as <-. exists fs'. split; [done|].
        exists n. split; [done|]. split; [by right|]. intros c m Hc Hdec.
        destruct Ht as (fs & Hfs & _). destruct (proj2 Hst fs Hfs) as (fs2 & Hfs2 & Emeta).
        rewrite Hfs' in Hfs2. injection Hfs2 as <-. rewrite Emeta in Hc.
        destruct (open_meta_blank _ _ _ _ _ _ _ _ _ Hinv Hi Hcl Hfs Hc Hdec) as [-> ->]. by split; [|left].
      * rewrite (proj1 Hst) in Hnd by done. destruct (inv_nodes _ _ _ Hinv d nd Hnd) as (fs & -> & Hdok).
        exists fs. split; [done|]. eapply dir_ok_mono; [done|eapply sinks_grow_insert; [done|by rewrite Hcl]|done|done].
Qed.

(** *** Creation *)

Lemma Create_spec now index term peers s r s' :
  let n := snapshotName now term index in
  let meta := mkFileSnapshotMeta (mkSnapshotMeta n index term peers 0) "" in
  fs_nodes s !! (n ++ tmpSuffix) = None -> Create now index term peers s = (r, s') ->
  fs_frame (n ++ tmpSuffix) s s' /\
  (forall nd, fs_nodes s' !! (n ++ tmpSuffix) = Some nd -> exists fs, nd = Dir fs /\
     (fs !! metaFilePath = None \/ exists j, fs !! metaFilePath = Some (str_take j (json_Encode meta)))) /\
  (forall k, r = inl k -> k = mkSink (n ++ tmpSuffix) meta true 0 "" None false /\ tracks k "" s').
Proof.
  intros n meta Hnone. unfold Create. fold n. unfold os_MkdirAll.
  destruct (next_io s) as [f s1] eqn:E1. apply next_io_nodes in E1. destruct f as [f|].
  { intros [= <- <-]. split; [intros x _; by rewrite E1|]. rewrite E1. by split; intros ? ?; simplify_eq. }
  rewrite E1, Hnone.
  set (s2 := set_nodes (<[n ++ tmpSuffix := Dir ∅]> (fs_nodes s)) s1).
  assert (Hs2 : fs_nodes s2 !! (n ++ tmpSuffix) = Some (Dir ∅)) by apply lookup_insert_eq.
  assert (Hf2 : fs_frame (n ++ tmpSuffix) s s2) by (intros x Hx; by apply lookup_insert_ne).
  fold meta. destruct (writeMeta _ s2) as [e3 s3] eqn:E3.
  destruct (writeMeta_spec _ _ _ _ _ (Hs2 : fs_nodes s2 !! sk_dir (mkSink (n ++ tmpSuffix) meta false 0 "" None false) = _) E3)
    as (Hf3 & fs3 & Hd3 & Hst3 & Hm3). cbn [sk_dir sk_meta] in *.
  pose proof (fs_frame_trans _ _ _ _ Hf2 Hf3) as Hf3'. rewrite lookup_empty in Hm3.
  destruct e3 as [e|].
  { intros [= <- <-]. split; [done|]. split; [|done]. intros nd Hnd. rewrite Hd3 in Hnd.
    injection Hnd as <-. by exists fs3. }
  destruct (os_Create _ stateFilePath s3) as [e4 s4] eqn:E4.
  pose proof (os_Create_spec _ _ _ _ _ _ Hd3 E4) as Hs4. destruct e4 as [e|].
  { intros [= <- <-]. rewrite Hs4. split; [intros x Hx; rewrite Hs4; by apply Hf3'|]. split; [|done].
    intros nd Hnd. rewrite Hd3 in Hnd. injection Hnd as <-. by exists fs3. }
  intros [= <- <-]. split; [intros x Hx; rewrite Hs4, lookup_insert_ne by done; by apply Hf3'|].
  rewrite Hs4, lookup_insert_eq. split.
  - intros nd [= <-]. eexists. split; [done|]. by rewrite lookup_insert_ne.
  - intros k [= <-]. split; [done|]. eexists. cbn. rewrite Hs4, lookup_insert_eq. split; [done|].
    intros _. exists "". by rewrite lookup_insert_eq.
Qed.

Lemma inv_fresh used ks s n d :
  snap_inv used ks s -> n ∉ used -> id_ok n -> d = n \/ d = n ++ tmpSuffix -> fs_nodes s !! d = None.
Proof.
  intros Hinv Hn Hid Hd. destruct (fs_nodes s !! d) as [nd|] eqn:E; [|done]. exfalso.
  destruct (inv_nodes _ _ _ Hinv d nd E) as (fs & _ & n' & Hn' & Hd' & _).
  assert (Hid' : id_ok n') by (pose proof (inv_used _ _ _ Hinv); by eapply Forall_forall in Hn').
  destruct Hd as [->| ->], Hd' as [E'|E'].
  - by subst.
  - by eapply id_ok_not_tmp in E'.
  - symmetry in E'. by eapply id_ok_not_tmp in E'.
  - apply tmp_inj in E'. by subst.
Qed.

Lemma inv_create used ks s now index term peers r s' :
  let n := snapshotName now term index in
  snap_inv used ks s -> n ∉ used -> uint64_ok index -> uint64_ok term ->
  Create now index term peers s = (r, s') ->
  snap_inv (n :: used) (match r with inl k => ks ++ [(k, "")] | inr _ => ks end)%list s'.
Proof.
  intros n Hinv Hn Hix Htm E. assert (Hid : id_ok n) by apply snapshotName_id_ok.
  pose proof (inv_fresh _ _ _ _ (n ++ tmpSuffix) Hinv Hn Hid (or_intror eq_refl)) as Hnone.
  apply Create_spec in E as (Hf & Hdir & Hk); [|done]. fold n in Hf, Hdir, Hk.
  set (meta := mkFileSnapshotMeta (mkSnapshotMeta n index term peers 0) "") in *.
  set (ks' := match r with inl k => ks ++ [(k, "")] | inr _ => ks end%list).
  assert (Hold : forall i x, ks !! i = Some x -> ks' !! i = Some x).
  { intros i x Hi. unfold ks'. destruct r; [by apply lookup_app_l_Some|done]. }
  assert (Hgrow : sinks_grow ks ks') by (intros i k w Hi Hc; exists k; auto).
  assert (Hnew : forall i k w, ks' !! i = Some (k, w) ->
    ks !! i = Some (k, w) \/ (i = length ks /\ r = inl k /\ w = "")).
  { unfold ks'. intros i k w. destruct r as [k0|e]; [|by left].
    rewrite lookup_app_Some. intros [?|[Hi Hl]]; [by left|right].
    apply list_lookup_singleton_Some in Hl as [? [= <- <-]]. split; [lia|done]. }
  assert (Hdk : forall i k w, ks !! i = Some (k, w) -> sk_dir k <> n ++ tmpSuffix).
  { intros i k w Hi E. destruct (inv_sinks _ _ _ Hinv i k w Hi) as (n' & Hn' & _ & Hd & _).
    rewrite Hd in E. apply tmp_inj in E. by subst. }
  split.
  - constructor; [done|apply Hinv].
  - intros d nd Hnd. destruct (decide (d = n ++ tmpSuffix)) as [->|Hne].
    + destruct (Hdir nd Hnd) as (fs & -> & Hm). exists fs. split; [done|]. exists n.
      split; [by left|]. split; [by right|]. intros c m Hc Hdec.
      destruct Hm as [Hm|[j Hm]]; rewrite Hm in Hc; [done|]. injection Hc as <-.
      assert (Hmok : meta_ok meta) by by split_and!.
      destruct (json_truncated meta j Hmok) as [Hj|[e Hj]]; rewrite Hj in Hdec; [|done].
      injection Hdec as <-. split; [done|by left].
    + rewrite Hf in Hnd by done. destruct (inv_nodes _ _ _ Hinv d nd Hnd) as (fs & -> & Hdok).
      exists fs. split; [done|]. eapply dir_ok_mono; [|done|done|done]. set_solver.
  - intros i k w [Hi|(-> & Hr & ->)]%Hnew.
    + pose proof (inv_sinks _ _ _ Hinv i k w Hi) as (n' & Hn' & Hrest).
      assert (Hs : sink_ok used k w s) by (exists n'; split; done).
      eapply sink_ok_same in Hs; [|intros _; apply Hf; by eapply Hdk].
      destruct Hs as (m & Hm & ?). exists m. split; [by right|done].
    + destruct (Hk k Hr) as [-> Ht]. exists n. cbn. by split_and!; [left|..].
  - intros i j k w k' w' [Hi|(-> & Hr & ->)]%Hnew [Hj|(-> & Hr' & ->)]%Hnew Ed.
    + by eapply inv_names.
    + exfalso. destruct (Hk _ Hr') as [-> _]. by eapply Hdk.
    + exfalso. destruct (Hk _ Hr) as [-> _]. symmetry in Ed. by eapply Hdk.
    + done.
Qed.

(** *** Removal *)

Lemma os_RemoveAll_spec d s err s' :
  os_RemoveAll d s = (err, s') ->
  fs_frame d s s' /\
  forall nd, fs_nodes s' !! d = Some nd -> fs_nodes s !! d = Some nd \/
    exists fs fs', fs_nodes s !! d = Some (Dir fs) /\ nd = Dir fs' /\
      forall x c, fs' !! x = Some c -> fs !! x = Some c.
Proof.
  unfold os_RemoveAll. destruct (next_io s) as [f s1] eqn:E. apply next_io_nodes in E.
  destruct f as [f|].
  - rewrite E. destruct (fs_nodes s !! d) as [[c|fs]|] eqn:Hd; intros [= <- <-].
    + split; [intros x _; by rewrite E|]. rewrite E, Hd. by left.
    + split; [intros x Hx; by apply lookup_insert_ne|]. intros nd. cbn. rewrite lookup_insert_eq.
      intros [= <-]. right. eexists fs, _. split; [done|]. split; [done|]. intros x c Hx.
      apply elem_of_list_to_map_2 in Hx. apply elem_of_map_to_list.
      apply list_elem_of_lookup in Hx as [i Hi]. rewrite lookup_drop in Hi.
      by eapply list_elem_of_lookup_2.
    + split; [intros x _; by rewrite E|]. rewrite E, Hd. by left.
  - intros [= <- <-]. split; [intros x Hx; cbn; rewrite lookup_delete_ne by done; by rewrite E|].
    intros nd. cbn. by rewrite lookup_delete_eq.
Qed.

Lemma inv_remove used ks s d err s' :
  snap_inv used ks s -> os_RemoveAll d s = (err, s') ->
  (forall i k w, ks !! i = Some (k, w) -> sk_closed k = false -> sk_dir k <> d) ->
  snap_inv used ks s'.
Proof.
  intros Hinv [Hf Hd]%os_RemoveAll_spec Hk. split; [apply Hinv| | |apply Hinv].
  - intros x nd Hnd. destruct (decide (x = d)) as [->|Hne].
    + destruct (Hd nd Hnd) as [Hs|(fs & fs' & Hs & -> & Hsub)]; [by eapply inv_nodes|].
      destruct (inv_nodes _ _ _ Hinv d _ Hs) as (fs0 & [= <-] & Hdok). exists fs'. split; [done|].
      eapply dir_ok_mono; [done|apply sinks_grow_refl|done|done].
    + rewrite Hf in Hnd by done. by eapply inv_nodes.
  - intros i k w Hi. eapply sink_ok_same; [|by eapply inv_sinks]. intros Hc. apply Hf. by eapply Hk.
Qed.

Lemma readMeta_spec name s r s' :
  readMeta name s = (r, s') ->
  fs_nodes s' = fs_nodes s /\
  forall m, r = inl m -> exists fs c, fs_nodes s !! name = Some (Dir fs) /\
    fs !! metaFilePath = Some c /\ json_Decode c = inl m.
Proof.
  unfold readMeta, os_Open. destruct (next_io s) as [f s1] eqn:E. apply next_io_nodes in E.
  destruct f as [f|]; [by intros [= <- <-]|]. rewrite E.
  destruct (fs_nodes s !! name) as [[|fs]|] eqn:Hn; [by intros [= <- <-]| |by intros [= <- <-]].
  destruct (fs !! metaFilePath) as [c|] eqn:Hc; [|by intros [= <- <-]].
  destruct (os_touch s1) as [[e|] s2] eqn:E2; apply os_touch_nodes in E2; intros [= <- <-];
    (split; [congruence|]); [done|]. intros m Hm. by exists fs, c.
Qed.

Lemma read_metas_spec es s ms s' :
  read_metas es s = (ms, s') ->
  fs_nodes s' = fs_nodes s /\
  forall m, m ∈ ms -> exists d fs c, fs_nodes s !! d = Some (Dir fs) /\
    fs !! metaFilePath = Some c /\ json_Decode c = inl m.
Proof.
  revert s ms s'. induction es as [|[d b] es IH]; intros s ms s'; cbn [read_metas].
  { intros [= <- <-]. split; [done|]. intros m Hm. by apply elem_of_nil in Hm. }
  case_if; [apply IH|]. case_if; [apply IH|].
  destruct (readMeta d s) as [r s1] eqn:E1. destruct (read_metas es s1) as [ms1 s2] eqn:E2.
  apply readMeta_spec in E1 as [E1 H1]. apply IH in E2 as [E2 H2]. rewrite E1 in *.
  intros [= <- <-]. split; [done|]. intros m Hm. destruct r as [m0|e]; [|by apply H2].
  apply elem_of_cons in Hm as [->|Hm]; [|by apply H2].
  destruct (H1 m0 eq_refl) as (fs & c & ? & ? & ?). by exists d, fs, c.
Qed.

Lemma getSnapshots_spec s r s' :
  getSnapshots s = (r, s') ->
  fs_nodes s' = fs_nodes s /\
  forall ms m, r = inl ms -> m ∈ ms -> exists d fs c, fs_nodes s !! d = Some (Dir fs) /\
    fs !! metaFilePath = Some c /\ json_Decode c = inl m.
Proof.
  unfold getSnapshots, os_ReadDir. destruct (next_io s) as [f s1] eqn:E. apply next_io_nodes in E.
  destruct f as [f|]; [by intros [= <- <-]|].
  destruct (read_metas _ s1) as [ms s2] eqn:E2. apply read_metas_spec in E2 as [E2 H2].
  intros [= <- <-]. split; [congruence|]. intros ms' m [= <-] Hm.
  rewrite merge_sort_Permutation in Hm. rewrite E in H2. by apply H2.
Qed.

Lemma inv_nodes_eq used ks s s' :
  fs_nodes s' = fs_nodes s -> snap_inv used ks s -> snap_inv used ks s'.
Proof.
  intros E Hinv. split; [apply Hinv| | |apply Hinv].
  - rewrite E. apply Hinv.
  - intros i k w Hi. eapply sink_ok_same; [|by eapply inv_sinks]. intros _. by rewrite E.
Qed.

Lemma inv_reap_loop used ks ms s err s' :
  Forall (fun m => sm_ID (fm_meta m) ∈ used) ms -> snap_inv used ks s ->
  reap_loop ms s = (err, s') -> snap_inv used ks s'.
Proof.
  intros Hms. revert s. induction Hms as [|m ms Hm _ IH]; intros s Hinv; cbn [reap_loop].
  { by intros [= <- <-]. }
  destruct (os_RemoveAll _ s) as [e s1] eqn:E.
  assert (Hinv1 : snap_inv used ks s1).
  { eapply inv_remove; [done|done|]. intros i k w Hi _ Ed.
    destruct (inv_sinks _ _ _ Hinv i k w Hi) as (n & _ & _ & Hd & _). rewrite Hd in Ed. symmetry in Ed.
    eapply id_ok_not_tmp; [|exact Ed]. pose proof (inv_used _ _ _ Hinv) as Hu. by eapply Forall_forall in Hm. }
  destruct e as [e|]; [by intros [= <- <-]|]. by apply IH.
Qed.

Lemma inv_reap used ks retain s err s' :
  snap_inv used ks s -> ReapSnapshots retain s = (err, s') -> snap_inv used ks s'.
Proof.
  intros Hinv. unfold ReapSnapshots. destruct (getSnapshots s) as [r s1] eqn:E.
  apply getSnapshots_spec in E as [E Hm]. pose proof (inv_nodes_eq _ _ _ _ E Hinv) as Hinv1.
  destruct r as [ms|e]; [|by intros [= <- <-]]. apply inv_reap_loop; [|done].
  apply Forall_drop, Forall_forall. intros m Hin. destruct (Hm ms m eq_refl Hin) as (d & fs & c & Hd & Hc & Hdec).
  destruct (inv_nodes _ _ _ Hinv d _ Hd) as (fs' & [= <-] & n & Hn & _ & Hids).
  by destruct (Hids c m Hc Hdec) as [-> _].
Qed.

(** *** Closing *)

(** The end of an open sink: what its directory may hold then. *)
Definition ended (n : string) (k' : FileSnapshotSink) (w : string) (fs : gmap string string) : Prop :=
  forall c m, fs !! metaFilePath = Some c -> json_Decode c = inl m ->
    sm_ID (fm_meta m) = n /\
    (fm_CRC m = "" \/ (sk_meta k' = m /\ sm_Size (fm_meta m) = Z.of_nat (String.length w) /\
                       fs !! stateFilePath = Some w)).

Lemma inv_end used ks s i k w k' s' n :
  snap_inv used ks s -> ks !! i = Some (k, w) -> sk_closed k = false ->
  sk_dir k = n ++ tmpSuffix -> sm_ID (fm_meta (sk_meta k)) = n ->
  sk_dir k' = sk_dir k -> sk_closed k' = true -> sk_open k' = false \/ sk_werr k' <> None ->
  meta_ok (sk_meta k') -> sm_ID (fm_meta (sk_meta k')) = n ->
  frame2 n s s' ->
  (forall d nd, d = n \/ d = n ++ tmpSuffix -> fs_nodes s' !! d = Some nd ->
     fs_nodes s !! d = Some nd \/ exists fs, nd = Dir fs /\ ended n k' w fs) ->
  snap_inv used (<[i := (k', w)]> ks) s'.
Proof.
  intros Hinv Hi Hcl Hd HID Hd' Hcl' Hk' Hm' HID' Hf Hdirs.
  pose proof (inv_sinks _ _ _ Hinv i k w Hi) as (n' & Hn & Hid & Hdk & _).
  assert (n' = n) as -> by (apply tmp_inj; congruence).
  eapply (inv_sink_step _ _ s _ k w); [done|done|done|done|done|done|by rewrite Hcl| |].
  - exists n. rewrite Hd', Hcl'. by split_and!.
  - intros d nd Hdn Hnd. destruct (Hdirs d nd Hdn Hnd) as [Hs|(fs & -> & Hend)].
    + destruct (inv_nodes _ _ _ Hinv d nd Hs) as (fs & -> & Hdok). exists fs. split; [done|].
      eapply dir_ok_mono; [done|eapply sinks_grow_insert; [done|by rewrite Hcl]|done|done].
    + exists fs. split; [done|]. exists n. split; [done|]. split; [done|]. intros c m Hc Hdec.
      destruct (Hend c m Hc Hdec) as [Hi' [?|(Hmm & Hsz & Hst)]]; (split; [done|]); [by left|].
      right. exists i, k', w. rewrite list_lookup_insert_eq by by eapply lookup_lt_Some.
      split_and!; [done..|by right].
Qed.

(** The metadata of an open sink that nobody touched stays blank. *)
Lemma untouched_blank used ks s i k w s' n k' w' d nd :
  snap_inv used ks s -> ks !! i = Some (k, w) -> sk_closed k = false ->
  sk_dir k = n ++ tmpSuffix -> sm_ID (fm_meta (sk_meta k)) = n -> state_written (sk_dir k) s s' ->
  d = n \/ d = n ++ tmpSuffix -> fs_nodes s' !! d = Some nd ->
  fs_nodes s !! d = Some nd \/ exists fs, nd = Dir fs /\ ended n k' w' fs.
Proof.
  intros Hinv Hi Hcl Hd HID [Hf Hst] Hdn Hnd.
  destruct (decide (d = sk_dir k)) as [->|Hne]; [|left; by rewrite <- Hf].
  destruct (inv_sinks _ _ _ Hinv i k w Hi) as (n' & _ & _ & _ & _ & _ & Hc). rewrite Hcl in Hc.
  destruct Hc as (_ & _ & fs & Hfs & _). destruct (Hst fs Hfs) as (fs' & Hfs' & Em).
  rewrite Hnd in Hfs'. injection Hfs' as ->. right. exists fs'. split; [done|].
  intros c m Hc Hdec. rewrite Em in Hc.
  destruct (open_meta_blank _ _ _ _ _ _ _ _ _ Hinv Hi Hcl Hfs Hc Hdec) as [-> ->]. by split; [|left].
Qed.

Lemma sealed_meta_ok m w : meta_ok m -> meta_ok (sealed_meta m w).
Proof. done. Qed.

Lemma inv_close used ks s i k w retain err k' s' :
  snap_inv used ks s -> ks !! i = Some (k, w) -> sink_Close retain k s = (err, k', s') ->
  snap_inv used (<[i := (k', w)]> ks) s'.
Proof.
  intros Hinv Hi. unfold sink_Close. destruct (sk_closed k) eqn:Hcl.
  { intros [= <- <- <-]. by rewrite list_insert_id. }
  destruct (inv_sinks _ _ _ Hinv i k w Hi) as (n & Hn & Hid & Hd & HID & Hm & Hc). rewrite Hcl in Hc.
  destruct Hc as (Ho & Hcrc & Ht). destruct (finalize (sk_set_closed k) s) as [[e1 k1] s1] eqn:E1.
  apply (finalize_spec _ _ w) in E1 as (Hst & Hd1 & Hc1 & Hk1 & Hr1); [|done|done].
  cbn [sk_set_closed sk_dir sk_meta sk_closed] in *.
  assert (Hf1 : frame2 n s s1) by (apply fs_frame_frame2; rewrite <- Hd; apply Hst).
  destruct e1 as [e|].
  { intros [= <- <- <-]. eapply (inv_end _ _ s _ k); try done; [by rewrite Hr1..|].
    intros d nd Hdn Hnd. by eapply (untouched_blank _ _ s i k w s1 n). }
  destruct Hr1 as (Hm1 & fs1 & Hfs1 & Hst1).
  assert (Hmok : meta_ok (sk_meta k1)) by by rewrite Hm1.
  assert (HID1 : sm_ID (fm_meta (sk_meta k1)) = n) by by rewrite Hm1.
  destruct (writeMeta k1 s1) as [e2 s2] eqn:E2. rewrite <- Hd1 in Hfs1.
  destruct (writeMeta_spec _ _ _ _ _ Hfs1 E2) as (Hf2 & fs2 & Hfs2 & Hstate2 & Hmeta2).
  assert (Hend : ended n k1 w fs2).
  { intros c m Hcc Hdec. destruct Hmeta2 as [E|[j E]]; rewrite E in Hcc.
    - destruct Ht as (fs & Hfs & _). destruct (proj2 Hst fs Hfs) as (fs1' & Hfs1' & Em).
      rewrite Hd1, Hfs1' in Hfs1. injection Hfs1 as ->. rewrite Em in Hcc.
      destruct (open_meta_blank _ _ _ _ _ _ _ _ _ Hinv Hi Hcl Hfs Hcc Hdec) as [-> ->]. by split; [|left].
    - injection Hcc as <-. destruct (json_truncated (sk_meta k1) j Hmok) as [Hj|[e Hj]]; rewrite Hj in Hdec; [|done].
      injection Hdec as <-. split; [done|]. right. rewrite Hm1. by rewrite Hstate2, Hst1. }
  assert (Hf2' : frame2 n s s2).
  { intros x Hx1 Hx2. rewrite Hf2 by congruence. by apply Hf1. }
  assert (Hn2 : fs_nodes s2 !! n = fs_nodes s !! n).
  { assert (n <> n ++ tmpSuffix) by (intros E; by eapply id_ok_not_tmp in E).
    rewrite Hf2 by congruence. apply Hst. congruence. }
  assert (Hinv2 : snap_inv used (<[i := (k1, w)]> ks) s2).
  { eapply (inv_end _ _ s _ k); try done. intros d nd [->| ->] Hnd; [left; congruence|].
    right. exists fs2. split; [|done]. congruence. }
  destruct e2 as [e|]; [by intros [= <- <- <-]|]. rewrite Hd1, Hd, TrimSuffix_tmp.
  destruct (os_Rename _ n s2) as [e3 s3] eqn:E3. unfold os_Rename in E3.
  destruct (next_io s2) as [f s2'] eqn:En. apply next_io_nodes in En.
  assert (Hren : snap_inv used (<[i := (k1, w)]> ks) s3).
  { destruct f as [f|]; [injection E3 as <- <-; by eapply inv_nodes_eq|]. rewrite En in E3.
    rewrite Hd1, Hd in Hfs2. rewrite Hfs2 in E3.
    destruct (fs_nodes s2 !! n) as [[c|fs]|] eqn:Hnn; injection E3 as <- <-;
      [by eapply inv_nodes_eq..|].
    eapply (inv_end _ _ s _ k); try done.
    - intros x Hx1 Hx2. cbn. rewrite lookup_insert_ne, lookup_delete_ne by done. by apply Hf2'.
    - intros d nd [->| ->]; cbn.
      + rewrite lookup_insert_eq. intros [= <-]. right. by exists fs2.
      + rewrite lookup_insert_ne, lookup_delete_eq; [done|]. intros E. by eapply id_ok_not_tmp in E. }
  destruct e3 as [e|]; [by intros [= <- <- <-]|].
  destruct (ReapSnapshots retain s3) as [e4 s4] eqn:E4. intros [= <- <- <-]. by eapply inv_reap.
Qed.

Lemma inv_cancel used ks s i k w err k' s' :
  snap_inv used ks s -> ks !! i = Some (k, w) -> sink_Cancel k s = (err, k', s') ->
  snap_inv used (<[i := (k', w)]> ks) s'.
Proof.
  intros Hinv Hi. unfold sink_Cancel. destruct (sk_closed k) eqn:Hcl.
  { intros [= <- <- <-]. by rewrite list_insert_id. }
  destruct (inv_sinks _ _ _ Hinv i k w Hi) as (n & Hn & Hid & Hd & HID & Hm & Hc). rewrite Hcl in Hc.
  destruct Hc as (Ho & Hcrc & Ht). destruct (finalize (sk_set_closed k) s) as [[e1 k1] s1] eqn:E1.
  apply (finalize_spec _ _ w) in E1 as (Hst & Hd1 & Hc1 & Hk1 & Hr1); [|done|done].
  cbn [sk_set_closed sk_dir sk_meta sk_closed] in *.
  assert (Hf1 : frame2 n s s1) by (apply fs_frame_frame2; rewrite <- Hd; apply Hst).
  assert (Hm1 : meta_ok (sk_meta k1) /\ sm_ID (fm_meta (sk_meta k1)) = n)
    by (destruct e1; [by rewrite Hr1|by destruct Hr1 as [-> _]]).
  assert (Hinv1 : snap_inv used (<[i := (k1, w)]> ks) s1).
  { eapply (inv_end _ _ s _ k); try apply Hm1; try done.
    intros d nd Hdn Hnd. by eapply (untouched_blank _ _ s i k w s1 n). }
  destruct e1 as [e|]; [by intros [= <- <- <-]|].
  destruct (os_RemoveAll (sk_dir k1) s1) as [e2 s2] eqn:E2. intros [= <- <- <-].
  eapply inv_remove; [done|done|]. intros j kj wj Hj Hcj Ed.
  assert (Hii : <[i := (k1, w)]> ks !! i = Some (k1, w))
    by (apply list_lookup_insert_eq; by eapply lookup_lt_Some).
  assert (j = i) as -> by by eapply (inv_names _ _ _ Hinv1).
  rewrite Hii in Hj. injection Hj as <- <-. congruence.
Qed.

(** *** Every history *)

(** What a snapshot was created for. *)
Definition identity (k : FileSnapshotSink) : string * Z * Z * string :=
  let m := fm_meta (sk_meta k) in (sm_ID m, sm_Index m, sm_Term m, sm_Peers m).

Lemma multi_Write_meta p k s r k' s' : multi_Write p k s = (r, k', s') -> sk_meta k' = sk_meta k.
Proof.
  unfold multi_Write. case_if; [by intros [= <- <- <-]|].
  destruct (os_Write _ _ p s) as [[n [e|]] s1]; by intros [= <- <- <-].
Qed.

Lemma bufio_Flush_meta k s e k' s' : bufio_Flush k s = (e, k', s') -> sk_meta k' = sk_meta k.
Proof.
  unfold bufio_Flush. destruct (sk_werr k); [by intros [= <- <- <-]|].
  case_decide; [by intros [= <- <- <-]|].
  destruct (multi_Write (sk_buf k) k s) as [[[n [e1|]] k1] s1] eqn:E; apply multi_Write_meta in E;
    by intros [= <- <- <-].
Qed.

Lemma bufio_Write_meta p k s r k' s' : bufio_Write p k s = (r, k', s') -> sk_meta k' = sk_meta k.
Proof.
  assert (Hrest : forall q k s r k' s', bufio_rest q k s = (r, k', s') -> sk_meta k' = sk_meta k).
  { intros q k0 s0 r0 k0' s0'. unfold bufio_rest. case_if; [by intros [= <- <- <-]|].
    destruct (multi_Write q k0 s0) as [[[n e1] k1] s1] eqn:E. apply multi_Write_meta in E.
    by intros [= <- <- <-]. }
  unfold bufio_Write. destruct (sk_werr k); [by intros [= <- <- <-]|].
  case_if; [by intros [= <- <- <-]|]. case_decide; [apply Hrest|].
  destruct (bufio_Flush _ s) as [[[e1|] k1] s1] eqn:E; apply bufio_Flush_meta in E; [by intros [= <- <- <-]|].
  destruct (bufio_rest _ k1 s1) as [[[n e2] k2] s2] eqn:E2. apply Hrest in E2. intros [= <- <- <-]. by rewrite E2.
Qed.

Lemma finalize_identity k s e k' s' : finalize k s = (e, k', s') -> identity k' = identity k.
Proof.
  unfold finalize. destruct (bufio_Flush k s) as [[[e1|] k1] s1] eqn:E; apply bufio_Flush_meta in E;
    unfold identity; [intros [= <- <- <-]; by rewrite E|].
  destruct (os_touch s1) as [e2 s2], (os_touch s2) as [[e3|] s3], e2; intros [= <- <- <-]; cbn; by rewrite E.
Qed.

Lemma sink_Close_identity retain k s e k' s' : sink_Close retain k s = (e, k', s') -> identity k' = identity k.
Proof.
  unfold sink_Close. case_if; [by intros [= <- <- <-]|].
  destruct (finalize (sk_set_closed k) s) as [[e1 k1] s1] eqn:E. apply finalize_identity in E.
  change (identity (sk_set_closed k)) with (identity k) in E. rewrite <- E. clear E.
  intros Eq. repeat case_match; by simplify_eq.
Qed.

Lemma sink_Cancel_identity k s e k' s' : sink_Cancel k s = (e, k', s') -> identity k' = identity k.
Proof.
  unfold sink_Cancel. case_if; [by intros [= <- <- <-]|].
  destruct (finalize (sk_set_closed k) s) as [[e1 k1] s1] eqn:E. apply finalize_identity in E.
  change (identity (sk_set_closed k)) with (identity k) in E. rewrite <- E. clear E.
  intros Eq. repeat case_match; by simplify_eq.
Qed.

(** Every sink comes from a [Create] of the history. *)
Definition created_by (os : list snap_op) ks : Prop :=
  forall i k w, ks !! i = Some (k, w) -> exists now index term peers,
    OpCreate now index term peers ∈ os /\ identity k = (snapshotName now term index, index, term, peers).

Lemma created_by_insert os ks i k w k' w' :
  created_by os ks -> ks !! i = Some (k, w) -> identity k' = identity k ->
  created_by os (<[i := (k', w')]> ks).
Proof.
  intros Hc Hi E j kj wj. destruct (decide (j = i)) as [->|Hne].
  - rewrite list_lookup_insert_eq by by eapply lookup_lt_Some. intros [= <- <-]. rewrite E. by eapply Hc.
  - rewrite list_lookup_insert_ne by done. apply Hc.
Qed.

Lemma created_by_mono os os' ks : os ⊆ os' -> created_by os ks -> created_by os' ks.
Proof.
  intros Ho Hc i k w Hi. destruct (Hc i k w Hi) as (now & ix & tm & ps & Hin & E).
  exists now, ix, tm, ps. split; [by apply Ho|done].
Qed.

Definition history_ok (retain : Z) (os : list snap_op) ks s : Prop :=
  snap_inv (omap op_name os) ks s /\ created_by os ks.

Lemma snap_inv_used used used' ks s :
  (forall n, n ∈ used <-> n ∈ used') -> snap_inv used ks s -> snap_inv used' ks s.
Proof.
  intros Hu Hinv. split.
  - apply Forall_forall. intros n Hn%Hu. pose proof (inv_used _ _ _ Hinv) as H'. by eapply Forall_forall in Hn.
  - intros d nd Hnd. destruct (inv_nodes _ _ _ Hinv d nd Hnd) as (fs & -> & n & Hn & Hrest).
    exists fs. split; [done|]. exists n. split; [by apply Hu|done].
  - intros i k w Hi. destruct (inv_sinks _ _ _ Hinv i k w Hi) as (n & Hn & Hrest).
    exists n. split; [by apply Hu|done].
  - apply Hinv.
Qed.

Lemma history_step retain os o ks s ks' s' :
  history_ok retain os ks s -> snap_op_ok o ->
  (forall n, op_name o = Some n -> n ∉ omap op_name os) ->
  run_snap_op retain (ks, s) o = (ks', s') -> history_ok retain (os ++ [o])%list ks' s'.
Proof.
  intros [Hinv Hcr] Hok Hfresh. unfold history_ok. rewrite omap_app.
  assert (Hsub : os ⊆ (os ++ [o])%list) by set_solver.
  assert (Hsame : forall ks1 s1, op_name o = None -> snap_inv (omap op_name os) ks1 s1 ->
    created_by os ks1 -> snap_inv (omap op_name os ++ omap op_name [o])%list ks1 s1 /\ created_by (os ++ [o])%list ks1).
  { intros ks1 s1 Hn Hi Hc. cbn. rewrite Hn, app_nil_r. split; [done|by eapply created_by_mono]. }
  destruct o as [now ix tm ps|i p|i|i|]; cbn [run_snap_op].
  - destruct Hok as [Hix Htm]. destruct (Create now ix tm ps s) as [r s1] eqn:E.
    pose proof (inv_create _ ks s now ix tm ps r s1 Hinv (Hfresh _ eq_refl) Hix Htm E) as Hinv1.
    pose proof (inv_fresh _ _ _ _ (snapshotName now tm ix ++ tmpSuffix) Hinv (Hfresh _ eq_refl)
                  (snapshotName_id_ok _ _ _) (or_intror eq_refl)) as Hnone.
    apply Create_spec in E as (_ & _ & Hk); [|done].
    intros Eq. split.
    + eapply snap_inv_used; [|destruct r; injection Eq as <- <-; exact Hinv1]. cbn. set_solver.
    + destruct r as [k|e]; injection Eq as <- <-; [|by eapply created_by_mono].
      intros j kj wj [Hj|[_ Hj]]%lookup_app_Some; [by eapply created_by_mono in Hj|].
      apply list_lookup_singleton_Some in Hj as [_ [= <- <-]]. destruct (Hk k eq_refl) as [-> _].
      exists now, ix, tm, ps. split; [set_solver|done].
  - destruct (ks !! i) as [[k w]|] eqn:Hi; [|intros [= <- <-]; by apply Hsame].
    destruct (sink_Write p k s) as [[[n e] k1] s1] eqn:E. intros [= <- <-].
    apply Hsame; [done|exact (inv_write _ _ _ _ _ _ _ _ _ _ Hinv Hi E)|].
    eapply created_by_insert; [done|done|]. apply bufio_Write_meta in E. unfold identity. by rewrite E.
  - destruct (ks !! i) as [[k w]|] eqn:Hi; [|intros [= <- <-]; by apply Hsame].
    destruct (sink_Close retain k s) as [[e k1] s1] eqn:E. intros [= <- <-].
    apply Hsame; [done|by eapply inv_close|]. eapply created_by_insert; [done|done|by eapply sink_Close_identity].
  - destruct (ks !! i) as [[k w]|] eqn:Hi; [|intros [= <- <-]; by apply Hsame].
    destruct (sink_Cancel k s) as [[e k1] s1] eqn:E. intros [= <- <-].
    apply Hsame; [done|by eapply inv_cancel|]. eapply created_by_insert; [done|done|by eapply sink_Cancel_identity].
  - destruct (ReapSnapshots retain s) as [e s1] eqn:E. intros [= <- <-].
    apply Hsame; [done|by eapply inv_reap|done].
Qed.

Lemma history_run retain os faults ks s :
  Forall snap_op_ok os -> NoDup (omap op_name os) ->
  run_snap_ops retain os ([], mkFS ∅ faults) = (ks, s) -> history_ok retain os ks s.
Proof.
  revert ks s. induction os as [|o os IH] using rev_ind; intros ks s Hok Hnd.
  { intros [= <- <-]. split; [|by intros i k w]. by split; [constructor|..]. }
  apply Forall_app in Hok as [Hok Ho]. rewrite omap_app in Hnd. apply NoDup_app in Hnd as (Hnd & Hdis & _).
  unfold run_snap_ops in *. rewrite foldl_app. cbn.
  destruct (foldl _ _ os) as [ks1 s1] eqn:E. apply history_step; [by apply IH|by apply Forall_singleton|].
  intros n Hn Hin. apply (Hdis n Hin). cbn. rewrite Hn. by left.
Qed.

Lemma Open_snapshot_spec id s meta c s' :
  Open_snapshot id s = (inl (meta, c), s') ->
  exists fs mc m, fs_nodes s !! id = Some (Dir fs) /\ fs !! metaFilePath = Some mc /\
    json_Decode mc = inl m /\ fm_meta m = meta /\ fs !! stateFilePath = Some c /\
    fm_CRC m = crc64_Sum (crc64_checksum c).
Proof.
  unfold Open_snapshot. destruct (readMeta id s) as [r s1] eqn:E. apply readMeta_spec in E as [E Hr].
  destruct r as [m|]; [|done]. destruct (Hr m eq_refl) as (fs & mc & Hd & Hmc & Hdec).
  unfold os_Open. destruct (next_io s1) as [[f|] s2] eqn:E2; [done|]. apply next_io_nodes in E2.
  rewrite E2, E, Hd. destruct (fs !! stateFilePath) as [c'|] eqn:Hc'; [|done].
  destruct (os_touch s2) as [[e|] s3]; [done|].
  destruct (negb _) eqn:Ecrc; [done|]. destruct (os_touch s3) as [[e|] s4]; [done|].
  intros [= <- <- <-]. apply negb_false_iff, bool_decide_eq_true in Ecrc. by exists fs, mc, m.
Qed.

(** C16: a snapshot that can be opened is complete.  Whatever sequence of creations, writes, closes
    and cancellations, on several sinks at once, has run on the store (no two created under one name,
    which has the time in milliseconds in it), with every system call failing at any point (writes after some of their bytes, removals half done) and sinks abandoned in the
    middle: a snapshot that [Open] returns was closed, its metadata is what it was created with, and
    its content is exactly the bytes its sink accepted. *)
Theorem opened_snapshot_is_complete retain os faults ks s id meta c s' :
  Forall snap_op_ok os -> NoDup (omap op_name os) ->
  run_snap_ops retain os ([], mkFS ∅ faults) = (ks, s) ->
  Open_snapshot id s = (inl (meta, c), s') ->
  exists i k now, ks !! i = Some (k, c) /\ sk_closed k = true /\
    OpCreate now (sm_Index meta) (sm_Term meta) (sm_Peers meta) ∈ os /\
    sm_ID meta = snapshotName now (sm_Term meta) (sm_Index meta) /\
    sm_Size meta = Z.of_nat (String.length c).
Proof.
  intros Hok Hnd Hrun Hopen. destruct (history_run _ _ _ _ _ Hok Hnd Hrun) as [Hinv Hcr].
  apply Open_snapshot_spec in Hopen as (fs & mc & m & Hd & Hmc & Hdec & <- & Hc & Hcrc).
  destruct (inv_nodes _ _ _ Hinv id _ Hd) as (fs' & [= <-] & n & _ & _ & Hm).
  destruct (Hm mc m Hmc Hdec) as [_ [Hb|(i & k & w & Hi & Hcl & <- & Hsz & Hst)]].
  { rewrite Hb in Hcrc. done. }
  assert (w = c) as -> by (destruct Hst; congruence).
  destruct (Hcr i k c Hi) as (now & ix & tm & ps & Hin & [= Eid <- <- <-]).
  by exists i, k, now.
Qed.

(** A changed byte in the state file is detected. *)
Lemma Open_detects_changed_byte id s fs mc m p a b q :
  fs_faults s = [] -> fs_nodes s !! id = Some (Dir fs) -> fs !! metaFilePath = Some mc ->
  json_Decode mc = inl m -> fm_CRC m = crc64_Sum (crc64_checksum (p ++ String a q)) ->
  fs !! stateFilePath = Some (p ++ String b q) -> a <> b ->
  Open_snapshot id s = (inr (Errorf "CRC mismatch"), s).
Proof.
  intros Hf Hd Hmc Hdec Hcrc Hst Hab. unfold Open_snapshot, readMeta, os_Open, os_touch.
  rewrite (next_io_no_faults s Hf), Hd, Hmc, (next_io_no_faults s Hf), Hdec.
  rewrite (next_io_no_faults s Hf), Hd, Hst, (next_io_no_faults s Hf).
  rewrite bool_decide_eq_false_2; [done|]. rewrite Hcrc. intros E%crc64_Sum_inj%crc64_single_byte. done.
Qed.
End History.

(** ** A disk that works *)

(** No fault is to come. *)
Definition calm (s : FS) : Prop := fs_faults s = [].

Lemma calm_next s : calm s -> next_io s = (None, s).
Proof. apply next_io_no_faults. Qed.

Lemma calm_touch s : calm s -> os_touch s = (None, s).
Proof. intros Hc. unfold os_touch. by rewrite calm_next. Qed.

Lemma calm_append d x p s : calm s -> calm (fs_append d x p s).
Proof. intros Hc. unfold fs_append. by repeat case_match. Qed.

Lemma calm_Write d x p s : calm s -> os_Write d x p s = ((String.length p, None), fs_append d x p s).
Proof. intros Hc. unfold os_Write. by rewrite calm_next. Qed.

Lemma calm_multi p k s :
  calm s -> sk_open k = true ->
  exists k' s', multi_Write p k s = ((String.length p, None), k', s') /\ calm s' /\
    sk_open k' = true /\ sk_buf k' = sk_buf k /\ sk_werr k' = sk_werr k.
Proof.
  intros Hc Ho. unfold multi_Write. rewrite Ho, calm_Write by done. cbn.
  eexists _, _. split; [done|]. split; [by apply calm_append|done].
Qed.

Lemma calm_Flush k s :
  calm s -> sk_open k = true -> sk_werr k = None ->
  exists k' s', bufio_Flush k s = (None, k', s') /\ calm s' /\ sk_open k' = true /\ sk_werr k' = None.
Proof.
  intros Hc Ho He. unfold bufio_Flush. rewrite He. case_decide; [by eexists _, _|].
  destruct (calm_multi (sk_buf k) k s Hc Ho) as (k' & s' & -> & Hc' & Ho' & _). by eexists _, _.
Qed.

Lemma calm_rest p k s :
  calm s -> sk_open k = true -> sk_werr k = None ->
  exists n k' s', bufio_rest p k s = ((n, None), k', s') /\ calm s' /\ sk_open k' = true /\ sk_werr k' = None.
Proof.
  intros Hc Ho He. unfold bufio_rest. case_if; [by eexists _, _, _|].
  destruct (calm_multi p k s Hc Ho) as (k' & s' & -> & Hc' & Ho' & _). by eexists _, _, _.
Qed.

Lemma calm_bufio p k s :
  calm s -> sk_open k = true -> sk_werr k = None ->
  exists n k' s', bufio_Write p k s = ((n, None), k', s') /\ calm s' /\ sk_open k' = true /\ sk_werr k' = None.
Proof.
  intros Hc Ho He. unfold bufio_Write. rewrite He. case_if; [by eexists _, _, _|].
  case_decide; [by apply calm_rest|].
  destruct (calm_Flush (sk_set_buf (sk_buf k ++ str_take (bufio_size - String.length (sk_buf k)) p) None k) s
              Hc Ho eq_refl) as (k1 & s1 & -> & Hc1 & Ho1 & He1).
  destruct (calm_rest (str_drop (bufio_size - String.length (sk_buf k)) p) k1 s1 Hc1 Ho1 He1)
    as (n & k2 & s2 & -> & ?). by eexists _, _, _.
Qed.

(** Writes in sequence; they stop at the first error. *)
Fixpoint write_all (ps : list string) (k : FileSnapshotSink) (s : FS)
    : option error * FileSnapshotSink * FS :=
  match ps with
  | [] => (None, k, s)
  | p :: ps =>
      let '((_, err), k, s) := sink_Write p k s in
      match err with Some e => (Some e, k, s) | None => write_all ps k s end
  end.

Definition concat_all (ps : list string) : string := foldr String.append "" ps.

Lemma calm_write_all ps k s w :
  calm s -> sk_open k = true -> sk_werr k = None -> tracks k w s ->
  exists k' s', write_all ps k s = (None, k', s') /\ calm s' /\ sk_werr k' = None /\
    same_sink k k' /\ state_written (sk_dir k) s s' /\ tracks k' (w ++ concat_all ps) s'.
Proof.
  revert k s w. induction ps as [|p ps IH]; intros k s w Hc Ho He Ht; cbn [write_all].
  { exists k, s. split_and!; try done; [by apply state_written_refl|].
    change (concat_all []) with "". by rewrite str_app_nil_r. }
  unfold sink_Write. destruct (calm_bufio p k s Hc Ho He) as (n & k1 & s1 & E & Hc1 & Ho1 & He1).
  pose proof (bufio_Write_spec p k s w Ho Ht) as Hpost. rewrite E in *.
  destruct Hpost as (Hst & Hsame & _ & _ & Ht1).
  destruct (IH k1 s1 (w ++ p) Hc1 Ho1 He1 Ht1) as (k2 & s2 & -> & Hc2 & He2 & Hs2 & Hst2 & Ht2).
  exists k2, s2. assert (Hd : sk_dir k1 = sk_dir k) by apply Hsame. rewrite Hd in Hst2.
  split_and!; try done; [by eapply same_sink_trans|by eapply state_written_trans|].
  change (concat_all (p :: ps)) with (p ++ concat_all ps). by rewrite <- str_app_assoc.
Qed.

Section Calm.
Context `{MetaCodecLaws}.

Lemma str_take_all p : str_take (String.length p) p = p.
Proof. rewrite <- (str_app_nil_r p) at 2. apply str_take_app. Qed.

Lemma calm_writeMeta k s fs :
  calm s -> fs_nodes s !! sk_dir k = Some (Dir fs) ->
  exists s', writeMeta k s = (None, s') /\ calm s' /\
    fs_nodes s' = <[sk_dir k := Dir (<[metaFilePath := json_Encode (sk_meta k)]> fs)]> (fs_nodes s).
Proof.
  intros Hc Hd. unfold writeMeta, os_Create. rewrite calm_next, Hd by done.
  set (s1 := set_nodes _ s). assert (Hc1 : calm s1) by done.
  assert (Hd1 : fs_nodes s1 !! sk_dir k = Some (Dir (<[metaFilePath := ""]> fs))) by apply lookup_insert_eq.
  rewrite calm_Write, calm_touch by (try apply calm_append; done).
  eexists. split; [by destruct (_ <=? _)%nat|]. split; [by apply calm_append|].
  rewrite (fs_append_spec _ _ _ _ _ "" Hd1) by apply lookup_insert_eq. cbn.
  by rewrite !insert_insert_eq.
Qed.

Lemma calm_Create now index term peers s :
  let n := snapshotName now term index in
  let meta := mkFileSnapshotMeta (mkSnapshotMeta n index term peers 0) "" in
  calm s -> fs_nodes s !! (n ++ tmpSuffix) = None ->
  exists s', Create now index term peers s = (inl (mkSink (n ++ tmpSuffix) meta true 0 "" None false), s') /\
    calm s'.
Proof.
  intros n meta Hc Hnone. unfold Create, os_MkdirAll. fold n. rewrite calm_next, Hnone by done.
  set (s1 := set_nodes _ s). fold meta.
  destruct (calm_writeMeta (mkSink (n ++ tmpSuffix) meta false 0 "" None false) s1 ∅) as (s2 & -> & Hc2 & E2);
    [done|apply lookup_insert_eq|].
  unfold os_Create. rewrite calm_next, E2 by done. cbn [sk_dir]. rewrite lookup_insert_eq.
  by eexists.
Qed.

Lemma calm_finalize k s :
  calm s -> sk_open k = true -> sk_werr k = None ->
  exists k' s', finalize k s = (None, k', s') /\ calm s'.
Proof.
  intros Hc Ho He. unfold finalize. destruct (calm_Flush k s Hc Ho He) as (k1 & s1 & -> & Hc1 & _).
  rewrite !calm_touch by done. by eexists _, _.
Qed.

(** *** What a directory lists *)

(** The snapshot an entry of the directory stands for. *)
Definition entry_meta (p : string * node) : option fileSnapshotMeta :=
  match p.2 with
  | File _ => None
  | Dir fs =>
      if HasSuffix p.1 tmpSuffix then None
      else c ← fs !! metaFilePath;
           match json_Decode c with inl m => Some m | inr _ => None end
  end.

Definition metas_of (nodes : gmap string node) : list fileSnapshotMeta := omap entry_meta (map_to_list nodes).

Lemma calm_read_metas es s :
  calm s ->
  read_metas es s =
    (omap (fun e : string * bool => if e.2 then nd ← fs_nodes s !! e.1; if is_dir nd then entry_meta (e.1, nd) else None
                                    else None) es, s).
Proof.
  intros Hc. induction es as [|[d b] es IH]; [done|]. cbn [read_metas].
  assert (Hr : readMeta d s =
    (match fs_nodes s !! d with
     | Some (Dir fs) => match fs !! metaFilePath with Some c => json_Decode c | None => inr ENOENT end
     | _ => inr ENOENT
     end, s)).
  { unfold readMeta, os_Open. rewrite calm_next by done. destruct (fs_nodes s !! d) as [[c|fs]|]; [done| |done].
    destruct (fs !! metaFilePath); [|done]. by rewrite calm_touch. }
  rewrite Hr, IH. cbn. set (L := omap _ es). clearbody L. clear.
  destruct b; [|done]. cbn [negb]. destruct (fs_nodes s !! d) as [[c|fs]|]; cbn; unfold entry_meta; cbn.
  - by destruct (HasSuffix d tmpSuffix).
  - destruct (HasSuffix d tmpSuffix); [done|]. destruct (fs !! metaFilePath) as [c|]; cbn; [|done].
    by destruct (json_Decode c).
  - by destruct (HasSuffix d tmpSuffix).
Qed.

Lemma omap_perm {A B} (f : A -> option B) l l' : l ≡ₚ l' -> omap f l ≡ₚ omap f l'.
Proof. by intros ->. Qed.

Lemma calm_getSnapshots s :
  calm s -> exists l, getSnapshots s = (inl (merge_sort meta_newer l), s) /\ l ≡ₚ metas_of (fs_nodes s).
Proof.
  intros Hc. unfold getSnapshots, os_ReadDir. rewrite calm_next by done. cbn.
  rewrite calm_read_metas by done. eexists. split; [done|].
  rewrite (omap_perm _ _ _ (omap_perm _ _ _ (sort_Strings_perm _))). apply reflexive_eq.
  unfold metas_of. generalize (fun d nd => elem_of_map_to_list (fs_nodes s) d nd).
  generalize (map_to_list (fs_nodes s)). intros l Hl.
  assert (Hsub : forall d nd, (d, nd) ∈ l -> fs_nodes s !! d = Some nd) by (intros; by apply Hl).
  clear Hl. induction l as [|[d nd] l IH]; [done|]. cbn.
  rewrite (Hsub d nd) by by left. cbn. rewrite (Hsub d nd) by by left. cbn.
  rewrite <- IH by (intros; apply Hsub; by right). by destruct nd.
Qed.

(** *** Reaping *)

(** Every snapshot is stored under its own identifier. *)
Definition ids_match (nodes : gmap string node) : Prop :=
  forall d nd m, nodes !! d = Some nd -> entry_meta (d, nd) = Some m -> sm_ID (fm_meta m) = d.

Lemma metas_of_delete nodes m :
  ids_match nodes -> m ∈ metas_of nodes ->
  metas_of nodes ≡ₚ m :: metas_of (delete (sm_ID (fm_meta m)) nodes).
Proof.
  intros Hid Hm. unfold metas_of in *. apply list_elem_of_omap in Hm as ([d nd] & Hin & He).
  apply elem_of_map_to_list in Hin. rewrite (Hid d nd m Hin He).
  rewrite <- (omap_perm _ _ _ (map_to_list_delete nodes d nd Hin)). cbn. by rewrite He.
Qed.

Lemma ids_match_delete nodes d : ids_match nodes -> ids_match (delete d nodes).
Proof. intros Hid x nd m [_ Hx]%lookup_delete_Some. by apply Hid. Qed.

Lemma calm_reap_loop D : forall T s,
  calm s -> ids_match (fs_nodes s) -> metas_of (fs_nodes s) ≡ₚ (D ++ T)%list ->
  exists s', reap_loop D s = (None, s') /\ calm s' /\ metas_of (fs_nodes s') ≡ₚ T /\
    fs_nodes s' ⊆ fs_nodes s.
Proof.
  induction D as [|m D IH]; intros T s Hc Hid Hp; cbn [reap_loop].
  { by exists s. }
  unfold os_RemoveAll. rewrite calm_next by done.
  set (s1 := set_nodes (delete (sm_ID (fm_meta m)) (fs_nodes s)) s).
  destruct (IH T s1) as (s2 & E & Hc2 & Hp2 & Hsub); [done|by apply ids_match_delete| |].
  - apply (Permutation_cons_inv (a := m)). change (fs_nodes s1) with (delete (sm_ID (fm_meta m)) (fs_nodes s)).
    rewrite <- metas_of_delete; [done|done|]. rewrite Hp. by left.
  - exists s2. split_and!; [done..|]. etrans; [exact Hsub|]. apply delete_subseteq.
Qed.

Lemma calm_Reap retain s :
  calm s -> ids_match (fs_nodes s) ->
  exists l s', ReapSnapshots retain s = (None, s') /\ calm s' /\ l ≡ₚ metas_of (fs_nodes s) /\
    metas_of (fs_nodes s') ≡ₚ take (Z.to_nat retain) (merge_sort meta_newer l) /\
    fs_nodes s' ⊆ fs_nodes s.
Proof.
  intros Hc Hid. unfold ReapSnapshots. destruct (calm_getSnapshots s Hc) as (l & -> & Hl). exists l.
  destruct (calm_reap_loop (drop (Z.to_nat retain) (merge_sort meta_newer l))
              (take (Z.to_nat retain) (merge_sort meta_newer l)) s) as (s' & -> & Hc' & Hp' & Hs'); [done|done| |].
  - rewrite (Permutation_app_comm (drop _ _)), take_drop, merge_sort_Permutation. by symmetry.
  - exists s'. by split_and!.
Qed.

(** *** Round trip *)

Lemma inv_ids_match used ks s : snap_inv used ks s -> ids_match (fs_nodes s).
Proof.
  intros Hinv d nd m Hd He. destruct (inv_nodes _ _ _ Hinv d nd Hd) as (fs & -> & n & Hn & Hdn & Hm).
  unfold entry_meta in He. cbn in He. destruct (HasSuffix d tmpSuffix) eqn:Hs; [done|].
  destruct (fs !! metaFilePath) as [c|] eqn:Hc; [|done]. cbn in He.
  destruct (json_Decode c) as [m'|] eqn:Hdec; [|done]. injection He as ->.
  destruct (Hm c m eq_refl Hdec) as [-> _]. destruct Hdn as [->| ->]; [done|]. by rewrite HasSuffix_tmp in Hs.
Qed.

(** Closing a sink on a working disk: the directory is in place, with its metadata and state. *)
Lemma calm_close_steps k s w n :
  calm s -> sk_open k = true -> sk_werr k = None -> tracks k w s -> sk_dir k = n ++ tmpSuffix ->
  id_ok n -> fs_nodes s !! n = None ->
  exists k1 s1 s2 s3 fs,
    finalize (sk_set_closed k) s = (None, k1, s1) /\ writeMeta k1 s1 = (None, s2) /\
    os_Rename (sk_dir k1) (TrimSuffix (sk_dir k1) tmpSuffix) s2 = (None, s3) /\ calm s3 /\
    fs !! metaFilePath = Some (json_Encode (sealed_meta (sk_meta k) w)) /\
    fs !! stateFilePath = Some w /\
    fs_nodes s3 = <[n := Dir fs]> (delete (n ++ tmpSuffix) (fs_nodes s)).
Proof.
  intros Hc Ho He Ht Hd Hid Hnone.
  destruct (calm_finalize (sk_set_closed k) s Hc Ho He) as (k1 & s1 & E1 & Hc1).
  pose proof E1 as Hf. apply (finalize_spec _ _ w) in Hf as ([Hfr _] & Hd1 & _ & _ & Hm1 & fs1 & Hfs1 & Hst1); [|done|done].
  cbn [sk_set_closed sk_dir sk_meta] in *. rewrite <- Hd1 in Hfs1.
  destruct (calm_writeMeta k1 s1 fs1 Hc1 Hfs1) as (s2 & E2 & Hc2 & Hs2). rewrite Hm1, Hd1, Hd in Hs2.
  assert (Hnt : n <> n ++ tmpSuffix) by (intros E; by eapply id_ok_not_tmp in E).
  exists k1, s1, s2, (set_nodes (<[n := Dir (<[metaFilePath := json_Encode (sealed_meta (sk_meta k) w)]> fs1)]>
    (delete (n ++ tmpSuffix) (fs_nodes s2))) s2), (<[metaFilePath := json_Encode (sealed_meta (sk_meta k) w)]> fs1).
  split; [done|]. split; [done|]. split.
  { rewrite Hd1, Hd, TrimSuffix_tmp. unfold os_Rename. rewrite calm_next by done.
    rewrite Hs2, lookup_insert_eq, lookup_insert_ne by done.
    rewrite Hfr by congruence. by rewrite Hnone. }
  split; [done|]. split; [apply lookup_insert_eq|]. split; [by rewrite lookup_insert_ne|].
  cbn. f_equal. rewrite Hs2, delete_insert_eq. apply map_eq. intros x.
  destruct (decide (x = n ++ tmpSuffix)) as [->|Hx]; [by rewrite !lookup_delete_eq|].
  rewrite !lookup_delete_ne by done. apply Hfr. congruence.
Qed.

Lemma calm_Open id s fs m c :
  calm s -> meta_ok m -> fs_nodes s !! id = Some (Dir fs) ->
  fs !! metaFilePath = Some (json_Encode m) -> fs !! stateFilePath = Some c ->
  fm_CRC m = crc64_Sum (crc64_checksum c) -> Open_snapshot id s = (inl (fm_meta m, c), s).
Proof.
  intros Hc Hm Hd Hmc Hst Hcrc. unfold Open_snapshot, readMeta, os_Open.
  rewrite calm_next, Hd, Hmc, calm_touch, json_roundtrip by done.
  rewrite calm_next, Hd, Hst, calm_touch by done. rewrite bool_decide_eq_true_2 by done. cbn.
  by rewrite calm_touch.
Qed.

(** A new snapshot after any history: see [snapshot_roundtrip]. *)
Lemma snapshot_cycle retain os faults ks s now index term peers ps :
  Forall snap_op_ok os -> NoDup (omap op_name os) ->
  run_snap_ops retain os ([], mkFS ∅ faults) = (ks, s) -> fs_faults s = [] ->
  let n := snapshotName now term index in
  let new := sealed_meta (mkFileSnapshotMeta (mkSnapshotMeta n index term peers 0) "") (concat_all ps) in
  n ∉ omap op_name os -> uint64_ok index -> uint64_ok term ->
  exists k0 s0 k1 s1 k2 s2 all l,
    Create now index term peers s = (inl k0, s0) /\ write_all ps k0 s0 = (None, k1, s1) /\
    sink_Close retain k1 s1 = (None, k2, s2) /\
    all ≡ₚ new :: metas_of (fs_nodes s) /\
    getSnapshots s2 = (inl l, s2) /\ Sorted meta_newer l /\
    l ≡ₚ take (Z.to_nat retain) (merge_sort meta_newer all) /\
    (new ∈ l -> Open_snapshot n s2 = (inl (fm_meta new, concat_all ps), s2)).
Proof.
  intros Hok Hnd Hrun Hcalm n new Hn Hix Htm. change (calm s) in Hcalm.
  destruct (history_run _ _ _ _ _ Hok Hnd Hrun) as [Hinv _].
  assert (Hid : id_ok n) by apply snapshotName_id_ok.
  pose proof (inv_fresh _ _ _ _ n Hinv Hn Hid (or_introl eq_refl)) as Hnone.
  pose proof (inv_fresh _ _ _ _ (n ++ tmpSuffix) Hinv Hn Hid (or_intror eq_refl)) as Hnone'.
  destruct (calm_Create now index term peers s Hcalm Hnone') as (s0 & E0 & Hc0). fold n in E0.
  set (k0 := mkSink _ _ _ _ _ _ _) in E0. pose proof E0 as Hcr.
  apply Create_spec in Hcr as (Hf0 & _ & Hk0); [|done]. destruct (Hk0 k0 eq_refl) as [_ Ht0].
  destruct (calm_write_all ps k0 s0 "" Hc0 eq_refl eq_refl Ht0) as (k1 & s1 & E1 & Hc1 & He1 & (Hd1 & Hm1 & Ho1 & Hcl1) & [Hf1 _] & Ht1).
  assert (Hfr : forall x, x <> n ++ tmpSuffix -> fs_nodes s1 !! x = fs_nodes s !! x).
  { intros x Hx. by rewrite Hf1, Hf0. }
  assert (Hnt : n <> n ++ tmpSuffix) by (intros E; by eapply id_ok_not_tmp in E).
  destruct (calm_close_steps k1 s1 (concat_all ps) n) as (k2 & sa & sb & sc & fs & Ea & Eb & Ec & Hcc & Hmeta & Hstate & Hnodes);
    [done|by rewrite Ho1|done|done|by rewrite Hd1|done|by rewrite Hfr|].
  rewrite Hm1 in Hmeta. change (sealed_meta (sk_meta k0) (concat_all ps)) with new in Hmeta.
  assert (Hnodes' : fs_nodes sc = <[n := Dir fs]> (fs_nodes s)).
  { rewrite Hnodes. f_equal. apply map_eq. intros x. destruct (decide (x = n ++ tmpSuffix)) as [->|Hx].
    - by rewrite lookup_delete_eq.
    - rewrite lookup_delete_ne by done. by apply Hfr. }
  assert (Hnew : meta_ok new) by by split_and!.
  assert (Hentry : entry_meta (n, Dir fs) = Some new).
  { unfold entry_meta. cbn. rewrite HasSuffix_tmp_id, Hmeta by done. cbn. by rewrite json_roundtrip. }
  assert (Hids : ids_match (fs_nodes sc)).
  { intros d nd m. rewrite Hnodes'. intros [[<- <-]|[_ Hd]]%lookup_insert_Some He.
    - rewrite Hentry in He. by injection He as <-.
    - by eapply inv_ids_match. }
  destruct (calm_Reap retain sc Hcc Hids) as (all & s2 & E2 & Hc2 & Hall & Hmetas & Hsub).
  destruct (calm_getSnapshots s2 Hc2) as (l & El & Hl).
  exists k0, s0, k1, s1, k2, s2, all, (merge_sort meta_newer l). split; [done|]. split; [done|]. split.
  { unfold sink_Close. rewrite Hcl1. cbn. by rewrite Ea, Eb, Ec, E2. }
  split.
  { rewrite Hall, Hnodes'. unfold metas_of. rewrite (omap_perm _ _ _ (map_to_list_insert _ _ _ Hnone)).
    cbn [omap list_omap]. by rewrite Hentry. }
  split; [done|]. split; [apply Sorted_merge_sort, _|].
  split; [by rewrite merge_sort_Permutation, Hl|]. rewrite merge_sort_Permutation, Hl.
  intros ([d nd] & Hin & He)%list_elem_of_omap. apply elem_of_map_to_list in Hin.
  pose proof (lookup_weaken _ _ _ _ Hin Hsub) as Hin'.
  assert (d = n) as -> by exact (eq_sym (Hids d nd new Hin' He)).
  rewrite Hnodes', lookup_insert_eq in Hin'. injection Hin' as <-.
  by eapply calm_Open.
Qed.
(** Snapshots round trip, and old ones go.  After any history of the store, once system calls
    succeed: a new snapshot is created, written in any pieces and closed without error; the store
    then lists exactly the [retain] newest of the old snapshots and the new one, newest first; and
    opening the new one, if it is among them, returns its metadata and the bytes written. *)
Theorem snapshot_roundtrip retain os faults ks s now index term peers ps :
  Forall snap_op_ok os -> NoDup (omap op_name os) ->
  run_snap_ops retain os ([], mkFS ∅ faults) = (ks, s) -> fs_faults s = [] ->
  let n := snapshotName now term index in
  let new := sealed_meta (mkFileSnapshotMeta (mkSnapshotMeta n index term peers 0) "") (concat_all ps) in
  n ∉ omap op_name os -> uint64_ok index -> uint64_ok term ->
  exists k0 s0 k1 s1 k2 s2 all l,
    Create now index term peers s = (inl k0, s0) /\ write_all ps k0 s0 = (None, k1, s1) /\
    sink_Close retain k1 s1 = (None, k2, s2) /\
    all ≡ₚ new :: metas_of (fs_nodes s) /\
    getSnapshots s2 = (inl l, s2) /\ Sorted meta_newer l /\
    l ≡ₚ take (Z.to_nat retain) (merge_sort meta_newer all) /\
    (new ∈ l -> Open_snapshot n s2 = (inl (fm_meta new, concat_all ps), s2)).
Proof. apply snapshot_cycle. Qed.
End Calm.

(** ** A concrete codec, and examples *)

#[export] Instance SnapshotMeta_eq_dec : EqDecision SnapshotMeta.
Proof. solve_decision. Defined.

#[export] Instance fileSnapshotMeta_eq_dec : EqDecision fileSnapshotMeta.
Proof. solve_decision. Defined.

#[export] Instance fileSnapshotMeta_countable : Countable fileSnapshotMeta.
Proof.
  refine (inj_countable'
    (fun m => let i := fm_meta m in (sm_ID i, sm_Index i, sm_Term i, sm_Peers i, sm_Size i, fm_CRC m))
    (fun '(a, b, c, d, e, f) => mkFileSnapshotMeta (mkSnapshotMeta a b c d e) f) _).
  by intros [[]].
Defined.

(** The bits of a number, closed by a dot. *)
Fixpoint bits_encode (p : positive) : string :=
  match p with
  | xH => "."
  | xO p => String "0" (bits_encode p)
  | xI p => String "1" (bits_encode p)
  end.

Fixpoint bits_decode (s : string) : option positive :=
  match s with
  | "" => None
  | String c s =>
      if decide (c = "0"%char) then xO <$> bits_decode s
      else if decide (c = "1"%char) then xI <$> bits_decode s
      else Some xH
  end.

Lemma bits_truncated p : forall n,
  bits_decode (str_take n (bits_encode p)) = Some p \/ bits_decode (str_take n (bits_encode p)) = None.
Proof.
  induction p as [p IH|p IH|]; intros [|n]; cbn; try (by right); try (by left).
  - destruct (IH n) as [-> | ->]; [by left|by right].
  - destruct (IH n) as [-> | ->]; [by left|by right].
Qed.

Lemma bits_roundtrip p : bits_decode (bits_encode p) = Some p.
Proof. induction p as [p IH|p IH|]; cbn; [by rewrite IH..|done]. Qed.

#[export] Instance bits_codec : MetaCodec := {
  json_Encode m := bits_encode (encode m);
  json_Decode s :=
    match bits_decode s with
    | Some p => match decode p with Some m => inl m | None => inr (Errorf "invalid metadata") end
    | None => inr (Errorf "unexpected EOF")
    end;
}.

#[export] Instance bits_codec_laws : MetaCodecLaws.
Proof.
  split; unfold json_Decode, json_Encode, bits_codec.
  - intros m _. by rewrite bits_roundtrip, countable.decode_encode.
  - intros m n _. destruct (bits_truncated (encode m) n) as [-> | ->]; [left; by rewrite countable.decode_encode|].
    right. by eexists.
Qed.

(** Two sinks at a time: the first is closed, the second, whose file takes only half of a long
    write, is left behind. *)
Definition snap_ops_ex : list snap_op :=
  [OpCreate (7 * Millisecond) 5 2 "p"; OpWrite 0 "hel"; OpCreate (8 * Millisecond) 6 2 "p";
   OpWrite 0 "lo"; OpWrite 1 "x"; OpClose 0; OpClose 1].
Definition snap_faults_ex : list (option io_fault) :=
  replicate 17 None ++ [Some (mkIoFault 0 (Errorf "disk full"))]%list.
Definition snap_run_ex : sinks * FS := run_snap_ops 2 snap_ops_ex ([], mkFS ∅ snap_faults_ex).

Definition snap_meta_ex : SnapshotMeta := mkSnapshotMeta "2-5-7" 5 2 "p" 5.

Lemma opened_snapshot_is_complete_witness :
  exists i k now, snap_run_ex.1 !! i = Some (k, "hello") /\ sk_closed k = true /\
    OpCreate now 5 2 "p" ∈ snap_ops_ex /\ "2-5-7" = snapshotName now 2 5 /\ 5 = Z.of_nat 5.
Proof.
  apply (opened_snapshot_is_complete 2 snap_ops_ex snap_faults_ex snap_run_ex.1 snap_run_ex.2 "2-5-7"
           snap_meta_ex "hello" snap_run_ex.2).
  - by repeat constructor.
  - apply (bool_decide_unpack _). vm_compute. exact I.
  - vm_compute. reflexivity.
  - vm_compute. reflexivity.
Defined.

Lemma snapshot_roundtrip_witness :
  exists k0 s0 k1 s1 k2 s2 all l,
    Create (9 * Millisecond) 7 2 "q" snap_run_ex.2 = (inl k0, s0) /\
    write_all ["wor"; "ld"] k0 s0 = (None, k1, s1) /\ sink_Close 2 k1 s1 = (None, k2, s2) /\
    all ≡ₚ sealed_meta (mkFileSnapshotMeta (mkSnapshotMeta "2-7-9" 7 2 "q" 0) "") "world"
             :: metas_of (fs_nodes snap_run_ex.2) /\
    getSnapshots s2 = (inl l, s2) /\ Sorted meta_newer l /\
    l ≡ₚ take 2 (merge_sort meta_newer all) /\
    (sealed_meta (mkFileSnapshotMeta (mkSnapshotMeta "2-7-9" 7 2 "q" 0) "") "world" ∈ l ->
     Open_snapshot "2-7-9" s2 = (inl (mkSnapshotMeta "2-7-9" 7 2 "q" 5, "world"), s2)).
Proof.
  apply (snapshot_roundtrip 2 snap_ops_ex snap_faults_ex snap_run_ex.1 snap_run_ex.2
           (9 * Millisecond) 7 2 "q" ["wor"; "ld"]).
  - by repeat constructor.
  - apply (bool_decide_unpack _). vm_compute. exact I.
  - vm_compute. reflexivity.
  - vm_compute. reflexivity.
  - apply (bool_decide_unpack _). vm_compute. exact I.
  - done.
  - done.
Defined.

(** A snapshot can be lost without a word.  The error of the deferred flush in [writeMeta] is
    dropped: when writing the final metadata fails, as on a full disk, [Close] moves the snapshot
    into place and reports success, but its metadata cannot be read and the store lists nothing.  The
    node then discards the log entries the snapshot was meant to replace. *)
Theorem close_hides_lost_metadata :
  exists k0 s0 k1 s1 k2 s2,
    Create (7 * Millisecond) 5 2 "p"
      (mkFS ∅ (replicate 9 None ++ [Some (mkIoFault 3 (Errorf "disk full"))])%list) = (inl k0, s0) /\
    write_all ["hello"] k0 s0 = (None, k1, s1) /\
    sink_Close 2 k1 s1 = (None, k2, s2) /\
    (List_snapshots 2 s2).1 = inl [].
Proof.
  eexists _, _, _, _, _, _. repeat (split; [vm_compute; reflexivity|]). vm_compute. reflexivity.
Qed.
