(* ===== verification/Raft.v ===== *)
(** * Raft: the node (internal/raft/raft.go)

    The state of a node and the handlers its main loop runs to completion one at a time: the three
    RPCs, the start of an election and the tally of its votes, the application of committed entries,
    log compaction, snapshots, the restart from disk.  A handler takes the node to a new node
    and its response; a panic is an outcome of its own.

    The log store and the stable store are any implementations of the interfaces of BoltStore.v.
    The peer sets in log entries are read by the msgpack codec of the environment.  Channels are
    queues: [r_fsmCommitCh] to the state machine, [r_verifyCh] to the main loop (the source bounds them
    at 128 and 64 and blocks the sender).  A future is the number of the channel its answer is sent on;
    the answers are collected in [r_responses].  The replication streams, goroutines of their own, keep
    their state in [r_leaderState]; their steps are in RaftReplication.v and RaftLeader.v. *)
From S2P Require Import Prelude GoStrings RaftBase Inflight BoltStore.

Open Scope string_scope.
Open Scope Z_scope.
Local Open Scope go_scope.

Definition keyCurrentTerm : string := "CurrentTerm".
Definition keyLastVoteTerm : string := "LastVoteTerm".
Definition keyLastVoteCand : string := "LastVoteCand".

(** ** Futures and the state of a leader *)

(** [verifyFuture]: whether its [notifyCh] is set, and the votes so far.  It is shared between the main
    loop and the replication streams, so it lives in a store of its own, under the number of its
    channel. *)
Record verifyFuture := mkVerifyFuture {
  vf_notifyCh : bool;
  vf_quorumSize : Z;
  vf_votes : Z;
}.

(** [followerReplication]: the state of the stream to one follower.  [fr_stopCh] is the index sent
    before the channel is closed; [fr_triggerCh] and [fr_notifyCh] are channels of capacity one;
    [fr_notify] holds the verify futures that wait for this follower; [fr_office] names the office of the
    leader whose tracker and step-down channel the stream was given. *)
Record followerReplication := mkFollowerReplication {
  fr_peer : string;
  fr_stopCh : option Z;
  fr_triggerCh : bool;
  fr_currentTerm : Z;
  fr_matchIndex : Z;
  fr_nextIndex : Z;
  fr_lastContact : Time;
  fr_failures : Z;
  fr_notifyCh : bool;
  fr_notify : list nat;
  fr_allowPipeline : bool;
  fr_office : Z;
}.

(** [leaderState]: [ls_stepDown] is a channel of capacity one; [ls_stopping] holds the streams that
    were taken out of [replState] and told to stop; [commitCh] belongs to the tracker.  [ls_office] tells
    apart the trackers and channels of the offices of a node: it is the term in which the office began. *)
Record leaderState := mkLeaderState {
  ls_inflight : inflight;
  ls_replState : gmap string followerReplication;
  ls_stopping : list followerReplication;
  ls_notify : gset nat;
  ls_stepDown : bool;
  ls_office : Z;
}.

(** An entry on its way to the state machine. *)
Record commitTuple := mkCommitTuple {
  ct_log : Log;
  ct_future : option logFuture;
}.

(** What the handlers use from outside of the node: the msgpack codec of peer sets, and the choice of
    the runtime when the state machine can take an entry while the node is shutting down. *)
Record raftEnv := mkRaftEnv {
  env_encodePeers : list string -> string + error;
  env_decodePeers : string -> list string + error;
  env_shutdownFirst : Log -> bool;
}.

Record Raft (L K : Type) := mkRaft {
  r_raftState : raftState;
  r_conf : RaftConfig;
  r_leader : string;
  r_localAddr : string;
  r_peers : list string;
  r_peerStore : StaticPeers;
  r_logs : L;
  r_stable : K;
  r_lastContact : Time;
  r_fsmCommitCh : list commitTuple;
  r_responses : list (nat * option error);
  r_shutdown : bool;
  r_leaderState : option leaderState;
  r_verifyFutures : gmap nat verifyFuture;
  r_verifyCh : list nat;
}.
Arguments mkRaft {L K}.
Arguments r_raftState {L K}.
Arguments r_conf {L K}.
Arguments r_leader {L K}.
Arguments r_localAddr {L K}.
Arguments r_peers {L K}.
Arguments r_peerStore {L K}.
Arguments r_logs {L K}.
Arguments r_stable {L K}.
Arguments r_lastContact {L K}.
Arguments r_fsmCommitCh {L K}.
Arguments r_responses {L K}.
Arguments r_shutdown {L K}.
Arguments r_leaderState {L K}.
Arguments r_verifyFutures {L K}.
Arguments r_verifyCh {L K}.

Section Raft.
Context {L K : Type} {HL : LogStore L} {HK : StableStore K}.
Context (env : raftEnv).
Implicit Types (r : Raft L K).

(** ** Field updates *)

Definition upd_raftState (f : raftState -> raftState) r : Raft L K :=
  mkRaft (f (r_raftState r)) (r_conf r) (r_leader r) (r_localAddr r) (r_peers r) (r_peerStore r)
    (r_logs r) (r_stable r) (r_lastContact r) (r_fsmCommitCh r) (r_responses r) (r_shutdown r)
    (r_leaderState r) (r_verifyFutures r) (r_verifyCh r).
Definition set_rconf (c : RaftConfig) r : Raft L K :=
  mkRaft (r_raftState r) c (r_leader r) (r_localAddr r) (r_peers r) (r_peerStore r) (r_logs r)
    (r_stable r) (r_lastContact r) (r_fsmCommitCh r) (r_responses r) (r_shutdown r)
    (r_leaderState r) (r_verifyFutures r) (r_verifyCh r).
Definition set_leader (l : string) r : Raft L K :=
  mkRaft (r_raftState r) (r_conf r) l (r_localAddr r) (r_peers r) (r_peerStore r) (r_logs r)
    (r_stable r) (r_lastContact r) (r_fsmCommitCh r) (r_responses r) (r_shutdown r)
    (r_leaderState r) (r_verifyFutures r) (r_verifyCh r).
Definition set_peers (peers : list string) (ps : StaticPeers) r : Raft L K :=
  mkRaft (r_raftState r) (r_conf r) (r_leader r) (r_localAddr r) peers ps (r_logs r) (r_stable r)
    (r_lastContact r) (r_fsmCommitCh r) (r_responses r) (r_shutdown r) (r_leaderState r)
    (r_verifyFutures r) (r_verifyCh r).
Definition set_rlogs (logs : L) r : Raft L K :=
  mkRaft (r_raftState r) (r_conf r) (r_leader r) (r_localAddr r) (r_peers r) (r_peerStore r) logs
    (r_stable r) (r_lastContact r) (r_fsmCommitCh r) (r_responses r) (r_shutdown r)
    (r_leaderState r) (r_verifyFutures r) (r_verifyCh r).
Definition set_stable (k : K) r : Raft L K :=
  mkRaft (r_raftState r) (r_conf r) (r_leader r) (r_localAddr r) (r_peers r) (r_peerStore r)
    (r_logs r) k (r_lastContact r) (r_fsmCommitCh r) (r_responses r) (r_shutdown r)
    (r_leaderState r) (r_verifyFutures r) (r_verifyCh r).
Definition setLastContact (now : Time) r : Raft L K :=
  mkRaft (r_raftState r) (r_conf r) (r_leader r) (r_localAddr r) (r_peers r) (r_peerStore r)
    (r_logs r) (r_stable r) now (r_fsmCommitCh r) (r_responses r) (r_shutdown r) (r_leaderState r)
    (r_verifyFutures r) (r_verifyCh r).
Definition set_fsmCommitCh (q : list commitTuple) r : Raft L K :=
  mkRaft (r_raftState r) (r_conf r) (r_leader r) (r_localAddr r) (r_peers r) (r_peerStore r)
    (r_logs r) (r_stable r) (r_lastContact r) q (r_responses r) (r_shutdown r) (r_leaderState r)
    (r_verifyFutures r) (r_verifyCh r).
Definition set_responses (q : list (nat * option error)) r : Raft L K :=
  mkRaft (r_raftState r) (r_conf r) (r_leader r) (r_localAddr r) (r_peers r) (r_peerStore r)
    (r_logs r) (r_stable r) (r_lastContact r) (r_fsmCommitCh r) q (r_shutdown r) (r_leaderState r)
    (r_verifyFutures r) (r_verifyCh r).
Definition set_shutdown r : Raft L K :=
  mkRaft (r_raftState r) (r_conf r) (r_leader r) (r_localAddr r) (r_peers r) (r_peerStore r)
    (r_logs r) (r_stable r) (r_lastContact r) (r_fsmCommitCh r) (r_responses r) true
    (r_leaderState r) (r_verifyFutures r) (r_verifyCh r).
Definition set_leaderState (ls : option leaderState) r : Raft L K :=
  mkRaft (r_raftState r) (r_conf r) (r_leader r) (r_localAddr r) (r_peers r) (r_peerStore r)
    (r_logs r) (r_stable r) (r_lastContact r) (r_fsmCommitCh r) (r_responses r) (r_shutdown r) ls
    (r_verifyFutures r) (r_verifyCh r).
Definition set_verifyFutures (vs : gmap nat verifyFuture) r : Raft L K :=
  mkRaft (r_raftState r) (r_conf r) (r_leader r) (r_localAddr r) (r_peers r) (r_peerStore r)
    (r_logs r) (r_stable r) (r_lastContact r) (r_fsmCommitCh r) (r_responses r) (r_shutdown r)
    (r_leaderState r) vs (r_verifyCh r).
Definition set_verifyCh (q : list nat) r : Raft L K :=
  mkRaft (r_raftState r) (r_conf r) (r_leader r) (r_localAddr r) (r_peers r) (r_peerStore r)
    (r_logs r) (r_stable r) (r_lastContact r) (r_fsmCommitCh r) (r_responses r) (r_shutdown r)
    (r_leaderState r) (r_verifyFutures r) q.

(** [deferError.respond]: only the first answer is sent, none on a nil channel. *)
Definition respond (ch : option nat) (e : option error) r : Raft L K :=
  match ch with
  | None => r
  | Some id =>
      if decide (id ∈ (r_responses r).*1) then r
      else set_responses (r_responses r ++ [(id, e)])%list r
  end.

(** [deferError.Error]: the answer, [None] while there is none to receive. *)
Definition Future_Error (ch : nat) r : option (option error) :=
  snd <$> head (filter (fun p => p.1 = ch) (r_responses r)).

Definition getState r : RaftState := rs_state (r_raftState r).
Definition getCurrentTerm r : Z := rs_currentTerm (r_raftState r).
Definition quorumSize r : Z := Z.quot (Z.of_nat (length (r_peers r)) + 1) 2 + 1.

(** [Raft.setState]: every transition forgets the leader. *)
Definition setState (s : RaftState) r : Raft L K := upd_raftState (rs_setState s) (set_leader "" r).

(** [Raft.setCurrentTerm]: on disk first, a panic when that fails. *)
Definition setCurrentTerm (t : Z) r : outcome (Raft L K) :=
  let! (err, k) := SetUint64 keyCurrentTerm t (r_stable r) in
  match err with
  | Some e => Panic ("failed to save current term: " ++ error_msg e)
  | None => Return (upd_raftState (rs_setCurrentTerm t) (set_stable k r))
  end.

(** [persistVote]: the term, then the candidate, in two transactions. *)
Definition persistVote (term : Z) (candidate : string) r : outcome (option error * Raft L K) :=
  let! (err, k) := SetUint64 keyLastVoteTerm term (r_stable r) in
  match err with
  | Some e => Return (Some e, set_stable k r)
  | None =>
      let! (err, k) := stable_Set keyLastVoteCand candidate k in
      Return (err, set_stable k r)
  end.

(** [Shutdown]. *)
Definition Raft_Shutdown r : Raft L K :=
  if r_shutdown r then r else setState Shutdown (set_shutdown r).

(** ** Votes *)

(** A value of the stable store: a missing one ("not found") reads as the zero value; any other error
    is [None]. *)
Definition read_or {A} (zero : A) (v : A + error) : option A :=
  match v with
  | inl a => Some a
  | inr e => if decide (error_msg e = "not found") then Some zero else None
  end.

(** [requestVote].  An empty candidate is read back from the store as nil. *)
Definition requestVote (now : Time) (req : RequestVoteRequest) r
    : outcome (RequestVoteResponse * Raft L K) :=
  let! _ := encodePeers (env_encodePeers env) (r_peers r) in
  let resp := fun (term : Z) (granted : bool) => mkRequestVoteResponse term (r_peers r) granted in
  let candidate := DecodePeer (rv_Candidate req) in
  if negb (bool_decide (r_leader r = "")) && negb (bool_decide (r_leader r = candidate)) then
    Return (resp (getCurrentTerm r) false, r)
  else if rv_Term req <? getCurrentTerm r then Return (resp (getCurrentTerm r) false, r)
  else
    let! (term, r) :=
      (if rv_Term req >? getCurrentTerm r then
         let! r := setCurrentTerm (rv_Term req) (setState Follower r) in Return (rv_Term req, r)
       else Return (getCurrentTerm r, r)) in
    let! (lastVoteTerm, k) := GetUint64 keyLastVoteTerm (r_stable r) in
    let r := set_stable k r in
    match read_or 0 lastVoteTerm with
    | None => Return (resp term false, r)
    | Some lastVoteTerm =>
        let! (lastVoteCand, k) := stable_Get keyLastVoteCand (r_stable r) in
        let r := set_stable k r in
        match read_or "" lastVoteCand with
        | None => Return (resp term false, r)
        | Some lastVoteCand =>
            if (lastVoteTerm =? rv_Term req) && negb (bool_decide (lastVoteCand = "")) then
              Return (resp term (bool_decide (lastVoteCand = rv_Candidate req)), r)
            else
              let '(lastIdx, lastTerm) := getLastEntry (r_raftState r) in
              if lastTerm >? rv_LastLogTerm req then Return (resp term false, r)
              else if (lastTerm =? rv_LastLogTerm req) && (lastIdx >? rv_LastLogIndex req) then
                Return (resp term false, r)
              else
                let! (err, r) := persistVote (rv_Term req) (rv_Candidate req) r in
                match err with
                | Some _ => Return (resp term false, r)
                | None => Return (resp term true, setLastContact now r)
                end
        end
    end.

(** ** Elections *)

(** [runFollower]: the heartbeat timer fires. *)
Definition heartbeatTimeout (now : Time) r : Raft L K :=
  if Time_Sub now (r_lastContact r) <? rc_HeartbeatTimeout (r_conf r) then r
  else
    let r := set_leader "" r in
    if (Z.of_nat (length (r_peers r)) =? 0) && negb (rc_EnableSingleNode (r_conf r)) then r
    else setState Candidate r.

(** [electSelf]: the request sent to every peer; [true] when our own vote was persisted and the
    channel of votes, with our vote in it, is returned; [false] for a nil channel. *)
Definition electSelf r : outcome (RequestVoteRequest * bool * Raft L K) :=
  let! r := setCurrentTerm (wrapu64 (getCurrentTerm r + 1)) r in
  let '(lastIdx, lastTerm) := getLastEntry (r_raftState r) in
  let req := mkRequestVoteRequest (getCurrentTerm r) (EncodePeer (r_localAddr r)) lastIdx lastTerm in
  let! (err, r) := persistVote (rv_Term req) (rv_Candidate req) r in
  match err with
  | Some _ => Return (req, false, r)
  | None => Return (req, true, r)
  end.

(** [runCandidate]: a vote arrives; the tally so far and the node. *)
Definition candidateVote (votesNeeded : Z) (vote : RequestVoteResponse) (grantedVotes : Z) r
    : outcome (Z * Raft L K) :=
  if rvr_Term vote >? getCurrentTerm r then
    let! r := setCurrentTerm (rvr_Term vote) (setState Follower r) in Return (grantedVotes, r)
  else
    let grantedVotes := if rvr_Granted vote then grantedVotes + 1 else grantedVotes in
    if grantedVotes >=? votesNeeded then
      Return (grantedVotes, set_leader (r_localAddr r) (setState Leader r))
    else Return (grantedVotes, r).

(** ** Replication streams *)

(** [startReplication]: a new stream, triggered at once. *)
Definition startReplication (now : Time) (peer : string) r : outcome (Raft L K) :=
  match r_leaderState r with
  | None => Panic "assignment to entry in nil map"
  | Some ls =>
      let lastIdx := getLastIndex (r_raftState r) in
      let s := mkFollowerReplication peer None true (getCurrentTerm r) 0 (wrapu64 (lastIdx + 1)) now 0
                 false [] false (ls_office ls) in
      Return (set_leaderState (Some (mkLeaderState (ls_inflight ls) (<[peer := s]> (ls_replState ls))
                (ls_stopping ls) (ls_notify ls) (ls_stepDown ls) (ls_office ls))) r)
  end.

Definition replicating (p : string) r : bool :=
  match r_leaderState r with
  | None => false
  | Some ls => bool_decide (is_Some (ls_replState ls !! p))
  end.

(** The peers without a stream get one. *)
Fixpoint start_missing (now : Time) (peers : list string) r : outcome (Raft L K) :=
  match peers with
  | [] => Return r
  | p :: peers =>
      if replicating p r then start_missing now peers r
      else let! r := startReplication now p r in start_missing now peers r
  end.

Definition stop_at (idx : Z) (s : followerReplication) : followerReplication :=
  mkFollowerReplication (fr_peer s) (Some idx) (fr_triggerCh s) (fr_currentTerm s) (fr_matchIndex s)
    (fr_nextIndex s) (fr_lastContact s) (fr_failures s) (fr_notifyCh s) (fr_notify s)
    (fr_allowPipeline s) (fr_office s).

(** The streams to nodes that are not peers any more replicate up to [idx] and stop. *)
Definition stop_removed (idx : Z) r : Raft L K :=
  match r_leaderState r with
  | None => r
  | Some ls =>
      let gone := filter (fun p => PeerContained (r_peers r) (fr_peer p.2) = false) (ls_replState ls) in
      set_leaderState (Some (mkLeaderState (ls_inflight ls) (ls_replState ls ∖ gone)
        (ls_stopping ls ++ (stop_at idx <$> (map_to_list gone).*2))%list (ls_notify ls)
        (ls_stepDown ls) (ls_office ls))) r
  end.

(** ** Applying committed entries *)

Section Apply.
Context (now : Time).

(** The peer set of a committed (or, with [precommit], a dispatched) membership entry. *)
Definition applyPeerSet (l : Log) (precommit : bool) (peers : list string) r
    : outcome (bool * Raft L K) :=
  let removeSelf :=
    negb (PeerContained peers (r_localAddr r)) && bool_decide (log_Type l = LogRemovePeer) in
  let r :=
    if removeSelf then
      if precommit then r
      else set_peers [] (StaticPeers_SetPeers [r_localAddr r] (r_peerStore r)) r
    else set_peers (ExcludePeer peers (r_localAddr r))
           (StaticPeers_SetPeers peers (r_peerStore r)) r in
  let! r := if bool_decide (getState r = Leader) then start_missing now (r_peers r) r else Return r in
  let r := if bool_decide (getState r = Leader) && negb precommit then stop_removed (log_Index l) r
           else r in
  let r :=
    if removeSelf && negb precommit then
      if rc_ShutdownOnRemove (r_conf r) then Raft_Shutdown r else setState Follower r
    else r in
  Return (removeSelf, r).

(** [processLog] with its future (leader) or without (follower). *)
Definition processLog (l : Log) (future : option logFuture) (precommit : bool) r
    : outcome (bool * Raft L K) :=
  let finish := fun r =>
    match future with
    | Some f => if precommit then r else respond (lf_errCh f) None r
    | None => r
    end in
  match log_Type l with
  | LogBarrier | LogCommand =>
      if r_shutdown r && env_shutdownFirst env l then
        match future with
        | Some f => Return (false, respond (lf_errCh f) (Some ErrRaftShutdown) r)
        | None => Return (false, r)
        end
      else Return (false, set_fsmCommitCh (r_fsmCommitCh r ++ [mkCommitTuple l future])%list r)
  | LogAddPeer | LogRemovePeer =>
      let! peers := decodePeers (env_decodePeers env) (log_Data l) in
      let! (stepDown, r) := applyPeerSet l precommit peers r in
      Return (stepDown, finish r)
  | LogNoop | LogUnknown _ => Return (false, finish r)
  end.

(** One round of [processLogs] for an entry of the log store. *)
Definition process_stored (idx : Z) r : outcome (Raft L K) :=
  let! (l, logs) := GetLog idx (r_logs r) in
  match l with
  | inr e => Panic (error_msg e)
  | inl l => let! (_, r) := processLog l None false (set_rlogs logs r) in Return r
  end.

Definition process_one (idx : Z) (future : option logFuture) r : outcome (Raft L K) :=
  match future with
  | Some f =>
      if log_Index (lf_log f) =? idx then
        let! (_, r) := processLog (lf_log f) (Some f) false r in Return r
      else process_stored idx r
  | None => process_stored idx r
  end.

(** The loop of [processLogs]: [n] entries from [idx] on. *)
Fixpoint process_range (n : nat) (idx : Z) (future : option logFuture) r : outcome (Raft L K) :=
  match n with
  | O => Return r
  | S n =>
      let! r := process_one idx future r in
      process_range n (idx + 1) future (upd_raftState (rs_setLastApplied idx) r)
  end.

Definition processLogs (index : Z) (future : option logFuture) r : outcome (Raft L K) :=
  let lastApplied := rs_lastApplied (r_raftState r) in
  if index <=? lastApplied then Return r
  else process_range (Z.to_nat (index - lastApplied)) (lastApplied + 1) future r.

(** The commit index, and what it makes applicable. *)
Definition advanceCommit (a : AppendEntriesRequest) r : outcome (Raft L K) :=
  if (ae_LeaderCommitIndex a >? 0) &&
     (ae_LeaderCommitIndex a >? rs_commitIndex (r_raftState r)) then
    let idx := umin (ae_LeaderCommitIndex a) (getLastIndex (r_raftState r)) in
    processLogs idx None (upd_raftState (rs_setCommitIndex idx) r)
  else Return r.

End Apply.

(** ** AppendEntries *)

(** The check of the previous entry; [false] rejects the request without a backoff. *)
Definition checkPrevious (a : AppendEntriesRequest) r : outcome (bool * Raft L K) :=
  if ae_PrevLogEntry a >? 0 then
    let '(lastIdx, lastTerm) := getLastEntry (r_raftState r) in
    if ae_PrevLogEntry a =? lastIdx then Return (ae_PrevLogTerm a =? lastTerm, r)
    else
      let! (prevLog, logs) := GetLog (ae_PrevLogEntry a) (r_logs r) in
      match prevLog with
      | inr _ => Return (false, set_rlogs logs r)
      | inl prevLog => Return (ae_PrevLogTerm a =? log_Term prevLog, set_rlogs logs r)
      end
  else Return (true, r).

(** The new entries: conflicting ones are cleared, then they are stored; [false] when the store
    fails. *)
Definition storeEntries (a : AppendEntriesRequest) r : outcome (bool * Raft L K) :=
  match head (ae_Entries a), last (ae_Entries a) with
  | Some first, Some last =>
      let lastLogIdx := rs_lastLogIndex (r_raftState r) in
      let! (err, r) :=
        (if log_Index first <=? lastLogIdx then
           let! (err, logs) := DeleteRange (log_Index first) lastLogIdx (r_logs r) in
           Return (err, set_rlogs logs r)
         else Return (None, r)) in
      match err with
      | Some _ => Return (false, r)
      | None =>
          let! (err, logs) := StoreLogs (ae_Entries a) (r_logs r) in
          let r := set_rlogs logs r in
          match err with
          | Some _ => Return (false, r)
          | None =>
              Return (true, upd_raftState (rs_setLastLog (log_Index last) (log_Term last)) r)
          end
      end
  | _, _ => Return (true, r)
  end.

Definition appendEntries (now : Time) (a : AppendEntriesRequest) r
    : outcome (AppendEntriesResponse * Raft L K) :=
  let lastLog := getLastIndex (r_raftState r) in
  if ae_Term a <? getCurrentTerm r then
    Return (mkAppendEntriesResponse (getCurrentTerm r) lastLog false false, r)
  else
    let! (term, r) :=
      (if (ae_Term a >? getCurrentTerm r) || negb (bool_decide (getState r = Follower)) then
         let! r := setCurrentTerm (ae_Term a) (setState Follower r) in Return (ae_Term a, r)
       else Return (getCurrentTerm r, r)) in
    let r := set_leader (DecodePeer (ae_Leader a)) r in
    let! (ok, r) := checkPrevious a r in
    if negb ok then Return (mkAppendEntriesResponse term lastLog false true, r)
    else
      let! (ok, r) := storeEntries a r in
      if negb ok then Return (mkAppendEntriesResponse term lastLog false false, r)
      else
        let! r := advanceCommit now a r in
        Return (mkAppendEntriesResponse term lastLog true false, setLastContact now r).

(** ** Snapshots *)

Definition compactLogs (snapIdx : Z) r : outcome (option error * Raft L K) :=
  let! (minLog, logs) := FirstIndex (r_logs r) in
  let r := set_rlogs logs r in
  match minLog with
  | inr e => Return (Some (Errorf ("failed to get first log index: " ++ error_msg e)), r)
  | inl minLog =>
      let lastLogIdx := rs_lastLogIndex (r_raftState r) in
      if lastLogIdx <=? rc_TrailingLogs (r_conf r) then Return (None, r)
      else
        let maxLog := umin snapIdx (wrapu64 (lastLogIdx - rc_TrailingLogs (r_conf r))) in
        let! (err, logs) := DeleteRange minLog maxLog (r_logs r) in
        let r := set_rlogs logs r in
        match err with
        | Some e => Return (Some (Errorf ("log compaction failed: " ++ error_msg e)), r)
        | None => Return (None, r)
        end
  end.

Definition shouldSnapshot r : outcome (bool * Raft L K) :=
  let! (lastIdx, logs) := LastIndex (r_logs r) in
  let r := set_rlogs logs r in
  match lastIdx with
  | inr _ => Return (false, r)
  | inl lastIdx =>
      let delta := wrapu64 (lastIdx - rs_lastSnapshotIndex (r_raftState r)) in
      Return (delta >=? rc_SnapshotThreshold (r_conf r), r)
  end.

(** What the snapshot store, the stream and the state machine report while a snapshot is installed:
    [Create], the bytes copied, [Close], the restore ([None] twice: raft is shutting down). *)
Record snapshot_io := mkSnapshotIO {
  io_create : option error;
  io_copied : Z;
  io_copy : option error;
  io_close : option error;
  io_restore : option (option error);
}.

Definition installSnapshot (now : Time) (req : InstallSnapshotRequest) (io : snapshot_io) r
    : outcome (InstallSnapshotResponse * option error * Raft L K) :=
  if is_Term req <? getCurrentTerm r then
    Return (mkInstallSnapshotResponse (getCurrentTerm r) false, None, r)
  else
    let! (term, r) :=
      (if is_Term req >? getCurrentTerm r then
         let! r := setCurrentTerm (is_Term req) (setState Follower r) in Return (is_Term req, r)
       else Return (getCurrentTerm r, r)) in
    let r := set_leader (DecodePeer (is_Leader req)) r in
    let failed := fun e => Return (mkInstallSnapshotResponse term false, e, r) in
    match io_create io with
    | Some e => failed (Some (Errorf ("failed to create snapshot: " ++ error_msg e)))
    | None =>
    match io_copy io with
    | Some e => failed (Some e)
    | None =>
    if negb (io_copied io =? is_Size req) then failed (Some (Errorf "short read"))
    else
    match io_close io with
    | Some e => failed (Some e)
    | None =>
    match io_restore io with
    | None => failed None
    | Some (Some e) => failed (Some e)
    | Some None =>
        let r := upd_raftState (rs_setLastApplied (is_LastLogIndex req)) r in
        let r := upd_raftState (rs_setLastSnapshot (is_LastLogIndex req) (is_LastLogTerm req)) r in
        let! peers := decodePeers (env_decodePeers env) (is_Peers req) in
        let r := set_peers (ExcludePeer peers (r_localAddr r))
                   (StaticPeers_SetPeers peers (r_peerStore r)) r in
        let! (_, r) := compactLogs (is_LastLogIndex req) r in
        Return (mkInstallSnapshotResponse term true, None, setLastContact now r)
    end
    end
    end
    end.

(** A snapshot file: its metadata, what [Open] and the state machine's [Restore] report. *)
Record snapshot_file := mkSnapshotFile {
  sf_Index : Z;
  sf_Term : Z;
  sf_open : option error;
  sf_restore : option error;
}.

(** The loop of [restoreSnapshot]: the first file that opens and restores. *)
Fixpoint first_restorable (files : list snapshot_file) : option snapshot_file :=
  match files with
  | [] => None
  | f :: files =>
      match sf_open f, sf_restore f with
      | None, None => Some f
      | _, _ => first_restorable files
      end
  end.

Definition restoreSnapshot (listed : list snapshot_file + error) r : option error * Raft L K :=
  match listed with
  | inr e => (Some e, r)
  | inl files =>
      match first_restorable files with
      | Some f =>
          (None, upd_raftState (rs_setLastSnapshot (sf_Index f) (sf_Term f))
                   (upd_raftState (rs_setLastApplied (sf_Index f)) r))
      | None =>
          match files with
          | [] => (None, r)
          | _ => (Some (Errorf "failed to load any existing snapshots"), r)
          end
      end
  end.

(** ** Start *)

(** [NewRaft]: a node from what is on disk. *)
Definition NewRaft (conf : RaftConfig) (logs : L) (stable : K) (peerStore : StaticPeers)
    (localAddr : string) (listed : list snapshot_file + error) : outcome (Raft L K + error) :=
  match ValidateConfig conf with
  | Some e => Return (inr e)
  | None =>
      let! (currentTerm, stable) := GetUint64 keyCurrentTerm stable in
      match read_or 0 currentTerm with
      | None =>
          Return (inr (Errorf ("failed to load current term: " ++
                               match currentTerm with inr e => error_msg e | inl _ => "" end)))
      | Some currentTerm =>
          let! (lastIdx, logs) := LastIndex logs in
          match lastIdx with
          | inr e => Return (inr (Errorf ("failed to find last log: " ++ error_msg e)))
          | inl lastIdx =>
              let! (lastLog, logs) :=
                (if lastIdx >? 0 then GetLog lastIdx logs else Return (inl zeroLog, logs)) in
              match lastLog with
              | inr e => Return (inr (Errorf ("failed to get last log: " ++ error_msg e)))
              | inl lastLog =>
                  let peers := ExcludePeer (StaticPeers_Peers peerStore) localAddr in
                  let r := setState Follower
                    (mkRaft (mkRaftState 0 0 0 0 0 0 0 Follower) conf "" localAddr peers peerStore
                       logs stable zero_time [] [] false None ∅ []) in
                  let r := if rc_StartAsLeader conf then set_leader localAddr (setState Leader r)
                           else r in
                  let! r := setCurrentTerm currentTerm r in
                  let r := upd_raftState (rs_setLastLog (log_Index lastLog) (log_Term lastLog)) r in
                  let '(err, r) := restoreSnapshot listed r in
                  match err with
                  | Some e => Return (inr e)
                  | None => Return (inl r)
                  end
              end
          end
      end
  end.
End Raft.

(** ** What the bookkeeping of streams and futures leaves alone *)

Section Frames.
Context {L K : Type} {HL : LogStore L} {HK : StableStore K}.
Implicit Types (r : Raft L K).

Lemma start_missing_frame now peers : forall r r',
  start_missing now peers r = Return r' -> exists ls, r' = set_leaderState ls r.
Proof.
  induction peers as [|p peers IH]; intros r r'; cbn [start_missing].
  { intros [= <-]. exists (r_leaderState r). by destruct r. }
  destruct (replicating p r); [apply IH|]. unfold startReplication.
  destruct (r_leaderState r) as [ls|]; [|done]. cbn [outcome_bind]. intros [ls' ->]%IH. by exists ls'.
Qed.

Lemma stop_removed_frame idx r : exists ls, stop_removed idx r = set_leaderState ls r.
Proof.
  unfold stop_removed. destruct (r_leaderState r) eqn:E; [by eexists|]. exists None. rewrite <- E. by destruct r.
Qed.

Lemma set_leaderState_id r : set_leaderState (r_leaderState r) r = r.
Proof. by destruct r. Qed.

Lemma respond_frame ch e r : exists q, respond ch e r = set_responses q r.
Proof.
  destruct ch as [id|]; simpl; [case_decide|]; try by eexists.
  all: exists (r_responses r); by destruct r.
Qed.

(** [applyPeerSet] changes the peers and the streams, and perhaps steps down or shuts down. *)
Lemma applyPeerSet_frame now l pre peers r b r' :
  applyPeerSet now l pre peers r = Return (b, r') ->
  exists ps store ls, let r1 := set_leaderState ls (set_peers ps store r) in
  (r' = r1 \/ r' = setState Follower r1 \/ r' = Raft_Shutdown r1).
Proof.
  unfold applyPeerSet. set (rs := negb _ && _). set (r0 := if rs then _ else _).
  assert (H0 : exists ps store, r0 = set_peers ps store r).
  { unfold r0. repeat case_if; eauto. exists (r_peers r), (r_peerStore r). by destruct r. }
  destruct H0 as (ps & store & Er0). clearbody r0. clearbody rs.
  destruct (if bool_decide (getState r0 = Leader) then _ else _) as [r1|] eqn:E1; [|done]. cbn [outcome_bind].
  assert (H1 : exists ls, r1 = set_leaderState ls r0).
  { revert E1. case_if; [apply start_missing_frame|]. intros [= <-].
    exists (r_leaderState r0). by rewrite set_leaderState_id. }
  destruct H1 as [ls ->]. clear E1.
  assert (H2 : exists ls', (if bool_decide (getState (set_leaderState ls r0) = Leader) && negb pre
    then stop_removed (log_Index l) (set_leaderState ls r0) else set_leaderState ls r0) = set_leaderState ls' r0).
  { case_if; [|by exists ls]. destruct (stop_removed_frame (log_Index l) (set_leaderState ls r0)) as [ls' ->].
    by exists ls'. }
  destruct H2 as [ls' ->]. intros [= _ <-]. exists ps, store, ls'. cbn zeta. rewrite <- Er0. repeat case_if; auto.
Qed.
End Frames.
