(* ===== verification/RaftElection.v ===== *)
(** * Raft: elections (internal/raft/raft.go: requestVote, electSelf, runCandidate, NewRaft)

    A cluster of nodes with a fixed membership that exchange vote requests, vote responses and append
    requests in any order, with messages lost, duplicated and delayed, disk transactions that fail and
    nodes that restart from their disks.  At most one node is ever elected in a term
    ([election_safety]): every step of a node is a handler of Raft.v run to completion. *)
From S2P Require Import Prelude GoStrings RaftBase Inflight BoltStore Raft.

Open Scope string_scope.
Open Scope Z_scope.
Local Open Scope go_scope.

(** ** What a node has on disk *)

(** A number under a key; a missing key reads as 0. *)
Definition stored_u64 (m : gmap string string) (k : string) (t : Z) : Prop :=
  (m !! k = None /\ t = 0) \/ (uint64_ok t /\ m !! k = Some (uint64ToBytes t)).

(** The disk [m] agrees with the term [t] of the node, its last vote is in term [vt]. *)
Definition disk_ok (m : gmap string string) (t vt : Z) : Prop :=
  stored_u64 m keyCurrentTerm t /\ stored_u64 m keyLastVoteTerm vt /\ vt <= t /\ uint64_ok t.

(** The vote for [c] in term [t] is on disk, or superseded by one in a later term. *)
Definition voted (m : gmap string string) (vt t : Z) (c : string) : Prop :=
  t <= vt /\ (t = vt -> m !! keyLastVoteCand = Some c).

Definition keeps_votes (m : gmap string string) (vt : Z) (m' : gmap string string) (vt' : Z) : Prop :=
  forall t c, c <> "" -> voted m vt t c -> voted m' vt' t c.

Lemma stored_u64_insert m k t : uint64_ok t -> stored_u64 (<[k := uint64ToBytes t]> m) k t.
Proof. intros H. right. split; [done|]. by rewrite lookup_insert_eq. Qed.

Lemma stored_u64_insert_ne m k k' v t : k' <> k -> stored_u64 m k t -> stored_u64 (<[k' := v]> m) k t.
Proof. intros Hne. unfold stored_u64. by rewrite lookup_insert_ne. Qed.

Lemma stored_u64_fun m k t t' : stored_u64 m k t -> stored_u64 m k t' -> t = t'.
Proof.
  intros [[E ->]|[Ht E]] [[E' ->]|[Ht' E']]; try congruence.
  apply uint64ToBytes_inj; [done|done|congruence].
Qed.

Lemma stored_u64_codec m k t :
  stored_u64 m k t -> forall v, m !! k = Some v -> exists u, uint64_ok u /\ v = uint64ToBytes u.
Proof. intros [[E _]|[Ht E]] v Hv; rewrite E in Hv; [done|]. injection Hv as <-. eauto. Qed.

Lemma keeps_votes_refl m vt : keeps_votes m vt m vt.
Proof. by intros t c _ H. Qed.

Lemma keeps_votes_trans m1 v1 m2 v2 m3 v3 :
  keeps_votes m1 v1 m2 v2 -> keeps_votes m2 v2 m3 v3 -> keeps_votes m1 v1 m3 v3.
Proof. intros H1 H2 t c Hc H. by apply H2, H1. Qed.

#[export] Hint Resolve keeps_votes_refl stored_u64_insert stored_u64_insert_ne : freno.

Section Node.
Context `{LogStore L} `{StableStoreLaws K}.
Implicit Types (r : Raft L K) (m : gmap string string).

(** The membership a node knows: its own address and its peers, in any order. *)
Definition same_member r r' : Prop := r_localAddr r' = r_localAddr r /\ r_peers r' ≡ₚ r_peers r.

Lemma same_member_refl r : same_member r r.
Proof. by split. Qed.

Lemma same_member_trans r1 r2 r3 : same_member r1 r2 -> same_member r2 r3 -> same_member r1 r3.
Proof. intros [E1 P1] [E2 P2]. split; [congruence|]. by rewrite P2. Qed.

Lemma read_u64 k m key t :
  conf_rep k m -> stored_u64 m key t ->
  exists v k', GetUint64 key k = Return (v, k') /\ conf_rep k' m /\
    (read_or 0 v = None \/ read_or 0 v = Some t).
Proof.
  intros Hk Ht. destruct (GetUint64_law k m key Hk (stored_u64_codec _ _ _ Ht)) as (v & k' & E & Hk' & Hv).
  exists v, k'. split; [done|]. split; [done|]. destruct v as [u|e]; simpl.
  - destruct Hv as [Hu Hv]. right. f_equal. eapply stored_u64_fun; [by right|done].
  - unfold get_error_law in Hv. case_decide; [|by left]. right. f_equal.
    destruct Ht as [[_ ->]|[_ E']]; [done|congruence].
Qed.

Lemma setCurrentTerm_spec t r m t0 vt r' :
  conf_rep (r_stable r) m -> disk_ok m t0 vt -> uint64_ok t -> vt <= t ->
  setCurrentTerm t r = Return r' ->
  exists m', conf_rep (r_stable r') m' /\ disk_ok m' t vt /\ keeps_votes m vt m' vt /\
    m' !! keyLastVoteCand = m !! keyLastVoteCand /\
    getCurrentTerm r' = t /\ same_member r r' /\ getState r' = getState r.
Proof.
  intros Hk (Hct & Hvt & Hle & _) Ht Hlt. unfold setCurrentTerm.
  destruct (SetUint64_law (r_stable r) m keyCurrentTerm t Hk ltac:(done)) as (err & k & -> & Hk').
  simpl. destruct err; [done|]. intros [= <-].
  exists (<[keyCurrentTerm := uint64ToBytes t]> m). split; [done|].
  split; [split_and!; auto with freno|].
  assert (Hc : (<[keyCurrentTerm := uint64ToBytes t]> m) !! keyLastVoteCand = m !! keyLastVoteCand)
    by by rewrite lookup_insert_ne.
  split; [|by repeat split]. intros t' c _ [? ?]. split; [done|]. by rewrite Hc.
Qed.

Lemma persistVote_spec t c r m vt :
  conf_rep (r_stable r) m -> disk_ok m (getCurrentTerm r) vt -> uint64_ok t -> vt <= t ->
  t <= getCurrentTerm r ->
  exists err r' m' vt', persistVote t c r = Return (err, r') /\
    r' = set_stable (r_stable r') r /\
    conf_rep (r_stable r') m' /\ disk_ok m' (getCurrentTerm r) vt' /\
    (err = None -> vt' = t /\ m' !! keyLastVoteCand = Some c) /\
    (err <> None -> (vt' = vt \/ vt' = t) /\ m' !! keyLastVoteCand = m !! keyLastVoteCand).
Proof.
  intros Hk (Hct & Hvt & Hle & Hok) Ht Hlt Hcur. unfold persistVote.
  destruct (SetUint64_law (r_stable r) m keyLastVoteTerm t Hk ltac:(done)) as (err & k & -> & Hk1).
  simpl. destruct err as [e|].
  { exists (Some e), (set_stable k r), m, vt. split_and!; try done. naive_solver. }
  destruct (stable_Set_law k _ keyLastVoteCand c Hk1 ltac:(done)) as (err & k2 & -> & Hk2). simpl.
  exists err, (set_stable k2 r). destruct err as [e|].
  - eexists _, t. split; [done|]. split; [done|]. split; [exact Hk2|].
    split; [split_and!; auto with freno|]. split; [done|]. intros _. split; [by right|].
    by rewrite lookup_insert_ne.
  - eexists _, t. split; [done|]. split; [done|]. split; [exact Hk2|].
    split; [split_and!; auto 6 with freno|]. split; [|done]. intros _. split; [done|].
    by rewrite lookup_insert_eq.
Qed.

(** How an RPC moves the role of a node: not at all, or out of an election and out of office. *)
Definition steps_down r r' : Prop :=
  (getState r' = getState r /\ getCurrentTerm r' = getCurrentTerm r) \/
  getState r' = Follower \/ getState r' = Shutdown.

Lemma steps_down_refl r : steps_down r r.
Proof. by left. Qed.

Lemma steps_down_same r r' :
  getState r' = getState r -> getCurrentTerm r' = getCurrentTerm r -> steps_down r r'.
Proof. by left. Qed.

Lemma steps_down_follower r r' : getState r' = Follower -> steps_down r r'.
Proof. intros. right. by left. Qed.

Lemma steps_down_trans r1 r2 r3 : steps_down r1 r2 -> steps_down r2 r3 -> steps_down r1 r3.
Proof. unfold steps_down. intuition congruence. Qed.

(** The common start of the RPC handlers: a newer term is adopted, as a follower. *)
Lemma adopt_term t r m vt b r' x :
  conf_rep (r_stable r) m -> disk_ok m (getCurrentTerm r) vt -> uint64_ok t -> getCurrentTerm r <= t ->
  (b = false -> t = getCurrentTerm r) ->
  (if b then let! r := setCurrentTerm t (setState Follower r) in Return (t, r)
   else Return (getCurrentTerm r, r)) = Return (x, r') ->
  x = t /\ exists m', conf_rep (r_stable r') m' /\ disk_ok m' t vt /\ keeps_votes m vt m' vt /\
    m' !! keyLastVoteCand = m !! keyLastVoteCand /\
    getCurrentTerm r' = t /\ same_member r r' /\ steps_down r r' /\
    (r' = r \/ b = true /\ getState r' = Follower).
Proof.
  intros Hk Hd Ht Hle Hb. destruct b.
  - destruct (setCurrentTerm t (setState Follower r)) as [r1|] eqn:E; [|done]. intros [= <- <-].
    split; [done|].
    destruct (setCurrentTerm_spec t (setState Follower r) m (getCurrentTerm r) vt r1) as (m' & ? & ? & ? & ? & ? & ? & Hst);
      [done|done|done|destruct Hd as (_ & _ & ? & _); lia|done|].
    exists m'. split_and!; [done..|by apply steps_down_follower|by right].
  - rewrite (Hb eq_refl). intros [= <- <-]. split; [done|]. exists m.
    split_and!; auto using keeps_votes_refl, same_member_refl, steps_down_refl.
Qed.

(** What a handler of a node guarantees: its disk agrees with its term, which has not decreased, the
    votes it has given are kept, its membership is unchanged, its role is kept or it is a follower. *)
Definition node_post r m vt r' m' vt' : Prop :=
  conf_rep (r_stable r') m' /\ disk_ok m' (getCurrentTerm r') vt' /\ keeps_votes m vt m' vt' /\
  getCurrentTerm r <= getCurrentTerm r' /\ same_member r r' /\ steps_down r r'.

(** What a granted vote guarantees: it is on disk before the response, and it is for the candidate
    the node may already have voted for in that term. *)
Definition vote_post (req : RequestVoteRequest) (granted : bool) m vt m' vt' : Prop :=
  granted = true ->
  voted m' vt' (rv_Term req) (rv_Candidate req) /\
  forall c, c <> "" -> voted m vt (rv_Term req) c -> c = rv_Candidate req.

(** A vote that is on disk in the current term is the only one of that term. *)
Lemma voted_unique m vt t c c' : vt <= t -> voted m vt t c -> voted m vt t c' -> c = c'.
Proof. intros Ht [Ha Hb] [_ Hc3]. assert (E : t = vt) by lia. specialize (Hb E). specialize (Hc3 E). congruence. Qed.

Lemma persistVote_term t c r err r' :
  persistVote t c r = Return (err, r') -> getCurrentTerm r' = getCurrentTerm r.
Proof.
  unfold persistVote. destruct (SetUint64 _ _ _) as [[[e|] k]|]; cbn [outcome_bind]; [|..|done].
  - by intros [= <- <-].
  - destruct (stable_Set _ _ _) as [[e k']|]; [|done]. by intros [= <- <-].
Qed.

(** The second half of [requestVote]: the vote itself, once the term is adopted. *)
Lemma persistVote_post now req r m vt err r' :
  conf_rep (r_stable r) m -> disk_ok m (getCurrentTerm r) vt -> getCurrentTerm r = rv_Term req ->
  rv_Candidate req <> "" ->
  (vt = rv_Term req -> default "" (m !! keyLastVoteCand) = "") ->
  persistVote (rv_Term req) (rv_Candidate req) r = Return (err, r') ->
  exists m' vt', node_post r m vt r' m' vt' /\ node_post r m vt (setLastContact now r') m' vt' /\
    vote_post req (bool_decide (err = None)) m vt m' vt'.
Proof.
  intros Hk Hd Hterm Hcand Hfresh E. pose proof Hd as (_ & _ & Hle & Hok).
  destruct (persistVote_spec (rv_Term req) (rv_Candidate req) r m vt)
    as (err' & r1 & m' & vt' & E' & Hr1 & Hk' & Hd' & Hnone & Hsome);
    [done|done|by rewrite <- Hterm|lia|lia|].
  rewrite E in E'. injection E' as <- <-. exists m', vt'.
  assert (Hno : forall c, c <> "" -> voted m vt (rv_Term req) c -> False).
  { intros c Hc [Ha Hb]. assert (Heq : vt = rv_Term req) by lia. rewrite (Hb ltac:(lia)) in Hfresh.
    by apply Hc, Hfresh. }
  assert (Hkeep : keeps_votes m vt m' vt').
  { intros t c Hc [Ha Hb]. destruct (decide (t = rv_Term req)) as [->|Hne]; [by destruct (Hno c Hc)|].
    destruct (decide (err = None)) as [He|He].
    - destruct (Hnone He) as [-> _]. split; [lia|]. intros ?. exfalso. lia.
    - destruct (Hsome He) as [[->| ->] Hc']; (split; [lia|]); [by rewrite Hc'|]. intros ?. exfalso. lia. }
  assert (Hpost : node_post r m vt r' m' vt').
  { assert (Ht : getCurrentTerm r' = getCurrentTerm r) by by rewrite Hr1.
    split_and!; [done|by rewrite Ht|done|lia| |].
    - by rewrite Hr1.
    - apply steps_down_same; [by rewrite Hr1|done]. }
  split; [done|]. split; [by destruct Hpost as (?&?&?&?&?&?)|].
  intros He%bool_decide_eq_true. split.
  - destruct (Hnone He) as [-> ?]. by split.
  - intros c Hc Hv. by destruct (Hno c Hc).
Qed.

Lemma node_post_same r m vt k :
  conf_rep k m -> disk_ok m (getCurrentTerm r) vt -> node_post r m vt (set_stable k r) m vt.
Proof.
  intros Hk Hd. split_and!; [done|done|apply keeps_votes_refl|done|by split|by left].
Qed.

Lemma node_post_trans r1 m1 vt1 r2 m2 vt2 r3 m3 vt3 :
  node_post r1 m1 vt1 r2 m2 vt2 -> node_post r2 m2 vt2 r3 m3 vt3 -> node_post r1 m1 vt1 r3 m3 vt3.
Proof.
  intros (_ & _ & Ka & Ta & Ma & Sa) (Cb & Db & Kb & Tb & Mb & Sb).
  split_and!; [done|done|by eapply keeps_votes_trans|lia|by eapply same_member_trans|
    by eapply steps_down_trans].
Qed.

Lemma vote_post_before req g m vt m1 vt1 m' vt' :
  keeps_votes m vt m1 vt1 -> vote_post req g m1 vt1 m' vt' -> vote_post req g m vt m' vt'.
Proof.
  intros Hkeep Hvote Hg. destruct (Hvote Hg) as [Hv1 Hv2]. split; [done|]. intros c Hc Hv.
  apply Hv2; [done|]. by apply Hkeep.
Qed.

Lemma read_str (k : K) (m : gmap string string) (key : string) :
  conf_rep k m ->
  exists v k', stable_Get key k = Return (v, k') /\ conf_rep k' m /\
    (read_or "" v = None \/ read_or "" v = Some (default "" (m !! key))).
Proof.
  intros Hk. destruct (stable_Get_law k m key Hk) as (v & k' & E & Hk' & Hv). exists v, k'.
  split; [done|]. split; [done|]. destruct v as [v|e]; simpl; [right; by rewrite Hv|].
  unfold get_error_law in Hv. case_decide; [right; by rewrite Hv|by left].
Qed.

(** What answering a vote request guarantees. *)
Definition vote_result req r m vt (resp : RequestVoteResponse) r' : Prop :=
  exists m' vt', node_post r m vt r' m' vt' /\ rvr_Term resp = getCurrentTerm r' /\
    vote_post req (rvr_Granted resp) m vt m' vt'.

(** An answer that writes nothing: refused, or granted because the vote is on disk already. *)
Lemma vote_answered req r m vt (g : bool) peers resp r' r0 :
  conf_rep (r_stable r) m -> disk_ok m (getCurrentTerm r) vt -> getCurrentTerm r = rv_Term req ->
  (g = true -> voted m vt (rv_Term req) (rv_Candidate req)) ->
  r0 = r -> (mkRequestVoteResponse (rv_Term req) peers g, r0) = (resp, r') ->
  vote_result req r m vt resp r'.
Proof.
  intros Hk Hd Ht Hg -> [= <- <-]. exists m, vt. split.
  { split_and!; [done|done|apply keeps_votes_refl|done|apply same_member_refl|apply steps_down_refl]. }
  split; [done|]. simpl. intros ->. split; [by apply Hg|]. intros c Hc Hvc.
  eapply (voted_unique m vt); [|done|by apply Hg]. destruct Hd as (_ & _ & ? & _). lia.
Qed.

Lemma vote_result_before req r m vt r1 m1 vt1 resp r' :
  node_post r m vt r1 m1 vt1 -> vote_result req r1 m1 vt1 resp r' -> vote_result req r m vt resp r'.
Proof.
  intros Hn (m' & vt' & Hp & Ht & Hv). exists m', vt'. pose proof Hn as (_ & _ & Hkeep & _).
  split; [by eapply node_post_trans|]. split; [done|by eapply vote_post_before].
Qed.

(** The answer once the log of the candidate is found recent enough. *)
Lemma vote_persisted now req r m vt peers resp r' :
  conf_rep (r_stable r) m -> disk_ok m (getCurrentTerm r) vt -> getCurrentTerm r = rv_Term req ->
  rv_Candidate req <> "" -> (vt = rv_Term req -> default "" (m !! keyLastVoteCand) = "") ->
  (let! (err, r) := persistVote (rv_Term req) (rv_Candidate req) r in
   match err with
   | Some _ => Return (mkRequestVoteResponse (rv_Term req) peers false, r)
   | None => Return (mkRequestVoteResponse (rv_Term req) peers true, setLastContact now r)
   end) = Return (resp, r') ->
  vote_result req r m vt resp r'.
Proof.
  intros Hk Hd Ht Hcand Hfresh.
  destruct (persistVote _ _ _) as [[err r4]|] eqn:Ep; [|done]. cbn [outcome_bind].
  pose proof (persistVote_term _ _ _ _ _ Ep) as Hp4.
  apply (persistVote_post now req _ m vt) in Ep as (m' & vt' & Hp1 & Hp2 & Hvp); [|done..].
  assert (Hterm : getCurrentTerm r4 = rv_Term req) by congruence.
  destruct err as [e|]; intros [= <- <-]; exists m', vt'; by split_and!.
Qed.

(** The vote of a node: it keeps every vote it has given, and it never votes for two candidates in
    the same term. *)
Lemma requestVote_spec env now req r m vt resp r' :
  conf_rep (r_stable r) m -> disk_ok m (getCurrentTerm r) vt ->
  uint64_ok (rv_Term req) -> rv_Candidate req <> "" ->
  requestVote env now req r = Return (resp, r') -> vote_result req r m vt resp r'.
Proof.
  intros Hk Hd Hreq Hcand. unfold requestVote. destruct (encodePeers _ _); [|done]. cbn [outcome_bind].
  assert (Hsame : (mkRequestVoteResponse (getCurrentTerm r) (r_peers r) false, r) = (resp, r') ->
    vote_result req r m vt resp r').
  { intros [= <- <-]. exists m, vt. split; [|by split].
    split_and!; auto using keeps_votes_refl, same_member_refl, steps_down_refl with lia. }
  case_if; [intros [= E]; by apply Hsame, pair_equal_spec|].
  destruct (Z.ltb_spec (rv_Term req) (getCurrentTerm r)) as [|Hge];
    [intros [= E]; by apply Hsame, pair_equal_spec|].
  clear Hsame. rewrite Z.gtb_ltb.
  destruct (if getCurrentTerm r <? rv_Term req then _ else _) as [[x r1]|] eqn:E1; [|done].
  apply (adopt_term _ _ m vt) in E1 as (-> & m1 & Hk1 & Hd1 & Hkeep1 & Hc1 & Ht1 & Hsame1 & Hstep1 & _);
    [|done|done|done|done|intros; zbool; lia].
  cbn [outcome_bind].
  assert (Hn : forall k, conf_rep k m1 -> node_post r m vt (set_stable k r1) m1 vt).
  { intros k Hkk. eapply (node_post_trans _ _ _ r1 m1 vt);
      [|apply node_post_same; [done|by rewrite Ht1]].
    split_and!; [done|by rewrite Ht1|done|lia|done|done]. }
  destruct (read_u64 (r_stable r1) m1 keyLastVoteTerm vt Hk1 (proj1 (proj2 Hd1))) as (v & k2 & -> & Hk2 & Hv).
  cbn [outcome_bind].
  assert (Hend : forall k (g : bool), conf_rep k m1 ->
    (g = true -> voted m1 vt (rv_Term req) (rv_Candidate req)) ->
    (mkRequestVoteResponse (rv_Term req) (r_peers r) g, set_stable k r1) = (resp, r') ->
    vote_result req r m vt resp r').
  { intros k g Hkk Hg E. eapply vote_result_before; [by apply (Hn k)|].
    eapply (vote_answered _ (set_stable k r1)); [done| |done|done|done|exact E].
    change (disk_ok m1 (getCurrentTerm r1) vt). by rewrite Ht1. }
  destruct Hv as [->| ->]; [by intros [= E]; eapply (Hend k2 false); [done|done|apply pair_equal_spec]|].
  cbn [set_stable r_stable].
  destruct (read_str k2 m1 keyLastVoteCand Hk2) as (c & k3 & -> & Hk3 & Hrc). cbn [outcome_bind].
  destruct Hrc as [->| ->]; [by intros [= E]; eapply (Hend k3 false); [done|done|apply pair_equal_spec]|].
  destruct ((vt =? rv_Term req) && negb (bool_decide (default "" (m1 !! keyLastVoteCand) = ""))) eqn:Edup.
  { apply andb_true_iff in Edup as [Hvt%Z.eqb_eq Hne%negb_true_iff%bool_decide_eq_false].
    intros [= E E']. eapply (Hend k3); [done| |by apply pair_equal_spec].
    rewrite bool_decide_eq_true. intros Hc. split; [lia|].
    intros _. destruct (m1 !! keyLastVoteCand); simpl in *; [by subst|done]. }
  destruct (getLastEntry (r_raftState (set_stable k3 (set_stable k2 r1)))) as [lastIdx lastTerm].
  case_if; [by intros [= E E']; eapply (Hend k3 false); [done|done|apply pair_equal_spec]|].
  case_if; [by intros [= E E']; eapply (Hend k3 false); [done|done|apply pair_equal_spec]|].
  intros E. eapply vote_result_before; [by apply (Hn k3)|].
  eapply vote_persisted; [done| |done|done| |exact E].
  { change (disk_ok m1 (getCurrentTerm r1) vt). by rewrite Ht1. }
  intros Hvt. rewrite Hvt, Z.eqb_refl in Edup. simpl in Edup.
  by apply negb_false_iff, bool_decide_eq_true in Edup.
Qed.

(** ** The other handlers *)

(** Starting an election: a new term and, when [ok], our own vote in it on disk. *)
Lemma electSelf_spec r m vt req ok r' :
  conf_rep (r_stable r) m -> disk_ok m (getCurrentTerm r) vt -> getCurrentTerm r + 1 < 2 ^ 64 ->
  r_localAddr r <> "" -> electSelf r = Return (req, ok, r') ->
  rv_Term req = getCurrentTerm r + 1 /\ getCurrentTerm r' = getCurrentTerm r + 1 /\
  rv_Candidate req = r_localAddr r /\ getState r' = getState r /\ same_member r r' /\
  exists m' vt', conf_rep (r_stable r') m' /\ disk_ok m' (getCurrentTerm r') vt' /\
    keeps_votes m vt m' vt' /\ vote_post req ok m vt m' vt'.
Proof.
  intros Hk Hd Hmax Haddr. unfold electSelf. pose proof Hd as (_ & _ & Hle & Hok).
  unfold uint64_ok in Hok. rewrite wrapu64_id by (unfold uint64_ok; lia).
  destruct (setCurrentTerm _ r) as [r1|] eqn:E1; [|done]. cbn [outcome_bind].
  apply (setCurrentTerm_spec _ _ m (getCurrentTerm r) vt) in E1 as (m1 & Hk1 & Hd1 & Hkeep1 & Hc1 & Ht1 & Hs1 & Hst1);
    [|done|done|unfold uint64_ok; lia|lia].
  destruct (getLastEntry (r_raftState r1)) as [lastIdx lastTerm].
  set (req0 := mkRequestVoteRequest _ _ _ _). destruct (persistVote _ _ r1) as [[err r2]|] eqn:E2; [|done].
  cbn [outcome_bind]. intros E.
  assert (Hreq : rv_Term req0 = getCurrentTerm r1) by done.
  assert (Hrc : rv_Candidate req0 = r_localAddr r) by (simpl; unfold EncodePeer; apply Hs1).
  destruct (persistVote_spec (rv_Term req0) (rv_Candidate req0) r1 m1 vt)
    as (err' & r2' & m2 & vt2 & E2' & Hr2 & _); [done|by rewrite Ht1|rewrite Hreq, Ht1; unfold uint64_ok; lia|lia|lia|].
  rewrite E2 in E2'. injection E2' as <- <-.
  apply (persistVote_post 0 req0 r1 m1 vt) in E2 as (m' & vt' & Hp & _ & Hv);
    [|done|by rewrite Ht1|done|by rewrite Hrc|lia].
  destruct Hp as (Hpk & Hpd & Hpkeep & Hpt & Hpm & _).
  assert (Hr2t : getCurrentTerm r2 = getCurrentTerm r1) by by rewrite Hr2.
  assert (Hr2s : getState r2 = getState r1) by by rewrite Hr2.
  assert (E' : req = req0 /\ r' = r2 /\ ok = bool_decide (err = None))
    by (destruct err; injection E as <- <- <-; done).
  destruct E' as (-> & -> & ->).
  split_and!; [lia|lia|done|by rewrite Hr2s|by eapply same_member_trans|].
  exists m', vt'. split_and!; [done|done|by eapply keeps_votes_trans|].
  intros Hg. destruct (Hv Hg) as [Hv1 Hv2]. split; [done|]. intros c Hc Hvc. apply Hv2; [done|]. by apply Hkeep1.
Qed.

(** Handlers that leave the stable store alone. *)
Definition quiet r r' : Prop :=
  r_stable r' = r_stable r /\ r_localAddr r' = r_localAddr r /\
  getCurrentTerm r' = getCurrentTerm r /\ steps_down r r'.

Lemma quiet_refl r : quiet r r.
Proof. split_and!; auto using steps_down_refl. Qed.

Lemma quiet_trans r1 r2 r3 : quiet r1 r2 -> quiet r2 r3 -> quiet r1 r3.
Proof.
  intros (?&?&?&?) (?&?&?&?). split_and!; [congruence..|]. by eapply steps_down_trans.
Qed.

Lemma quiet_same r r' :
  r_stable r' = r_stable r -> r_localAddr r' = r_localAddr r ->
  getCurrentTerm r' = getCurrentTerm r -> getState r' = getState r -> quiet r r'.
Proof. intros. split_and!; [done..|]. by apply steps_down_same. Qed.

Lemma quiet_Shutdown r : quiet r (Raft_Shutdown r).
Proof.
  unfold Raft_Shutdown. case_if; [apply quiet_refl|]. split_and!; [done..|]. right. by right.
Qed.

Lemma checkPrevious_quiet a r b r' : checkPrevious a r = Return (b, r') -> quiet r r'.
Proof.
  unfold checkPrevious. destruct (getLastEntry _). intros E.
  repeat case_if; simplify_eq; try apply quiet_refl.
  destruct (GetLog _ _) as [[[l|e] logs]|]; simplify_eq/=; by apply quiet_same.
Qed.

Lemma storeEntries_quiet a r b r' : storeEntries a r = Return (b, r') -> quiet r r'.
Proof.
  unfold storeEntries. intros E.
  destruct (head (ae_Entries a)) as [fst|], (last (ae_Entries a)) as [lst|]; simplify_eq; try apply quiet_refl.
  case_if.
  - destruct (DeleteRange _ _ _) as [[[e|] logs]|]; simplify_eq/=; [by apply quiet_same|].
    destruct (StoreLogs _ _) as [[[e|] logs']|]; simplify_eq/=; by apply quiet_same.
  - cbn [outcome_bind] in E. destruct (StoreLogs _ _) as [[[e|] logs']|]; simplify_eq/=; by apply quiet_same.
Qed.

Lemma compactLogs_quiet idx r e r' : compactLogs idx r = Return (e, r') -> quiet r r'.
Proof.
  unfold compactLogs. destruct (FirstIndex _) as [[[n|err] logs]|]; cbn [outcome_bind]; [| |done].
  - case_if; [intros [= <- <-]; by apply quiet_same|].
    destruct (DeleteRange _ _ _) as [[[e'|] logs']|]; cbn [outcome_bind]; [..|done];
      intros [= <- <-]; by apply quiet_same.
  - intros [= <- <-]. by apply quiet_same.
Qed.

(** A quiet continuation of a handler that has adopted the term of its request. *)
Lemma adopt_quiet r m vt t r1 m1 r' :
  conf_rep (r_stable r1) m1 -> disk_ok m1 t vt -> keeps_votes m vt m1 vt -> getCurrentTerm r1 = t ->
  getCurrentTerm r <= t -> same_member r r1 -> steps_down r r1 -> quiet r1 r' -> r_peers r' ≡ₚ r_peers r ->
  node_post r m vt r' m1 vt.
Proof.
  intros Hk Hd Hkeep Ht Hle Hm Hs (Es & Ea & Et & Hs') Hp.
  split_and!; [by rewrite Es|by rewrite Et, Ht|done|lia| |by eapply steps_down_trans].
  split; [|done]. rewrite Ea. apply Hm.
Qed.

Section Apply.
Context (env : raftEnv) (now : Time).

Lemma processLog_quiet l f pre r b r' :
  processLog env now l f pre r = Return (b, r') -> quiet r r'.
Proof.
  assert (Hresp : forall ch e r0, quiet r0 (respond ch e r0)).
  { intros ch e r0. destruct (respond_frame ch e r0) as [q ->]. by apply quiet_same. }
  assert (Hset : forall r0, quiet r r0 ->
    quiet r match f with Some f => if pre then r0 else respond (lf_errCh f) None r0 | None => r0 end).
  { intros r0 Hq. destruct f as [f|], pre; try done. by eapply quiet_trans. }
  unfold processLog. intros E. destruct (log_Type l).
  all: try (destruct (decodePeers _ _) as [ps|]; [|done]; cbn [outcome_bind] in E;
    destruct (applyPeerSet _ _ _ _ _) as [[b' r1]|] eqn:E1; [|done]; injection E as <- <-; apply Hset;
    apply applyPeerSet_frame in E1 as (ps' & store & ls & [->|[->| ->]]);
    [by apply quiet_same|split_and!; [done..|by apply steps_down_follower]|
     eapply quiet_trans; [|apply quiet_Shutdown]; by apply quiet_same]).
  all: try (injection E as <- <-; apply Hset, quiet_refl).
  all: case_if; [destruct f|]; simplify_eq; auto using quiet_refl; by apply quiet_same.
Qed.

Lemma process_stored_quiet idx r r' : process_stored env now idx r = Return r' -> quiet r r'.
Proof.
  unfold process_stored. destruct (GetLog idx (r_logs r)) as [[[l|e] logs]|]; cbn [outcome_bind]; [|done..].
  destruct (processLog _ _ l None false _) as [[b r1]|] eqn:E; [|done]. intros [= <-].
  apply processLog_quiet in E. eapply quiet_trans; [|exact E]. by apply quiet_same.
Qed.

Lemma process_one_quiet idx f r r' : process_one env now idx f r = Return r' -> quiet r r'.
Proof.
  unfold process_one. destruct f as [f|]; [|apply process_stored_quiet].
  case_if; [|apply process_stored_quiet].
  destruct (processLog _ _ _ _ _ _) as [[b r1]|] eqn:E; [|done]. intros [= <-]. by eapply processLog_quiet.
Qed.

Lemma process_range_quiet n : forall idx f r r',
  process_range env now n idx f r = Return r' -> quiet r r'.
Proof.
  induction n as [|n IH]; intros idx f r r'; cbn [process_range]; [intros [= <-]; apply quiet_refl|].
  destruct (process_one _ _ idx f r) as [r1|] eqn:E; [|done]. cbn [outcome_bind]. intros E2%IH.
  apply process_one_quiet in E. eapply quiet_trans; [exact E|]. eapply quiet_trans; [|exact E2].
  by apply quiet_same.
Qed.

Lemma advanceCommit_quiet a r r' : advanceCommit env now a r = Return r' -> quiet r r'.
Proof.
  unfold advanceCommit, processLogs. intros E. repeat case_if; simplify_eq; try apply quiet_refl.
  - by apply quiet_same.
  - apply process_range_quiet in E. eapply quiet_trans; [|exact E]. by apply quiet_same.
Qed.

(** [appendEntries], with entries that leave the membership as it is. *)
Lemma appendEntries_spec a r m vt resp r' :
  conf_rep (r_stable r) m -> disk_ok m (getCurrentTerm r) vt -> uint64_ok (ae_Term a) ->
  r_peers r' ≡ₚ r_peers r -> appendEntries env now a r = Return (resp, r') ->
  exists m', node_post r m vt r' m' vt.
Proof.
  intros Hk Hd Ha Hp. unfold appendEntries.
  destruct (Z.ltb_spec (ae_Term a) (getCurrentTerm r)) as [|Hge].
  { intros [= <- <-]. exists m. split_and!; auto using keeps_votes_refl, same_member_refl, steps_down_refl with lia. }
  destruct (if (_ || _ : bool) then _ else _) as [[x r1]|] eqn:E1; [|done].
  apply (adopt_term _ _ m vt) in E1 as (-> & m1 & Hk1 & Hd1 & Hkeep1 & _ & Ht1 & Hsame1 & Hstep1 & _);
    [|done|done|done|done|].
  2: { intros Hb. apply orb_false_iff in Hb as [Hb _]. rewrite Z.gtb_ltb in Hb. zbool. lia. }
  cbn [outcome_bind]. intros E. exists m1. eapply adopt_quiet; [done..| |done].
  assert (Hq0 : quiet r1 (set_leader (DecodePeer (ae_Leader a)) r1)) by by apply quiet_same.
  destruct (checkPrevious _ _) as [[ok1 r2]|] eqn:E2; [|done]. apply checkPrevious_quiet in E2. cbn [outcome_bind] in E.
  destruct ok1; cbn [negb] in E; [|injection E as <- <-; by eapply quiet_trans].
  destruct (storeEntries _ _) as [[ok2 r3]|] eqn:E3; [|done]. apply storeEntries_quiet in E3. cbn [outcome_bind] in E.
  destruct ok2; cbn [negb] in E; [|injection E as <- <-; eauto using quiet_trans].
  destruct (advanceCommit _ _ _ _) as [r4|] eqn:E4; [|done]. apply advanceCommit_quiet in E4. injection E as <- <-.
  apply (quiet_trans _ r4); [|by apply quiet_same]. eauto using quiet_trans.
Qed.

End Apply.

Lemma installSnapshot_spec env now req io r m vt resp e r' :
  conf_rep (r_stable r) m -> disk_ok m (getCurrentTerm r) vt -> uint64_ok (is_Term req) ->
  r_peers r' ≡ₚ r_peers r -> installSnapshot env now req io r = Return (resp, e, r') ->
  exists m', node_post r m vt r' m' vt.
Proof.
  intros Hk Hd Ha Hp. unfold installSnapshot.
  destruct (Z.ltb_spec (is_Term req) (getCurrentTerm r)) as [|Hge].
  { intros [= <- <- <-]. exists m. split_and!; auto using keeps_votes_refl, same_member_refl, steps_down_refl with lia. }
  rewrite Z.gtb_ltb. destruct (if getCurrentTerm r <? is_Term req then _ else _) as [[x r1]|] eqn:E1; [|done].
  apply (adopt_term _ _ m vt) in E1 as (-> & m1 & Hk1 & Hd1 & Hkeep1 & _ & Ht1 & Hsame1 & Hstep1 & _);
    [|done|done|done|done|intros; zbool; lia].
  cbn [outcome_bind]. intros E. exists m1. eapply adopt_quiet; [done..| |done].
  destruct (io_create io); [injection E as <- <- <-; by apply quiet_same|].
  destruct (io_copy io); [injection E as <- <- <-; by apply quiet_same|].
  case_if; [injection E as <- <- <-; by apply quiet_same|].
  destruct (io_close io); [injection E as <- <- <-; by apply quiet_same|].
  destruct (io_restore io) as [[e'|]|]; try (injection E as <- <- <-; by apply quiet_same).
  destruct (decodePeers _ _) as [ps|]; [|done]. cbn [outcome_bind] in E.
  destruct (compactLogs _ _) as [[e' r2]|] eqn:E2; [|done]. apply compactLogs_quiet in E2. injection E as <- <- <-.
  eapply quiet_trans; [|eapply quiet_trans; [exact E2|]]; by apply quiet_same.
Qed.

(** Counting a vote: a newer term ends the candidacy; else the vote is counted, and the node is the
    leader of its term exactly when the tally reaches the quorum. *)
Lemma candidateVote_spec needed vote granted r m vt granted' r' :
  conf_rep (r_stable r) m -> disk_ok m (getCurrentTerm r) vt -> uint64_ok (rvr_Term vote) ->
  getState r = Candidate -> candidateVote needed vote granted r = Return (granted', r') ->
  exists m', conf_rep (r_stable r') m' /\ disk_ok m' (getCurrentTerm r') vt /\ keeps_votes m vt m' vt /\
    getCurrentTerm r <= getCurrentTerm r' /\ same_member r r' /\
    (getState r' = Follower \/
     (getCurrentTerm r' = getCurrentTerm r /\ rvr_Term vote <= getCurrentTerm r /\
      granted' = (if rvr_Granted vote then granted + 1 else granted) /\
      (getState r' = Candidate \/ getState r' = Leader /\ needed <= granted'))).
Proof.
  intros Hk Hd Hv Hst. unfold candidateVote. rewrite Z.gtb_ltb.
  destruct (Z.ltb_spec (getCurrentTerm r) (rvr_Term vote)) as [Hlt|Hge].
  - destruct (setCurrentTerm _ _) as [r1|] eqn:E; [|done]. intros [= <- <-].
    apply (setCurrentTerm_spec _ _ m (getCurrentTerm r) vt) in E as (m' & ? & ? & ? & ? & Ht & ? & Hs);
      [|done|done|done|destruct Hd as (_ & _ & ? & _); lia].
    exists m'. rewrite Ht. split_and!; [done..|lia|done|]. left. by rewrite Hs.
  - intros E. exists m.
    assert (Hr' : r' = r /\ granted' = (if rvr_Granted vote then granted + 1 else granted) \/
                  r' = set_leader (r_localAddr r) (setState Leader r) /\ needed <= granted' /\
                  granted' = (if rvr_Granted vote then granted + 1 else granted)).
    { destruct (rvr_Granted vote); rewrite Z.geb_leb in E; case_if; injection E as <- <-; zbool; auto. }
    destruct Hr' as [[-> ->]|(-> & Hn & ->)].
    + split_and!; auto using keeps_votes_refl, same_member_refl with lia. right. auto 6.
    + split_and!; auto using keeps_votes_refl, same_member_refl with lia; [done..|].
      right. split_and!; auto.
Qed.

Lemma restoreSnapshot_quiet listed r :
  let r' := (restoreSnapshot listed r).2 in
  r_stable r' = r_stable r /\ getCurrentTerm r' = getCurrentTerm r /\ getState r' = getState r /\
  r_localAddr r' = r_localAddr r /\ r_peers r' = r_peers r.
Proof.
  unfold restoreSnapshot. destruct listed as [files|]; [|done].
  destruct (first_restorable files); [done|]. by destruct files.
Qed.

(** A restart reads the term back from the disk; the votes stay. *)
Lemma NewRaft_spec conf logs k ps addr listed m t vt r' :
  conf_rep k m -> disk_ok m t vt -> rc_StartAsLeader conf = false ->
  NewRaft conf logs k ps addr listed = Return (inl r') ->
  getState r' = Follower /\ getCurrentTerm r' = t /\ r_localAddr r' = addr /\
  r_peers r' ≡ₚ ExcludePeer (sp_peers ps) addr /\
  exists m', conf_rep (r_stable r') m' /\ disk_ok m' t vt /\ keeps_votes m vt m' vt.
Proof.
  intros Hk Hd Hconf. unfold NewRaft. destruct (ValidateConfig conf); [done|].
  destruct (read_u64 k m keyCurrentTerm t Hk (proj1 Hd)) as (v & k' & -> & Hk' & Hv). cbn [outcome_bind].
  destruct Hv as [->| ->]; [done|].
  destruct (LastIndex logs) as [[[li|e] logs1]|]; cbn [outcome_bind]; [|done..].
  destruct (if li >? 0 then _ else _) as [[[ll|e] logs2]|]; cbn [outcome_bind]; [|done..].
  rewrite Hconf. destruct (setCurrentTerm t _) as [r1|] eqn:E1; [|done]. cbn [outcome_bind].
  pose proof Hd as (_ & _ & Hle & Hok).
  apply (setCurrentTerm_spec _ _ m t vt) in E1 as (m1 & Hk1 & Hd1 & Hkeep1 & _ & Ht1 & [Ha1 Hp1] & Hst1);
    [|done|done|done|done].
  set (r2 := upd_raftState _ r1). pose proof (restoreSnapshot_quiet listed r2) as (Hs & Ht & Hst & Ha & Hp).
  destruct (restoreSnapshot listed r2) as [[e|] r3]; [done|]. intros [= <-]. simpl in Hs, Ht, Hst, Ha, Hp.
  split_and!; [by rewrite Hst|by rewrite Ht|by rewrite Ha|by rewrite Hp|exists m1; split_and!; [by rewrite Hs|done|done]].
Qed.
End Node.

(** ** The cluster *)

(** The local variables of [runCandidate]: the request it has sent, the votes it needs, its tally, and
    the voters whose response it has taken from the channel (each peer is asked once). *)
Record Election := mkElection {
  el_req : RequestVoteRequest;
  el_needed : Z;
  el_granted : Z;
  el_voters : list string;
}.

Record Node (L K : Type) := mkNode {
  nd_raft : Raft L K;
  nd_election : option Election;
}.
Arguments mkNode {L K}.
Arguments nd_raft {L K}.
Arguments nd_election {L K}.

Inductive message :=
| VoteRequest (to : string) (req : RequestVoteRequest)
| VoteResponse (voter : string) (req : RequestVoteRequest) (resp : RequestVoteResponse).

(** The nodes; the messages ever sent, none of which is taken out when it is delivered; and, as a
    history, the votes granted (voter, term, candidate) and the elections won (node, term). *)
Record Cluster (L K : Type) := mkCluster {
  c_nodes : gmap string (Node L K);
  c_msgs : list message;
  c_votes : list (string * Z * string);
  c_elected : list (string * Z);
}.
Arguments mkCluster {L K}.
Arguments c_nodes {L K}.
Arguments c_msgs {L K}.
Arguments c_votes {L K}.
Arguments c_elected {L K}.

Section Cluster.
Context `{LogStore L} `{StableStoreLaws K}.
Context (env : raftEnv).
Context (members : list string) (conf : RaftConfig).
Implicit Types (r : Raft L K) (c : Cluster L K) (nd : Node L K).

(** [runCandidate] runs on while the node is a candidate. *)
Definition still_candidate r (el : option Election) : option Election :=
  if decide (getState r = Candidate) then el else None.

Definition update_node (n : string) nd c : Cluster L K :=
  mkCluster (<[n := nd]> (c_nodes c)) (c_msgs c) (c_votes c) (c_elected c).
Definition send (ms : list message) c : Cluster L K :=
  mkCluster (c_nodes c) (c_msgs c ++ ms)%list (c_votes c) (c_elected c).
Definition record_vote (granted : bool) (v : string) (req : RequestVoteRequest) c : Cluster L K :=
  mkCluster (c_nodes c) (c_msgs c)
    (if granted then (v, rv_Term req, rv_Candidate req) :: c_votes c else c_votes c) (c_elected c).
Definition record_leader (n : string) r c : Cluster L K :=
  mkCluster (c_nodes c) (c_msgs c) (c_votes c)
    (if decide (getState r = Leader) then (n, getCurrentTerm r) :: c_elected c else c_elected c).

(** Elections, and the end of an office. *)
Inductive vstep : Cluster L K -> Cluster L K -> Prop :=
(** The heartbeat timer of a follower. *)
| step_timeout c n nd now :
    c_nodes c !! n = Some nd -> getState (nd_raft nd) = Follower ->
    vstep c (update_node n (mkNode (heartbeatTimeout now (nd_raft nd)) None) c)
(** A candidate starts an election; the requests leave before its own vote is persisted, and without
    that vote the channel is nil. *)
| step_elect c n nd req ok r' :
    c_nodes c !! n = Some nd -> getState (nd_raft nd) = Candidate ->
    getCurrentTerm (nd_raft nd) + 1 < 2 ^ 64 ->
    electSelf (nd_raft nd) = Return (req, ok, r') ->
    vstep c
      (record_vote ok n req
         (send ((fun p => VoteRequest p req) <$> r_peers r')
            (send (if ok : bool then [VoteResponse n req (mkRequestVoteResponse (rv_Term req) [] true)] else [])
               (update_node n (mkNode r' (if ok : bool then Some (mkElection req (quorumSize r') 0 []) else None)) c))))
(** A node answers a vote request. *)
| step_vote c n nd req now resp r' :
    c_nodes c !! n = Some nd -> VoteRequest n req ∈ c_msgs c ->
    requestVote env now req (nd_raft nd) = Return (resp, r') ->
    vstep c
      (record_vote (rvr_Granted resp) n req
         (send [VoteResponse n req resp]
            (update_node n (mkNode r' (still_candidate r' (nd_election nd))) c)))
(** A candidate takes a response to its request from the channel. *)
| step_tally c n nd el v resp granted r' :
    c_nodes c !! n = Some nd -> nd_election nd = Some el ->
    VoteResponse v (el_req el) resp ∈ c_msgs c -> v ∉ el_voters el ->
    candidateVote (el_needed el) resp (el_granted el) (nd_raft nd) = Return (granted, r') ->
    vstep c
      (record_leader n r'
         (update_node n
            (mkNode r' (still_candidate r'
               (Some (mkElection (el_req el) (el_needed el) granted (v :: el_voters el))))) c))
(** A leader steps down: its lease ran out, a peer has a newer term, its disk failed. *)
| step_step_down c n nd :
    c_nodes c !! n = Some nd -> getState (nd_raft nd) = Leader ->
    vstep c (update_node n (mkNode (setState Follower (nd_raft nd)) None) c).

Inductive cstep : Cluster L K -> Cluster L K -> Prop :=
| step_election c c' : vstep c c' -> cstep c c'
(** A node handles an append request, whatever it contains, that leaves the membership as it is. *)
| step_append c n nd a now resp r' :
    c_nodes c !! n = Some nd -> uint64_ok (ae_Term a) -> r_peers r' ≡ₚ r_peers (nd_raft nd) ->
    appendEntries env now a (nd_raft nd) = Return (resp, r') ->
    cstep c (update_node n (mkNode r' (still_candidate r' (nd_election nd))) c)
(** A node installs a snapshot with the same membership. *)
| step_install c n nd req io now resp e r' :
    c_nodes c !! n = Some nd -> uint64_ok (is_Term req) -> r_peers r' ≡ₚ r_peers (nd_raft nd) ->
    installSnapshot env now req io (nd_raft nd) = Return (resp, e, r') ->
    cstep c (update_node n (mkNode r' (still_candidate r' (nd_election nd))) c)
(** The process dies and starts again from its disk. *)
| step_restart c n nd listed r' :
    c_nodes c !! n = Some nd ->
    NewRaft conf (r_logs (nd_raft nd)) (r_stable (nd_raft nd)) (mkStaticPeers members) n listed
      = Return (inl r') ->
    cstep c (update_node n (mkNode r' None) c).

(** The start: every member is a new node with an empty disk. *)
Definition cluster_init c : Prop :=
  (forall n nd, c_nodes c !! n = Some nd -> n ∈ members /\ nd_election nd = None /\
     exists logs k listed, conf_rep k ∅ /\
       NewRaft conf logs k (mkStaticPeers members) n listed = Return (inl (nd_raft nd))) /\
  c_msgs c = [] /\ c_votes c = [] /\ c_elected c = [].

Inductive cluster_reachable : Cluster L K -> Prop :=
| reach_init c : cluster_init c -> cluster_reachable c
| reach_step c c' : cluster_reachable c -> cstep c c' -> cluster_reachable c'.

(** ** Invariant *)

Definition cluster_quorum : Z := Z.quot (Z.of_nat (length members)) 2 + 1.

(** A list of distinct voters that all voted for [n] in term [t]. *)
Definition backers (votes : list (string * Z * string)) (n : string) (t : Z) (Q : list string) : Prop :=
  NoDup Q /\ Forall (fun v => (v, t, n) ∈ votes) Q.

Definition election_ok (votes : list (string * Z * string)) (n : string) r (el : Election) : Prop :=
  getState r = Candidate /\ rv_Term (el_req el) = getCurrentTerm r /\ rv_Candidate (el_req el) = n /\
  el_needed el = cluster_quorum /\
  exists Q, backers votes n (getCurrentTerm r) Q /\ Q ⊆ el_voters el /\
    el_granted el = Z.of_nat (length Q).

Definition node_ok (votes : list (string * Z * string)) (n : string) nd : Prop :=
  let r := nd_raft nd in
  n ∈ members /\ r_localAddr r = n /\ r_peers r ≡ₚ ExcludePeer members n /\
  (exists m vt, conf_rep (r_stable r) m /\ disk_ok m (getCurrentTerm r) vt /\
     forall t cand, (n, t, cand) ∈ votes -> voted m vt t cand) /\
  forall el, nd_election nd = Some el -> election_ok votes n r el.

Definition message_ok (votes : list (string * Z * string)) (msg : message) : Prop :=
  match msg with
  | VoteRequest _ req => uint64_ok (rv_Term req) /\ rv_Candidate req ∈ members
  | VoteResponse v req resp =>
      uint64_ok (rvr_Term resp) /\
      (rvr_Granted resp = true -> (v, rv_Term req, rv_Candidate req) ∈ votes)
  end.

Record cluster_inv c : Prop := {
  inv_nodes n nd : c_nodes c !! n = Some nd -> node_ok (c_votes c) n nd;
  inv_msgs : Forall (message_ok (c_votes c)) (c_msgs c);
  inv_members v t cand : (v, t, cand) ∈ c_votes c -> v ∈ members /\ cand ∈ members;
  inv_one_vote v t cand cand' :
    (v, t, cand) ∈ c_votes c -> (v, t, cand') ∈ c_votes c -> cand = cand';
  inv_elected n t : (n, t) ∈ c_elected c ->
    exists Q, backers (c_votes c) n t Q /\ cluster_quorum <= Z.of_nat (length Q);
}.

Context (members_nodup : NoDup members) (members_named : "" ∉ members).
Context (no_forced_leader : rc_StartAsLeader conf = false).
Implicit Types (votes : list (string * Z * string)).

(** *** Votes are only ever added *)

Lemma backers_mono votes votes' n t Q : votes ⊆ votes' -> backers votes n t Q -> backers votes' n t Q.
Proof. intros Hs [Hn Hf]. split; [done|]. eapply Forall_impl; [done|]. simpl. intros v Hv. by apply Hs. Qed.

Lemma election_ok_mono votes votes' n r el :
  votes ⊆ votes' -> election_ok votes n r el -> election_ok votes' n r el.
Proof.
  intros Hs (?&?&?&?&Q&HQ&?&?). do 4 (split; [done|]). exists Q. split; [|done]. by eapply backers_mono.
Qed.

Lemma message_ok_mono votes votes' msg : votes ⊆ votes' -> message_ok votes msg -> message_ok votes' msg.
Proof. intros Hs. destruct msg as [to req|v req resp]; [done|]. intros [? Hv]. split; [done|]. eauto. Qed.

(** The votes of the others do not concern a node. *)
Lemma node_ok_other votes v t cand n nd :
  v <> n -> node_ok votes n nd -> node_ok ((v, t, cand) :: votes) n nd.
Proof.
  intros Hne (Hm & Ha & Hp & (m & vt & Hk & Hd & Hv) & Hel).
  do 3 (split; [done|]). split.
  - exists m, vt. split; [done|]. split; [done|]. intros t' c' [[= ]|Hin]%elem_of_cons; [done|by apply Hv].
  - intros el E. eapply election_ok_mono; [|by apply Hel]. set_solver.
Qed.

(** *** Updating a cluster *)

Lemma inv_update n nd' c :
  cluster_inv c -> node_ok (c_votes c) n nd' -> cluster_inv (update_node n nd' c).
Proof.
  intros [Hn Hm Hmem Hone Hel] Hok. split; simpl; try done.
  intros n' nd. destruct (decide (n' = n)) as [->|Hne].
  - rewrite lookup_insert_eq. by intros [= <-].
  - rewrite lookup_insert_ne by done. apply Hn.
Qed.

Lemma inv_send ms c : cluster_inv c -> Forall (message_ok (c_votes c)) ms -> cluster_inv (send ms c).
Proof. intros [Hn Hm Hmem Hone Hel] Hms. split; simpl; try done. by apply Forall_app. Qed.

Lemma inv_record granted n req nd' c :
  cluster_inv c ->
  node_ok (c_votes (record_vote granted n req c)) n nd' ->
  (granted = true -> n ∈ members /\ rv_Candidate req ∈ members /\
     forall cand, (n, rv_Term req, cand) ∈ c_votes c -> cand = rv_Candidate req) ->
  cluster_inv (record_vote granted n req (update_node n nd' c)).
Proof.
  intros Hinv Hok Hg. destruct granted; [|exact (inv_update n nd' c Hinv Hok)].
  destruct (Hg eq_refl) as (Hn & Hc & Hu). destruct Hinv as [Hnodes Hm Hmem Hone Hel]. simpl in Hok.
  assert (Hsub : c_votes c ⊆ (n, rv_Term req, rv_Candidate req) :: c_votes c) by set_solver.
  split; simpl.
  - intros n' nd. destruct (decide (n' = n)) as [->|Hne].
    + rewrite lookup_insert_eq. by intros [= <-].
    + rewrite lookup_insert_ne by done. intros E. apply node_ok_other; [done|by apply Hnodes].
  - eapply Forall_impl; [done|]. intros msg. by apply message_ok_mono.
  - intros v t cand [[= -> -> ->]|Hin]%elem_of_cons; [done|]. by eapply Hmem.
  - intros v t cand cand' [[= -> -> ->]|H1']%elem_of_cons [E|H2']%elem_of_cons.
    + by injection E as ->.
    + symmetry. by apply Hu.
    + injection E as -> -> ->. by apply Hu.
    + by eapply Hone.
  - intros n' t (Q & HQ & Hlen)%Hel. exists Q. split; [|done]. by eapply backers_mono.
Qed.

(** *** Nodes *)

Lemma quorumSize_members n r :
  n ∈ members -> r_peers r ≡ₚ ExcludePeer members n -> quorumSize r = cluster_quorum.
Proof.
  intros Hn Hp. unfold quorumSize, cluster_quorum. rewrite (Permutation_length Hp).
  rewrite (ExcludePeer_length members n members_nodup Hn). do 2 f_equal. lia.
Qed.

Lemma still_candidate_ok votes n r r' el el' :
  election_ok votes n r el -> steps_down r r' -> still_candidate r' (Some el) = Some el' ->
  election_ok votes n r' el'.
Proof.
  unfold still_candidate. intros (Hst & Ht & Hc & Hq & HQ) Hs. case_decide as Hst'; [|done].
  intros [= <-]. destruct Hs as [[_ Ht']|[Hs|Hs]]; [|congruence..].
  unfold election_ok. rewrite Ht'. done.
Qed.

(** A handler that keeps the votes keeps a node well formed; the vote it grants may be added. *)
Lemma node_post_ok votes n nd m vt r' m' vt' new :
  n ∈ members -> r_localAddr (nd_raft nd) = n -> r_peers (nd_raft nd) ≡ₚ ExcludePeer members n ->
  (forall t cand, (n, t, cand) ∈ votes -> cand <> "" /\ voted m vt t cand) ->
  (forall el, nd_election nd = Some el -> election_ok votes n (nd_raft nd) el) ->
  node_post (nd_raft nd) m vt r' m' vt' ->
  Forall (fun x => x.1.1 = n -> voted m' vt' x.1.2 x.2) new ->
  node_ok (new ++ votes)%list n (mkNode r' (still_candidate r' (nd_election nd))).
Proof.
  intros Hn Ha Hp Hv Hel (Hk & Hd & Hkeep & Hle & [Ha' Hp'] & Hs) Hnew.
  split; [done|]. split; [simpl; congruence|]. split; [simpl; by rewrite Hp'|]. split.
  - exists m', vt'. split; [done|]. split; [done|]. intros t cand [Hin|Hin]%elem_of_app.
    + rewrite Forall_forall in Hnew. by apply (Hnew _ Hin).
    + destruct (Hv _ _ Hin). by apply Hkeep.
  - simpl. intros el' E. destruct (nd_election nd) as [el|] eqn:Eel.
    + eapply still_candidate_ok; [|done|done]. eapply election_ok_mono; [|by apply Hel]. set_solver.
    + unfold still_candidate in E. by case_decide.
Qed.

Lemma votes_named c n t cand : cluster_inv c -> (n, t, cand) ∈ c_votes c -> cand <> "".
Proof. intros Hinv Hin. destruct (inv_members _ Hinv _ _ _ Hin) as [_ Hc]. by intros ->. Qed.

Lemma inv_quiet_step c n nd m vt r' m' vt' :
  cluster_inv c -> c_nodes c !! n = Some nd ->
  (forall t cand, (n, t, cand) ∈ c_votes c -> voted m vt t cand) ->
  node_post (nd_raft nd) m vt r' m' vt' ->
  cluster_inv (update_node n (mkNode r' (still_candidate r' (nd_election nd))) c).
Proof.
  intros Hinv E Hv Hpost. destruct (inv_nodes _ Hinv _ _ E) as (Hn & Ha & Hp & _ & Hel).
  apply inv_update; [done|].
  apply (node_post_ok (c_votes c) n nd m vt r' m' vt' []); try done.
  intros t cand Hin. eauto using votes_named.
Qed.

(** *** Steps *)

Lemma inv_vote c n nd req now resp r' :
  cluster_inv c -> c_nodes c !! n = Some nd -> VoteRequest n req ∈ c_msgs c ->
  requestVote env now req (nd_raft nd) = Return (resp, r') ->
  cluster_inv (record_vote (rvr_Granted resp) n req
     (send [VoteResponse n req resp]
        (update_node n (mkNode r' (still_candidate r' (nd_election nd))) c))).
Proof.
  intros Hinv E Hmsg Hreq. destruct (inv_nodes _ Hinv _ _ E) as (Hn & Ha & Hp & (m & vt & Hk & Hd & Hv) & Hel).
  pose proof (inv_msgs _ Hinv) as Hmsgs. rewrite Forall_forall in Hmsgs.
  destruct (Hmsgs _ Hmsg) as [Hterm Hcand].
  assert (Hcn : rv_Candidate req <> "") by (intros Heq; by rewrite Heq in Hcand).
  apply (requestVote_spec _ _ _ _ m vt) in Hreq as (m' & vt' & Hpost & Hrt & Hvote); [|done..].
  assert (Hrec : cluster_inv (record_vote (rvr_Granted resp) n req
    (update_node n (mkNode r' (still_candidate r' (nd_election nd))) c))).
  { apply inv_record; [done| |].
    - replace (c_votes (record_vote (rvr_Granted resp) n req c)) with
        ((if rvr_Granted resp then [(n, rv_Term req, rv_Candidate req)] else []) ++ c_votes c)%list
        by (simpl; by destruct (rvr_Granted resp)).
      apply (node_post_ok (c_votes c) n nd m vt r' m' vt'); try done.
      + intros t cand Hin. eauto using votes_named.
      + destruct (rvr_Granted resp) eqn:Eg; [|constructor].
        constructor; [|constructor]. intros _. by apply Hvote.
    - intros Hg. destruct (Hvote Hg) as [_ Hu]. split_and!; [done..|].
      intros cand Hin. apply Hu; [by eapply votes_named|by apply Hv]. }
  apply (inv_send [VoteResponse n req resp] _ Hrec). constructor; [|constructor].
  destruct Hpost as (_ & (_ & _ & _ & Hok) & _). split; [by rewrite Hrt|]. intros Hg. simpl.
  rewrite Hg. set_solver.
Qed.

Lemma inv_elect c n nd req ok r' :
  cluster_inv c -> c_nodes c !! n = Some nd -> getState (nd_raft nd) = Candidate ->
  getCurrentTerm (nd_raft nd) + 1 < 2 ^ 64 -> electSelf (nd_raft nd) = Return (req, ok, r') ->
  cluster_inv
    (record_vote ok n req
       (send ((fun p => VoteRequest p req) <$> r_peers r')
          (send (if ok : bool then [VoteResponse n req (mkRequestVoteResponse (rv_Term req) [] true)] else [])
             (update_node n (mkNode r' (if ok : bool then Some (mkElection req (quorumSize r') 0 []) else None)) c)))).
Proof.
  intros Hinv E Hst Hmax Helect.
  destruct (inv_nodes _ Hinv _ _ E) as (Hn & Ha & Hp & (m & vt & Hk & Hd & Hv) & Hel).
  apply (electSelf_spec _ m vt) in Helect
    as (Hrt & Ht' & Hrc & Hst' & [Ha' Hp'] & m' & vt' & Hk' & Hd' & Hkeep & Hvote); [|done..|].
  2: { rewrite Ha. by intros ->. }
  rewrite Ha in Hrc. pose proof Hd' as (_ & _ & _ & Hok').
  assert (Hrec : cluster_inv (record_vote ok n req
    (update_node n (mkNode r' (if ok : bool then Some (mkElection req (quorumSize r') 0 []) else None)) c))).
  { apply inv_record; [done| |].
    - split; [done|]. split; [simpl; congruence|]. split; [simpl; by rewrite Hp'|]. split.
      + exists m', vt'. split; [done|]. split; [done|]. intros t cand Hin. simpl in Hin.
        assert (Hin' : (ok = true /\ t = rv_Term req /\ cand = rv_Candidate req) \/ (n, t, cand) ∈ c_votes c).
        { destruct ok; [|by right]. apply elem_of_cons in Hin as [[= -> ->]|]; [by left|by right]. }
        destruct Hin' as [(Hok & -> & ->)|Hin']; [by apply Hvote|].
        apply Hkeep; [by eapply votes_named|by apply Hv].
      + simpl. destruct ok; [|done]. intros el [= <-]. split_and!; simpl; [congruence|congruence|done| |].
        * apply (quorumSize_members n); [done|by rewrite Hp'].
        * exists []. split; [by split; [apply NoDup_nil_2|constructor]|done].
    - intros Hg. destruct (Hvote Hg) as [_ Hu]. split_and!; [done|by rewrite Hrc|].
      intros cand Hin. apply Hu; [by eapply votes_named|by apply Hv]. }
  assert (Hterm : uint64_ok (rv_Term req)) by (rewrite Hrt, <- Ht'; done).
  assert (Hown : Forall (message_ok (c_votes (record_vote ok n req c)))
    (if ok : bool then [VoteResponse n req (mkRequestVoteResponse (rv_Term req) [] true)] else [])).
  { destruct ok; [|constructor]. constructor; [|constructor]. split; [done|]. intros _. simpl. set_solver. }
  assert (Hreqs : Forall (message_ok (c_votes (record_vote ok n req c)))
    ((fun p => VoteRequest p req) <$> r_peers r')).
  { apply Forall_fmap, Forall_true. intros p. split; [done|by rewrite Hrc]. }
  exact (inv_send _ _ (inv_send _ _ Hrec Hown) Hreqs).
Qed.

Lemma inv_tally c n nd el v resp granted r' :
  cluster_inv c -> c_nodes c !! n = Some nd -> nd_election nd = Some el ->
  VoteResponse v (el_req el) resp ∈ c_msgs c -> v ∉ el_voters el ->
  candidateVote (el_needed el) resp (el_granted el) (nd_raft nd) = Return (granted, r') ->
  cluster_inv (record_leader n r'
    (update_node n (mkNode r' (still_candidate r'
       (Some (mkElection (el_req el) (el_needed el) granted (v :: el_voters el))))) c)).
Proof.
  intros Hinv E Eel Hmsg Hv' Hcv.
  destruct (inv_nodes _ Hinv _ _ E) as (Hn & Ha & Hp & (m & vt & Hk & Hd & Hv) & Hel).
  destruct (Hel el Eel) as (Hst & Ht & Hc & Hq & Q & HQ & HQsub & HQlen).
  pose proof (inv_msgs _ Hinv) as Hmsgs. rewrite Forall_forall in Hmsgs.
  destruct (Hmsgs _ Hmsg) as [Hrt Hrg].
  apply (candidateVote_spec _ _ _ _ m vt) in Hcv
    as (m' & Hk' & Hd' & Hkeep & Hle & [Ha' Hp'] & Hcase); [|done..].
  set (el' := mkElection _ _ _ _).
  (* The tally after this vote is the number of distinct backers. *)
  assert (HQ' : getCurrentTerm r' = getCurrentTerm (nd_raft nd) ->
    granted = (if rvr_Granted resp then el_granted el + 1 else el_granted el) ->
    exists Q', backers (c_votes c) n (getCurrentTerm r') Q' /\ Q' ⊆ el_voters el' /\
      granted = Z.of_nat (length Q')).
  { intros Htr Hg. rewrite Htr, Hg. destruct (rvr_Granted resp) eqn:Eg.
    - exists (v :: Q). split_and!; [|simpl; set_solver|simpl; lia]. destruct HQ as [HQ1 HQ2]. split.
      + apply NoDup_cons. split; [|done]. intros Hin. by apply Hv', HQsub.
      + constructor; [|done]. rewrite <- Ht, <- Hc. by apply Hrg.
    - exists Q. split_and!; [done|simpl; set_solver|done]. }
  assert (Hupd : cluster_inv (update_node n (mkNode r' (still_candidate r' (Some el'))) c)).
  { apply inv_update; [done|]. split; [done|]. split; [simpl; congruence|]. split; [simpl; by rewrite Hp'|].
    split.
    - exists m', vt. split; [done|]. split; [done|]. intros t cand Hin.
      apply Hkeep; [by eapply votes_named|by apply Hv].
    - simpl. unfold still_candidate. case_decide as Hst'; [|done]. intros el2 [= <-].
      destruct Hcase as [Hf|(Htr & _ & Hg & _)]; [congruence|]. destruct (HQ' Htr Hg) as (Q' & ? & ? & ?).
      split_and!; simpl; [done|by rewrite Htr|done|done|]. by exists Q'. }
  destruct Hupd as [Hnodes Hm Hmem Hone Helected]. split; simpl in *; try done.
  intros n' t Hin. case_decide as Hl; [|by apply Helected].
  apply elem_of_cons in Hin as [[= -> ->]|Hin]; [|by apply Helected].
  destruct Hcase as [Hf|(Htr & _ & Hg & [Hs|[_ Hneed]])]; [congruence..|].
  destruct (HQ' Htr Hg) as (Q' & HQ1 & _ & HQ3). exists Q'. split; [done|]. lia.
Qed.

Lemma heartbeatTimeout_post now r m vt :
  conf_rep (r_stable r) m -> disk_ok m (getCurrentTerm r) vt ->
  let r' := heartbeatTimeout now r in
  conf_rep (r_stable r') m /\ disk_ok m (getCurrentTerm r') vt /\ same_member r r'.
Proof.
  intros Hk Hd. unfold heartbeatTimeout. repeat case_if; split_and!; try done; apply same_member_refl.
Qed.

Lemma inv_vstep c c' : cluster_inv c -> vstep c c' -> cluster_inv c'.
Proof.
  intros Hinv Hstep. destruct Hstep as
    [c n nd now E Hst|c n nd req ok r' E Hst Hmax Hel|c n nd req now resp r' E Hmsg Hreq
    |c n nd el v resp granted r' E Eel Hmsg Hnew Hcv|c n nd E Hst];
    [|by eapply inv_elect|by eapply inv_vote|by eapply inv_tally|];
    destruct (inv_nodes _ Hinv _ _ E) as (Hn & Hadr & Hp & (m & vt & Hk & Hd & Hv) & Hel').
  - apply inv_update; [done|]. destruct (heartbeatTimeout_post now _ m vt Hk Hd) as (? & ? & [Ha' Hp']).
    split_and!; [done|simpl; congruence|simpl; by rewrite Hp'| |done]. by exists m, vt.
  - apply inv_update; [done|]. split_and!; [done..| |done]. by exists m, vt.
Qed.

Lemma inv_append c n nd a now resp r' :
  cluster_inv c -> c_nodes c !! n = Some nd -> uint64_ok (ae_Term a) -> r_peers r' ≡ₚ r_peers (nd_raft nd) ->
  appendEntries env now a (nd_raft nd) = Return (resp, r') ->
  cluster_inv (update_node n (mkNode r' (still_candidate r' (nd_election nd))) c).
Proof.
  intros Hinv E Ha Hpeers Happ. destruct (inv_nodes _ Hinv _ _ E) as (_ & _ & _ & (m & vt & Hk & Hd & Hv) & _).
  destruct (appendEntries_spec _ _ _ _ m vt _ _ Hk Hd Ha Hpeers Happ) as [m' Hpost]. by eapply inv_quiet_step.
Qed.

Lemma inv_restart c n nd logs listed r' :
  cluster_inv c -> c_nodes c !! n = Some nd ->
  NewRaft conf logs (r_stable (nd_raft nd)) (mkStaticPeers members) n listed = Return (inl r') ->
  cluster_inv (update_node n (mkNode r' None) c).
Proof.
  intros Hinv E Hrestart. destruct (inv_nodes _ Hinv _ _ E) as (Hn & _ & _ & (m & vt & Hk & Hd & Hv) & _).
  destruct (NewRaft_spec _ _ _ _ _ _ m _ vt _ Hk Hd no_forced_leader Hrestart)
    as (_ & Ht & Ha' & Hp' & m' & Hk' & Hd' & Hkeep).
  apply inv_update; [done|]. split_and!; [done..| |done].
  exists m', vt. simpl. split; [done|]. split; [by rewrite Ht|]. intros t cand Hin.
  apply Hkeep; [by eapply votes_named|by apply Hv].
Qed.

Lemma inv_step c c' : cluster_inv c -> cstep c c' -> cluster_inv c'.
Proof.
  intros Hinv Hstep. destruct Hstep as
    [c c' Hstep|c n nd a now resp r' E Ha Hpeers Happ|c n nd req io now resp e r' E Ha Hpeers Hins
    |c n nd listed r' E Hrestart];
    [by eapply inv_vstep|by eapply inv_append| |by eapply inv_restart].
  destruct (inv_nodes _ Hinv _ _ E) as (Hn & Hadr & Hp & (m & vt & Hk & Hd & Hv) & Hel').
  destruct (installSnapshot_spec _ _ _ _ _ m vt _ _ _ Hk Hd Ha Hpeers Hins) as [m' Hpost].
  by eapply inv_quiet_step.
Qed.

Lemma inv_init c : cluster_init c -> cluster_inv c.
Proof.
  intros (Hn & Hm & Hv & He). split.
  2: { rewrite Hm. constructor. }
  2-3: intros; rewrite Hv in *; set_solver.
  2: { intros n t. rewrite He. by intros ?%elem_of_nil. }
  rewrite Hv. intros n nd E. destruct (Hn n nd E) as (Hmem & Hel & logs & k & listed & Hk & Hnew).
  assert (Hd : disk_ok ∅ 0 0) by (split_and!; [by left|by left|done|done]).
  destruct (NewRaft_spec _ _ _ _ _ _ ∅ 0 0 _ Hk Hd no_forced_leader Hnew)
    as (_ & Ht & Ha & Hp & m' & Hk' & Hd' & _).
  split_and!; [done..| |by rewrite Hel]. exists m', 0. rewrite Ht. split_and!; [done..|]. set_solver.
Qed.

Lemma inv_reachable c : cluster_reachable c -> cluster_inv c.
Proof. induction 1; [by apply inv_init|by eapply inv_step]. Qed.

End Cluster.

(** Two majorities share a member. *)
Lemma quorums_meet members Q1 Q2 :
  NoDup Q1 -> NoDup Q2 -> Q1 ⊆ members -> Q2 ⊆ members ->
  cluster_quorum members <= Z.of_nat (length Q1) -> cluster_quorum members <= Z.of_nat (length Q2) ->
  exists v, v ∈ Q1 /\ v ∈ Q2.
Proof.
  intros Hn1 Hn2 Hs1 Hs2 Hl1 Hl2.
  destruct (decide (Exists (fun v => v ∈ Q2) Q1)) as [Hex|Hno].
  { apply Exists_exists in Hex as (v & ? & ?). eauto. }
  exfalso. rewrite <- Forall_Exists_neg in Hno. rewrite Forall_forall in Hno.
  assert (Hlen : (length (Q1 ++ Q2) <= length members)%nat).
  { apply (submseteq_length), NoDup_submseteq; [by apply NoDup_app|set_solver]. }
  rewrite length_app in Hlen. unfold cluster_quorum in *.
  pose proof (Z.quot_rem' (Z.of_nat (length members)) 2).
  pose proof (Z.rem_bound_pos (Z.of_nat (length members)) 2). lia.
Qed.

(** The voters of two elections of the same term meet. *)
Lemma elected_once {L K} `{StableStoreLaws K} members (c : Cluster L K) n1 n2 t :
  cluster_inv members c -> (n1, t) ∈ c_elected c -> (n2, t) ∈ c_elected c -> n1 = n2.
Proof.
  intros Hr H1' H2'.
  destruct (inv_elected _ _ Hr _ _ H1') as (Q1 & [Hn1 Hb1] & Hl1).
  destruct (inv_elected _ _ Hr _ _ H2') as (Q2 & [Hn2 Hb2] & Hl2).
  rewrite Forall_forall in Hb1, Hb2.
  assert (Hsub : forall Q n, (forall v, v ∈ Q -> (v, t, n) ∈ c_votes c) -> Q ⊆ members).
  { intros Q n Hb v Hv. by destruct (inv_members _ _ Hr _ _ _ (Hb v Hv)). }
  destruct (quorums_meet members Q1 Q2) as (v & Hv1 & Hv2); eauto.
  exact (inv_one_vote _ _ Hr _ _ _ _ (Hb1 v Hv1) (Hb2 v Hv2)).
Qed.

(** C5: election safety.  In a cluster with a fixed membership of distinct addresses whose nodes
    handle one event at a time, whatever the order in which vote requests and responses are
    delivered, lost or repeated, whichever disk transactions fail, whenever leaders send append
    requests and nodes restart from their disks: no two nodes are elected leader in the same term. *)
Theorem election_safety `{LogStore L} `{StableStoreLaws K} env members conf
    (c : Cluster L K) n1 n2 t :
  NoDup members -> "" ∉ members -> rc_StartAsLeader conf = false ->
  cluster_reachable env members conf c ->
  (n1, t) ∈ c_elected c -> (n2, t) ∈ c_elected c -> n1 = n2.
Proof. intros Hnd Hne Hconf Hr. apply (elected_once members), (inv_reachable env members conf); done. Qed.

(** *** A run with three nodes *)

Abbreviation ex_store := (BoltStore (gmap string string)).

Definition ex_env : raftEnv := mkRaftEnv (fun _ => inl "") (fun _ => inl []) (fun _ => false).
Definition ex_members : list string := ["a"; "b"; "c"].
Definition ex_disk (faults : list fault) : ex_store := mkBoltStore ∅ ∅ faults.
Definition ex_node (n : string) : Raft ex_store ex_store :=
  match NewRaft DefaultConfig (ex_disk []) (ex_disk []) (mkStaticPeers ex_members) n (inl []) with
  | Return (inl r) => r
  | _ => mkRaft (mkRaftState 0 0 0 0 0 0 0 Follower) DefaultConfig "" n [] (mkStaticPeers [])
           (ex_disk []) (ex_disk []) 0 [] [] false None ∅ []
  end.
Definition ex_c0 : Cluster ex_store ex_store :=
  mkCluster (<["a" := mkNode (ex_node "a") None]> (<["b" := mkNode (ex_node "b") None]>
            {["c" := mkNode (ex_node "c") None]})) [] [] [].

Definition get_node (n : string) (c : Cluster ex_store ex_store) : Node ex_store ex_store :=
  default (mkNode (ex_node n) None) (c_nodes c !! n).
Definition ex_returns {A} (d : A) (o : outcome A) : A := match o with Return a => a | Panic _ => d end.

Definition is_return {A} (o : outcome A) : bool := match o with Return _ => true | Panic _ => false end.

Lemma ex_returns_eq {A B} (d : A * B) o :
  is_return o = true -> o = Return ((ex_returns d o).1, (ex_returns d o).2).
Proof. destruct o as [[a b]|]; done. Qed.

Lemma ex_returns_fst {A B} (d : A * B) o a :
  is_return o = true -> (ex_returns d o).1 = a -> exists b, o = Return (a, b).
Proof. destruct o as [[a' b]|]; [|done]. simpl. intros _ <-. eauto. Qed.

(** [a] times out, asks for votes, [b] votes for it, [a] counts its own vote and that of [b]. *)
Definition ex_r1 : Raft ex_store ex_store := heartbeatTimeout 0 (ex_node "a").
Definition ex_c1 : Cluster ex_store ex_store := update_node "a" (mkNode ex_r1 None) ex_c0.
Definition ex_e : RequestVoteRequest * bool * Raft ex_store ex_store :=
  ex_returns (mkRequestVoteRequest 0 "" 0 0, false, ex_r1) (electSelf ex_r1).
Definition ex_req : RequestVoteRequest := ex_e.1.1.
Definition ex_r2 : Raft ex_store ex_store := ex_e.2.
Definition ex_c2 : Cluster ex_store ex_store :=
  record_vote true "a" ex_req
    (send ((fun p => VoteRequest p ex_req) <$> r_peers ex_r2)
       (send [VoteResponse "a" ex_req (mkRequestVoteResponse (rv_Term ex_req) [] true)]
          (update_node "a" (mkNode ex_r2 (Some (mkElection ex_req (quorumSize ex_r2) 0 []))) ex_c1))).
Definition ex_v : RequestVoteResponse * Raft ex_store ex_store :=
  ex_returns (mkRequestVoteResponse 0 [] false, ex_node "b") (requestVote ex_env 0 ex_req (ex_node "b")).
Definition ex_c3 : Cluster ex_store ex_store :=
  record_vote (rvr_Granted ex_v.1) "b" ex_req
    (send [VoteResponse "b" ex_req ex_v.1]
       (update_node "b" (mkNode ex_v.2 (still_candidate ex_v.2 None)) ex_c2)).
Definition ex_tally (v : string) (resp : RequestVoteResponse) (el : Election)
    (r : Raft ex_store ex_store) (c : Cluster ex_store ex_store) : Cluster ex_store ex_store :=
  let '(g, r') := ex_returns (0, r) (candidateVote (el_needed el) resp (el_granted el) r) in
  record_leader "a" r'
    (update_node "a" (mkNode r' (still_candidate r'
       (Some (mkElection (el_req el) (el_needed el) g (v :: el_voters el))))) c).
Definition ex_el1 : Election := mkElection ex_req 2 0 [].
Definition ex_c4 : Cluster ex_store ex_store :=
  ex_tally "a" (mkRequestVoteResponse (rv_Term ex_req) [] true) ex_el1 ex_r2 ex_c3.
Definition ex_el2 : Election := mkElection ex_req 2 1 ["a"].
Definition ex_c5 : Cluster ex_store ex_store := ex_tally "b" ex_v.1 ex_el2 ex_r2 ex_c4.

Lemma ex_node_new n :
  n ∈ ex_members ->
  NewRaft DefaultConfig (ex_disk []) (ex_disk []) (mkStaticPeers ex_members) n (inl [])
  = Return (inl (ex_node n)).
Proof.
  intros Hn. unfold ex_members in Hn.
  repeat (apply elem_of_cons in Hn as [->|Hn]; [vm_compute; reflexivity|]). by apply elem_of_nil in Hn.
Qed.

Lemma ex_vstep1 : vstep ex_env ex_c0 ex_c1.
Proof. apply (step_timeout ex_env ex_c0 "a" (mkNode (ex_node "a") None) 0); [reflexivity|reflexivity]. Qed.

Lemma ex_vstep2 : vstep ex_env ex_c1 ex_c2.
Proof.
  apply (step_elect ex_env ex_c1 "a" (mkNode ex_r1 None) ex_req true ex_r2);
    [reflexivity|reflexivity|reflexivity|vm_compute; reflexivity].
Qed.

Lemma ex_vstep3 : vstep ex_env ex_c2 ex_c3.
Proof.
  apply (step_vote ex_env ex_c2 "b" (mkNode (ex_node "b") None) ex_req 0 ex_v.1 ex_v.2);
    [reflexivity|vm_compute; set_solver|vm_compute; reflexivity].
Qed.

Lemma ex_vstep4 : vstep ex_env ex_c3 ex_c4.
Proof.
  apply (step_tally ex_env ex_c3 "a" (mkNode ex_r2 (Some ex_el1)) ex_el1 "a" (mkRequestVoteResponse (rv_Term ex_req) [] true) 1 ex_r2);
    [vm_compute; reflexivity|reflexivity|vm_compute; set_solver|set_solver|vm_compute; reflexivity].
Qed.

Lemma ex_vstep5 : vstep ex_env ex_c4 ex_c5.
Proof.
  apply (step_tally ex_env ex_c4 "a" (mkNode ex_r2 (Some ex_el2)) ex_el2 "b" ex_v.1 2 (set_leader "a" (setState Leader ex_r2)));
    [vm_compute; reflexivity|reflexivity|vm_compute; set_solver|vm_compute; set_solver|vm_compute; reflexivity].
Qed.

Lemma ex_c0_nodes n nd : c_nodes ex_c0 !! n = Some nd -> n ∈ ex_members /\ nd = mkNode (ex_node n) None.
Proof.
  intros Hn. unfold ex_c0 in Hn. cbn [c_nodes] in Hn.
  repeat (apply lookup_insert_Some in Hn as [[<- <-]|[_ Hn]]; [split; [set_solver|done]|]).
  apply lookup_singleton_Some in Hn as [<- <-]. split; [set_solver|done].
Qed.

Lemma ex_c5_reachable : cluster_reachable ex_env ex_members DefaultConfig ex_c5.
Proof.
  eapply reach_step; [|apply step_election, ex_vstep5]. eapply reach_step; [|apply step_election, ex_vstep4].
  eapply reach_step; [|apply step_election, ex_vstep3]. eapply reach_step; [|apply step_election, ex_vstep2].
  eapply reach_step; [|apply step_election, ex_vstep1].
  apply reach_init. split; [|done]. intros n nd [Hm ->]%ex_c0_nodes. split; [done|]. split; [done|].
  exists (ex_disk []), (ex_disk []), (inl []). split; [split; [constructor|done]|]. by apply ex_node_new.
Qed.

Lemma election_safety_witness :
  cluster_reachable ex_env ex_members DefaultConfig ex_c5 /\
  ("a", 1) ∈ c_elected ex_c5 /\ forall n, (n, 1) ∈ c_elected ex_c5 -> n = "a".
Proof.
  assert (Ha : ("a", 1) ∈ c_elected ex_c5) by (vm_compute; set_solver).
  split; [exact ex_c5_reachable|]. split; [exact Ha|]. intros n Hn.
  apply (election_safety ex_env ex_members DefaultConfig ex_c5 n "a" 1).
  - apply (bool_decide_unpack _). vm_compute. exact I.
  - apply (bool_decide_unpack _). vm_compute. exact I.
  - reflexivity.
  - exact ex_c5_reachable.
  - exact Hn.
  - exact Ha.
Defined.
