(* ===== verification/RaftReplication.v ===== *)
(** * Raft: log replication (internal/raft/raft.go: dispatchLogs, appendEntries, processLogs,
    compactLogs, shouldSnapshot, checkLeaderLease, preparePeerChange; replication.go)

    The leader's side of replication, and what an append request does to the log and to the state
    machine of a follower. *)
From S2P Require Import Prelude GoStrings RaftBase Inflight BoltStore Raft RaftElection.

Open Scope string_scope.
Open Scope Z_scope.
Local Open Scope go_scope.

Section Leader.
Context {L K : Type} {HL : LogStore L} {HK : StableStore K}.
Context (env : raftEnv).
Implicit Types (r : Raft L K) (s : followerReplication).

(** ** Field updates *)

Definition ls_set_inflight (i : inflight) (ls : leaderState) : leaderState :=
  mkLeaderState i (ls_replState ls) (ls_stopping ls) (ls_notify ls) (ls_stepDown ls) (ls_office ls).
Definition ls_set_replState (m : gmap string followerReplication) (ls : leaderState) : leaderState :=
  mkLeaderState (ls_inflight ls) m (ls_stopping ls) (ls_notify ls) (ls_stepDown ls) (ls_office ls).
Definition ls_set_notify (n : gset nat) (ls : leaderState) : leaderState :=
  mkLeaderState (ls_inflight ls) (ls_replState ls) (ls_stopping ls) n (ls_stepDown ls) (ls_office ls).
Definition ls_set_stepDown (b : bool) (ls : leaderState) : leaderState :=
  mkLeaderState (ls_inflight ls) (ls_replState ls) (ls_stopping ls) (ls_notify ls) b (ls_office ls).
Definition upd_leaderState (f : leaderState -> leaderState) r : Raft L K :=
  set_leaderState (f <$> r_leaderState r) r.

Definition fr_set_trigger (b : bool) s : followerReplication :=
  mkFollowerReplication (fr_peer s) (fr_stopCh s) b (fr_currentTerm s) (fr_matchIndex s)
    (fr_nextIndex s) (fr_lastContact s) (fr_failures s) (fr_notifyCh s) (fr_notify s)
    (fr_allowPipeline s) (fr_office s).
Definition fr_set_indexes (matchIndex nextIndex : Z) s : followerReplication :=
  mkFollowerReplication (fr_peer s) (fr_stopCh s) (fr_triggerCh s) (fr_currentTerm s) matchIndex
    nextIndex (fr_lastContact s) (fr_failures s) (fr_notifyCh s) (fr_notify s) (fr_allowPipeline s) (fr_office s).
(** [followerReplication.setLastContact]. *)
Definition fr_setLastContact (now : Time) s : followerReplication :=
  mkFollowerReplication (fr_peer s) (fr_stopCh s) (fr_triggerCh s) (fr_currentTerm s)
    (fr_matchIndex s) (fr_nextIndex s) now (fr_failures s) (fr_notifyCh s) (fr_notify s)
    (fr_allowPipeline s) (fr_office s).
Definition fr_set_failures (n : Z) s : followerReplication :=
  mkFollowerReplication (fr_peer s) (fr_stopCh s) (fr_triggerCh s) (fr_currentTerm s)
    (fr_matchIndex s) (fr_nextIndex s) (fr_lastContact s) n (fr_notifyCh s) (fr_notify s)
    (fr_allowPipeline s) (fr_office s).
Definition fr_set_notify (ch : bool) (l : list nat) s : followerReplication :=
  mkFollowerReplication (fr_peer s) (fr_stopCh s) (fr_triggerCh s) (fr_currentTerm s)
    (fr_matchIndex s) (fr_nextIndex s) (fr_lastContact s) (fr_failures s) ch l (fr_allowPipeline s) (fr_office s).
Definition fr_set_allowPipeline (b : bool) s : followerReplication :=
  mkFollowerReplication (fr_peer s) (fr_stopCh s) (fr_triggerCh s) (fr_currentTerm s)
    (fr_matchIndex s) (fr_nextIndex s) (fr_lastContact s) (fr_failures s) (fr_notifyCh s)
    (fr_notify s) b (fr_office s).

(** An operation on the tracker of the leader. *)
Definition on_inflight (f : inflight -> outcome inflight) r : outcome (Raft L K) :=
  match r_leaderState r with
  | None => Return r
  | Some ls => let! i := f (ls_inflight ls) in Return (set_leaderState (Some (ls_set_inflight i ls)) r)
  end.

(** The same by a stream, on the tracker it was given.  That is the leader's while the office lasts in
    which the stream was started; the tracker of an office that is over is cancelled, and the operation
    has no effect ([Cancel_inert]).  Likewise for the channel by which a stream asks the leader to step
    down: nobody reads that of an office that is over. *)
Definition in_office s r : bool :=
  match r_leaderState r with Some ls => fr_office s =? ls_office ls | None => false end.
Definition stream_inflight (f : inflight -> outcome inflight) s r : outcome (Raft L K) :=
  if in_office s r then on_inflight f r else Return r.
Definition stream_stepDown s r : Raft L K :=
  if in_office s r then upd_leaderState (ls_set_stepDown true) r else r.

(** ** Dispatch *)

(** The futures as [dispatchLogs] numbers them: index, term and quorum policy. *)
Definition number_logs (lastIndex term clusterSize : Z) (fs : list logFuture) : list logFuture :=
  imap (fun idx f =>
          let l := lf_log f in
          mkLogFuture (lf_errCh f)
            (mkLog (wrapu64 (lastIndex + Z.of_nat idx + 1)) term (log_Type l) (log_Data l) (log_peer l))
            (newMajorityQuorum clusterSize)) fs.

Definition respond_all (fs : list logFuture) (e : option error) r : Raft L K :=
  foldl (fun r f => respond (lf_errCh f) e r) r fs.

Definition trigger_all (ls : leaderState) : leaderState :=
  ls_set_replState (fr_set_trigger true <$> ls_replState ls) ls.

Definition dispatchLogs (applyLogs : list logFuture) r : outcome (Raft L K) :=
  let term := getCurrentTerm r in
  let lastIndex := getLastIndex (r_raftState r) in
  let futures := number_logs lastIndex term (Z.of_nat (length (r_peers r)) + 1) applyLogs in
  let! (err, logs) := StoreLogs (lf_log <$> futures) (r_logs r) in
  let r := set_rlogs logs r in
  match err with
  | Some e => Return (setState Follower (respond_all futures (Some e) r))
  | None =>
      match r_leaderState r with
      | None => Panic "nil pointer dereference"
      | Some ls =>
          let! i := StartAll futures (ls_inflight ls) in
          let r := set_leaderState (Some (trigger_all (ls_set_inflight i ls))) r in
          Return (upd_raftState
                    (rs_setLastLog (wrapu64 (lastIndex + Z.of_nat (length applyLogs))) term) r)
      end
  end.

(** The peer set that [preparePeerChange] puts into the entry, or the error its future gets. *)
Definition changedPeers (l : Log) r : list string + error :=
  let p := log_peer l in
  let knownPeer := PeerContained (r_peers r) p || bool_decide (r_localAddr r = p) in
  if bool_decide (log_Type l = LogAddPeer) && knownPeer then inr ErrKnownPeer
  else if bool_decide (log_Type l = LogRemovePeer) && negb knownPeer then inr ErrUnknownPeer
  else if bool_decide (log_Type l = LogAddPeer) then inl (p :: r_localAddr r :: r_peers r)
  else inl (ExcludePeer (r_localAddr r :: r_peers r) p).

Definition set_data (data : string) (f : logFuture) : logFuture :=
  let l := lf_log f in
  mkLogFuture (lf_errCh f) (mkLog (log_Index l) (log_Term l) (log_Type l) data (log_peer l)) (lf_policy f).

(** [preparePeerChange]: the future with its entry completed; [None] when it is refused. *)
Definition preparePeerChange (f : logFuture) r : outcome (option logFuture * Raft L K) :=
  match changedPeers (lf_log f) r with
  | inr e => Return (None, respond (lf_errCh f) (Some e) r)
  | inl peerSet =>
      let! data := encodePeers (env_encodePeers env) peerSet in
      Return (Some (set_data data f), r)
  end.

(** The streams of a leader, in some order (a map is ranged over). *)
Definition streams r : list followerReplication :=
  match r_leaderState r with
  | None => []
  | Some ls => (map_to_list (ls_replState ls)).*2
  end.

(** [checkLeaderLease]: the longest silence among the followers within the lease, and the node,
    stepped down without a quorum. *)
Definition checkLeaderLease (now : Time) r : Duration * Raft L K :=
  let '(contacted, maxDiff) :=
    foldl (fun '(contacted, maxDiff) s =>
             let diff := Time_Sub now (fr_lastContact s) in
             if diff <=? rc_LeaderLeaseTimeout (r_conf r)
             then (contacted + 1, if diff >? maxDiff then diff else maxDiff)
             else (contacted, maxDiff)) (1, 0) (streams r) in
  if contacted <? quorumSize r then (maxDiff, setState Follower r) else (maxDiff, r).

(** ** Requests *)

(** [setPreviousLog]: the index and term before the first entry to send. *)
Definition setPreviousLog (nextIndex : Z) r : outcome ((Z * Z + error) * Raft L K) :=
  if nextIndex =? 1 then Return (inl (0, 0), r)
  else if wrapu64 (nextIndex - 1) =? rs_lastSnapshotIndex (r_raftState r) then
    Return (inl (rs_lastSnapshotIndex (r_raftState r), rs_lastSnapshotTerm (r_raftState r)), r)
  else
    let! (l, logs) := GetLog (wrapu64 (nextIndex - 1)) (r_logs r) in
    let r := set_rlogs logs r in
    match l with
    | inr e => Return (inr e, r)
    | inl l => Return (inl (log_Index l, log_Term l), r)
    end.

(** The loop of [setNewLogs]: [n] entries from [i] on. *)
Fixpoint read_logs (n : nat) (i : Z) r : outcome ((list Log + error) * Raft L K) :=
  match n with
  | O => Return (inl [], r)
  | S n =>
      let! (l, logs) := GetLog i (r_logs r) in
      let r := set_rlogs logs r in
      match l with
      | inr e => Return (inr e, r)
      | inl l =>
          let! (ls, r) := read_logs n (i + 1) r in
          match ls with
          | inr e => Return (inr e, r)
          | inl ls => Return (inl (l :: ls), r)
          end
      end
  end.

Definition setNewLogs (nextIndex lastIndex : Z) r : outcome ((list Log + error) * Raft L K) :=
  let maxIndex := umin (wrapu64 (nextIndex + rc_MaxAppendEntries (r_conf r) - 1)) lastIndex in
  read_logs (Z.to_nat (maxIndex - nextIndex + 1)) nextIndex r.

Definition setupAppendEntries (currentTerm nextIndex lastIndex : Z) r
    : outcome ((AppendEntriesRequest + error) * Raft L K) :=
  let! (prev, r) := setPreviousLog nextIndex r in
  match prev with
  | inr e => Return (inr e, r)
  | inl (prevEntry, prevTerm) =>
      let! (entries, r) := setNewLogs nextIndex lastIndex r in
      match entries with
      | inr e => Return (inr e, r)
      | inl entries =>
          Return (inl (mkAppendEntriesRequest currentTerm (EncodePeer (r_localAddr r)) prevEntry
                         prevTerm entries (rs_commitIndex (r_raftState r))), r)
      end
  end.

(** ** Confirmations of leadership *)

Definition send_verify (id : nat) (v : verifyFuture) r : Raft L K :=
  set_verifyCh (r_verifyCh r ++ [id])%list
    (set_verifyFutures (<[id := mkVerifyFuture false (vf_quorumSize v) (vf_votes v)]> (r_verifyFutures r)) r).

(** [verifyFuture.vote]. *)
Definition verify_vote (leader : bool) (id : nat) r : Raft L K :=
  match r_verifyFutures r !! id with
  | None => r
  | Some v =>
      if negb (vf_notifyCh v) then r
      else if leader then
        let v := mkVerifyFuture true (vf_quorumSize v) (vf_votes v + 1) in
        if vf_votes v >=? vf_quorumSize v then send_verify id v r
        else set_verifyFutures (<[id := v]> (r_verifyFutures r)) r
      else send_verify id v r
  end.

(** [notifyAll]. *)
Definition notifyAll (leader : bool) s r : followerReplication * Raft L K :=
  (fr_set_notify (fr_notifyCh s) [] s, foldl (fun r id => verify_vote leader id r) r (fr_notify s)).

(** [handleStaleTerm]. *)
Definition handleStaleTerm s r : followerReplication * Raft L K :=
  let '(s, r) := notifyAll false s r in (s, stream_stepDown s r).

(** ** The progress of a follower *)

(** [updateLastAppended]. *)
Definition updateLastAppended (req : AppendEntriesRequest) s r
    : outcome (followerReplication * Raft L K) :=
  let! (s, r) :=
    match head (ae_Entries req), last (ae_Entries req) with
    | Some first, Some last =>
        let! r := stream_inflight (CommitRange (log_Index first) (log_Index last)) s r in
        Return (fr_set_indexes (log_Index last) (wrapu64 (log_Index last + 1)) s, r)
    | _, _ => Return (s, r)
    end in
  Return (notifyAll true s r).

(** [replicateTo] from the response on: [true] stops the replication, as the leader is stale. *)
Definition replicateResponse (now : Time) (req : AppendEntriesRequest) (resp : AppendEntriesResponse)
    s r : outcome (bool * followerReplication * Raft L K) :=
  if aer_Term resp >? ae_Term req then
    let '(s, r) := handleStaleTerm s r in Return (true, s, r)
  else
    let s := fr_setLastContact now s in
    if aer_Success resp then
      let! (s, r) := updateLastAppended req s r in
      Return (false, fr_set_allowPipeline true (fr_set_failures 0 s), r)
    else
      let nextIndex :=
        umax (umin (wrapu64 (fr_nextIndex s - 1)) (wrapu64 (aer_LastLog resp + 1))) 1 in
      let s := fr_set_indexes (wrapu64 (nextIndex - 1)) nextIndex s in
      Return (false,
              fr_set_failures (if aer_NoRetryBackoff resp then 0 else wrapu64 (fr_failures s + 1)) s, r).
End Leader.

(** ** Stored entries *)

(** Entries are stored under their own index. *)
Definition indexed (m : gmap Z Log) : Prop := forall i l, m !! i = Some l -> log_Index l = i.

(** The entries of a request: consecutive indices from [first]. *)
Definition consecutive (first : Z) (es : list Log) : Prop :=
  log_Index <$> es = seqZ first (Z.of_nat (length es)).

Lemma consecutive_cons first e es :
  consecutive first (e :: es) -> log_Index e = first /\ consecutive (first + 1) es.
Proof.
  unfold consecutive. simpl. rewrite seqZ_cons by lia. intros [= E1 E2].
  split; [done|]. etrans; [exact E2|]. f_equal; lia.
Qed.

Lemma insert_logs_seq es : forall first m,
  consecutive first es -> insert_logs es m = map_seqZ first es ∪ m.
Proof.
  induction es as [|e es IH]; intros first m Hc; [symmetry; apply (left_id_L ∅ (∪))|].
  apply consecutive_cons in Hc as [He Hc].
  change (insert_logs (e :: es) m) with (insert_logs es (<[log_Index e := e]> m)).
  rewrite (IH (first + 1)) by done. rewrite He.
  rewrite map_seqZ_cons. rewrite <- insert_union_r by apply map_seqZ_cons_disjoint.
  by rewrite <- insert_union_l.
Qed.

Lemma consecutive_lookup first es i e :
  consecutive first es -> es !! i = Some e -> log_Index e = first + Z.of_nat i.
Proof.
  intros Hc He. assert (E : (log_Index <$> es) !! i = Some (log_Index e)) by (by rewrite list_lookup_fmap, He).
  rewrite Hc in E. apply lookup_seqZ in E. lia.
Qed.

Lemma consecutive_erase first es : consecutive first es -> consecutive first (erase_peer <$> es).
Proof. unfold consecutive. rewrite length_fmap, <- list_fmap_compose. done. Qed.

Lemma consecutive_ok first es :
  consecutive first es -> 0 <= first -> first + Z.of_nat (length es) <= 2 ^ 64 ->
  Forall (fun l => uint64_ok (log_Index l)) es.
Proof.
  intros Hc Hf Hhi. apply Forall_lookup. intros i e He.
  rewrite (consecutive_lookup _ _ _ _ Hc He). apply lookup_lt_Some in He. unfold uint64_ok. lia.
Qed.

(** The entries before an index. *)
Definition entries_before (first : Z) (m : gmap Z Log) : gmap Z Log := filter (fun p => p.1 < first) m.

Section Follower.
Context `{LogStoreLaws L} `{StableStore K}.
Context (env : raftEnv) (now : Time).
Implicit Types (r : Raft L K).

(** What a handler keeps of the log. *)
Definition same_log r r' : Prop :=
  (forall m, log_rep (r_logs r) m -> log_rep (r_logs r') m) /\
  rs_lastLogIndex (r_raftState r') = rs_lastLogIndex (r_raftState r) /\
  rs_lastLogTerm (r_raftState r') = rs_lastLogTerm (r_raftState r).

Lemma same_log_refl r : same_log r r.
Proof. by split_and!. Qed.

Lemma same_log_trans r1 r2 r3 : same_log r1 r2 -> same_log r2 r3 -> same_log r1 r3.
Proof. intros (?&?&?) (?&?&?). split_and!; [auto|congruence|congruence]. Qed.

Lemma same_log_fields r r' :
  r_logs r' = r_logs r -> rs_lastLogIndex (r_raftState r') = rs_lastLogIndex (r_raftState r) ->
  rs_lastLogTerm (r_raftState r') = rs_lastLogTerm (r_raftState r) -> same_log r r'.
Proof. intros E ? ?. split_and!; [by rewrite E|done|done]. Qed.

Lemma processLog_same_log l f pre r b r' :
  processLog env now l f pre r = Return (b, r') -> same_log r r'.
Proof.
  assert (Hresp : forall ch e r0, same_log r0 (respond ch e r0)).
  { intros ch e r0. destruct (respond_frame ch e r0) as [q ->]. by apply same_log_fields. }
  assert (Hset : forall r0, same_log r r0 ->
    same_log r match f with Some f => if pre then r0 else respond (lf_errCh f) None r0 | None => r0 end).
  { intros r0 Hq. destruct f as [f|], pre; try done. by eapply same_log_trans. }
  unfold processLog. intros E. destruct (log_Type l).
  all: try (destruct (decodePeers _ _) as [ps|]; [|done]; cbn [outcome_bind] in E;
    destruct (applyPeerSet _ _ _ _ _) as [[b' r1]|] eqn:E1; [|done]; injection E as <- <-; apply Hset;
    apply applyPeerSet_frame in E1 as (ps' & store & ls & [->|[->| ->]]);
    [by apply same_log_fields..|unfold Raft_Shutdown; case_if; by apply same_log_fields]).
  all: try (injection E as <- <-; apply Hset, same_log_refl).
  all: case_if; [destruct f|]; simplify_eq; auto using same_log_refl; by apply same_log_fields.
Qed.

Lemma GetLog_same i (s : L) v s' :
  uint64_ok i -> GetLog i s = Return (v, s') -> forall m, log_rep s m -> log_rep s' m.
Proof.
  intros Hi E m Hs. destruct (GetLog_law s m i Hs Hi) as (v' & s'' & E' & Hs' & _). congruence.
Qed.

Lemma process_one_same_log idx f r r' :
  uint64_ok idx -> process_one env now idx f r = Return r' -> same_log r r'.
Proof.
  intros Hi.
  assert (Hst : process_stored env now idx r = Return r' -> same_log r r').
  { unfold process_stored. destruct (GetLog idx (r_logs r)) as [[[l|e] logs]|] eqn:E; cbn [outcome_bind]; [|done..].
    destruct (processLog _ _ l None false _) as [[b r1]|] eqn:E1; [|done]. intros [= <-].
    apply processLog_same_log in E1. eapply same_log_trans; [|exact E1].
    split_and!; [|done|done]. by eapply GetLog_same. }
  unfold process_one. destruct f as [f|]; [|done]. case_if; [|done].
  destruct (processLog _ _ _ _ _ _) as [[b r1]|] eqn:E1; [|done]. intros [= <-]. by eapply processLog_same_log.
Qed.

Lemma process_range_same_log n : forall idx f r r',
  0 <= idx -> idx + Z.of_nat n <= 2 ^ 64 ->
  process_range env now n idx f r = Return r' -> same_log r r'.
Proof.
  induction n as [|n IH]; intros idx f r r' H1' H2'; cbn [process_range]; [intros [= <-]; apply same_log_refl|].
  destruct (process_one _ _ idx f r) as [r1|] eqn:E; [|done]. cbn [outcome_bind]. intros E2%IH; [|lia..].
  apply process_one_same_log in E; [|unfold uint64_ok; lia].
  eapply same_log_trans; [exact E|]. eapply same_log_trans; [|exact E2]. by apply same_log_fields.
Qed.

Lemma advanceCommit_same_log a r r' :
  0 <= rs_lastApplied (r_raftState r) -> uint64_ok (ae_LeaderCommitIndex a) ->
  advanceCommit env now a r = Return r' -> same_log r r'.
Proof.
  intros Hla Hlc. unfold advanceCommit, processLogs. rewrite umin_spec. cbn [rs_lastApplied upd_raftState r_raftState rs_setCommitIndex].
  intros E. unfold uint64_ok in Hlc. destruct (_ && _); [|injection E as <-; apply same_log_refl].
  destruct (Z.leb_spec (ae_LeaderCommitIndex a `min` getLastIndex (r_raftState r)) (rs_lastApplied (r_raftState r))).
  - injection E as <-. by apply same_log_fields.
  - apply process_range_same_log in E; [|lia..]. eapply same_log_trans; [|exact E]. by apply same_log_fields.
Qed.

Definition log_bounded r (m : gmap Z Log) : Prop :=
  uint64_ok (rs_lastLogIndex (r_raftState r)) /\
  forall i, is_Some (m !! i) -> i <= rs_lastLogIndex (r_raftState r).

Lemma entries_before_all first m :
  (forall i, is_Some (m !! i) -> i < first) -> entries_before first m = m.
Proof. intros Hm. apply map_filter_id. intros i l E. simpl. apply Hm. eauto. Qed.

Lemma delete_logs_suffix first hi m :
  (forall i, is_Some (m !! i) -> i <= hi) -> delete_logs first hi m = entries_before first m.
Proof.
  intros Hm. apply map_filter_ext. intros i l E. simpl. assert (i <= hi) by (apply Hm; eauto). lia.
Qed.

(** Storing the entries of a request: they replace everything from their first index on. *)
Lemma storeEntries_spec a r m first r' :
  log_rep (r_logs r) m -> log_bounded r m -> ae_Entries a <> [] ->
  consecutive first (ae_Entries a) -> 0 < first -> first + Z.of_nat (length (ae_Entries a)) <= 2 ^ 64 ->
  storeEntries a r = Return (true, r') ->
  log_rep (r_logs r') (map_seqZ first (erase_peer <$> ae_Entries a) ∪ entries_before first m) /\
  rs_lastLogIndex (r_raftState r') = first + Z.of_nat (length (ae_Entries a)) - 1 /\
  rs_lastApplied (r_raftState r') = rs_lastApplied (r_raftState r).
Proof.
  intros Hm [Hlast Hb] Hne Hc Hf Hhi. unfold storeEntries.
  pose proof (consecutive_ok _ _ Hc ltac:(lia) Hhi) as Hok. pose proof Hc as Hc'.
  set (es := ae_Entries a) in *.
  destruct es as [|e0 es'] eqn:Ees; [done|]. apply consecutive_cons in Hc' as [He0 _]. cbn [head].
  assert (Hlst : exists lst, last (e0 :: es') = Some lst /\
      log_Index lst = first + Z.of_nat (length (e0 :: es')) - 1).
  { rewrite last_lookup. destruct (lookup_lt_is_Some_2 (e0 :: es') (Init.Nat.pred (length (e0 :: es')))) as [x Hx];
      [simpl; lia|]. rewrite Hx. exists x. split; [done|]. rewrite (consecutive_lookup _ _ _ _ Hc Hx). simpl. lia. }
  destruct Hlst as (lst & -> & Hlst).
  assert (Hrest : forall r1, log_rep (r_logs r1) (entries_before first m) ->
    rs_lastApplied (r_raftState r1) = rs_lastApplied (r_raftState r) ->
    (let! (err, logs) := StoreLogs (e0 :: es') (r_logs r1) in
     let r2 := set_rlogs logs r1 in
     match err with
     | Some _ => Return (false, r2)
     | None => Return (true, upd_raftState (rs_setLastLog (log_Index lst) (log_Term lst)) r2)
     end) = Return (true, r') ->
    log_rep (r_logs r') (map_seqZ first (erase_peer <$> e0 :: es') ∪ entries_before first m) /\
    rs_lastLogIndex (r_raftState r') = first + Z.of_nat (length (e0 :: es')) - 1 /\
    rs_lastApplied (r_raftState r') = rs_lastApplied (r_raftState r)).
  { intros r1 Hm1 Hla. destruct (StoreLogs_law (r_logs r1) _ (e0 :: es') Hm1 Hok) as (err & s' & -> & Hs').
    cbn [outcome_bind]. destruct err as [e|]; [done|]. intros [= <-]. cbn [r_logs upd_raftState set_rlogs].
    split_and!; [|done|done].
    by rewrite <- (insert_logs_seq (erase_peer <$> e0 :: es') first) by by apply consecutive_erase. }
  rewrite He0. destruct (Z.leb_spec first (rs_lastLogIndex (r_raftState r))) as [Hle|Hgt].
  - destruct (DeleteRange_law (r_logs r) m first (rs_lastLogIndex (r_raftState r)) Hm) as (err & s1 & -> & Hs1);
      [unfold uint64_ok in *; lia|done|]. cbn [outcome_bind].
    destruct err as [e|]; [done|]. rewrite (delete_logs_suffix first _ m Hb) in Hs1.
    by apply (Hrest (set_rlogs s1 r)).
  - cbn [outcome_bind]. apply (Hrest r); [|done].
    rewrite entries_before_all; [done|]. intros i Hi. specialize (Hb i Hi). lia.
Qed.

(** The previous entry of an accepted request is in the log, with the same term. *)
Definition previous_matches (a : AppendEntriesRequest) r (m : gmap Z Log) : Prop :=
  ae_PrevLogEntry a <= 0 \/
  (ae_PrevLogEntry a, ae_PrevLogTerm a) = getLastEntry (r_raftState r) \/
  exists l, m !! ae_PrevLogEntry a = Some l /\ log_Term l = ae_PrevLogTerm a.

Lemma checkPrevious_spec a r m b r' :
  log_rep (r_logs r) m -> uint64_ok (ae_PrevLogEntry a) -> checkPrevious a r = Return (b, r') ->
  log_rep (r_logs r') m /\ r_raftState r' = r_raftState r /\ (b = true -> previous_matches a r m).
Proof.
  intros Hm Hok. unfold checkPrevious, previous_matches. rewrite Z.gtb_ltb.
  destruct (Z.ltb_spec 0 (ae_PrevLogEntry a)); [|intros [= <- <-]; auto].
  destruct (getLastEntry (r_raftState r)) as [li lt].
  destruct (Z.eqb_spec (ae_PrevLogEntry a) li).
  - intros [= <- <-]. split_and!; [done..|]. intros Ht%Z.eqb_eq. right. left. congruence.
  - destruct (GetLog_law (r_logs r) m _ Hm Hok) as (v & s' & -> & Hs' & Hv). cbn [outcome_bind].
    destruct v as [l|e]; intros [= <- <-]; split_and!; try done. intros Ht%Z.eqb_eq. right. right. eauto.
Qed.

Lemma setCurrentTerm_log t r r' :
  setCurrentTerm t r = Return r' ->
  r_logs r' = r_logs r /\ exists s, r_raftState r' = rs_setCurrentTerm t s /\ s = r_raftState r.
Proof.
  unfold setCurrentTerm. destruct (SetUint64 _ _ _) as [[[e|] k]|]; cbn [outcome_bind]; [done| |done].
  intros [= <-]. eauto.
Qed.
End Follower.

(** An accepted append request: see [appendEntries_appends]. *)
Lemma accepted_log `{LogStoreLaws L} `{StableStore K} env now a
    (r : Raft L K) m first resp r' :
  log_rep (r_logs r) m -> log_bounded r m -> 0 <= rs_lastApplied (r_raftState r) ->
  ae_Entries a <> [] -> consecutive first (ae_Entries a) -> 0 < first ->
  first + Z.of_nat (length (ae_Entries a)) <= 2 ^ 64 ->
  uint64_ok (ae_PrevLogEntry a) -> uint64_ok (ae_LeaderCommitIndex a) ->
  appendEntries env now a r = Return (resp, r') -> aer_Success resp = true ->
  log_rep (r_logs r') (map_seqZ first (erase_peer <$> ae_Entries a) ∪ entries_before first m) /\
  rs_lastLogIndex (r_raftState r') = first + Z.of_nat (length (ae_Entries a)) - 1 /\
  previous_matches a r m.
Proof.
  intros Hm Hb Hla Hne Hc Hf Hhi Hprev Hcommit. unfold appendEntries.
  destruct (_ <? _); [intros [= <- <-]; done|].
  destruct (if (_ || _ : bool) then _ else _) as [[x r1]|] eqn:E1; [|done]. cbn [outcome_bind].
  assert (Hr1 : r_logs r1 = r_logs r /\ rs_lastLogIndex (r_raftState r1) = rs_lastLogIndex (r_raftState r) /\
    getLastEntry (r_raftState r1) = getLastEntry (r_raftState r) /\
    rs_lastApplied (r_raftState r1) = rs_lastApplied (r_raftState r)).
  { revert E1. case_if; [|by intros [= _ <-]].
    destruct (setCurrentTerm _ _) as [r0|] eqn:E0; [|done]. intros [= _ <-].
    apply setCurrentTerm_log in E0 as (-> & s & -> & ->). done. }
  destruct Hr1 as (El & Ei & Ee & Ea). set (r2 := set_leader _ r1).
  destruct (checkPrevious a r2) as [[ok r3]|] eqn:E3; [|done]. cbn [outcome_bind].
  apply (checkPrevious_spec a r2 m) in E3 as (Hm3 & Hs3 & Hpm); [|by simpl; rewrite El|done].
  destruct ok; cbn [negb]; [|intros [= <- <-]; done].
  destruct (storeEntries a r3) as [[ok r4]|] eqn:E4; [|done]. cbn [outcome_bind].
  destruct ok; cbn [negb]; [|intros [= <- <-]; done].
  apply (storeEntries_spec a r3 m first) in E4 as (Hm4 & Hi4 & Ha4); try done.
  2: { unfold log_bounded in *. rewrite Hs3. simpl. by rewrite Ei. }
  destruct (advanceCommit env now a r4) as [r5|] eqn:E5; [|done]. intros [= <- <-] _.
  apply advanceCommit_same_log in E5 as (Hl5 & Hi5 & _); [|rewrite Ha4, Hs3; simpl; lia|done].
  split_and!; [by apply Hl5|by simpl; rewrite Hi5|].
  specialize (Hpm eq_refl). unfold previous_matches in *. simpl in Hpm. by rewrite Ee in Hpm.
Qed.

(** What a follower's log becomes.  When a follower accepts an append request whose entries have
    consecutive indices, its log is exactly: its own entries before the first new index, unchanged,
    then the entries of the request (everything the follower had from that index on is gone); the
    cached last index is that of the last entry; and the entry before them matches in term, or the
    request starts the log. *)
Theorem appendEntries_appends `{LogStoreLaws L} `{StableStore K} env now a
    (r : Raft L K) m first resp r' :
  log_rep (r_logs r) m -> log_bounded r m -> 0 <= rs_lastApplied (r_raftState r) ->
  ae_Entries a <> [] -> consecutive first (ae_Entries a) -> 0 < first ->
  first + Z.of_nat (length (ae_Entries a)) <= 2 ^ 64 ->
  uint64_ok (ae_PrevLogEntry a) -> uint64_ok (ae_LeaderCommitIndex a) ->
  appendEntries env now a r = Return (resp, r') -> aer_Success resp = true ->
  log_rep (r_logs r') (map_seqZ first (erase_peer <$> ae_Entries a) ∪ entries_before first m) /\
  rs_lastLogIndex (r_raftState r') = first + Z.of_nat (length (ae_Entries a)) - 1 /\
  previous_matches a r m.
Proof. apply accepted_log. Qed.

(** *** A follower with a conflicting suffix *)

Lemma ex_disk_empty : log_rep (ex_disk []) ∅.
Proof.
  split; [constructor|]. split_and!; simpl.
  - intros k. rewrite lookup_empty. by intros [].
  - intros i. rewrite lookup_empty. by intros [].
  - intros i _. by rewrite lookup_empty.
Qed.

Lemma ex_stored ls (s : ex_store) :
  Forall (fun l => uint64_ok (log_Index l)) ls -> StoreLogs ls (ex_disk []) = Return (None, s) ->
  log_rep s (insert_logs (erase_peer <$> ls) ∅).
Proof.
  intros Hok E. destruct (StoreLogs_law (ex_disk []) ∅ ls ex_disk_empty Hok) as (r & s' & E' & Hs').
  rewrite E in E'. injection E' as <- <-. exact Hs'.
Qed.

Definition ex_store_of (ls : list Log) : ex_store :=
  (ex_returns (None, ex_disk []) (StoreLogs ls (ex_disk []))).2.

(** A follower in term [term] with the entries [ls] and nothing applied. *)
Definition ex_follower (term : Z) (ls : list Log) (faults : list fault) : Raft ex_store ex_store :=
  let l := default zeroLog (last ls) in
  let s := ex_store_of ls in
  mkRaft (mkRaftState term 0 0 0 0 (log_Index l) (log_Term l) Follower) DefaultConfig "" "b"
    ["a"; "c"] (mkStaticPeers ex_members)
    (mkBoltStore (bs_logs s) (bs_conf s) faults) (ex_disk []) 0 [] [] false None ∅ [].

Definition ex_old_log : list Log := [log_ex 1 1 "x"; log_ex 2 1 "y"; log_ex 3 1 "z"].
Definition ex_append : AppendEntriesRequest :=
  mkAppendEntriesRequest 2 "a" 1 1 [log_ex 2 2 "u"] 1.

Lemma ex_follower_rep : log_rep (r_logs (ex_follower 1 ex_old_log [])) (insert_logs ex_old_log ∅).
Proof.
  apply (ex_stored ex_old_log); [|vm_compute; reflexivity].
  repeat (constructor; [unfold uint64_ok; simpl; lia|]). constructor.
Qed.

Lemma appendEntries_appends_witness :
  exists resp r', appendEntries ex_env 7 ex_append (ex_follower 1 ex_old_log [])
      = Return (resp, r') /\ aer_Success resp = true /\
    log_rep (r_logs r') (map_seqZ 2 [log_ex 2 2 "u"] ∪ entries_before 2 (insert_logs ex_old_log ∅)) /\
    rs_lastLogIndex (r_raftState r') = 2.
Proof.
  destruct (appendEntries ex_env 7 ex_append (ex_follower 1 ex_old_log [])) as [[resp r']|] eqn:E;
    [|exfalso; apply (f_equal is_return) in E; vm_compute in E; discriminate].
  assert (Hs : aer_Success resp = true).
  { replace resp with (ex_returns (resp, r')
      (appendEntries ex_env 7 ex_append (ex_follower 1 ex_old_log []))).1 by (rewrite E; reflexivity).
    vm_compute. reflexivity. }
  exists resp, r'. split; [done|]. split; [done|].
  destruct (appendEntries_appends ex_env 7 ex_append (ex_follower 1 ex_old_log [])
              (insert_logs ex_old_log ∅) 2 resp r') as (H1 & H2 & _).
  - exact ex_follower_rep.
  - split; [unfold uint64_ok; simpl; lia|]. intros i Hi. simpl in Hi. simpl.
    repeat (apply lookup_insert_is_Some' in Hi as [<-|Hi]; [lia|]).
    rewrite lookup_empty in Hi. by destruct Hi.
  - simpl. lia.
  - done.
  - reflexivity.
  - lia.
  - simpl. lia.
  - unfold uint64_ok. simpl. lia.
  - unfold uint64_ok. simpl. lia.
  - exact E.
  - exact Hs.
  - split; [exact H1|exact H2].
Defined.

(** ** From the leader's log to the follower's *)

Section Replicate.
Context `{LogStoreLaws L} `{StableStore K}.
Implicit Types (r : Raft L K).

(** The entries read for a request are those of the log, from the first one on without a gap. *)
Lemma read_logs_spec n : forall i r m es r',
  log_rep (r_logs r) m -> indexed m -> 0 <= i -> i + Z.of_nat n <= 2 ^ 64 ->
  read_logs n i r = Return (inl es, r') ->
  log_rep (r_logs r') m /\ length es = n /\ consecutive i es /\
  (forall j, i <= j < i + Z.of_nat n -> m !! j = es !! Z.to_nat (j - i)).
Proof.
  induction n as [|n IH]; intros i r m es r' Hm Hi Hlo Hhi; cbn [read_logs].
  { intros [= <- <-]. split_and!; [done|done|done|]. intros j Hj. lia. }
  destruct (GetLog_law (r_logs r) m i Hm) as (v & s' & -> & Hs' & Hv); [unfold uint64_ok; lia|].
  cbn [outcome_bind]. destruct v as [l|e]; [|done].
  destruct (read_logs n (i + 1) _) as [[[ls|e] r1]|] eqn:E; cbn [outcome_bind]; [|done..]. intros [= <- <-].
  apply (IH _ _ m) in E as (Hm1 & Hlen & Hc & Hls); [|done|done|lia|lia].
  split_and!; [done|simpl; by rewrite Hlen| |].
  - unfold consecutive in *. simpl. rewrite seqZ_cons by lia. f_equal; [by apply Hi|].
    etrans; [exact Hc|]. f_equal; lia.
  - intros j Hj. destruct (decide (j = i)) as [->|Hne]; [by rewrite Z.sub_diag, Hv|].
    rewrite Hls by lia. replace (Z.to_nat (j - i)) with (S (Z.to_nat (j - (i + 1)))) by lia. done.
Qed.

Lemma read_logs_state n : forall i r es r',
  read_logs n i r = Return (es, r') -> r_raftState r' = r_raftState r.
Proof.
  induction n as [|n IH]; intros i r es r'; cbn [read_logs]; [by intros [= _ <-]|].
  destruct (GetLog i (r_logs r)) as [[[l|e] s]|]; cbn [outcome_bind]; [| |done].
  - destruct (read_logs n (i + 1) _) as [[[ls|e] r3]|] eqn:E; cbn [outcome_bind]; [..|done];
      intros [= _ <-]; by apply IH in E.
  - by intros [= _ <-].
Qed.

(** The request a leader builds for a follower whose next index is [next]. *)
Lemma setupAppendEntries_spec term next lastIndex r m req r' :
  log_rep (r_logs r) m -> indexed m -> 0 < next -> uint64_ok lastIndex -> next <= lastIndex + 1 ->
  setupAppendEntries term next lastIndex r = Return (inl req, r') ->
  consecutive next (ae_Entries req) /\ next + Z.of_nat (length (ae_Entries req)) <= 2 ^ 64 /\
  (forall j, next <= j < next + Z.of_nat (length (ae_Entries req)) ->
     m !! j = ae_Entries req !! Z.to_nat (j - next)) /\
  ae_LeaderCommitIndex req = rs_commitIndex (r_raftState r).
Proof.
  intros Hm Hi Hn Hl Hnl. unfold uint64_ok in Hl. unfold setupAppendEntries.
  destruct (setPreviousLog next r) as [[[[pe pt]|e] r1]|] eqn:E1; cbn [outcome_bind]; [|done..].
  assert (Hr1 : log_rep (r_logs r1) m /\ r_raftState r1 = r_raftState r /\ r_conf r1 = r_conf r).
  { revert E1. unfold setPreviousLog. repeat case_if; try (by intros [= _ _ <-]).
    destruct (GetLog_law (r_logs r) m (wrapu64 (next - 1)) Hm) as (v & s' & -> & Hs' & _).
    { unfold wrapu64, uint64_ok. apply Z.mod_pos_bound. lia. }
    cbn [outcome_bind]. destruct v; by intros [= _ _ <-]. }
  destruct Hr1 as (Hm1 & Hs1 & Hc1). unfold setNewLogs. rewrite umin_spec.
  set (mx := _ `min` lastIndex). assert (Hmx : mx <= lastIndex) by (unfold mx; lia).
  destruct (read_logs _ next r1) as [[[es|e] r2]|] eqn:E2; cbn [outcome_bind]; [|done..]. intros [= <- <-].
  pose proof (read_logs_state _ _ _ _ _ E2) as Hr2.
  apply (read_logs_spec _ _ _ m) in E2 as (_ & Hlen & Hc & Hes); [|done|done|lia|lia].
  cbn [ae_Entries ae_LeaderCommitIndex]. rewrite Hlen. split_and!; [done|lia| |congruence].
  intros j Hj. apply Hes. done.
Qed.
End Replicate.

(** C8: replication copies the log.  When a leader builds an append request from its log for a
    follower, with at least one entry, and the follower, whose log has no entries behind the last index it
    keeps, accepts it, the follower holds, at every index the request covers, exactly the leader's entry,
    and nothing beyond them. *)
Theorem replication_copies_log `{LogStoreLaws L} `{StableStore K} env now term next lastIndex
    (leader leader' follower follower' : Raft L K) ml mf req resp :
  log_rep (r_logs leader) ml -> indexed ml -> 0 < next -> uint64_ok lastIndex -> next <= lastIndex + 1 ->
  uint64_ok (rs_commitIndex (r_raftState leader)) ->
  setupAppendEntries term next lastIndex leader = Return (inl req, leader') ->
  ae_Entries req <> [] -> uint64_ok (ae_PrevLogEntry req) ->
  log_rep (r_logs follower) mf -> log_bounded follower mf ->
  0 <= rs_lastApplied (r_raftState follower) ->
  appendEntries env now req follower = Return (resp, follower') -> aer_Success resp = true ->
  exists mf', log_rep (r_logs follower') mf' /\
    (forall j, next <= j < next + Z.of_nat (length (ae_Entries req)) ->
       mf' !! j = erase_peer <$> ml !! j) /\
    (forall j, j < next -> mf' !! j = mf !! j) /\
    (forall j, next + Z.of_nat (length (ae_Entries req)) <= j -> mf' !! j = None).
Proof.
  intros Hml Hi Hn Hl Hnl Hci Hsetup Hne Hprev Hmf Hb Hla Happ Hs.
  destruct (setupAppendEntries_spec _ _ _ _ ml _ _ Hml Hi Hn Hl Hnl Hsetup) as (Hc & Hhi & Hes & Hcommit).
  destruct (accepted_log env now req follower mf next resp follower') as (Hm' & _ & _);
    try done.
  { by rewrite Hcommit. }
  exists (map_seqZ next (erase_peer <$> ae_Entries req) ∪ entries_before next mf). split; [done|].
  assert (Hout : forall j, (j < next \/ next + Z.of_nat (length (ae_Entries req)) <= j) ->
    (map_seqZ next (erase_peer <$> ae_Entries req) : gmap Z Log) !! j = None).
  { intros j Hj. apply lookup_map_seqZ_None. by rewrite length_fmap. }
  split_and!.
  - intros j Hj. rewrite Hes by done. rewrite <- list_lookup_fmap.
    destruct (lookup_lt_is_Some_2 (erase_peer <$> ae_Entries req) (Z.to_nat (j - next))) as [x Hx];
      [rewrite length_fmap; lia|].
    rewrite Hx. apply lookup_union_Some_l, lookup_map_seqZ_Some. split; [lia|done].
  - intros j Hj. rewrite lookup_union_r by (apply Hout; lia). unfold entries_before.
    rewrite map_lookup_filter. destruct (mf !! j); simpl; [|done]. by rewrite option_guard_True.
  - intros j Hj. rewrite lookup_union_r by (apply Hout; lia). unfold entries_before.
    rewrite map_lookup_filter. destruct (mf !! j); simpl; [|done]. by rewrite option_guard_False by (simpl; lia).
Qed.

(** The search for the last common entry makes progress.  Every rejected append request moves the
    follower's next index down (to the follower's last entry if that is lower), but not below 1,
    where requests have no previous entry to check; so at most [next - 1] requests can be rejected
    before it is 1. *)
Theorem rejection_backs_up {L K} now req resp s (r : Raft L K) b s' r' :
  uint64_ok (fr_nextIndex s) -> 0 < fr_nextIndex s -> uint64_ok (aer_LastLog resp + 1) ->
  aer_Term resp <= ae_Term req -> aer_Success resp = false ->
  replicateResponse now req resp s r = Return (b, s', r') ->
  b = false /\ r' = r /\ 1 <= fr_nextIndex s' /\
  (1 < fr_nextIndex s -> fr_nextIndex s' < fr_nextIndex s) /\
  fr_nextIndex s' <= Z.max 1 (aer_LastLog resp + 1) /\
  fr_matchIndex s' = fr_nextIndex s' - 1.
Proof.
  unfold uint64_ok. intros Hn Hpos Hl Ht Hs. unfold replicateResponse. rewrite Hs, Z.gtb_ltb.
  destruct (Z.ltb_spec (ae_Term req) (aer_Term resp)); [lia|].
  rewrite umax_spec, umin_spec. cbn [fr_nextIndex fr_setLastContact].
  rewrite (wrapu64_id (fr_nextIndex s - 1)), (wrapu64_id (aer_LastLog resp + 1)) by (unfold uint64_ok; lia).
  rewrite (wrapu64_id (Z.max _ 1 - 1)) by (unfold uint64_ok; lia). intros [= <- <- <-].
  cbn [fr_nextIndex fr_matchIndex fr_set_failures fr_set_indexes].
  split_and!; try done; lia.
Qed.

Definition ex_leader_log : list Log := [log_ex 1 1 "x"; log_ex 2 2 "u"; log_ex 3 2 "v"].
Definition ex_leader : Raft ex_store ex_store := ex_follower 2 ex_leader_log [].

Lemma ex_leader_rep : log_rep (r_logs ex_leader) (insert_logs ex_leader_log ∅).
Proof.
  apply (ex_stored ex_leader_log); [|vm_compute; reflexivity].
  repeat (constructor; [unfold uint64_ok; simpl; lia|]). constructor.
Qed.

Definition ex_request : AppendEntriesRequest :=
  mkAppendEntriesRequest 2 "b" 1 1 [log_ex 2 2 "u"; log_ex 3 2 "v"] 0.

Lemma ex_old_bounded : log_bounded (ex_follower 1 ex_old_log []) (insert_logs ex_old_log ∅).
Proof.
  split; [unfold uint64_ok; simpl; lia|]. intros i Hi. simpl in Hi. simpl.
  repeat (apply lookup_insert_is_Some' in Hi as [<-|Hi]; [lia|]).
  rewrite lookup_empty in Hi. by destruct Hi.
Qed.

Lemma replication_copies_log_witness :
  exists resp r' mf', appendEntries ex_env 7 ex_request (ex_follower 1 ex_old_log [])
      = Return (resp, r') /\ log_rep (r_logs r') mf' /\
    mf' !! 2 = Some (log_ex 2 2 "u") /\ mf' !! 3 = Some (log_ex 3 2 "v") /\ mf' !! 4 = None.
Proof.
  destruct (appendEntries ex_env 7 ex_request (ex_follower 1 ex_old_log [])) as [[resp r']|] eqn:E;
    [|exfalso; apply (f_equal is_return) in E; vm_compute in E; discriminate].
  assert (Hs : aer_Success resp = true).
  { replace resp with (ex_returns (resp, r')
      (appendEntries ex_env 7 ex_request (ex_follower 1 ex_old_log []))).1 by (rewrite E; reflexivity).
    vm_compute. reflexivity. }
  destruct (setupAppendEntries 2 2 3 ex_leader) as [[v l']|] eqn:El; [|exfalso; apply (f_equal is_return) in El; vm_compute in El; discriminate].
  assert (Hv : v = inl ex_request).
  { replace v with (ex_returns (v, l') (setupAppendEntries 2 2 3 ex_leader)).1 by (rewrite El; reflexivity).
    vm_compute. reflexivity. }
  subst v.
  destruct (replication_copies_log ex_env 7 2 2 3 ex_leader l' (ex_follower 1 ex_old_log []) r'
              (insert_logs ex_leader_log ∅) (insert_logs ex_old_log ∅) ex_request resp)
    as (mf' & Hm & Hcopy & _ & Hbeyond).
  - exact ex_leader_rep.
  - intros i l Hl. simpl in Hl. repeat (apply lookup_insert_Some in Hl as [[<- <-]|[_ Hl]]; [done|]).
    by rewrite lookup_empty in Hl.
  - lia.
  - unfold uint64_ok. lia.
  - lia.
  - unfold uint64_ok. simpl. lia.
  - exact El.
  - done.
  - unfold uint64_ok. simpl. lia.
  - exact ex_follower_rep.
  - exact ex_old_bounded.
  - simpl. lia.
  - exact E.
  - exact Hs.
  - exists resp, r', mf'. split; [done|]. split; [exact Hm|].
    rewrite (Hcopy 2) by (simpl; lia). rewrite (Hcopy 3) by (simpl; lia).
    rewrite (Hbeyond 4) by (simpl; lia). split; [reflexivity|]. split; reflexivity.
Defined.

Definition ex_progress : followerReplication := 
  mkFollowerReplication "a" None false 2 8 9 0 0 false [] false 2.

Lemma rejection_backs_up_witness :
  exists s', replicateResponse 7 ex_request (mkAppendEntriesResponse 2 3 false true) ex_progress ex_leader
      = Return (false, s', ex_leader) /\ fr_nextIndex s' < 9 /\ fr_nextIndex s' <= 4.
Proof.
  destruct (replicateResponse 7 ex_request (mkAppendEntriesResponse 2 3 false true) ex_progress ex_leader)
    as [[[b s'] i']|] eqn:E; [|exfalso; apply (f_equal is_return) in E; vm_compute in E; discriminate].
  destruct (rejection_backs_up 7 ex_request (mkAppendEntriesResponse 2 3 false true) ex_progress ex_leader
              b s' i') as (-> & -> & _ & Hlt & Hle & _).
  - unfold uint64_ok. simpl. lia.
  - simpl. lia.
  - unfold uint64_ok. simpl. lia.
  - simpl. lia.
  - reflexivity.
  - exact E.
  - exists s'. split; [reflexivity|]. simpl in Hlt, Hle. split; [apply Hlt; lia|lia].
Defined.

(** ** Applying committed entries *)

(** An entry that does not take this node out of the cluster, with a peer set that decodes. *)
Definition harmless (env : raftEnv) (self : string) (l : Log) : Prop :=
  match log_Type l with
  | LogAddPeer => exists ps, env_decodePeers env (log_Data l) = inl ps
  | LogRemovePeer => exists ps, env_decodePeers env (log_Data l) = inl ps /\ self ∈ ps
  | _ => True
  end.

(** The entries the state machine sees. *)
Definition to_fsm (l : Log) : bool :=
  match log_Type l with LogCommand | LogBarrier => true | _ => false end.

Section Apply.
Context `{LogStoreCalm L} `{StableStore K}.
Context (env : raftEnv) (now : Time).
Implicit Types (r : Raft L K) (m : gmap Z Log).

(** Without disk failures an entry that is stored is read. *)
Lemma GetLog_calm_rep (s : L) m i :
  log_rep s m -> log_calm s -> uint64_ok i ->
  exists s', GetLog i s = Return (match m !! i with Some l => inl l | None => inr ErrLogNotFound end, s') /\
    log_rep s' m /\ log_calm s'.
Proof.
  intros Hm Hc Hi. destruct (GetLog_calm s m i Hc Hm Hi) as (s' & E & Hc').
  destruct (GetLog_law s m i Hm Hi) as (v & s'' & E' & Hm' & _). exists s'. rewrite E in E'. by simplify_eq.
Qed.

(** The entries of a follower go to the state machine without a future. *)
Definition plain (l : Log) : commitTuple := mkCommitTuple l None.

Lemma applyPeerSet_harmless l ps r :
  (log_Type l = LogRemovePeer -> r_localAddr r ∈ ps) -> getState r <> Leader ->
  applyPeerSet now l false ps r = Return (false, set_peers (ExcludePeer ps (r_localAddr r))
    (StaticPeers_SetPeers ps (r_peerStore r)) r).
Proof.
  intros Hin Hst. unfold applyPeerSet.
  assert (Hself : negb (PeerContained ps (r_localAddr r)) && bool_decide (log_Type l = LogRemovePeer) = false).
  { case_bool_decide; [|apply andb_false_r]. by rewrite (proj2 (PeerContained_spec _ _) (Hin ltac:(done))). }
  rewrite Hself. change (getState (set_peers ?a ?b r)) with (getState r).
  rewrite bool_decide_eq_false_2 by done. cbn [outcome_bind andb].
  change (getState (set_peers ?a ?b r)) with (getState r). by rewrite bool_decide_eq_false_2.
Qed.

(** What the application of entries leaves alone. *)
Definition applies_from r r' : Prop :=
  r_shutdown r' = r_shutdown r /\ r_localAddr r' = r_localAddr r /\ r_stable r' = r_stable r /\
  r_leader r' = r_leader r /\ r_conf r' = r_conf r.

Lemma applies_from_trans r1 r2 r3 : applies_from r1 r2 -> applies_from r2 r3 -> applies_from r1 r3.
Proof. intros (?&?&?&?&?) (?&?&?&?&?). split_and!; congruence. Qed.

Lemma processLog_harmless l r :
  harmless env (r_localAddr r) l -> r_shutdown r = false -> getState r <> Leader ->
  exists r', processLog env now l None false r = Return (false, r') /\
    r_fsmCommitCh r' = (r_fsmCommitCh r ++ if to_fsm l then [plain l] else [])%list /\
    r_logs r' = r_logs r /\ applies_from r r' /\ r_raftState r' = r_raftState r.
Proof.
  unfold harmless, processLog, to_fsm, decodePeers, applies_from. intros Hh Hs Hst. rewrite Hs. cbn [andb].
  destruct (log_Type l) eqn:Et; try (eexists; split; [done|]; simpl; by rewrite ?app_nil_r).
  - destruct Hh as [ps ->]. cbn [outcome_bind]. rewrite applyPeerSet_harmless by (done || congruence).
    eexists. split; [done|]. simpl. by rewrite app_nil_r.
  - destruct Hh as (ps & -> & Hin). cbn [outcome_bind].
    rewrite applyPeerSet_harmless; [|by rewrite list_fmap_id|done].
    eexists. split; [done|]. simpl. by rewrite app_nil_r.
Qed.

Lemma process_range_applies n : forall idx r m,
  log_rep (r_logs r) m -> log_calm (r_logs r) -> r_shutdown r = false -> getState r <> Leader ->
  0 <= idx -> idx + Z.of_nat n <= 2 ^ 64 ->
  (forall i, idx <= i < idx + Z.of_nat n ->
     exists l, m !! i = Some l /\ harmless env (r_localAddr r) l) ->
  exists r', process_range env now n idx None r = Return r' /\
    r_fsmCommitCh r' =
      (r_fsmCommitCh r ++ (plain <$> List.filter to_fsm (omap (fun i => m !! i) (seqZ idx (Z.of_nat n)))))%list /\
    log_rep (r_logs r') m /\ log_calm (r_logs r') /\ applies_from r r' /\
    r_raftState r' = if decide (n = O) then r_raftState r
                     else rs_setLastApplied (idx + Z.of_nat n - 1) (r_raftState r).
Proof.
  induction n as [|n IH]; intros idx r m Hm Hf Hs Hst Hlo Hhi Hall; cbn [process_range].
  { exists r. split; [done|]. split; [simpl; by rewrite app_nil_r|]. done. }
  destruct (Hall idx) as (l & Hl & Hh); [lia|]. unfold process_one, process_stored.
  destruct (GetLog_calm_rep (r_logs r) m idx Hm Hf) as (s1 & -> & Hm1 & Hc1); [unfold uint64_ok; lia|].
  rewrite Hl. cbn [outcome_bind].
  destruct (processLog_harmless l (set_rlogs s1 r)) as (r1 & -> & Ha1 & Hl1 & Hap1 & Hst1); [done..|].
  cbn [outcome_bind].
  destruct (IH (idx + 1) (upd_raftState (rs_setLastApplied idx) r1) m)
    as (r2 & E2 & Ha2 & Hm2 & Hc2 & Hap2 & Hst2).
  - simpl. by rewrite Hl1.
  - simpl. by rewrite Hl1.
  - simpl. destruct Hap1 as [-> _]. done.
  - unfold getState in *. simpl. by rewrite Hst1.
  - lia.
  - lia.
  - intros i Hi. destruct (Hall i) as (l' & ? & ?); [lia|]. exists l'. simpl. by destruct Hap1 as (_ & -> & _).
  - exists r2. split; [done|]. split_and!; [|done|done| |].
    + rewrite Ha2. simpl r_fsmCommitCh. rewrite Ha1. rewrite (seqZ_cons idx) by lia.
      replace (Z.pred (Z.of_nat (S n))) with (Z.of_nat n) by lia. replace (Z.succ idx) with (idx + 1) by lia.
      simpl. rewrite Hl. simpl. destruct (to_fsm l); by rewrite <- app_assoc.
    + eapply applies_from_trans; [|exact Hap2]. exact Hap1.
    + rewrite Hst2. cbn [upd_raftState r_raftState]. rewrite Hst1. cbn [set_rlogs r_raftState].
      rewrite (decide_False (P := S n = O)) by done.
      case_decide; unfold rs_setLastApplied; simpl rs_currentTerm; simpl; f_equal; lia.
Qed.
End Apply.

(** C14: committed entries are applied in log order, each exactly once.  With the entries between the
    last applied index and the new commit index on disk of a node that follows, no disk failure, and no
    entry that removes this node, [processLogs] returns, the state machine has received exactly the commands and barriers
    among those entries, in order, after what it had before, and the applied index is the commit
    index; entries that were already applied are not applied again. *)
Theorem committed_entries_applied `{LogStoreCalm L} `{StableStore K} env now (r : Raft L K) m index :
  let applied := rs_lastApplied (r_raftState r) in
  log_rep (r_logs r) m -> log_calm (r_logs r) -> r_shutdown r = false -> getState r <> Leader ->
  0 <= applied -> index < 2 ^ 64 ->
  (forall i, applied < i <= index ->
     exists l, m !! i = Some l /\ harmless env (r_localAddr r) l) ->
  exists r', processLogs env now index None r = Return r' /\
    r_fsmCommitCh r' =
      (r_fsmCommitCh r ++
       (plain <$> List.filter to_fsm (omap (fun i => m !! i) (seqZ (applied + 1) (index - applied)))))%list /\
    rs_lastApplied (r_raftState r') = Z.max applied index.
Proof.
  cbn zeta. intros Hm Hf Hs Hst Hlo Hhi Hall. unfold processLogs. set (applied := rs_lastApplied (r_raftState r)) in *.
  destruct (Z.leb_spec index applied) as [Hle|Hgt].
  - exists r. split; [done|]. rewrite seqZ_nil by lia. simpl. rewrite app_nil_r. split; [done|]. fold applied. lia.
  - destruct (process_range_applies env now (Z.to_nat (index - applied)) (applied + 1) r m)
      as (r' & E & Ha & _ & _ & _ & Hla); [done..|lia|lia| |].
    { intros i Hi. apply Hall. lia. }
    exists r'. split; [done|]. rewrite Z2Nat.id in Ha by lia. split; [done|].
    rewrite Hla. rewrite decide_False by lia. simpl. lia.
Qed.

Lemma committed_entries_applied_witness :
  exists r', processLogs ex_env 5 3 None ex_leader = Return r' /\
    r_fsmCommitCh r' = plain <$> ex_leader_log /\ rs_lastApplied (r_raftState r') = 3.
Proof.
  destruct (committed_entries_applied ex_env 5 ex_leader (insert_logs ex_leader_log ∅) 3)
    as (r' & E & Ha & Hla).
  - exact ex_leader_rep.
  - vm_compute. reflexivity.
  - reflexivity.
  - discriminate.
  - simpl. lia.
  - lia.
  - intros i Hi. simpl in Hi. assert (Hcase : i = 1 \/ i = 2 \/ i = 3) by lia.
    destruct Hcase as [->|[->| ->]]; eexists; (split; [reflexivity|exact I]).
  - exists r'. split; [exact E|]. split; [exact Ha|exact Hla].
Defined.

(** ** Dispatch and compaction *)

(** The entries a leader dispatches continue the log without a gap, with fresh majority policies: what
    the in-flight tracker relies on ([well_numbered]). *)
Lemma number_logs_numbered lastIndex term size logs :
  0 <= lastIndex -> lastIndex + Z.of_nat (length logs) < 2 ^ 64 -> 0 <= size ->
  numbered (lastIndex + 1) (number_logs lastIndex term size logs) /\
  Forall (fun l => quorum l = false) (number_logs lastIndex term size logs) /\
  length (number_logs lastIndex term size logs) = length logs.
Proof.
  intros Hlo Hhi Hsz. unfold numbered, number_logs. rewrite length_imap. split_and!; [|  |done].
  - apply list_eq. intros k. rewrite list_lookup_fmap, list_lookup_imap.
    destruct (logs !! k) as [l|] eqn:E; simpl.
    + symmetry. apply lookup_lt_Some in E. rewrite wrapu64_id by (unfold uint64_ok; lia).
      apply lookup_seqZ. lia.
    + symmetry. apply lookup_seqZ_ge. apply lookup_ge_None in E. lia.
  - apply Forall_lookup. intros k f. rewrite list_lookup_imap.
    destruct (logs !! k) as [l|]; simpl; [|done]. intros [= <-]. unfold quorum, mq_IsCommitted. simpl.
    pose proof (Z.quot_pos size 2). rewrite Z.geb_leb. apply Z.leb_gt. lia.
Qed.

(** Compaction never removes what is still needed.  [compactLogs] after a snapshot at [snapIdx]
    removes only entries that the snapshot covers, and keeps the last [TrailingLogs] entries for
    followers that lag behind; when it reports an error the log is untouched. *)
Theorem compactLogs_keeps `{LogStoreLaws L} `{StableStore K} snapIdx (r : Raft L K) m err r' :
  log_rep (r_logs r) m -> (forall i, is_Some (m !! i) -> uint64_ok i) ->
  uint64_ok (rs_lastLogIndex (r_raftState r)) -> uint64_ok (rc_TrailingLogs (r_conf r)) -> uint64_ok snapIdx ->
  compactLogs snapIdx r = Return (err, r') ->
  exists m', log_rep (r_logs r') m' /\
    (err <> None -> m' = m) /\
    (forall i, m' !! i = m !! i \/ (m' !! i = None /\ i <= snapIdx /\
       i <= rs_lastLogIndex (r_raftState r) - rc_TrailingLogs (r_conf r))) /\
    r_raftState r' = r_raftState r.
Proof.
  unfold uint64_ok. intros Hm Hdom Hl Ht Hs. unfold compactLogs.
  destruct (FirstIndex_law (r_logs r) m Hm) as (v & s1 & -> & Hs1 & Hv). cbn [outcome_bind].
  destruct v as [minLog|e]; [|intros [= <- <-]; exists m; auto].
  cbn [set_rlogs r_raftState r_conf r_logs].
  destruct (Z.leb_spec (rs_lastLogIndex (r_raftState r)) (rc_TrailingLogs (r_conf r)));
    [intros [= <- <-]; exists m; auto|].
  rewrite umin_spec, wrapu64_id by (unfold uint64_ok; lia).
  assert (Hmin : uint64_ok minLog).
  { destruct Hv as [[_ ->]|[Hmin _]]; [done|by apply Hdom]. }
  destruct (DeleteRange_law s1 m minLog
    (snapIdx `min` (rs_lastLogIndex (r_raftState r) - rc_TrailingLogs (r_conf r))) Hs1 Hmin)
    as (err1 & s2 & -> & Hs2); [unfold uint64_ok; lia|]. cbn [outcome_bind].
  destruct err1 as [e|]; intros [= <- <-].
  - exists m. auto.
  - eexists. split; [exact Hs2|]. split_and!; [done| |done]. intros i. unfold delete_logs.
    rewrite map_lookup_filter. destruct (m !! i) as [l|] eqn:E; simpl; [|by left].
    destruct (decide (minLog <= i <= snapIdx `min` (rs_lastLogIndex (r_raftState r) - rc_TrailingLogs (r_conf r)))).
    + right. rewrite option_guard_False by (simpl; tauto). split; [done|]. lia.
    + left. rewrite option_guard_True; [done|]. simpl. tauto.
Qed.

Definition ex_compactable : Raft ex_store ex_store :=
  let r := ex_leader in
  mkRaft (r_raftState r)
    (mkRaftConfig 1000000000 1000000000 50000000 64 true true 1 120000000000 8192 false 500000000 false)
    "" "b" [] (mkStaticPeers []) (r_logs r) (r_stable r) 0 [] [] false None ∅ [].

Lemma compactLogs_keeps_witness :
  exists r' m', compactLogs 3 ex_compactable = Return (None, r') /\ log_rep (r_logs r') m' /\
    m' !! 3 = Some (log_ex 3 2 "v").
Proof.
  destruct (compactLogs 3 ex_compactable) as [[err r']|] eqn:E; [|exfalso; apply (f_equal is_return) in E; vm_compute in E; discriminate].
  assert (Herr : err = None).
  { replace err with (ex_returns (err, r') (compactLogs 3 ex_compactable)).1 by (rewrite E; reflexivity).
    vm_compute. reflexivity. }
  subst err.
  destruct (compactLogs_keeps 3 ex_compactable (insert_logs ex_leader_log ∅) None r')
    as (m' & Hm & _ & Hkeep & _).
  - exact ex_leader_rep.
  - intros i Hi. simpl in Hi. repeat (apply lookup_insert_is_Some' in Hi as [<-|Hi]; [unfold uint64_ok; lia|]).
    rewrite lookup_empty in Hi. by destruct Hi.
  - unfold uint64_ok. vm_compute. split; congruence.
  - unfold uint64_ok. vm_compute. split; congruence.
  - unfold uint64_ok. lia.
  - exact E.
  - exists r', m'. split; [reflexivity|]. split; [exact Hm|].
    destruct (Hkeep 3) as [-> |(_ & _ & Hle)]; [reflexivity|]. vm_compute in Hle. by destruct Hle.
Defined.

(** ** Where the node goes wrong *)

(** An append request that arrives late deletes entries the follower has already acknowledged:
    the suffix is cleared without comparing the entries.  The follower has acknowledged entries 1 to 3
    of term 1; the leader's earlier request with entry 1 alone, delivered again, succeeds and leaves
    entry 1 only. *)
Theorem late_append_truncates :
  exists resp r',
    appendEntries ex_env 7 (mkAppendEntriesRequest 1 "a" 0 0 [log_ex 1 1 "x"] 0)
      (ex_follower 1 ex_old_log []) = Return (resp, r') /\
    aer_Success resp = true /\ rs_lastLogIndex (r_raftState r') = 1 /\
    (exists s, GetLog 1 (r_logs r') = Return (inl (log_ex 1 1 "x"), s)) /\
    (exists s, GetLog 2 (r_logs r') = Return (inr ErrLogNotFound, s)) /\
    (exists s, GetLog 3 (r_logs r') = Return (inr ErrLogNotFound, s)).
Proof.
  set (o := appendEntries _ _ _ _). pose (d := (mkAppendEntriesResponse 0 0 false false, ex_leader)).
  exists (ex_returns d o).1, (ex_returns d o).2. split; [apply ex_returns_eq; vm_compute; reflexivity|].
  split_and!; try (vm_compute; reflexivity);
    (eapply (ex_returns_fst (inl zeroLog, ex_disk [])); vm_compute; reflexivity).
Qed.

(** When the disk fails after the conflicting suffix is cleared, the node still believes in the
    entries it has deleted: entries 2 and 3 are gone, the cached last entry is 3 of term 1, and the next
    request that follows entry 3 is accepted, leaving a hole in the log. *)
Theorem failed_append_leaves_hole :
  exists resp r1 resp2 r2,
    appendEntries ex_env 7 (mkAppendEntriesRequest 2 "a" 1 1 [log_ex 2 2 "u"] 0)
      (ex_follower 1 ex_old_log [mkFault None None; mkFault None None; mkFault None (Some (Errorf "disk full"))])
      = Return (resp, r1) /\
    aer_Success resp = false /\ getLastEntry (r_raftState r1) = (3, 1) /\
    appendEntries ex_env 8 (mkAppendEntriesRequest 3 "c" 3 1 [log_ex 4 3 "w"] 0) r1
      = Return (resp2, r2) /\
    aer_Success resp2 = true /\
    (exists s, GetLog 3 (r_logs r2) = Return (inr ErrLogNotFound, s)) /\
    (exists s, GetLog 4 (r_logs r2) = Return (inl (log_ex 4 3 "w"), s)).
Proof.
  pose (d := (mkAppendEntriesResponse 0 0 false false, ex_leader)).
  set (o1 := appendEntries _ 7 _ _). exists (ex_returns d o1).1, (ex_returns d o1).2.
  set (o2 := appendEntries _ 8 (mkAppendEntriesRequest 3 "c" 3 1 [log_ex 4 3 "w"] 0) (ex_returns d o1).2).
  exists (ex_returns d o2).1, (ex_returns d o2).2.
  split; [apply ex_returns_eq; vm_compute; reflexivity|].
  split; [vm_compute; reflexivity|]. split; [vm_compute; reflexivity|].
  split; [apply ex_returns_eq; vm_compute; reflexivity|].
  split_and!; try (vm_compute; reflexivity);
    (eapply (ex_returns_fst (inl zeroLog, ex_disk [])); vm_compute; reflexivity).
Qed.

(** A node with three entries of term 1 whose last vote, in term 1, was for [c]. *)
Definition ex_voter (faults : list fault) : Raft ex_store ex_store :=
  let r := ex_follower 1 ex_old_log [] in
  set_stable (mkBoltStore ∅
    (<["CurrentTerm" := uint64ToBytes 1]> (<["LastVoteTerm" := uint64ToBytes 1]>
       (<["LastVoteCand" := "c"]> ∅))) faults) r.

(** A vote that is half persisted grants the next one unchecked.  Term and candidate of a vote
    are two transactions; when the second fails, the term of the new election is on disk with the
    candidate of the previous one.  If that candidate then asks for a vote in the new term, it is taken
    for a repeated request and granted, although its log (empty here) is behind the voter's. *)
Theorem half_persisted_vote_skips_log_check :
  exists resp1 r1 resp2 r2,
    requestVote ex_env 7 (mkRequestVoteRequest 2 "a" 3 1)
      (ex_voter [mkFault None None; mkFault None None; mkFault None None; mkFault None None;
                 mkFault None (Some (Errorf "disk full"))]) = Return (resp1, r1) /\
    rvr_Granted resp1 = false /\
    requestVote ex_env 8 (mkRequestVoteRequest 2 "c" 0 0) r1 = Return (resp2, r2) /\
    rvr_Granted resp2 = true.
Proof.
  pose (d := (mkRequestVoteResponse 0 [] false, ex_leader)).
  set (o1 := requestVote ex_env 7 _ _). exists (ex_returns d o1).1, (ex_returns d o1).2.
  set (o2 := requestVote ex_env 8 (mkRequestVoteRequest 2 "c" 0 0) (ex_returns d o1).2).
  exists (ex_returns d o2).1, (ex_returns d o2).2.
  split; [apply ex_returns_eq; vm_compute; reflexivity|]. split; [vm_compute; reflexivity|].
  split; [apply ex_returns_eq; vm_compute; reflexivity|vm_compute; reflexivity].
Qed.

(** After a snapshot is installed on a node whose log is empty, the number of entries since the
    snapshot is computed as [0 - snapshotIndex] on unsigned integers: for every threshold of less than
    [2^64 - snapshotIndex], the next check finds a new snapshot due. *)
Theorem shouldSnapshot_underflow `{LogStoreLaws L} `{StableStore K} (r : Raft L K) b r' :
  log_rep (r_logs r) ∅ -> 0 < rs_lastSnapshotIndex (r_raftState r) < 2 ^ 64 ->
  rc_SnapshotThreshold (r_conf r) <= 2 ^ 64 - rs_lastSnapshotIndex (r_raftState r) ->
  (forall e s, LastIndex (r_logs r) <> Return (inr e, s)) ->
  shouldSnapshot r = Return (b, r') -> b = true.
Proof.
  intros Hm Hs Ht Hio. unfold shouldSnapshot.
  destruct (LastIndex_law (r_logs r) ∅ Hm) as (v & s & E & _ & Hv). rewrite E. cbn [outcome_bind].
  destruct v as [n|e]; [|by destruct (Hio e s)].
  destruct Hv as [[_ ->]|[[? Hv] _]]; [|by rewrite lookup_empty in Hv].
  intros [= <- <-]. cbn [set_rlogs r_raftState r_conf]. rewrite Z.geb_leb. apply Z.leb_le.
  unfold wrapu64. rewrite <- (Z.mod_add _ 1) by lia. rewrite Z.mod_small; lia.
Qed.
