(* ===== verification/RaftStream.v ===== *)
(** * Raft: the replication streams of a leader (internal/raft/replication.go)

    One stream per follower: the loop that sends entries until the follower is up to date
    ([replicateTo]), the snapshot it falls back to when the entries are compacted away
    ([sendLatestSnapshot]), the heartbeats, and the pipeline.  A call over the network, and the
    snapshots on disk, are operations on a world of their own, behind the interfaces [Transport] and
    [SnapshotReader].

    The last part composes a leader with a follower: the transport is the follower's handler. *)
From S2P Require Import Prelude GoStrings RaftBase Inflight BoltStore FileSnapshot.
From S2P Require Import Raft RaftElection RaftReplication.

Open Scope string_scope.
Open Scope Z_scope.
Local Open Scope go_scope.

(** ** Interfaces *)

(** The calls of [Transport] a stream makes, with the clock they are timed with.  A call either fails
    or returns the response. *)
Class Transport (N : Type) := {
  net_now : N -> Time;
  net_AppendEntries : string -> AppendEntriesRequest -> N -> (AppendEntriesResponse + error) * N;
  net_InstallSnapshot :
    string -> InstallSnapshotRequest -> string -> N -> (InstallSnapshotResponse + error) * N;
  (** [AppendEntriesPipeline] and the sends over the pipeline. *)
  net_OpenPipeline : string -> N -> option error * N;
  net_PipelineSend : string -> AppendEntriesRequest -> N -> option error * N;
}.

(** The part of [SnapshotStore] that reads. *)
Class SnapshotReader (N : Type) := {
  snap_List : N -> (list SnapshotMeta + error) * N;
  snap_Open : string -> N -> (SnapshotMeta * string + error) * N;
}.

Section Stream.
Context {L K : Type} {HL : LogStore L} {HK : StableStore K}.
Context {N : Type} {HT : Transport N} {HS : SnapshotReader N}.
Implicit Types (r : Raft L K) (s : followerReplication) (n : N).

(** ** Snapshots for followers that are too far behind *)

(** [sendLatestSnapshot] from the response on. *)
Definition snapshotResponse (now : Time) (meta : SnapshotMeta) (req : InstallSnapshotRequest)
    (resp : InstallSnapshotResponse) s r : outcome (bool * followerReplication * Raft L K) :=
  if isr_Term resp >? is_Term req then
    let '(s, r) := handleStaleTerm s r in Return (true, s, r)
  else
    let s := fr_setLastContact now s in
    if isr_Success resp then
      let! r := stream_inflight (CommitRange (wrapu64 (fr_matchIndex s + 1)) (sm_Index meta)) s r in
      let s := fr_set_indexes (sm_Index meta) (wrapu64 (sm_Index meta + 1)) s in
      let '(s, r) := notifyAll true (fr_set_failures 0 s) r in
      Return (false, s, r)
    else Return (false, fr_set_failures (wrapu64 (fr_failures s + 1)) s, r).

Definition sendLatestSnapshot s r n
    : outcome (bool * option error * followerReplication * Raft L K * N) :=
  let '(snapshots, n) := snap_List n in
  match snapshots with
  | inr e => Return (false, Some e, s, r, n)
  | inl [] => Return (false, Some (Errorf "no snapshots found"), s, r, n)
  | inl (snap :: _) =>
      let '(opened, n) := snap_Open (sm_ID snap) n in
      match opened with
      | inr e => Return (false, Some e, s, r, n)
      | inl (meta, snapshot) =>
          let req := mkInstallSnapshotRequest (fr_currentTerm s) (EncodePeer (r_localAddr r))
                       (sm_Index meta) (sm_Term meta) (sm_Peers meta) (sm_Size meta) in
          let '(resp, n) := net_InstallSnapshot (fr_peer s) req snapshot n in
          match resp with
          | inr e => Return (false, Some e, fr_set_failures (wrapu64 (fr_failures s + 1)) s, r, n)
          | inl resp =>
              let! (stop, s, r) := snapshotResponse (net_now n) meta req resp s r in
              Return (stop, None, s, r, n)
          end
      end
  end.

(** ** Entries *)

(** [replicateTo]; every round of its loop takes one unit of [fuel].  The wait before a round that
    follows a failure is left out. *)
Fixpoint replicateTo (fuel : nat) (lastIndex : Z) s r n
    : outcome (bool * followerReplication * Raft L K * N) :=
  match fuel with
  | O => Panic "out of fuel"
  | S fuel =>
      let check_more := fun s r n =>
        if fr_nextIndex s <=? lastIndex then replicateTo fuel lastIndex s r n
        else Return (false, s, r, n) in
      let! (req, r) := setupAppendEntries (fr_currentTerm s) (fr_nextIndex s) lastIndex r in
      match req with
      | inr e =>
          if decide (e = ErrLogNotFound) then
            let! (stop, err, s, r, n) := sendLatestSnapshot s r n in
            if stop : bool then Return (true, s, r, n)
            else match err with
                 | Some _ => Return (false, s, r, n)
                 | None => check_more s r n
                 end
          else Return (false, s, r, n)
      | inl req =>
          let '(resp, n) := net_AppendEntries (fr_peer s) req n in
          match resp with
          | inr _ => Return (false, fr_set_failures (wrapu64 (fr_failures s + 1)) s, r, n)
          | inl resp =>
              let! (stop, s, r) := replicateResponse (net_now n) req resp s r in
              if stop : bool then Return (true, s, r, n) else check_more s r n
          end
      end
  end.

(** ** Heartbeats *)

Definition heartbeatRequest s r : AppendEntriesRequest :=
  mkAppendEntriesRequest (fr_currentTerm s) (EncodePeer (r_localAddr r)) 0 0 [] 0.

(** [heartbeat] after a response. *)
Definition heartbeatResponse (now : Time) (resp : AppendEntriesResponse) s r
    : followerReplication * Raft L K :=
  notifyAll (aer_Success resp) (fr_setLastContact now s) r.

(** One round of [heartbeat], with its own count of failures; the wait after a failure is what
    [backoff] says. *)
Definition heartbeatRound (failures : Z) s r n
    : Z * Duration * followerReplication * Raft L K * N :=
  let '(resp, n) := net_AppendEntries (fr_peer s) (heartbeatRequest s r) n in
  match resp with
  | inr _ =>
      let failures := wrapu64 (failures + 1) in
      (failures, backoff failureWait failures maxFailureScale, s, r, n)
  | inl resp => let '(s, r) := heartbeatResponse (net_now n) resp s r in (0, 0, s, r, n)
  end.

(** ** The pipeline *)

(** [pipelineSend]: [true] stops the sender. *)
Definition pipelineSend (nextIdx lastIndex : Z) s r n : outcome (bool * Z * Raft L K * N) :=
  let! (req, r) := setupAppendEntries (fr_currentTerm s) nextIdx lastIndex r in
  match req with
  | inr _ => Return (true, nextIdx, r, n)
  | inl req =>
      let '(err, n) := net_PipelineSend (fr_peer s) req n in
      match err with
      | Some _ => Return (true, nextIdx, r, n)
      | None =>
          match last (ae_Entries req) with
          | Some last => Return (false, wrapu64 (log_Index last + 1), r, n)
          | None => Return (false, nextIdx, r, n)
          end
      end
  end.

(** [pipelineDecode]: a response; [true] ends the pipeline. *)
Definition pipelineDecode (now : Time) (req : AppendEntriesRequest) (resp : AppendEntriesResponse) s r
    : outcome (bool * followerReplication * Raft L K) :=
  if aer_Term resp >? ae_Term req then
    let '(s, r) := handleStaleTerm s r in Return (true, s, r)
  else
    let s := fr_setLastContact now s in
    if negb (aer_Success resp) then Return (true, s, r)
    else let! (s, r) := updateLastAppended req s r in Return (false, s, r).

(** ** The loop of a stream *)

Inductive stream_mode :=
| RPCMode
| PipelineMode (nextIndex : Z)
| StreamDone.

(** What a stream waits for: its stop channel (the index to replicate up to, 0 when it is only
    closed), the trigger or the commit timer, the end of the decoder of its pipeline. *)
Inductive stream_event :=
| EvStop (maxIndex : Z)
| EvReplicate
| EvDecoderDone.

(** [pipelineReplicate] is entered: the pipeline is opened; on an error the stream stays in RPC mode. *)
Definition enter_pipeline s n : stream_mode * followerReplication * N :=
  let s := fr_set_allowPipeline false s in
  let '(err, n) := net_OpenPipeline (fr_peer s) n in
  match err with
  | Some _ => (RPCMode, s, n)
  | None => (PipelineMode (fr_nextIndex s), s, n)
  end.

(** [replicate] and [pipelineReplicate]: one event.  A stop in pipeline mode leaves the pipeline and
    goes back to the select of RPC mode, where the closed channel yields 0. *)
Definition replicate_step (fuel : nat) (ev : stream_event) (mode : stream_mode) s r n
    : outcome (stream_mode * followerReplication * Raft L K * N) :=
  let lastLogIdx := rs_lastLogIndex (r_raftState r) in
  match mode, ev with
  | RPCMode, EvStop maxIndex =>
      if maxIndex >? 0 then
        let! (_, s, r, n) := replicateTo fuel maxIndex s r n in Return (StreamDone, s, r, n)
      else Return (StreamDone, s, r, n)
  | RPCMode, EvReplicate =>
      let! (stop, s, r, n) := replicateTo fuel lastLogIdx s r n in
      if stop : bool then Return (StreamDone, s, r, n)
      else if fr_allowPipeline s then
        let '(mode, s, n) := enter_pipeline s n in Return (mode, s, r, n)
      else Return (RPCMode, s, r, n)
  | PipelineMode nextIndex, EvDecoderDone => Return (RPCMode, s, r, n)
  | PipelineMode nextIndex, EvStop maxIndex =>
      if maxIndex >? 0 then
        let! (_, _, r, n) := pipelineSend nextIndex maxIndex s r n in Return (RPCMode, s, r, n)
      else Return (RPCMode, s, r, n)
  | PipelineMode nextIndex, EvReplicate =>
      let! (stop, nextIndex, r, n) := pipelineSend nextIndex lastLogIdx s r n in
      Return (if stop : bool then RPCMode else PipelineMode nextIndex, s, r, n)
  | _, _ => Return (mode, s, r, n)
  end.
End Stream.

(** ** A follower whose disk works *)

(** What the follower has, and that its log has no hole: [mf] holds the entries 1 to the cached last
    index, whose term is the cached one; nothing is compacted. *)
Record follower_ok `{LogStoreCalm L} `{StableStoreCalm K} (env : raftEnv) (term : Z)
    (f : Raft L K) (mf : gmap Z Log) : Prop := {
  fo_rep : log_rep (r_logs f) mf;
  fo_calm : log_calm (r_logs f);
  fo_stable : stable_calm (r_stable f);
  fo_up : r_shutdown f = false;
  fo_term : getCurrentTerm f <= term;
  fo_nosnap : rs_lastSnapshotIndex (r_raftState f) = 0;
  fo_bound : 0 <= rs_lastLogIndex (r_raftState f) < 2 ^ 64 - 1;
  fo_dom i : is_Some (mf !! i) <-> 1 <= i <= rs_lastLogIndex (r_raftState f);
  fo_last l : mf !! rs_lastLogIndex (r_raftState f) = Some l -> log_Term l = rs_lastLogTerm (r_raftState f);
  fo_applied : 0 <= rs_lastApplied (r_raftState f);
  fo_harmless i l : mf !! i = Some l -> harmless env (r_localAddr f) l;
}.

Section Follower.
Context `{LogStoreCalm L} `{StableStoreCalm K}.
Context (env : raftEnv) (now : Time) (term : Z).
Implicit Types (f : Raft L K) (a : AppendEntriesRequest) (mf : gmap Z Log).

Local Notation follower_ok := (follower_ok env term).

(** Another store with the same entries, other settings of fields the log does not depend on. *)
Lemma follower_ok_fields f f' mf :
  follower_ok f mf -> log_rep (r_logs f') mf -> log_calm (r_logs f') -> stable_calm (r_stable f') ->
  r_shutdown f' = false -> getCurrentTerm f' <= term -> r_localAddr f' = r_localAddr f ->
  rs_lastSnapshotIndex (r_raftState f') = 0 ->
  rs_lastLogIndex (r_raftState f') = rs_lastLogIndex (r_raftState f) ->
  rs_lastLogTerm (r_raftState f') = rs_lastLogTerm (r_raftState f) ->
  0 <= rs_lastApplied (r_raftState f') -> follower_ok f' mf.
Proof.
  intros Hf ? ? ? ? ? Ha ? Hi Ht ?. split; try done; rewrite ?Hi, ?Ht, ?Ha; apply Hf.
Qed.

(** The previous entry as the follower sees it. *)
Definition prev_ok a mf : bool :=
  (ae_PrevLogEntry a <=? 0) ||
  match mf !! ae_PrevLogEntry a with
  | Some l => ae_PrevLogTerm a =? log_Term l
  | None => false
  end.

Lemma checkPrevious_calm a f mf :
  follower_ok f mf -> uint64_ok (ae_PrevLogEntry a) ->
  exists s', checkPrevious a f = Return (prev_ok a mf, set_rlogs s' f) /\
    log_rep s' mf /\ log_calm s'.
Proof.
  intros Hf Hp. destruct Hf as [Hrep Hcalm _ _ _ Hsnap Hb Hdom Hlast _ _].
  assert (Hsame : set_rlogs (r_logs f) f = f) by by destruct f.
  unfold checkPrevious, prev_ok. rewrite Z.gtb_ltb.
  destruct (Z.ltb_spec 0 (ae_PrevLogEntry a)) as [Hpos|Hneg].
  2: { rewrite (proj2 (Z.leb_le _ _)) by lia. exists (r_logs f). by rewrite Hsame. }
  rewrite (proj2 (Z.leb_gt _ _)) by lia. cbn [orb].
  unfold getLastEntry. rewrite Hsnap, Z.geb_leb, (proj2 (Z.leb_le 0 (rs_lastLogIndex (r_raftState f)))) by lia.
  destruct (Z.eqb_spec (ae_PrevLogEntry a) (rs_lastLogIndex (r_raftState f))) as [Heq|Hne].
  - destruct (proj2 (Hdom (rs_lastLogIndex (r_raftState f)))) as [l Hl]; [lia|].
    rewrite Heq, Hl, <- (Hlast l Hl). exists (r_logs f). by rewrite Hsame.
  - destruct (GetLog_calm_rep (r_logs f) mf (ae_PrevLogEntry a) Hrep Hcalm Hp) as (s' & -> & Hr & Hc).
    exists s'. cbn [outcome_bind]. by destruct (mf !! ae_PrevLogEntry a).
Qed.

Lemma getCurrentTerm_calm t f :
  stable_calm (r_stable f) -> exists k, stable_calm k /\
    setCurrentTerm t f = Return (upd_raftState (rs_setCurrentTerm t) (set_stable k f)).
Proof.
  intros Hk. unfold setCurrentTerm.
  destruct (SetUint64_calm (r_stable f) keyCurrentTerm t Hk) as (k & -> & Hk'); [done|]. by exists k.
Qed.

(** The entries a follower has after a request it accepts. *)
Definition stored (next : Z) (es : list Log) (mf : gmap Z Log) : gmap Z Log :=
  if decide (es = []) then mf else map_seqZ next (erase_peer <$> es) ∪ entries_before next mf.

Lemma stored_lookup next es mf j :
  stored next es mf !! j =
  if decide (es = []) then mf !! j
  else if decide (next <= j) then erase_peer <$> es !! Z.to_nat (j - next) else mf !! j.
Proof.
  unfold stored. destruct (decide (es = [])); [done|]. rewrite lookup_union.
  assert (Hbefore : entries_before next mf !! j = if decide (j < next) then mf !! j else None).
  { unfold entries_before. rewrite map_lookup_filter. destruct (mf !! j); simpl; [|by case_decide].
    case_decide; [by rewrite option_guard_True|by rewrite option_guard_False]. }
  rewrite Hbefore. destruct (decide (next <= j)) as [Hle|Hgt].
  - rewrite (decide_False (P := j < next)) by lia. rewrite (right_id_L None _).
    rewrite lookup_map_seqZ, option_guard_True by lia. by rewrite list_lookup_fmap.
  - rewrite (decide_True (P := j < next)) by lia.
    rewrite (proj2 (lookup_map_seqZ_None _ _ _)) by lia. by rewrite (left_id_L None _).
Qed.

(** A follower of the leader's term, before and after it stores the entries. *)
Lemma storeEntries_calm a f mf next :
  follower_ok f mf -> consecutive next (ae_Entries a) -> 0 < next ->
  next <= rs_lastLogIndex (r_raftState f) + 1 ->
  next + Z.of_nat (length (ae_Entries a)) < 2 ^ 64 ->
  Forall log_storable (ae_Entries a) ->
  Forall (fun l => harmless env (r_localAddr f) (erase_peer l)) (ae_Entries a) ->
  exists f', storeEntries a f = Return (true, f') /\ follower_ok f' (stored next (ae_Entries a) mf) /\
    rs_state (r_raftState f') = rs_state (r_raftState f) /\
    getCurrentTerm f' = getCurrentTerm f /\ r_localAddr f' = r_localAddr f /\
    rs_commitIndex (r_raftState f') = rs_commitIndex (r_raftState f).
Proof.
  intros Hf Hc Hn Hnl Hhi Hst Hharm.
  destruct (decide (ae_Entries a = [])) as [E|Hne].
  { exists f. unfold storeEntries, stored. rewrite E. by rewrite decide_True. }
  pose proof Hf as [Hrep Hcalm Hstb Hup Ht Hsnap Hb Hdom Hlast Happ Hhm].
  pose proof (consecutive_ok _ _ Hc ltac:(lia) ltac:(lia)) as Hok.
  assert (Hret : exists lst s', last (ae_Entries a) = Some lst /\ log_calm s' /\
    storeEntries a f = Return (true, upd_raftState (rs_setLastLog (log_Index lst) (log_Term lst)) (set_rlogs s' f))).
  { unfold storeEntries. destruct (ae_Entries a) as [|e0 es] eqn:Ees; [done|]. cbn [head].
    destruct (last (e0 :: es)) as [lst|] eqn:El; [|by apply last_None in El]. exists lst.
    apply consecutive_cons in Hc as [He0 _]. rewrite He0.
    destruct (Z.leb_spec next (rs_lastLogIndex (r_raftState f))).
    - destruct (DeleteRange_calm (r_logs f) mf next (rs_lastLogIndex (r_raftState f)) Hcalm Hrep)
        as (s1 & E1 & Hc1); [unfold uint64_ok; lia..|].
      destruct (DeleteRange_law (r_logs f) mf next (rs_lastLogIndex (r_raftState f)) Hrep)
        as (e1 & s1' & E1' & Hr1); [unfold uint64_ok; lia..|]. rewrite E1 in E1'. injection E1' as <- <-.
      rewrite E1. cbn [outcome_bind set_rlogs r_logs].
      destruct (StoreLogs_calm s1 _ (e0 :: es) Hc1 Hr1 Hok Hst) as (s2 & -> & Hc2). by exists s2.
    - cbn [outcome_bind]. destruct (StoreLogs_calm (r_logs f) mf (e0 :: es) Hcalm Hrep Hok Hst) as (s2 & -> & Hc2).
      by exists s2. }
  destruct Hret as (lst & s' & Hl & Hc' & Eret). rewrite Eret. eexists. split; [done|]. split; [|done].
  apply (storeEntries_spec a f mf next) in Eret as (Hrep' & Hli' & _); [|done|..]; try done; try lia.
  2: { split; [unfold uint64_ok; lia|]. intros i Hi. apply Hdom in Hi. lia. }
  assert (Hmf : stored next (ae_Entries a) mf = map_seqZ next (erase_peer <$> ae_Entries a) ∪ entries_before next mf).
  { unfold stored. by rewrite decide_False. }
  assert (Hlen : (0 < length (ae_Entries a))%nat) by (destruct (ae_Entries a); [done|simpl; lia]).
  split; try done; rewrite ?Hli'.
  - by rewrite Hmf.
  - lia.
  - intros i. rewrite stored_lookup, decide_False by done. case_decide.
    + rewrite fmap_is_Some, lookup_lt_is_Some. lia.
    + rewrite Hdom. lia.
  - intros l. rewrite stored_lookup, decide_False, decide_True by (done || lia).
    replace (Z.to_nat _) with (Init.Nat.pred (length (ae_Entries a))) by lia.
    rewrite <- last_lookup, Hl. by intros [= <-].
  - intros i l. rewrite stored_lookup, decide_False by done. case_decide.
    + intros (l0 & Hl0 & ->)%fmap_Some. by apply (Forall_lookup_1 _ _ _ _ Hharm Hl0).
    + apply Hhm.
Qed.

Lemma advanceCommit_calm a f mf :
  follower_ok f mf -> uint64_ok (ae_LeaderCommitIndex a) -> getState f <> Leader ->
  exists f', advanceCommit env now a f = Return f' /\ follower_ok f' mf /\ r_localAddr f' = r_localAddr f.
Proof.
  intros Hf Hci Hst. pose proof Hf as [Hrep Hcalm Hstb Hup Ht Hsnap Hb Hdom Hlast Happ Hhm].
  unfold advanceCommit. case_if; [|by exists f].
  unfold processLogs. rewrite umin_spec. unfold getLastIndex. rewrite umax_spec, Hsnap.
  set (idx := ae_LeaderCommitIndex a `min` _). unfold uint64_ok in Hci.
  set (f1 := upd_raftState (rs_setCommitIndex idx) f).
  assert (Hf1 : follower_ok f1 mf) by by apply (follower_ok_fields f f1 mf Hf).
  destruct (Z.leb_spec idx (rs_lastApplied (r_raftState f1))) as [Hle|Hgt]; [by exists f1|].
  change (rs_lastApplied (r_raftState f1)) with (rs_lastApplied (r_raftState f)) in *.
  set (n := Z.to_nat _).
  destruct (process_range_applies env now n (rs_lastApplied (r_raftState f) + 1) f1 mf)
    as (f' & E & _ & Hrep' & Hcalm' & (Hsd & Hadr & Hstab & _ & _) & Hst'); [done..|lia|lia| |].
  { intros i Hi. destruct (proj2 (Hdom i)) as [l Hl]; [lia|]. exists l. split; [done|]. by apply (Hhm i). }
  exists f'. split; [done|]. split; [|done].
  assert (Hrs : r_raftState f' = rs_setLastApplied (rs_lastApplied (r_raftState f) + 1 + Z.of_nat n - 1) (r_raftState f1)).
  { rewrite Hst'. rewrite decide_False by lia. done. }
  apply (follower_ok_fields f1 f' mf Hf1); unfold getCurrentTerm; rewrite ?Hrs, ?Hstab, ?Hsd; simpl; try done. lia.
Qed.

(** An append request of the leader whose term the follower is in or behind: the follower answers in
    that term; it stores the entries when it has the previous one, else it reports its last index. *)
Lemma appendEntries_calm a f mf next :
  follower_ok f mf -> ae_Term a = term -> ae_PrevLogEntry a = next - 1 -> 0 < next ->
  consecutive next (ae_Entries a) -> next + Z.of_nat (length (ae_Entries a)) < 2 ^ 64 ->
  uint64_ok (ae_LeaderCommitIndex a) -> Forall log_storable (ae_Entries a) ->
  Forall (fun l => harmless env (r_localAddr f) (erase_peer l)) (ae_Entries a) ->
  exists f', appendEntries env now a f =
      Return (mkAppendEntriesResponse term (rs_lastLogIndex (r_raftState f)) (prev_ok a mf)
                (negb (prev_ok a mf)), f') /\
    follower_ok f' (if prev_ok a mf then stored next (ae_Entries a) mf else mf) /\
    r_localAddr f' = r_localAddr f.
Proof.
  intros Hf Hterm Hprev Hn Hc Hhi Hci Hstor Hharm.
  pose proof Hf as [Hrep Hcalm Hstb Hup Ht Hsnap Hb Hdom Hlast Happ Hhm].
  assert (Hgl : getLastIndex (r_raftState f) = rs_lastLogIndex (r_raftState f)).
  { unfold getLastIndex. rewrite umax_spec, Hsnap. lia. }
  unfold appendEntries. rewrite Hgl, Hterm, (proj2 (Z.ltb_ge _ _)) by lia.
  assert (Hadopt : exists f1, (if (term >? getCurrentTerm f) || negb (bool_decide (getState f = Follower))
      then let! r := setCurrentTerm term (setState Follower f) in Return (term, r)
      else Return (getCurrentTerm f, f)) = Return (term, f1) /\ follower_ok f1 mf /\
      getState f1 = Follower /\ r_localAddr f1 = r_localAddr f /\
      rs_lastLogIndex (r_raftState f1) = rs_lastLogIndex (r_raftState f)).
  { case_if.
    - destruct (getCurrentTerm_calm term (setState Follower f) Hstb) as (k & Hk & ->). cbn [outcome_bind].
      eexists. split; [done|]. split; [|done]. by apply (follower_ok_fields f _ mf Hf).
    - zbool. exists f. replace (getCurrentTerm f) with term by lia. split; [done|]. split; [done|].
      split; [|done]. by eapply bool_decide_eq_true_1. }
  destruct Hadopt as (f1 & -> & Hf1 & Hst1 & Hadr1 & Hli1). cbn [outcome_bind].
  set (f2 := set_leader _ f1). assert (Hf2 : follower_ok f2 mf).
  { apply (follower_ok_fields f1 f2 mf Hf1); try done; apply Hf1. }
  assert (Hpok : uint64_ok (ae_PrevLogEntry a)) by (unfold uint64_ok; lia).
  destruct (checkPrevious_calm a f2 mf Hf2 Hpok) as (s3 & -> & Hrep3 & Hcalm3). cbn [outcome_bind].
  assert (Hf3 : follower_ok (set_rlogs s3 f2) mf).
  { apply (follower_ok_fields f2 _ mf Hf2); try done; apply Hf2. }
  destruct (prev_ok a mf) eqn:Hpv; cbn [negb]; [|by exists (set_rlogs s3 f2)].
  destruct (storeEntries_calm a (set_rlogs s3 f2) mf next) as (f4 & -> & Hf4 & Hst4 & _ & Hadr4 & _); try done.
  { simpl. rewrite Hli1. unfold prev_ok in Hpv. rewrite Hprev in Hpv. apply orb_true_iff in Hpv as [Hpv|Hpv].
    - zbool. lia.
    - destruct (mf !! (next - 1)) eqn:E; [|done]. assert (is_Some (mf !! (next - 1))) as Hi%Hdom by eauto. lia. }
  { simpl. by rewrite Hadr1. }
  cbn [outcome_bind negb].
  destruct (advanceCommit_calm a f4 _ Hf4 Hci) as (f5 & -> & Hf5 & Hadr5).
  { unfold getState in *. rewrite Hst4. simpl. by rewrite Hst1. }
  cbn [outcome_bind]. eexists. split; [done|]. split; [|simpl; rewrite Hadr5, Hadr4; exact Hadr1].
  apply (follower_ok_fields f5 _ _ Hf5); try done; apply Hf5.
Qed.
End Follower.

(** ** A leader whose disk works *)

(** The tracker is in a state that [inflight_refines] describes, so votes do not panic. *)
Definition tracker_ok {L K} (r : Raft L K) : Prop :=
  match r_leaderState r with
  | None => True
  | Some ls => exists base spec taken, 0 < base /\ base + Z.of_nat (length spec) < 2 ^ 64 /\
      inflight_sim base spec taken (ls_inflight ls)
  end.

(** The leader holds the entries 1 to [lastIndex] of [ml]; nothing is compacted. *)
Record leader_ok `{LogStoreCalm L} {K} (r : Raft L K) (ml : gmap Z Log) (lastIndex : Z) : Prop := {
  lo_rep : log_rep (r_logs r) ml;
  lo_calm : log_calm (r_logs r);
  lo_indexed : indexed ml;
  lo_dom i : 1 <= i <= lastIndex -> is_Some (ml !! i);
  lo_bound : 0 <= lastIndex /\ lastIndex + rc_MaxAppendEntries (r_conf r) + 1 < 2 ^ 64;
  lo_batch : 0 < rc_MaxAppendEntries (r_conf r);
  lo_nosnap : rs_lastSnapshotIndex (r_raftState r) = 0;
  lo_commit : uint64_ok (rs_commitIndex (r_raftState r));
  lo_tracker : tracker_ok r;
}.

Section Leader.
Context `{LogStoreCalm L} {K : Type}.
Implicit Types (r : Raft L K) (ml : gmap Z Log).

Lemma leader_ok_logs r s' ml lastIndex :
  leader_ok r ml lastIndex -> log_rep s' ml -> log_calm s' -> leader_ok (set_rlogs s' r) ml lastIndex.
Proof. intros [] ? ?. by split. Qed.

Lemma read_logs_calm n : forall i r ml,
  log_rep (r_logs r) ml -> log_calm (r_logs r) -> 0 <= i -> i + Z.of_nat n <= 2 ^ 64 ->
  (forall j, i <= j < i + Z.of_nat n -> is_Some (ml !! j)) ->
  exists es s', read_logs n i r = Return (inl es, set_rlogs s' r) /\ log_rep s' ml /\ log_calm s'.
Proof.
  induction n as [|n IH]; intros i r ml Hm Hc Hlo Hhi Hdom; cbn [read_logs].
  { exists [], (r_logs r). split; [by destruct r|done]. }
  destruct (GetLog_calm_rep (r_logs r) ml i Hm Hc) as (s1 & -> & Hm1 & Hc1); [unfold uint64_ok; lia|].
  destruct (Hdom i) as [l ->]; [lia|]. cbn [outcome_bind].
  destruct (IH (i + 1) (set_rlogs s1 r) ml) as (es & s2 & -> & Hm2 & Hc2); [done|done|lia|lia| |].
  { intros j Hj. apply Hdom. lia. }
  cbn [outcome_bind]. by exists (l :: es), s2.
Qed.

(** What the leader's request for a follower with [next] contains. *)
Record request_ok (ml : gmap Z Log) (term next lastIndex : Z) (req : AppendEntriesRequest) : Prop := {
  rq_term : ae_Term req = term;
  rq_prev : ae_PrevLogEntry req = next - 1;
  rq_prevTerm : next = 1 \/ exists l, ml !! (next - 1) = Some l /\ ae_PrevLogTerm req = log_Term l;
  rq_consecutive : consecutive next (ae_Entries req);
  rq_entries j : next <= j < next + Z.of_nat (length (ae_Entries req)) ->
    ml !! j = ae_Entries req !! Z.to_nat (j - next);
  rq_bound : next + Z.of_nat (length (ae_Entries req)) <= lastIndex + 1;
  rq_some : next <= lastIndex -> ae_Entries req <> [];
  rq_commit : uint64_ok (ae_LeaderCommitIndex req);
}.

Lemma setupAppendEntries_calm term next lastIndex r ml :
  leader_ok r ml lastIndex -> 1 <= next <= lastIndex + 1 ->
  exists req s', setupAppendEntries term next lastIndex r = Return (inl req, set_rlogs s' r) /\
    request_ok ml term next lastIndex req /\ leader_ok (set_rlogs s' r) ml lastIndex.
Proof.
  intros Hr Hn. pose proof Hr as [Hm Hc Hi Hdom [Hl0 Hl1] Hmax Hsnap Hci _].
  assert (Hprev : exists pt s1, setPreviousLog next r = Return (inl (next - 1, pt), set_rlogs s1 r) /\
    log_rep s1 ml /\ log_calm s1 /\ (next = 1 \/ exists l, ml !! (next - 1) = Some l /\ pt = log_Term l)).
  { unfold setPreviousLog. rewrite wrapu64_id by (unfold uint64_ok; lia). rewrite Hsnap.
    destruct (Z.eqb_spec next 1) as [->|Hne].
    { exists 0, (r_logs r). split; [by destruct r|]. auto. }
    rewrite (proj2 (Z.eqb_neq (next - 1) 0)) by lia.
    destruct (GetLog_calm_rep (r_logs r) ml (next - 1) Hm Hc) as (s1 & -> & Hm1 & Hc1); [unfold uint64_ok; lia|].
    destruct (Hdom (next - 1)) as [l Hl]; [lia|]. rewrite Hl. cbn [outcome_bind]. exists (log_Term l), s1.
    rewrite (Hi _ _ Hl). split; [done|]. eauto 8. }
  destruct Hprev as (pt & s1 & Ep & Hm1 & Hc1 & Hpt).
  set (mx := (next + rc_MaxAppendEntries (r_conf r) - 1) `min` lastIndex).
  destruct (read_logs_calm (Z.to_nat (mx - next + 1)) next (set_rlogs s1 r) ml)
    as (es & s2 & Er & Hm2 & Hc2); [done|done|lia|lia| |].
  { intros j Hj. apply Hdom. lia. }
  destruct (read_logs_spec (Z.to_nat (mx - next + 1)) next (set_rlogs s1 r) ml _ _ Hm1 Hi ltac:(lia) ltac:(lia) Er) as (_ & Hlen & Hcons & Hes).
  exists (mkAppendEntriesRequest term (EncodePeer (r_localAddr r)) (next - 1) pt es (rs_commitIndex (r_raftState r))), s2.
  split; [|split].
  - unfold setupAppendEntries. rewrite Ep. cbn [outcome_bind]. unfold setNewLogs.
    cbn [set_rlogs r_conf]. rewrite umin_spec, wrapu64_id by (unfold uint64_ok; lia). fold mx.
    rewrite Er. done.
  - split; cbn [ae_Term ae_PrevLogEntry ae_PrevLogTerm ae_Entries ae_LeaderCommitIndex]; try done.
    + rewrite Hlen. exact Hes.
    + lia.
    + intros Hle ->. simpl in Hlen. lia.
  - by apply (leader_ok_logs r s2).
Qed.

(** The votes of a confirmation touch nothing but the verify futures and their channel. *)
Lemma notifyAll_frame b s r :
  exists vs q, (notifyAll b s r).2 = set_verifyCh q (set_verifyFutures vs r).
Proof.
  unfold notifyAll. simpl. generalize (fr_notify s). intros ids. revert r.
  induction ids as [|id ids IH]; intros r; simpl.
  { exists (r_verifyFutures r), (r_verifyCh r). by destruct r. }
  assert (Hv : exists vs q, verify_vote b id r = set_verifyCh q (set_verifyFutures vs r)).
  { unfold verify_vote, send_verify. destruct (r_verifyFutures r !! id); repeat case_if; try by eexists _, _.
    all: exists (r_verifyFutures r), (r_verifyCh r) || eexists _, (r_verifyCh r); by destruct r. }
  destruct Hv as (vs & q & ->). destruct (IH (set_verifyCh q (set_verifyFutures vs r))) as (vs' & q' & ->).
  by exists vs', q'.
Qed.

Lemma updateLastAppended_calm req s r ml lastIndex next :
  leader_ok r ml lastIndex -> consecutive next (ae_Entries req) -> 0 < next ->
  next + Z.of_nat (length (ae_Entries req)) <= lastIndex + 1 ->
  exists s' r', updateLastAppended req s r = Return (s', r') /\ leader_ok r' ml lastIndex /\
    fr_nextIndex s' = (if decide (ae_Entries req = []) then fr_nextIndex s
                       else next + Z.of_nat (length (ae_Entries req))) /\
    fr_currentTerm s' = fr_currentTerm s /\ fr_peer s' = fr_peer s.
Proof.
  intros Hr Hc Hn Hhi. unfold updateLastAppended.
  assert (Hnotify : forall s0 r0, leader_ok r0 ml lastIndex -> exists s' r',
    Return (notifyAll true s0 r0) = Return (s', r') /\ leader_ok r' ml lastIndex /\
    fr_nextIndex s' = fr_nextIndex s0 /\ fr_currentTerm s' = fr_currentTerm s0 /\ fr_peer s' = fr_peer s0).
  { intros s0 r0 Hr0. destruct (notifyAll true s0 r0) as [s' r'] eqn:E. exists s', r'. split; [done|].
    destruct (notifyAll_frame true s0 r0) as (vs & q & Hf). rewrite E in Hf. simpl in Hf. subst r'.
    injection E as <- _. split; [|done]. destruct Hr0. by split. }
  destruct (ae_Entries req) as [|e0 es] eqn:Ees; cbn [head]; [by apply Hnotify|].
  destruct (last (e0 :: es)) as [lst|] eqn:El; [|by apply last_None in El].
  assert (Hlst : log_Index lst = next + Z.of_nat (length (e0 :: es)) - 1).
  { rewrite last_lookup in El. rewrite (consecutive_lookup _ _ _ _ Hc El). simpl. lia. }
  assert (Hin : exists r1, stream_inflight (CommitRange (log_Index e0) (log_Index lst)) s r = Return r1 /\
    leader_ok r1 ml lastIndex).
  { unfold stream_inflight. case_if; [|by exists r]. unfold on_inflight. destruct (r_leaderState r) as [ls|] eqn:Els; [|by exists r].
    pose proof (lo_tracker _ _ _ Hr) as Ht. unfold tracker_ok in Ht. rewrite Els in Ht.
    destruct Ht as (base & spec & taken & Hb & Hsz & Hsim).
    destruct (sim_CommitRange base Hb (log_Index e0) (log_Index lst) spec taken _ Hsz Hsim) as (i' & -> & Hsim').
    cbn [outcome_bind]. eexists. split; [done|]. destruct Hr. split; try done. unfold tracker_ok. simpl.
    eexists base, _, taken. split; [done|]. split; [|exact Hsim']. rewrite spec_step_length. simpl. lia. }
  destruct Hin as (r1 & -> & Hr1). cbn [outcome_bind].
  destruct (Hnotify (fr_set_indexes (log_Index lst) (wrapu64 (log_Index lst + 1)) s) r1 Hr1)
    as (s' & r' & E & Hr' & Hnx & Hct & Hp).
  exists s', r'. split; [exact E|]. split; [done|]. split; [|done].
  rewrite Hnx. cbn [fr_set_indexes fr_nextIndex]. rewrite decide_False by done.
  destruct (lo_bound _ _ _ Hr) as [? ?]. pose proof (lo_batch _ _ _ Hr).
  rewrite wrapu64_id by (unfold uint64_ok; lia). lia.
Qed.
End Leader.

(** ** A leader and a follower *)

(** The transport that hands every append request to the handler of a node; a panic of the handler is
    a broken connection.  Snapshots and pipelines are refused. *)
Definition node_transport {L K} `{LogStore L} `{StableStore K} (env : raftEnv) (now : Time)
    : Transport (Raft L K) := {|
  net_now _ := now;
  net_AppendEntries _ req f :=
    match appendEntries env now req f with
    | Return (resp, f') => (inl resp, f')
    | Panic msg => (inr (Errorf msg), f)
    end;
  net_InstallSnapshot _ _ _ f := (inr (Errorf "connection refused"), f);
  net_OpenPipeline _ f := (Some (Sentinel "pipeline replication not supported"), f);
  net_PipelineSend _ _ f := (Some (Sentinel "append pipeline closed"), f);
|}.

(** The Log Matching property of Raft between two logs: where they have an entry of the same term at
    an index, they agree up to that index. *)
Definition log_matching (ml mf : gmap Z Log) : Prop :=
  forall i l l', ml !! i = Some l -> mf !! i = Some l' -> log_Term l = log_Term l' ->
  forall j, 1 <= j <= i -> mf !! j = erase_peer <$> ml !! j.

(** The follower has the leader's entries up to [n]. *)
Definition agree (ml mf : gmap Z Log) (n : Z) : Prop :=
  forall j, 1 <= j <= n -> mf !! j = erase_peer <$> ml !! j.

(** The leader's entries can be stored by the follower and leave it in the cluster. *)
Definition acceptable `{LogStoreCalm Lf} (env : raftEnv) (self : string) (ml : gmap Z Log) (lastIndex : Z) : Prop :=
  forall i l, 1 <= i <= lastIndex -> ml !! i = Some l -> log_storable l /\ harmless env self l.

Section Composed.
Context `{LogStoreCalm Ll} {Kl : Type} `{LogStoreCalm Lf} `{StableStoreCalm Kf}.
Context (env : raftEnv) (now : Time).
Context {HS : SnapshotReader (Raft Lf Kf)}.
Implicit Types (r : Raft Ll Kl) (f : Raft Lf Kf) (s : followerReplication) (ml mf : gmap Z Log).

#[local] Instance the_transport : Transport (Raft Lf Kf) := node_transport env now.

(** One exchange: the follower rejects the request, and the next index moves down; or it has the
    previous entry, and agrees with the leader up to the end of the request. *)
Lemma exchange ml mf lastIndex s r f :
  leader_ok r ml lastIndex -> follower_ok env (fr_currentTerm s) f mf ->
  acceptable env (r_localAddr f) ml lastIndex -> 1 <= fr_nextIndex s <= lastIndex + 1 ->
  exists req r1 resp f1 s1 r2 mf1,
    setupAppendEntries (fr_currentTerm s) (fr_nextIndex s) lastIndex r = Return (inl req, r1) /\
    net_AppendEntries (fr_peer s) req f = (inl resp, f1) /\
    replicateResponse now req resp s r1 = Return (false, s1, r2) /\
    leader_ok r2 ml lastIndex /\ follower_ok env (fr_currentTerm s1) f1 mf1 /\
    r_localAddr f1 = r_localAddr f /\
    let next := fr_nextIndex s in let next1 := fr_nextIndex s1 in
    ((prev_ok req mf = false /\ mf1 = mf /\ 1 <= next1 < next) \/
     (prev_ok req mf = true /\ next <= next1 <= lastIndex + 1 /\ (next <= lastIndex -> next < next1) /\
      (forall j, 1 <= j < next -> mf1 !! j = mf !! j) /\
      (forall j, next <= j < next1 -> mf1 !! j = erase_peer <$> ml !! j))) /\
    request_ok ml (fr_currentTerm s) next lastIndex req.
Proof.
  intros Hr Hf Hacc Hn.
  destruct (setupAppendEntries_calm (fr_currentTerm s) (fr_nextIndex s) lastIndex r ml Hr Hn)
    as (req & s' & Esetup & Hreq & Hr1).
  pose proof Hreq as [Hterm Hprev Hpt Hcons Hes Hbd Hsome Hci].
  pose proof (lo_bound _ _ _ Hr) as [Hl0 Hl1]. pose proof (lo_batch _ _ _ Hr) as Hmax.
  assert (Hents : Forall (fun l => log_storable l /\ harmless env (r_localAddr f) l) (ae_Entries req)).
  { apply Forall_lookup. intros i l Hl. pose proof (lookup_lt_Some _ _ _ Hl).
    apply (Hacc (fr_nextIndex s + Z.of_nat i)); [lia|]. rewrite Hes by lia. rewrite <- Hl. f_equal. lia. }
  destruct (appendEntries_calm env now (fr_currentTerm s) req f mf (fr_nextIndex s))
    as (f1 & Eapp & Hf1 & Hadr); [done|done|done|lia|done|lia|done| | |].
  { eapply Forall_impl; [exact Hents|]. by intros l [? _]. }
  { eapply Forall_impl; [exact Hents|]. by intros l [_ ?]. }
  set (r1 := set_rlogs s' r) in *.
  exists req, r1, (mkAppendEntriesResponse (fr_currentTerm s) (rs_lastLogIndex (r_raftState f))
    (prev_ok req mf) (negb (prev_ok req mf))), f1.
  assert (Enet : net_AppendEntries (fr_peer s) req f = (inl (mkAppendEntriesResponse (fr_currentTerm s)
    (rs_lastLogIndex (r_raftState f)) (prev_ok req mf) (negb (prev_ok req mf))), f1)).
  { simpl. by rewrite Eapp. }
  unfold replicateResponse. cbn [aer_Term aer_Success aer_LastLog aer_NoRetryBackoff].
  rewrite Hterm, Z.gtb_ltb, Z.ltb_irrefl.
  destruct (prev_ok req mf) eqn:Hpv.
  - destruct (updateLastAppended_calm req (fr_setLastContact now s) r1 ml lastIndex (fr_nextIndex s))
      as (s1 & r2 & -> & Hr2 & Hnx & Hct & Hpeer); [done|done|lia|done|]. cbn [outcome_bind].
    exists (fr_set_allowPipeline true (fr_set_failures 0 s1)), r2, (stored (fr_nextIndex s) (ae_Entries req) mf).
    cbn [fr_nextIndex fr_currentTerm fr_set_allowPipeline fr_set_failures]. rewrite Hct.
    split_and!; [done..| |done]. right. rewrite Hnx. cbn [fr_nextIndex fr_setLastContact].
    split; [done|]. destruct (decide (ae_Entries req = [])) as [E|E].
    + split; [lia|]. split; [intros Hle; by destruct (Hsome Hle)|].
      split; [intros j _; by rewrite stored_lookup, decide_True|intros; lia].
    + split; [lia|]. split. { intros _. destruct (ae_Entries req); [done|simpl; lia]. }
      split; intros j Hj; rewrite stored_lookup, decide_False by done.
      * by rewrite decide_False by lia.
      * rewrite decide_True by lia. by rewrite Hes by lia.
  - pose proof (fo_bound _ _ _ _ Hf) as Hb. cbn [fr_nextIndex fr_setLastContact].
    rewrite (wrapu64_id (fr_nextIndex s - 1)), (wrapu64_id (rs_lastLogIndex (r_raftState f) + 1)) by (unfold uint64_ok; lia).
    rewrite umax_spec, umin_spec. eexists _, r1, mf.
    split; [done|]. split; [done|]. split; [done|]. split; [done|]. split; [done|]. split; [done|].
    split; [|done]. left. cbn [fr_nextIndex fr_set_failures fr_set_indexes].
    assert (fr_nextIndex s <> 1).
    { intros E1. unfold prev_ok in Hpv. rewrite Hprev, E1 in Hpv. done. }
    split; [done|]. split; [done|]. lia.
Qed.

(** Once the follower has what precedes the next entry, every round makes progress. *)
Lemma replicateTo_streams fuel : forall ml mf lastIndex s r f,
  leader_ok r ml lastIndex -> follower_ok env (fr_currentTerm s) f mf ->
  acceptable env (r_localAddr f) ml lastIndex -> 1 <= fr_nextIndex s <= lastIndex ->
  agree ml mf (fr_nextIndex s - 1) -> lastIndex - fr_nextIndex s < Z.of_nat fuel ->
  exists s' r' f' mf', replicateTo fuel lastIndex s r f = Return (false, s', r', f') /\
    leader_ok r' ml lastIndex /\ follower_ok env (fr_currentTerm s') f' mf' /\
    agree ml mf' lastIndex /\ fr_nextIndex s' = lastIndex + 1.
Proof.
  induction fuel as [|fuel IH]; intros ml mf lastIndex s r f Hr Hf Hacc Hn Hag Hfuel; [lia|].
  destruct (exchange ml mf lastIndex s r f Hr Hf Hacc) as
    (req & r1 & resp & f1 & s1 & r2 & mf1 & E1 & E2 & E3 & Hr2 & Hf1 & Hadr & Hcase & Hreq); [lia|].
  cbn [replicateTo]. rewrite E1. cbn [outcome_bind]. rewrite E2. cbn [net_now the_transport node_transport].
  rewrite E3. cbn [outcome_bind].
  assert (Hpv : prev_ok req mf = true).
  { unfold prev_ok. rewrite (rq_prev _ _ _ _ _ Hreq). apply orb_true_iff.
    destruct (decide (fr_nextIndex s = 1)) as [Hone|Hne]; [left; apply Z.leb_le; lia|]. right.
    destruct (rq_prevTerm _ _ _ _ _ Hreq) as [Hone|(l & Hl & ->)]; [lia|].
    rewrite (Hag (fr_nextIndex s - 1)), Hl by lia. apply Z.eqb_refl. }
  destruct Hcase as [(Hno & _)|(_ & Hle1 & Hlt1 & Hold & Hnew)]; [congruence|]. specialize (Hlt1 ltac:(lia)).
  assert (Hag1 : agree ml mf1 (fr_nextIndex s1 - 1)).
  { intros j Hj. destruct (decide (j < fr_nextIndex s)) as [Hj'|Hj'].
    - rewrite Hold by lia. apply Hag. lia.
    - apply Hnew. lia. }
  destruct (Z.leb_spec (fr_nextIndex s1) lastIndex) as [Hmore|Hdone].
  - destruct (IH ml mf1 lastIndex s1 r2 f1) as (s' & r' & f' & mf' & -> & ?); try done; [|lia|lia|].
    { by rewrite Hadr. }
    by exists s', r', f', mf'.
  - exists s1, r2, f1, mf1. split; [done|]. split; [done|]. split; [done|].
    replace lastIndex with (fr_nextIndex s1 - 1) by lia. split; [done|]. lia.
Qed.

(** Each rejection moves the next index down; at 1 there is no previous entry to miss. *)
Lemma replicateTo_searches fuel : forall ml mf lastIndex s r f,
  leader_ok r ml lastIndex -> follower_ok env (fr_currentTerm s) f mf ->
  acceptable env (r_localAddr f) ml lastIndex -> 1 <= fr_nextIndex s <= lastIndex + 1 ->
  log_matching ml mf -> fr_nextIndex s + lastIndex < Z.of_nat fuel ->
  exists s' r' f' mf', replicateTo fuel lastIndex s r f = Return (false, s', r', f') /\
    leader_ok r' ml lastIndex /\ follower_ok env (fr_currentTerm s') f' mf' /\
    agree ml mf' lastIndex /\ fr_nextIndex s' = lastIndex + 1.
Proof.
  induction fuel as [|fuel IH]; intros ml mf lastIndex s r f Hr Hf Hacc Hn Hmatch Hfuel; [lia|].
  destruct (exchange ml mf lastIndex s r f Hr Hf Hacc Hn) as
    (req & r1 & resp & f1 & s1 & r2 & mf1 & E1 & E2 & E3 & Hr2 & Hf1 & Hadr & Hcase & Hreq).
  cbn [replicateTo]. rewrite E1. cbn [outcome_bind]. rewrite E2. cbn [net_now the_transport node_transport].
  rewrite E3. cbn [outcome_bind].
  destruct Hcase as [(_ & -> & Hback)|(Hpv & Hle1 & Hlt1 & Hold & Hnew)].
  - rewrite (proj2 (Z.leb_le _ _)) by lia.
    destruct (IH ml mf lastIndex s1 r2 f1) as (s' & r' & f' & mf' & -> & ?); try done; [|lia|lia|].
    { by rewrite Hadr. }
    by exists s', r', f', mf'.
  - assert (Hag : agree ml mf (fr_nextIndex s - 1)).
    { intros j Hj. destruct (rq_prevTerm _ _ _ _ _ Hreq) as [Hone|(l & Hl & Ht)]; [lia|].
      unfold prev_ok in Hpv. rewrite (rq_prev _ _ _ _ _ Hreq), (proj2 (Z.leb_gt _ _)) in Hpv by lia.
      destruct (mf !! (fr_nextIndex s - 1)) as [l'|] eqn:El'; [|done]. cbn [orb] in Hpv. apply Z.eqb_eq in Hpv.
      apply (Hmatch (fr_nextIndex s - 1) l l'); [done|done|congruence|lia]. }
    assert (Hag1 : agree ml mf1 (fr_nextIndex s1 - 1)).
    { intros j Hj. destruct (decide (j < fr_nextIndex s)) as [Hj'|Hj'].
      - rewrite Hold by lia. apply Hag. lia.
      - apply Hnew. lia. }
    destruct (Z.leb_spec (fr_nextIndex s1) lastIndex) as [Hmore|Hdone].
    + apply (replicateTo_streams fuel ml mf1); try done; [by rewrite Hadr|lia|lia].
    + exists s1, r2, f1, mf1. split; [done|]. split; [done|]. split; [done|].
      replace lastIndex with (fr_nextIndex s1 - 1) by lia. split; [done|]. lia.
Qed.
End Composed.

(** C12: a follower catches up.  A leader with entries 1 to [lastIndex] replicates to a follower of its
    term or an older one, over a network that delivers; both disks work, nothing is compacted, the
    follower's log has no gaps and is not shut down, the entries can be stored and do not remove the
    follower from the cluster, and the two logs satisfy Raft's Log Matching property.  Then (the waits
    between failed rounds apart) [replicateTo] terminates, whatever the
    follower's log contains and wherever the search for the common entry starts ([nextIndex +
    lastIndex + 1] rounds are enough), the stream is not stopped, and afterwards the follower holds the
    leader's entry at every index up to [lastIndex], with the next index just behind them. *)
Theorem replicateTo_catches_up `{LogStoreCalm Ll} {Kl : Type} `{LogStoreCalm Lf} `{StableStoreCalm Kf}
    `{SnapshotReader (Raft Lf Kf)} env now (fuel : nat) ml mf lastIndex s (r : Raft Ll Kl) (f : Raft Lf Kf) :
  leader_ok r ml lastIndex -> follower_ok env (fr_currentTerm s) f mf ->
  acceptable env (r_localAddr f) ml lastIndex -> 1 <= fr_nextIndex s <= lastIndex + 1 ->
  log_matching ml mf -> fr_nextIndex s + lastIndex < Z.of_nat fuel ->
  exists s' r' f' mf',
    replicateTo (HT := node_transport env now) fuel lastIndex s r f = Return (false, s', r', f') /\
    log_rep (r_logs f') mf' /\ (forall j, 1 <= j <= lastIndex -> mf' !! j = erase_peer <$> ml !! j) /\
    fr_nextIndex s' = lastIndex + 1.
Proof.
  intros Hr Hf Hacc Hn Hmatch Hfuel.
  destruct (replicateTo_searches env now fuel ml mf lastIndex s r f) as (s' & r' & f' & mf' & E & _ & Hf' & Hag & Hnx);
    try done.
  exists s', r', f', mf'. split; [exact E|]. split; [apply Hf'|]. by split.
Qed.

(** *** A follower with a conflicting suffix *)

#[local] Instance ex_no_snapshots : SnapshotReader (Raft ex_store ex_store) := {|
  snap_List f := (inl [], f);
  snap_Open _ f := (inr (Errorf "no such file or directory"), f);
|}.

Definition ex_leaderState (office : Z) : leaderState := mkLeaderState newInflight ∅ [] ∅ false office.
Definition ex_lead : Raft ex_store ex_store := set_leaderState (Some (ex_leaderState 2)) ex_leader.
Definition ex_stream : followerReplication :=
  mkFollowerReplication "b" None true 2 0 4 0 0 false [] false 2.

Lemma ex_lookup (ls : list Log) i l :
  (insert_logs ls ∅ : gmap Z Log) !! i = Some l -> l ∈ ls /\ log_Index l = i.
Proof.
  unfold insert_logs. revert i l. induction ls as [|x ls IH] using rev_ind; intros i l; [done|].
  rewrite foldl_snoc. intros [[<- <-]|[_ Hl]]%lookup_insert_Some; [set_solver|].
  destruct (IH i l Hl). set_solver.
Qed.

Lemma ex_lead_ok : leader_ok ex_lead (insert_logs ex_leader_log ∅) 3.
Proof.
  split; try done.
  - exact ex_leader_rep.
  - intros i l Hl. by apply ex_lookup in Hl as [_ ?].
  - intros i Hi. assert (Hcase : i = 1 \/ i = 2 \/ i = 3) by lia.
    destruct Hcase as [->|[->| ->]]; vm_compute; eauto.
  - exists 1, [], []. split; [lia|]. split; [simpl; lia|]. exists [], [], [], false. repeat split; constructor.
Qed.

Lemma ex_follower_ok : follower_ok ex_env 2 (ex_follower 1 ex_old_log []) (insert_logs ex_old_log ∅).
Proof.
  split; try done.
  - exact ex_follower_rep.
  - intros i. simpl rs_lastLogIndex. split.
    + intros [l [Hl Hi]%ex_lookup]. unfold ex_old_log in Hl.
      repeat (apply elem_of_cons in Hl as [->|Hl]; [simpl in Hi; lia|]). by apply elem_of_nil in Hl.
    + intros Hi. assert (Hcase : i = 1 \/ i = 2 \/ i = 3) by lia.
      destruct Hcase as [->|[->| ->]]; vm_compute; eauto.
  - intros l Hl. vm_compute in Hl. by injection Hl as <-.
  - intros i l [Hl _]%ex_lookup. unfold ex_old_log in Hl.
    repeat (apply elem_of_cons in Hl as [->|Hl]; [done|]). by apply elem_of_nil in Hl.
Qed.

Lemma ex_matching : log_matching (insert_logs ex_leader_log ∅) (insert_logs ex_old_log ∅).
Proof.
  intros i l l' [Hl Hi]%ex_lookup [Hl' Hi']%ex_lookup Ht j Hj. unfold ex_leader_log in Hl.
  assert (Hterm : log_Term l' = 1).
  { unfold ex_old_log in Hl'. repeat (apply elem_of_cons in Hl' as [->|Hl']; [done|]). by apply elem_of_nil in Hl'. }
  apply elem_of_cons in Hl as [->|Hl].
  - simpl in Hi. assert (j = 1) as -> by lia. by vm_compute.
  - exfalso. repeat (apply elem_of_cons in Hl as [->|Hl]; [simpl in Ht; lia|]). by apply elem_of_nil in Hl.
Qed.

Lemma replicateTo_catches_up_witness :
  exists s' r' f' mf',
    replicateTo (HT := node_transport ex_env 9) 8 3 ex_stream ex_lead (ex_follower 1 ex_old_log [])
      = Return (false, s', r', f') /\
    log_rep (r_logs f') mf' /\ mf' !! 2 = Some (log_ex 2 2 "u") /\ mf' !! 3 = Some (log_ex 3 2 "v") /\
    fr_nextIndex s' = 4.
Proof.
  destruct (replicateTo_catches_up ex_env 9 8 (insert_logs ex_leader_log ∅) (insert_logs ex_old_log ∅) 3
              ex_stream ex_lead (ex_follower 1 ex_old_log [])) as (s' & r' & f' & mf' & E & Hm & Hag & Hn).
  - exact ex_lead_ok.
  - exact ex_follower_ok.
  - intros i l _ [Hl _]%ex_lookup. unfold ex_leader_log in Hl.
    repeat (apply elem_of_cons in Hl as [->|Hl]; [split; [vm_compute; eauto|done]|]). by apply elem_of_nil in Hl.
  - simpl. lia.
  - exact ex_matching.
  - simpl. lia.
  - exists s', r', f', mf'. split; [exact E|]. split; [exact Hm|].
    rewrite (Hag 2), (Hag 3) by lia. split; [reflexivity|]. split; [reflexivity|exact Hn].
Defined.

(** ** A follower that votes twice *)

(** The leader [a] of a cluster of five, with an empty log. *)
Definition ex_five : Raft ex_store ex_store :=
  mkRaft (mkRaftState 1 0 0 0 0 0 0 Leader) DefaultConfig "a" "a" ["b"; "c"; "d"; "e"]
    (mkStaticPeers ["a"; "b"; "c"; "d"; "e"]) (ex_disk []) (ex_disk []) 0 [] [] false
    (Some (ex_leaderState 1)) ∅ [].
Definition ex_follower_b : Raft ex_store ex_store :=
  mkRaft (mkRaftState 1 0 0 0 0 0 0 Follower) DefaultConfig "a" "b" ["a"; "c"; "d"; "e"]
    (mkStaticPeers ["a"; "b"; "c"; "d"; "e"])
    (ex_disk [mkFault None None; mkFault None (Some (Errorf "disk full"))]) (ex_disk []) 0 [] [] false
    None ∅ [].
Definition ex_command (d : string) : logFuture :=
  mkLogFuture None (mkLog 0 0 LogCommand d "") (newMajorityQuorum 0).
Definition ex_stream_b : followerReplication :=
  mkFollowerReplication "b" None true 1 0 1 0 0 false [] false 1.

(** C34: entries are committed without a quorum.  The tracker counts acknowledgements, not followers:
    when a follower rejects a request, the leader moves its next index back and sends entries again
    that this follower has already acknowledged, and the second acknowledgement is one more vote.  In a
    cluster of five the leader dispatches entry 1, [b] stores it (two votes of three); entry 2 meets a
    full disk on [b], is rejected and sent again together with entry 1: entry 1 now has its third vote
    and is handed to the main loop as committed, with only [a] and [b] holding it. *)
Theorem commit_without_quorum :
  exists r1 s1 r2 f1 r3 s2 r4 f2 ls,
    quorumSize ex_five = 3 /\
    dispatchLogs [ex_command "x"] ex_five = Return r1 /\
    replicateTo (HT := node_transport ex_env 5) 4 1 ex_stream_b r1 ex_follower_b
      = Return (false, s1, r2, f1) /\
    (if_committed ∘ ls_inflight <$> r_leaderState r2) = Some [] /\
    dispatchLogs [ex_command "y"] r2 = Return r3 /\
    replicateTo (HT := node_transport ex_env 6) 4 2 s1 r3 f1 = Return (false, s2, r4, f2) /\
    r_leaderState r4 = Some ls /\
    (lf_log <$> if_committed (ls_inflight ls)) = [mkLog 1 1 LogCommand "x" ""].
Proof.
  pose (d := (true, ex_stream_b, ex_five, ex_follower_b)).
  set (o1 := dispatchLogs [ex_command "x"] ex_five). set (r1 := ex_returns ex_five o1).
  set (o2 := replicateTo (HT := node_transport ex_env 5) 4 1 ex_stream_b r1 ex_follower_b).
  set (r2 := (ex_returns d o2).1.2). set (f1 := (ex_returns d o2).2). set (s1 := (ex_returns d o2).1.1.2).
  set (o3 := dispatchLogs [ex_command "y"] r2). set (r3 := ex_returns ex_five o3).
  set (o4 := replicateTo (HT := node_transport ex_env 6) 4 2 s1 r3 f1).
  exists r1, s1, r2, f1, r3, (ex_returns d o4).1.1.2, (ex_returns d o4).1.2, (ex_returns d o4).2,
    (default (ex_leaderState 1) (r_leaderState (ex_returns d o4).1.2)).
  split_and!; vm_compute; reflexivity.
Qed.
