(* ===== verification/RaftLeader.v ===== *)
(** * Raft: the main loop and its futures (internal/raft/raft.go: Apply to LastContact, run,
    runFollower, runCandidate, runLeader, leaderLoop, verifyLeader, processRPC; future.go)

    Requests of the application reach the node as futures on channels; the main loop of the node is in
    one of three loops, follower, candidate or leader, and each takes events one at a time.  An event is
    one case of the [select] of the loop; the deferred clean-up of a leader and the set-up of the next
    loop are part of the event that ends a loop.

    The notifications about gained and lost leadership ([LeaderCh], [NotifyCh]), metrics and log
    messages are left out. *)
From S2P Require Import Prelude GoStrings RaftBase Inflight BoltStore FileSnapshot.
From S2P Require Import Raft RaftElection RaftReplication RaftStream.

Open Scope string_scope.
Open Scope Z_scope.
Local Open Scope go_scope.

(** ** Requests of the application *)

(** Which case of its [select] a call takes: the timer, the shutdown channel, the channel to the main
    loop (or, for a snapshot, to the snapshot loop). *)
Inductive select_case := SelTimer | SelShutdown | SelSent.

(** The future a caller gets: an [errorFuture], or one that is answered on channel [id]. *)
Inductive future := ErrorFuture (e : error) | Deferred (id : nat).

Section Api.
Context {L K : Type}.
Implicit Types (r : Raft L K).

Definition newLogFuture (id : nat) (t : LogType) (data peer : string) : logFuture :=
  mkLogFuture (Some id) (mkLog 0 0 t data peer) (newMajorityQuorum 0).

(** The [select] of a call: [None] for a case that is not ready. *)
Definition call_select {A} (timer : bool) (sel : select_case) (id : nat) (msg : A) r
    : option (future * option A) :=
  match sel with
  | SelTimer => if timer then Some (ErrorFuture ErrEnqueueTimeout, None) else None
  | SelShutdown => if r_shutdown r then Some (ErrorFuture ErrRaftShutdown, None) else None
  | SelSent => Some (Deferred id, Some msg)
  end.

Definition Apply (cmd : string) (timeout : Duration) (sel : select_case) (id : nat) r
    : option (future * option logFuture) :=
  call_select (timeout >? 0) sel id (newLogFuture id LogCommand cmd "") r.

Definition Barrier (timeout : Duration) (sel : select_case) (id : nat) r
    : option (future * option logFuture) :=
  call_select (timeout >? 0) sel id (newLogFuture id LogBarrier "" "") r.

Definition AddPeer (peer : string) (sel : select_case) (id : nat) r
    : option (future * option logFuture) :=
  call_select false sel id (newLogFuture id LogAddPeer "" peer) r.

Definition RemovePeer (peer : string) (sel : select_case) (id : nat) r
    : option (future * option logFuture) :=
  call_select false sel id (newLogFuture id LogRemovePeer "" peer) r.

(** [SetPeers]: the future carries the peers. *)
Definition SetPeers (p : list string) (sel : select_case) (id : nat) r
    : option (future * option (nat * list string)) :=
  call_select false sel id (id, p) r.

Definition Raft_Snapshot (sel : select_case) (id : nat) r : option (future * option nat) :=
  call_select false sel id id r.

(** [VerifyLeader]: the channel is buffered, so the future is queued. *)
Definition VerifyLeader (sel : select_case) (id : nat) r : option (future * Raft L K) :=
  match call_select false sel id id r with
  | None => None
  | Some (f, None) => Some (f, r)
  | Some (f, Some id) =>
      Some (f, set_verifyCh (r_verifyCh r ++ [id])%list
                 (set_verifyFutures (<[id := mkVerifyFuture false 0 0]> (r_verifyFutures r)) r))
  end.

(** [Shutdown]: the first call closes the channel and waits for the loops; the others return at once. *)
Definition Shutdown_call r : bool * Raft L K := (negb (r_shutdown r), Raft_Shutdown r).

Definition Raft_String r : string :=
  "Node at " ++ r_localAddr r ++ " [" ++ RaftState_String (getState r) ++ "]".

Definition LastIndex_call r : Z := getLastIndex (r_raftState r).
Definition AppliedIndex r : Z := rs_lastApplied (r_raftState r).

(** [Stats], with the formatting of the standard library as parameters. *)
Definition Stats (FormatUint : Z -> string) (Duration_String : Duration -> string) (now : Time) r
    : list (string * string) :=
  let s := r_raftState r in
  [("state", RaftState_String (getState r));
   ("term", FormatUint (getCurrentTerm r));
   ("last_log_index", FormatUint (rs_lastLogIndex s));
   ("last_log_term", FormatUint (rs_lastLogTerm s));
   ("commit_index", FormatUint (rs_commitIndex s));
   ("applied_index", FormatUint (rs_lastApplied s));
   ("fsm_pending", FormatUint (Z.of_nat (length (r_fsmCommitCh r))));
   ("last_snapshot_index", FormatUint (rs_lastSnapshotIndex s));
   ("last_snapshot_term", FormatUint (rs_lastSnapshotTerm s));
   ("num_peers", FormatUint (Z.of_nat (length (r_peers r))));
   ("last_contact",
    if Time_IsZero (r_lastContact r) then "never"
    else if bool_decide (getState r = Leader) then "0"
    else Duration_String (Time_Sub now (r_lastContact r)))].
End Api.

(** ** RPCs *)

Inductive rpc_command :=
| CmdAppend (a : AppendEntriesRequest)
| CmdVote (req : RequestVoteRequest)
| CmdInstall (req : InstallSnapshotRequest) (io : snapshot_io)
| CmdOther.

Inductive rpc_response :=
| RespAppend (resp : AppendEntriesResponse)
| RespVote (resp : RequestVoteResponse)
| RespInstall (resp : InstallSnapshotResponse)
| RespNil.

Section Loops.
Context {L K : Type} {HL : LogStore L} {HK : StableStore K}.
Context (env : raftEnv).
Implicit Types (r : Raft L K) (s : followerReplication).

Definition processRPC (now : Time) (cmd : rpc_command) r
    : outcome (rpc_response * option error * Raft L K) :=
  match cmd with
  | CmdAppend a =>
      let! (resp, r) := appendEntries env now a r in Return (RespAppend resp, None, r)
  | CmdVote req => let! (resp, r) := requestVote env now req r in Return (RespVote resp, None, r)
  | CmdInstall req io =>
      let! (resp, err, r) := installSnapshot env now req io r in Return (RespInstall resp, err, r)
  | CmdOther => Return (RespNil, Some (Errorf "unexpected command"), r)
  end.

(** [processHeartbeat], called by the transport for heartbeats: [None] without an answer. *)
Definition processHeartbeat (now : Time) (cmd : rpc_command) r
    : outcome (option (rpc_response * option error) * Raft L K) :=
  if r_shutdown r then Return (None, r)
  else match cmd with
       | CmdAppend a =>
           let! (resp, r) := appendEntries env now a r in Return (Some (RespAppend resp, None), r)
       | _ => Return (Some (RespNil, Some (Errorf "unexpected command")), r)
       end.

(** ** Confirmation of leadership *)

Definition add_notify (id : nat) s : followerReplication :=
  fr_set_notify true (fr_notify s ++ [id])%list s.

(** [verifyLeader]: the leader votes for itself and asks every stream for a heartbeat. *)
Definition verifyLeader (id : nat) r : outcome (Raft L K) :=
  let q := quorumSize r in
  let set := fun ch => set_verifyFutures (<[id := mkVerifyFuture ch q 1]> (r_verifyFutures r)) r in
  if q =? 1 then Return (respond (Some id) None (set false))
  else match r_leaderState r with
       | None => Panic "assignment to entry in nil map"
       | Some ls =>
           Return (set_leaderState
             (Some (ls_set_replState (add_notify id <$> ls_replState ls)
                      (ls_set_notify ({[id]} ∪ ls_notify ls) ls))) (set true))
       end.

(** [verifyFuture{}]. *)
Definition newVerifyFuture : verifyFuture := mkVerifyFuture false 0 0.

(** A verify future comes out of the channel of a leader. *)
Definition leader_verify (id : nat) (v : verifyFuture) r : outcome (Raft L K) :=
  let forget := upd_leaderState (fun ls => ls_set_notify (ls_notify ls ∖ {[id]}) ls) in
  if vf_quorumSize v =? 0 then verifyLeader id r
  else if vf_votes v <? vf_quorumSize v then
    Return (respond (Some id) (Some ErrNotLeader) (forget (setState Follower r)))
  else Return (respond (Some id) None (forget r)).

(** ** The batch of a leader *)

(** [ready[i], ready[n-1] = ready[n-1], nil; n--]. *)
Definition swap_remove {A} (i : nat) (ready : list A) : list A :=
  match last ready with
  | None => ready
  | Some x => take (length ready - 1) (<[i := x]> ready)
  end.

(** The loop over the batch: once the leader will step down, the rest is refused; membership changes
    are completed and applied early, or refused.  Every round takes one future from the rest of the
    batch, so its length bounds the rounds ([peer_changes_all]). *)
Fixpoint peer_changes (now : Time) (fuel i : nat) (ready : list logFuture) (stepDown : bool) r
    : outcome (list logFuture * bool * Raft L K) :=
  match fuel with
  | O => Return (ready, stepDown, r)
  | S fuel =>
      match ready !! i with
      | None => Return (ready, stepDown, r)
      | Some f =>
          if stepDown then
            peer_changes now fuel i (swap_remove i ready) stepDown
              (respond (lf_errCh f) (Some ErrNotLeader) r)
          else
            match log_Type (lf_log f) with
            | LogAddPeer | LogRemovePeer =>
                let! (prepared, r) := preparePeerChange env f r in
                match prepared with
                | None => peer_changes now fuel i (swap_remove i ready) stepDown r
                | Some f =>
                    let! (ok, r) := processLog env now (lf_log f) None true r in
                    peer_changes now fuel (S i) (<[i := f]> ready) ok r
                end
            | _ => peer_changes now fuel (S i) ready stepDown r
            end
      end
  end.

(** [applyCh]: the batch is dispatched when something of it is left. *)
Definition leader_apply (now : Time) (ready : list logFuture) (stepDown : bool) r
    : outcome (bool * Raft L K) :=
  let! (ready, stepDown, r) := peer_changes now (length ready) 0 ready stepDown r in
  match ready with
  | [] => Return (stepDown, r)
  | _ => let! r := dispatchLogs ready r in Return (stepDown, r)
  end.

(** ** Committed entries *)

Fixpoint commit_loop (now : Time) (committed : list logFuture) r : outcome (Raft L K) :=
  match committed with
  | [] => Return r
  | f :: committed =>
      let idx := log_Index (lf_log f) in
      let! r := processLogs env now idx (Some f) (upd_raftState (rs_setCommitIndex idx) r) in
      commit_loop now committed r
  end.

Definition set_commitCh (ch : signal) (i : inflight) : inflight :=
  mkInflight (if_committed i) ch (if_minCommit i) (if_maxCommit i) (if_operations i) (if_stopCh i).

(** [commitCh]: the signal is taken and the committed entries are applied. *)
Definition leader_commit (now : Time) r : outcome (Raft L K) :=
  match r_leaderState r with
  | None => Return r
  | Some ls =>
      match if_commitCh (ls_inflight ls) with
      | Open true =>
          let '(committed, i) := Committed (set_commitCh (Open false) (ls_inflight ls)) in
          commit_loop now committed (set_leaderState (Some (ls_set_inflight i ls)) r)
      | _ => Return r
      end
  end.

Definition minCheckInterval : Duration := 10 * Millisecond.

(** The next check of the lease. *)
Definition checkInterval (maxDiff : Duration) r : Duration :=
  let d := wrap64 (rc_LeaderLeaseTimeout (r_conf r) - maxDiff) in
  if d <? minCheckInterval then minCheckInterval else d.

(** ** Becoming the leader, and ceasing to be *)

Fixpoint start_streams (now : Time) (peers : list string) r : outcome (Raft L K) :=
  match peers with
  | [] => Return r
  | p :: peers => let! r := startReplication now p r in start_streams now peers r
  end.

Definition newLeaderState (office : Z) : leaderState := mkLeaderState newInflight ∅ [] ∅ false office.

(** [runLeader] up to its loop: the leader state, the streams, the first entry of the term, which is
    the membership, and no more bootstrapping. *)
Definition enter_leader (now : Time) r : outcome (Raft L K) :=
  let! r := start_streams now (r_peers r) (set_leaderState (Some (newLeaderState (getCurrentTerm r))) r) in
  let! data := encodePeers (env_encodePeers env) (r_localAddr r :: r_peers r) in
  let noop := mkLogFuture None (mkLog 0 0 LogAddPeer data "") (newMajorityQuorum 0) in
  let! r := dispatchLogs [noop] r in
  let c := r_conf r in
  if rc_DisableBootstrapAfterElect c && rc_EnableSingleNode c then
    Return (set_rconf
      (mkRaftConfig (rc_HeartbeatTimeout c) (rc_ElectionTimeout c) (rc_CommitTimeout c)
         (rc_MaxAppendEntries c) (rc_ShutdownOnRemove c) (rc_DisableBootstrapAfterElect c)
         (rc_TrailingLogs c) (rc_SnapshotInterval c) (rc_SnapshotThreshold c) false
         (rc_LeaderLeaseTimeout c) (rc_StartAsLeader c)) r)
  else Return r.

(** The deferred clean-up of [runLeader]. *)
Definition leave_leader (now : Time) r : outcome (Raft L K) :=
  let r := setLastContact now r in
  match r_leaderState r with
  | None => Panic "nil pointer dereference"
  | Some ls =>
      let! (cancelled, _) := Cancel ErrLeadershipLost (ls_inflight ls) in
      let r := foldl (fun r p => respond (lf_errCh p.1) (Some p.2) r) r cancelled in
      let r := foldl (fun r id => respond (Some id) (Some ErrLeadershipLost) r) r
                 (elements (ls_notify ls)) in
      let r := set_leaderState None r in
      Return (if decide (r_leader r = r_localAddr r) then set_leader "" r else r)
  end.

(** ** The loops *)

Inductive loop :=
| FollowerLoop
| CandidateLoop (voteCh : bool) (votesNeeded grantedVotes : Z)
| LeaderLoop (stepDown : bool)
| Terminated.

Inductive main_event :=
| EvRPC (cmd : rpc_command)
| EvApply (ready : list logFuture)
| EvVerify
| EvPeers (id : nat) (peers : list string)
| EvHeartbeatTimer
| EvVote (vote : RequestVoteResponse)
| EvElectionTimer
| EvStepDown
| EvCommitCh
| EvLease
| EvShutdown.

(** [run]: the next loop, by the state of the node.  A leader that cannot store the first entry of its
    term does not get into its loop. *)
Definition enter_loop (now : Time) r : outcome (loop * Raft L K) :=
  if r_shutdown r then Return (Terminated, set_leader "" r)
  else match getState r with
       | Follower => Return (FollowerLoop, r)
       | Candidate =>
           let! (_, voteCh, r) := electSelf r in Return (CandidateLoop voteCh (quorumSize r) 0, r)
       | Leader =>
           let! r := enter_leader now r in
           if decide (getState r = Leader) then Return (LeaderLoop false, r)
           else let! r := leave_leader now r in Return (FollowerLoop, r)
       | Shutdown => Return (Terminated, r)
       end.

(** The application is told that this node is not the leader. *)
Definition refuse_verify r : Raft L K :=
  match r_verifyCh r with
  | [] => r
  | id :: q => respond (Some id) (Some ErrNotLeader) (set_verifyCh q r)
  end.

Definition force_peers (id : nat) (peers : list string) r : Raft L K :=
  respond (Some id) None
    (set_peers (ExcludePeer peers (r_localAddr r)) (StaticPeers_SetPeers peers (r_peerStore r)) r).

(** One event of [runFollower]; [None] when the loop returns.  An event whose channel is not among the
    cases of the loop is not taken. *)
Definition follower_step (now : Time) (ev : main_event) r : outcome (option loop * Raft L K) :=
  let stay := Some FollowerLoop in
  match ev with
  | EvRPC cmd => let! (_, r) := processRPC now cmd r in Return (stay, r)
  | EvApply ready => Return (stay, respond_all ready (Some ErrNotLeader) r)
  | EvVerify => Return (stay, refuse_verify r)
  | EvPeers id peers => Return (stay, force_peers id peers r)
  | EvHeartbeatTimer =>
      let r := heartbeatTimeout now r in
      Return (if decide (getState r = Candidate) then None else stay, r)
  | EvShutdown => Return (if r_shutdown r then None else stay, r)
  | _ => Return (stay, r)
  end.

(** One event of [runCandidate], which runs on while the node is a candidate. *)
Definition candidate_step (now : Time) (ev : main_event) (voteCh : bool) (votesNeeded grantedVotes : Z) r
    : outcome (option loop * Raft L K) :=
  let on := fun granted r =>
    if decide (getState r = Candidate) then Some (CandidateLoop voteCh votesNeeded granted) else None in
  match ev with
  | EvRPC cmd => let! (_, r) := processRPC now cmd r in Return (on grantedVotes r, r)
  | EvVote vote =>
      if voteCh then
        let! (granted, r) := candidateVote votesNeeded vote grantedVotes r in Return (on granted r, r)
      else Return (on grantedVotes r, r)
  | EvApply ready => Return (on grantedVotes r, respond_all ready (Some ErrNotLeader) r)
  | EvVerify => Return (on grantedVotes r, refuse_verify r)
  | EvPeers id peers => Return (None, setState Follower (force_peers id peers r))
  | EvElectionTimer => Return (None, r)
  | EvShutdown => Return (if r_shutdown r then None else on grantedVotes r, r)
  | _ => Return (on grantedVotes r, r)
  end.

(** One event of [leaderLoop]; the clean-up is not part of it. *)
Definition leader_step (now : Time) (ev : main_event) (stepDown : bool) r
    : outcome (option bool * Raft L K) :=
  let on := fun sd r => if decide (getState r = Leader) then Some sd else None in
  let same := fun r => Return (on stepDown r, r) in
  match ev with
  | EvRPC cmd => let! (_, r) := processRPC now cmd r in same r
  | EvStepDown =>
      match r_leaderState r with
      | Some ls =>
          if ls_stepDown ls then
            same (setState Follower (set_leaderState (Some (ls_set_stepDown false ls)) r))
          else same r
      | None => same r
      end
  | EvCommitCh => let! r := leader_commit now r in same r
  | EvVerify =>
      match r_verifyCh r with
      | [] => same r
      | id :: q =>
          let r := set_verifyCh q r in
          let! r := leader_verify id (default newVerifyFuture (r_verifyFutures r !! id)) r in same r
      end
  | EvPeers id _ => same (respond (Some id) (Some ErrLeader) r)
  | EvApply ready =>
      match ready with
      | [] => same r
      | _ => let! (sd, r) := leader_apply now ready stepDown r in Return (on sd r, r)
      end
  | EvLease => let '(_, r) := checkLeaderLease now r in same r
  | EvShutdown => Return (if r_shutdown r then None else on stepDown r, r)
  | _ => same r
  end.

(** One event of the main goroutine. *)
Definition main_step (now : Time) (ev : main_event) (l : loop) r : outcome (loop * Raft L K) :=
  match l with
  | FollowerLoop =>
      let! (l, r) := follower_step now ev r in
      match l with Some l => Return (l, r) | None => enter_loop now r end
  | CandidateLoop voteCh votesNeeded granted =>
      let! (l, r) := candidate_step now ev voteCh votesNeeded granted r in
      match l with Some l => Return (l, r) | None => enter_loop now r end
  | LeaderLoop stepDown =>
      let! (l, r) := leader_step now ev stepDown r in
      match l with
      | Some sd => Return (LeaderLoop sd, r)
      | None => let! r := leave_leader now r in enter_loop now r
      end
  | Terminated => Return (Terminated, r)
  end.
End Loops.

(** ** Where the futures are *)

(** A future that has been handed to the node is answered, or it waits: in the tracker of the leader,
    among the confirmations a leader waits for, on the way to the state machine, or in the channel of
    verify futures. *)
Section Futures.
Context {L K : Type}.
Implicit Types (r : Raft L K).

Definition lead r : option (inflight * gset nat) :=
  (fun ls => (ls_inflight ls, ls_notify ls)) <$> r_leaderState r.

Definition inflight_ids (i : inflight) : list nat :=
  omap lf_errCh (if_committed i ++ (map_to_list (if_operations i)).*2)%list.
Definition lead_ids (l : option (inflight * gset nat)) : list nat :=
  match l with None => [] | Some (i, n) => (inflight_ids i ++ elements n)%list end.
Definition fsm_ids (q : list commitTuple) : list nat := omap (fun t => ct_future t ≫= lf_errCh) q.

Definition waiting (id : nat) r : Prop :=
  id ∈ lead_ids (lead r) \/ id ∈ fsm_ids (r_fsmCommitCh r) \/ id ∈ r_verifyCh r.
Definition answered (id : nat) r : Prop := id ∈ (r_responses r).*1.

(** No future disappears. *)
Definition keeps r r' : Prop :=
  forall id, answered id r \/ waiting id r -> answered id r' \/ waiting id r'.

(** What the futures depend on, and what the numbering of entries depends on. *)
Definition sides r := (lead r, r_fsmCommitCh r, r_verifyCh r, r_responses r).
Definition marks r := (getLastIndex (r_raftState r), rs_lastApplied (r_raftState r)).

Lemma keeps_refl r : keeps r r.
Proof. by intros id. Qed.

Lemma keeps_trans r1 r2 r3 : keeps r1 r2 -> keeps r2 r3 -> keeps r1 r3.
Proof. unfold keeps. auto. Qed.

Lemma keeps_sides r r' : sides r' = sides r -> keeps r r'.
Proof. unfold sides, keeps, waiting, answered. intros [= -> -> -> ->]. done. Qed.

Lemma answered_respond id e r : answered id (respond (Some id) e r).
Proof.
  unfold respond, answered. case_decide; [done|]. simpl. rewrite fmap_app. set_solver.
Qed.

Lemma keeps_respond ch e r : keeps r (respond ch e r).
Proof.
  intros id. unfold respond. destruct ch as [c|]; [|done]. case_decide; [done|].
  unfold answered, waiting. simpl. rewrite fmap_app, elem_of_app. tauto.
Qed.

Lemma respond_core ch e r : lead (respond ch e r) = lead r /\ marks (respond ch e r) = marks r /\
  getState (respond ch e r) = getState r /\ r_raftState (respond ch e r) = r_raftState r.
Proof. destruct (respond_frame ch e r) as [q ->]. done. Qed.

Lemma keeps_foldl {A} (f : Raft L K -> A -> Raft L K) xs : (forall r x, keeps r (f r x)) ->
  forall r, keeps r (foldl f r xs).
Proof.
  intros Hf. induction xs as [|x xs IH]; intros r; simpl; [apply keeps_refl|]. eapply keeps_trans; eauto.
Qed.

(** Answering a list of futures answers each of them, and nothing else changes. *)
Lemma respond_list {A} (ch : A -> option nat) (e : A -> option error) xs : forall r,
  let r' := foldl (fun r x => respond (ch x) (e x) r) r xs in
  keeps r r' /\ (forall x id, x ∈ xs -> ch x = Some id -> answered id r') /\
  lead r' = lead r /\ marks r' = marks r /\ r_raftState r' = r_raftState r /\
  r_fsmCommitCh r' = r_fsmCommitCh r /\ r_verifyCh r' = r_verifyCh r /\ r_shutdown r' = r_shutdown r /\
  (forall id, answered id r -> answered id r').
Proof.
  induction xs as [|x xs IH]; intros r; simpl.
  { split_and!; try done; [apply keeps_refl|]. intros x id Hx. by apply elem_of_nil in Hx. }
  specialize (IH (respond (ch x) (e x) r)). simpl in IH.
  destruct IH as (Hk & Ha & Hl & Hm & Hs & Hf & Hv & Hsd & Han).
  destruct (respond_core (ch x) (e x) r) as (Hl0 & Hm0 & _ & Hs0).
  destruct (respond_frame (ch x) (e x) r) as [q Hq].
  assert (Han0 : forall id, answered id r -> answered id (respond (ch x) (e x) r)).
  { intros id Hid. unfold respond. destruct (ch x); [|done]. case_decide; [done|]. unfold answered in *. simpl.
    rewrite fmap_app. set_solver. }
  split_and!; try congruence.
  - eapply keeps_trans; [apply keeps_respond|exact Hk].
  - intros y id [->|Hy]%elem_of_cons Hid; [|by eapply Ha]. apply Han. rewrite Hid. apply answered_respond.
  - rewrite Hf, Hq. done.
  - rewrite Hv, Hq. done.
  - rewrite Hsd, Hq. done.
  - auto.
Qed.
End Futures.

(** ** What the handlers do to the futures *)

Section Handlers.
Context {L K : Type} {HL : LogStore L} {HK : StableStore K}.
Context (env : raftEnv) (now : Time).
Implicit Types (r : Raft L K).

(** A handler that answers nobody, starts nothing, applies nothing, and makes nobody leader. *)
Definition silent r r' : Prop :=
  sides r' = sides r /\ marks r' = marks r /\ (getState r' = Leader -> getState r = Leader).

Lemma silent_refl r : silent r r.
Proof. done. Qed.

Lemma silent_trans r1 r2 r3 : silent r1 r2 -> silent r2 r3 -> silent r1 r3.
Proof. intros (? & ? & ?) (? & ? & ?). split_and!; [congruence|congruence|auto]. Qed.

Lemma silent_lead r r' : silent r r' -> lead r' = lead r.
Proof. by intros [[= ? _ _ _] _]. Qed.

Lemma setCurrentTerm_silent t r r' : setCurrentTerm t r = Return r' -> silent r r'.
Proof.
  unfold setCurrentTerm. destruct (SetUint64 _ _ _) as [[[e|] k]|]; cbn [outcome_bind]; [done| |done].
  by intros [= <-].
Qed.

Lemma persistVote_silent t c r e r' : persistVote t c r = Return (e, r') -> silent r r'.
Proof.
  unfold persistVote. destruct (SetUint64 _ _ _) as [[[e'|] k]|]; cbn [outcome_bind]; [by intros [= _ <-]| |done].
  destruct (stable_Set _ _ _) as [[e' k']|]; cbn [outcome_bind]; [by intros [= _ <-]|done].
Qed.

Lemma adopt_silent (b : bool) t r x r' :
  (if b then let! r1 := setCurrentTerm t (setState Follower r) in Return (t, r1)
   else Return (getCurrentTerm r, r)) = Return (x, r') -> silent r r'.
Proof.
  destruct b; [|by intros [= _ <-]]. destruct (setCurrentTerm _ _) as [r1|] eqn:E; [|done]. intros [= _ <-].
  apply setCurrentTerm_silent in E. eapply silent_trans; [|exact E]. done.
Qed.

Lemma requestVote_silent req r resp r' : requestVote env now req r = Return (resp, r') -> silent r r'.
Proof.
  unfold requestVote. destruct (encodePeers _ _); [|done]. cbn [outcome_bind]. case_if; [by intros [= _ <-]|]. case_if; [by intros [= _ <-]|].
  destruct (if rv_Term req >? getCurrentTerm r then _ else _) as [[t r1]|] eqn:E1; [|done].
  apply adopt_silent in E1. cbn [outcome_bind].
  destruct (GetUint64 _ _) as [[v k]|]; cbn [outcome_bind]; [|done].
  destruct (read_or 0 v); [|intros [= _ <-]; by eapply silent_trans].
  destruct (stable_Get _ _) as [[v' k']|]; cbn [outcome_bind]; [|done].
  destruct (read_or "" v'); [|intros [= _ <-]; by eapply silent_trans].
  case_if; [intros [= _ <-]; by eapply silent_trans|].
  destruct (getLastEntry _) as [li lt]. case_if; [intros [= _ <-]; by eapply silent_trans|].
  case_if; [intros [= _ <-]; by eapply silent_trans|].
  destruct (persistVote _ _ _) as [[e r2]|] eqn:E2; [|done]. cbn [outcome_bind].
  apply persistVote_silent in E2. assert (silent r r2) by (eapply silent_trans; [exact E1|exact E2]).
  by destruct e; intros [= _ <-].
Qed.

Lemma electSelf_silent r req b r' : electSelf r = Return (req, b, r') -> silent r r'.
Proof.
  unfold electSelf. destruct (setCurrentTerm _ r) as [r1|] eqn:E1; [|done]. cbn [outcome_bind].
  apply setCurrentTerm_silent in E1. destruct (getLastEntry _) as [li lt].
  destruct (persistVote _ _ _) as [[e r2]|] eqn:E2; [|done]. cbn [outcome_bind].
  apply persistVote_silent in E2. destruct e; intros [= _ _ <-]; by eapply silent_trans.
Qed.

Lemma candidateVote_sides n v g r g' r' : candidateVote n v g r = Return (g', r') ->
  sides r' = sides r /\ marks r' = marks r.
Proof.
  unfold candidateVote. case_if.
  - destruct (setCurrentTerm _ _) as [r1|] eqn:E1; [|done]. cbn [outcome_bind]. intros [= _ <-].
    by apply setCurrentTerm_silent in E1 as (? & ? & _).
  - case_if; by intros [= _ <-].
Qed.

Lemma heartbeatTimeout_silent r : silent r (heartbeatTimeout now r).
Proof. unfold heartbeatTimeout. by repeat case_if. Qed.

Lemma compactLogs_silent idx r e r' : compactLogs idx r = Return (e, r') -> silent r r'.
Proof.
  unfold compactLogs. destruct (FirstIndex _) as [[[m|?] s]|]; cbn [outcome_bind]; [|by intros [= _ <-]|done].
  case_if; [by intros [= _ <-]|].
  destruct (DeleteRange _ _ _) as [[[e'|] s']|]; cbn [outcome_bind]; [by intros [= _ <-]..|done].
Qed.

(** ** Streams *)

Lemma startReplication_lead p r r' : startReplication now p r = Return r' ->
  lead r' = lead r /\ sides r' = sides r /\ marks r' = marks r /\ r_raftState r' = r_raftState r /\
  r_peers r' = r_peers r.
Proof.
  unfold startReplication. destruct (r_leaderState r) as [ls|] eqn:E; [|done]. intros [= <-].
  unfold sides, lead. simpl. by rewrite E.
Qed.

Lemma start_missing_silent ps : forall r r', start_missing now ps r = Return r' -> silent r r'.
Proof.
  induction ps as [|p ps IH]; intros r r'; cbn [start_missing]; [by intros [= <-]|].
  destruct (replicating p r); [apply IH|].
  destruct (startReplication now p r) as [r1|] eqn:E; [|done]. cbn [outcome_bind]. intros E2%IH.
  apply startReplication_lead in E as (_ & ? & ? & Hst & _). eapply silent_trans; [|exact E2].
  split_and!; [done..|]. unfold getState. by rewrite Hst.
Qed.

Lemma start_streams_silent ps : forall r r', start_streams now ps r = Return r' ->
  silent r r' /\ r_raftState r' = r_raftState r.
Proof.
  induction ps as [|p ps IH]; intros r r'; cbn [start_streams]; [by intros [= <-]|].
  destruct (startReplication now p r) as [r1|] eqn:E; [|done]. cbn [outcome_bind]. intros [Hs Hr]%IH.
  apply startReplication_lead in E as (_ & ? & ? & Hst & _). split; [|congruence].
  eapply silent_trans; [|exact Hs]. split_and!; [done..|]. unfold getState. by rewrite Hst.
Qed.

Lemma stop_removed_silent idx r : silent r (stop_removed idx r).
Proof.
  unfold stop_removed. destruct (r_leaderState r) as [ls|] eqn:E; [|done].
  split; [|done]. unfold sides, lead. simpl. by rewrite E.
Qed.

Lemma Shutdown_silent r : silent r (Raft_Shutdown r).
Proof. unfold Raft_Shutdown. by case_if. Qed.

Lemma applyPeerSet_silent l pre ps r b r' : applyPeerSet now l pre ps r = Return (b, r') -> silent r r'.
Proof.
  unfold applyPeerSet. set (rs := negb _ && _). set (r0 := if rs then _ else _).
  assert (Hr0 : silent r r0) by (unfold r0; by repeat case_if). clearbody r0. clearbody rs.
  destruct (if bool_decide (getState r0 = Leader) then _ else _) as [r1|] eqn:E1; [|done]. cbn [outcome_bind].
  assert (Hr1 : silent r0 r1).
  { revert E1. case_if; [apply start_missing_silent|]. by intros [= <-]. }
  set (r2 := if bool_decide (getState r1 = Leader) && negb pre then _ else _).
  assert (Hr2 : silent r1 r2) by (unfold r2; case_if; [apply stop_removed_silent|done]). clearbody r2.
  intros [= _ <-]. apply (silent_trans _ r2).
  { eapply silent_trans; [exact Hr0|]. by eapply silent_trans. }
  repeat case_if; done || apply Shutdown_silent.
Qed.

(** ** Applied entries *)

(** The entry is handed over, and its future with it. *)
Lemma processLog_keeps l f pre r b r' :
  processLog env now l f pre r = Return (b, r') ->
  keeps r r' /\ lead r' = lead r /\ marks r' = marks r /\ r_verifyCh r' = r_verifyCh r /\
  (forall g id, f = Some g -> pre = false -> lf_errCh g = Some id -> answered id r' \/ waiting id r').
Proof.
  assert (Hfin : forall r0, silent r r0 -> let r1 := match f with
    | Some f => if pre then r0 else respond (lf_errCh f) None r0 | None => r0 end in
    keeps r r1 /\ lead r1 = lead r /\ marks r1 = marks r /\ r_verifyCh r1 = r_verifyCh r /\
    (forall g id, f = Some g -> pre = false -> lf_errCh g = Some id -> answered id r1 \/ waiting id r1)).
  { intros r0 (Hsd & Hmk & _). cbn zeta. pose proof Hsd as [= Hl _ Hv _]. destruct f as [g|].
    2: { split_and!; try done. by apply keeps_sides. }
    destruct pre; [split_and!; try done; by apply keeps_sides|].
    destruct (respond_core (lf_errCh g) None r0) as (Hl1 & Hm1 & _).
    destruct (respond_frame (lf_errCh g) None r0) as [q Hq]. split_and!; try congruence.
    - eapply keeps_trans; [by apply keeps_sides|apply keeps_respond].
    - by rewrite Hq.
    - intros g0 id [= <-] _ ->. left. apply answered_respond. }
  unfold processLog. intros E.
  assert (Hcmd : log_Type l = LogBarrier \/ log_Type l = LogCommand ->
    (if r_shutdown r && env_shutdownFirst env l then
       match f with Some f => Return (false, respond (lf_errCh f) (Some ErrRaftShutdown) r) | None => Return (false, r) end
     else Return (false, set_fsmCommitCh (r_fsmCommitCh r ++ [mkCommitTuple l f])%list r)) = Return (b, r') ->
    keeps r r' /\ lead r' = lead r /\ marks r' = marks r /\ r_verifyCh r' = r_verifyCh r /\
    (forall g id, f = Some g -> pre = false -> lf_errCh g = Some id -> answered id r' \/ waiting id r')).
  { intros _. case_if.
    - destruct f as [g|]; intros [= _ <-]; [|split_and!; try done; apply keeps_refl].
      destruct (respond_core (lf_errCh g) (Some ErrRaftShutdown) r) as (Hl1 & Hm1 & _).
      destruct (respond_frame (lf_errCh g) (Some ErrRaftShutdown) r) as [q Hq].
      split_and!; [apply keeps_respond|done|done|by rewrite Hq|].
      intros g0 id [= <-] _ ->. left. apply answered_respond.
    - intros [= _ <-]. unfold keeps, waiting, answered, fsm_ids. simpl. split_and!; try done.
      + intros id. rewrite omap_app, elem_of_app. tauto.
      + intros g id -> _ Hg. right. right. left. rewrite omap_app, elem_of_app. right. simpl. rewrite Hg. set_solver. }
  destruct (log_Type l); try (by apply Hcmd; auto);
    try (injection E as <- <-; by apply Hfin).
  all: destruct (decodePeers _ _) as [ps|]; [|done]; cbn [outcome_bind] in E;
    destruct (applyPeerSet _ _ _ _ _) as [[b' r1]|] eqn:E1; [|done]; injection E as <- <-;
    apply Hfin; by eapply applyPeerSet_silent.
Qed.

Lemma process_stored_keeps idx r r' : process_stored env now idx r = Return r' ->
  keeps r r' /\ lead r' = lead r /\ marks r' = marks r /\ r_verifyCh r' = r_verifyCh r.
Proof.
  unfold process_stored. destruct (GetLog _ _) as [[[l|e] logs]|]; cbn [outcome_bind]; [|done..].
  destruct (processLog _ _ _ _ _ _) as [[b r1]|] eqn:E; [|done]. intros [= <-].
  apply processLog_keeps in E as (Hk & Hl & Hm & Hv & _). split_and!; try done.
Qed.

Lemma process_range_keeps n : forall idx f r r',
  process_range env now n idx f r = Return r' ->
  keeps r r' /\ lead r' = lead r /\ r_verifyCh r' = r_verifyCh r /\
  getLastIndex (r_raftState r') = getLastIndex (r_raftState r) /\
  rs_lastApplied (r_raftState r') = (if decide (n = O) then rs_lastApplied (r_raftState r) else idx + Z.of_nat n - 1) /\
  (forall g id, f = Some g -> idx <= log_Index (lf_log g) < idx + Z.of_nat n -> lf_errCh g = Some id ->
     answered id r' \/ waiting id r').
Proof.
  induction n as [|n IH]; intros idx f r r'; cbn [process_range].
  { intros [= <-]. split_and!; try done; [apply keeps_refl|]. intros. lia. }
  destruct (process_one _ _ _ _ _) as [r1|] eqn:E1; [|done]. cbn [outcome_bind]. intros E2.
  assert (Hone : keeps r r1 /\ lead r1 = lead r /\ marks r1 = marks r /\ r_verifyCh r1 = r_verifyCh r /\
    (forall g id, f = Some g -> log_Index (lf_log g) = idx -> lf_errCh g = Some id -> answered id r1 \/ waiting id r1)).
  { revert E1. unfold process_one. destruct f as [g|].
    2: { intros E%process_stored_keeps. split_and!; try apply E. done. }
    destruct (Z.eqb_spec (log_Index (lf_log g)) idx) as [Hi|Hi].
    - destruct (processLog _ _ _ _ _ _) as [[b r2]|] eqn:E; [|done]. intros [= <-].
      apply processLog_keeps in E as (Hk & Hl & Hm & Hv & Hf). split_and!; try done.
      intros g0 id [= <-] _. by apply (Hf g id).
    - intros E%process_stored_keeps. split_and!; try apply E. intros g0 id [= <-]. done. }
  destruct Hone as (Hk1 & Hl1 & Hm1 & Hv1 & Hf1). injection Hm1 as Hli1 Hla1.
  apply IH in E2 as (Hk2 & Hl2 & Hv2 & Hli2 & Hla2 & Hf2).
  assert (Hk12 : keeps r1 r') by (eapply keeps_trans; [|exact Hk2]; by apply keeps_sides).
  split_and!.
  - by eapply keeps_trans.
  - rewrite Hl2. exact Hl1.
  - rewrite Hv2. exact Hv1.
  - rewrite Hli2. exact Hli1.
  - rewrite Hla2. rewrite (decide_False (P := S n = O)) by done. case_decide; simpl; lia.
  - intros g id Hg Hr Hid. destruct (decide (log_Index (lf_log g) = idx)) as [He|Hne].
    + apply Hk12. by apply (Hf1 g).
    + apply (Hf2 g); [done|lia|done].
Qed.

(** [processLogs] on an entry that is not applied yet. *)
Lemma processLogs_keeps idx f r r' :
  processLogs env now idx f r = Return r' ->
  keeps r r' /\ lead r' = lead r /\ r_verifyCh r' = r_verifyCh r /\
  getLastIndex (r_raftState r') = getLastIndex (r_raftState r) /\
  rs_lastApplied (r_raftState r') = Z.max (rs_lastApplied (r_raftState r)) idx /\
  (forall g id, f = Some g -> log_Index (lf_log g) = idx -> rs_lastApplied (r_raftState r) < idx ->
     lf_errCh g = Some id -> answered id r' \/ waiting id r').
Proof.
  unfold processLogs. destruct (Z.leb_spec idx (rs_lastApplied (r_raftState r))).
  { intros [= <-]. split_and!; try done; [apply keeps_refl|lia|intros; lia]. }
  intros (Hk & Hl & Hv & Hli & Hla & Hf)%process_range_keeps. split_and!; try done.
  - rewrite Hla, decide_False by lia. lia.
  - intros g id Hg Hi _ Hid. apply (Hf g); [done|lia|done].
Qed.
End Handlers.

(** ** The tracker of a leader *)

(** The tracker follows the log: it has been given the entries of this term, numbered up to the last
    index; those it has handed to the main loop, and no more, are applied. *)
Definition leader_inv {L K} (r : Raft L K) : Prop :=
  match lead r with
  | None => True
  | Some (i, _) => exists base spec taken,
      0 < base /\ base + Z.of_nat (length spec) < 2 ^ 64 /\ inflight_sim base spec taken i /\
      numbered base spec /\ getLastIndex (r_raftState r) = base + Z.of_nat (length spec) - 1 /\
      rs_lastApplied (r_raftState r) < base + Z.of_nat (length taken)
  end.

Lemma leader_inv_same {L K} (r r' : Raft L K) :
  lead r' = lead r -> marks r' = marks r -> leader_inv r -> leader_inv r'.
Proof. unfold leader_inv. intros -> [= -> ->]. done. Qed.

(** The futures in the tracker are those of the entries that have not been handed out. *)
Lemma sim_ids base spec taken i id :
  inflight_sim base spec taken i ->
  id ∈ inflight_ids i <-> id ∈ omap lf_errCh (drop (length taken) spec).
Proof.
  intros (D & p & c & b & -> & HD & Hp & ->). unfold inflight_ids, inflight_rep. cbn [if_committed if_operations].
  pose proof (Forall2_length _ _ _ HD) as Hlen. rewrite length_app in Hlen.
  rewrite drop_app_le by lia. rewrite !omap_app, !elem_of_app.
  assert (Hc : omap lf_errCh c = omap lf_errCh (drop (length taken) D)).
  { clear Hlen. apply (Forall2_drop _ _ _ (length taken)) in HD. rewrite drop_app_length in HD.
    induction HD as [|x y l k [He _] _ IH]; [done|]. cbn. rewrite He. by destruct (lf_errCh y); [f_equal|]; exact IH. }
  rewrite Hc. apply or_iff_compat_l. rewrite !list_elem_of_omap.
  split; intros (f & Hf & Hid); exists f; (split; [|done]).
  - apply list_elem_of_fmap in Hf as ([k x] & -> & Hx). apply elem_of_map_to_list in Hx.
    apply lookup_map_seqZ_Some in Hx as [_ Hx]. by eapply list_elem_of_lookup_2.
  - apply list_elem_of_lookup in Hf as [k Hk]. apply list_elem_of_fmap.
    exists (base + Z.of_nat (length D) + Z.of_nat k, f). split; [done|]. apply elem_of_map_to_list.
    apply lookup_map_seqZ_Some. split; [lia|]. rewrite <- Hk. f_equal. lia.
Qed.

(** What the main loop collects continues what it has collected. *)
Lemma sim_committed base spec taken i :
  inflight_sim base spec taken i -> numbered base spec ->
  (fun f => log_Index (lf_log f)) <$> if_committed i =
    seqZ (base + Z.of_nat (length taken)) (Z.of_nat (length (if_committed i))).
Proof.
  intros (D & p & c & b & -> & HD & Hp & ->) Hn. apply numbered_app in Hn as [Hn _]. simpl. unfold numbered in Hn.
  assert (Hmap : (fun f => log_Index (lf_log f)) <$> (taken ++ c)%list = (fun f => log_Index (lf_log f)) <$> D).
  { clear -HD. induction HD as [|x y l k (_ & He & _) _ IH]; [done|]. rewrite !fmap_cons, IH. by rewrite He. }
  rewrite Hn, <- (Forall2_length _ _ _ HD), length_app, Nat2Z.inj_add, seqZ_app, fmap_app in Hmap by lia.
  apply app_inj_1 in Hmap; [tauto|]. rewrite length_fmap, length_seqZ. lia.
Qed.

Section Dispatch.
Context {L K : Type} {HL : LogStore L} {HK : StableStore K}.
Context (env : raftEnv) (now : Time).
Implicit Types (r : Raft L K).

Lemma number_logs_ids last t n (fs : list logFuture) : lf_errCh <$> number_logs last t n fs = lf_errCh <$> fs.
Proof.
  unfold number_logs. apply list_eq. intros i. rewrite !list_lookup_fmap, list_lookup_imap.
  by destruct (fs !! i).
Qed.

Lemma respond_all_spec fs e r :
  let r' := respond_all fs e r in
  keeps r r' /\ (forall f id, f ∈ fs -> lf_errCh f = Some id -> answered id r') /\
  lead r' = lead r /\ marks r' = marks r /\ r_raftState r' = r_raftState r /\ r_verifyCh r' = r_verifyCh r.
Proof.
  destruct (respond_list lf_errCh (fun _ => e) fs r) as (? & ? & ? & ? & ? & ? & ? & ? & ?). by split_and!.
Qed.

(** Dispatched futures are in the tracker, or answered by a leader that steps down. *)
Lemma dispatchLogs_keeps fs r r' :
  leader_inv r -> is_Some (lead r) ->
  getLastIndex (r_raftState r) + Z.of_nat (length fs) + 1 < 2 ^ 64 ->
  dispatchLogs fs r = Return r' ->
  keeps r r' /\ (forall f id, f ∈ fs -> lf_errCh f = Some id -> answered id r' \/ waiting id r') /\
  r_verifyCh r' = r_verifyCh r /\ is_Some (lead r') /\
  (getState r' = Follower \/ (getState r' = getState r /\ leader_inv r')).
Proof.
  intros Hinv [[i nt] Hlead] Hfit. unfold dispatchLogs.
  set (fs' := number_logs _ _ _ fs).
  assert (Hids : forall f id, f ∈ fs -> lf_errCh f = Some id -> exists f', f' ∈ fs' /\ lf_errCh f' = Some id).
  { intros f id Hf Hid. assert (Hin : Some id ∈ lf_errCh <$> fs') by (unfold fs'; rewrite number_logs_ids; apply list_elem_of_fmap; eauto).
    apply list_elem_of_fmap in Hin as (f' & He & Hf'). eauto. }
  destruct (StoreLogs _ _) as [[err logs]|]; cbn [outcome_bind]; [|done].
  destruct err as [e|].
  - intros [= <-]. destruct (respond_all_spec fs' (Some e) (set_rlogs logs r)) as (Hk & Ha & Hl & Hm & Hs & Hv).
    split_and!; [| |exact Hv| |by left].
    + eapply keeps_trans; [|by apply keeps_sides]. eapply keeps_trans; [|exact Hk]. by apply keeps_sides.
    + intros f id Hf Hid. left. destruct (Hids f id Hf Hid) as (f' & Hf' & Hid'). exact (Ha f' id Hf' Hid').
    + change (is_Some (lead (respond_all fs' (Some e) (set_rlogs logs r)))). rewrite Hl. unfold lead in *. simpl. by rewrite Hlead.
  - cbn [set_rlogs r_leaderState]. unfold lead in Hlead.
    destruct (r_leaderState r) as [ls|] eqn:Els; [|done]. injection Hlead as <- <-.
    unfold leader_inv, lead in Hinv. rewrite Els in Hinv. simpl in Hinv.
    destruct Hinv as (base & spec & taken & Hb & Hsz & Hsim & Hnum & Hlast & Happ).
    set (last := getLastIndex (r_raftState r)) in *.
    destruct (number_logs_numbered last (getCurrentTerm r) (Z.of_nat (length (r_peers r)) + 1) fs)
      as (Hn' & Hq' & Hlen'); [lia|lia|lia|]. fold fs' in Hn', Hq', Hlen'.
    replace (last + 1) with (base + Z.of_nat (length spec)) in Hn' by lia.
    destruct (sim_StartAll base Hb fs' spec taken (ls_inflight ls)) as (i' & E & Hsim'); [done|done|lia|done|].
    rewrite E. cbn [outcome_bind]. intros [= <-].
    assert (Hwait : forall id, id ∈ omap lf_errCh (drop (length taken) (spec ++ (vote <$> fs'))%list) ->
      waiting id (upd_raftState (rs_setLastLog (wrapu64 (last + Z.of_nat (length fs))) (getCurrentTerm r))
        (set_leaderState (Some (trigger_all (ls_set_inflight i' ls))) (set_rlogs logs r)))).
    { intros id Hid. left. simpl. apply elem_of_app. left. by apply (sim_ids base (spec ++ (vote <$> fs'))%list taken). }
    assert (Htk : (length taken <= length spec)%nat).
    { destruct Hsim as (D & p & c & b & -> & HD & _). apply Forall2_length in HD. rewrite !length_app in *. lia. }
    rewrite drop_app_le in Hwait by lia. rewrite omap_app in Hwait.
    split_and!; [| |done|by eexists|].
    + intros id [Ha|[Hw|Hw]]; [by left| |right; right; exact Hw]. right.
      unfold lead in Hw. rewrite Els in Hw. simpl in Hw. apply elem_of_app in Hw as [Hw|Hw].
      * apply Hwait. apply elem_of_app. left. by apply (sim_ids base spec taken (ls_inflight ls)).
      * left. simpl. apply elem_of_app. by right.
    + intros f id Hf Hid. right. apply Hwait, elem_of_app. right. destruct (Hids f id Hf Hid) as (f' & Hf' & Hid').
      apply list_elem_of_omap. exists (vote f'). split; [|done]. apply list_elem_of_fmap. by exists f'.
    + right. split; [done|]. unfold leader_inv. simpl.
      exists base, (spec ++ (vote <$> fs'))%list, taken. rewrite length_app, length_fmap, Hlen'.
      rewrite wrapu64_id by (unfold uint64_ok; lia).
      split_and!; [done|lia|done| | |exact Happ].
      * unfold numbered in *. rewrite fmap_app, length_app, Nat2Z.inj_add, seqZ_app, length_fmap by lia.
        f_equal; [done|]. rewrite <- list_fmap_compose. exact Hn'.
      * assert (rs_lastSnapshotIndex (r_raftState r) <= last) by (unfold last, getLastIndex; rewrite umax_spec; lia).
        unfold getLastIndex in *. simpl. rewrite umax_spec in *. lia.
Qed.

Lemma commit_loop_keeps fs : forall start r r',
  (fun f => log_Index (lf_log f)) <$> fs = seqZ start (Z.of_nat (length fs)) ->
  rs_lastApplied (r_raftState r) < start ->
  commit_loop env now fs r = Return r' ->
  keeps r r' /\ lead r' = lead r /\ getLastIndex (r_raftState r') = getLastIndex (r_raftState r) /\
  rs_lastApplied (r_raftState r') < start + Z.of_nat (length fs) /\
  (forall f id, f ∈ fs -> lf_errCh f = Some id -> answered id r' \/ waiting id r').
Proof.
  induction fs as [|f fs IH]; intros start r r' Hn Hla; cbn [commit_loop].
  { intros [= <-]. split_and!; try done; [apply keeps_refl|simpl; lia|]. intros f id Hf. by apply elem_of_nil in Hf. }
  simpl length in Hn. rewrite fmap_cons, Nat2Z.inj_succ, seqZ_cons in Hn by lia. injection Hn as Hi Hn.
  rewrite Z.pred_succ in Hn.
  destruct (processLogs _ _ _ _ _) as [r1|] eqn:E1; [|done]. cbn [outcome_bind].
  apply processLogs_keeps in E1 as (Hk1 & Hl1 & Hv1 & Hli1 & Hla1 & Hf1). simpl in Hla1, Hli1, Hf1.
  intros E2. apply (IH (Z.succ start)) in E2 as (Hk2 & Hl2 & Hli2 & Hla2 & Hf2); [|done|lia].
  split_and!.
  - eapply keeps_trans; [|exact Hk2]. eapply keeps_trans; [|exact Hk1]. by apply keeps_sides.
  - rewrite Hl2. exact Hl1.
  - rewrite Hli2. exact Hli1.
  - simpl. lia.
  - intros g id [->|Hg]%elem_of_cons Hid; [|by apply (Hf2 g)]. apply Hk2, (Hf1 f); [done|done|lia|done].
Qed.

Lemma leader_commit_keeps r r' :
  leader_inv r -> leader_commit env now r = Return r' ->
  keeps r r' /\ leader_inv r' /\ (is_Some (lead r) -> is_Some (lead r')).
Proof.
  intros Hinv. unfold leader_commit.
  destruct (r_leaderState r) as [ls|] eqn:Els; [|intros [= <-]; split_and!; auto using keeps_refl].
  destruct (if_commitCh (ls_inflight ls)) as [[]|]; try (intros [= <-]; split_and!; auto using keeps_refl; fail).
  unfold leader_inv, lead in Hinv. rewrite Els in Hinv. simpl in Hinv.
  destruct Hinv as (base & spec & taken & Hb & Hsz & Hsim & Hnum & Hlast & Happ). cbn [Committed set_commitCh if_committed].
  intros E. pose proof Hsim as (D & p & c & b & Hspec & HD & Hp & Ei).
  pose proof (sim_committed _ _ _ _ Hsim Hnum) as Hcs.
  apply (commit_loop_keeps _ _ _ _ Hcs) in E as (Hk & Hl & Hli & Hla & Hf); [|exact Happ]. split_and!.
  - intros id [Ha|[Hw|Hw]].
    + apply Hk. by left.
    + unfold lead in Hw. rewrite Els in Hw. simpl in Hw. apply elem_of_app in Hw as [Hw|Hw].
      * unfold inflight_ids in Hw. rewrite omap_app, elem_of_app in Hw. destruct Hw as [Hw|Hw].
        -- apply list_elem_of_omap in Hw as (f & Hin & Hid). by apply (Hf f).
        -- right. left. rewrite Hl. unfold lead. simpl. rewrite !elem_of_app. left. unfold inflight_ids.
           rewrite omap_app, elem_of_app. by right.
      * right. left. rewrite Hl. unfold lead. simpl. rewrite !elem_of_app. by right.
    + apply Hk. right. right. exact Hw.
  - unfold leader_inv. rewrite Hl. unfold lead. simpl. exists base, spec, (taken ++ c)%list.
    rewrite Ei in *. cbn [if_committed inflight_rep] in *. split_and!; [done|done| |done|rewrite Hli; exact Hlast|].
    + exists D, p, [], false. rewrite app_nil_r. done.
    + rewrite length_app. lia.
  - intros _. rewrite Hl. by eexists.
Qed.

(** ** The batch *)

Lemma elem_of_swap_remove {A} i (l : list A) f x :
  l !! i = Some f -> x ∈ l -> x = f \/ x ∈ swap_remove i l.
Proof.
  intros Hi Hx. unfold swap_remove. destruct (last l) as [y|] eqn:Ey.
  2: { apply last_None in Ey. subst. by apply elem_of_nil in Hx. }
  apply list_elem_of_lookup in Hx as [j Hj]. destruct (decide (j = i)) as [->|Hne]; [left; congruence|]. right.
  pose proof (lookup_lt_Some _ _ _ Hj). pose proof (lookup_lt_Some _ _ _ Hi). rewrite last_lookup in Ey.
  destruct (decide (j = Init.Nat.pred (length l))) as [->|Hj'].
  - apply (list_elem_of_lookup_2 _ i). rewrite lookup_take_lt by lia. rewrite list_lookup_insert_eq by lia. congruence.
  - apply (list_elem_of_lookup_2 _ j). rewrite lookup_take_lt by lia. by rewrite list_lookup_insert_ne.
Qed.

Lemma length_swap_remove {A} i (l : list A) x : l !! i = Some x -> length (swap_remove i l) = (length l - 1)%nat.
Proof.
  intros Hi. unfold swap_remove. destruct (last l) eqn:E.
  - rewrite length_take, length_insert. lia.
  - apply last_None in E. by subst.
Qed.

Lemma preparePeerChange_keeps f r p r' :
  preparePeerChange env f r = Return (p, r') ->
  keeps r r' /\ lead r' = lead r /\ marks r' = marks r /\ r_verifyCh r' = r_verifyCh r /\
  match p with
  | Some f' => lf_errCh f' = lf_errCh f
  | None => forall id, lf_errCh f = Some id -> answered id r'
  end.
Proof.
  unfold preparePeerChange. destruct (changedPeers _ _) as [ps|e].
  - destruct (encodePeers _ _) as [data|]; [|done]. cbn [outcome_bind]. intros [= <- <-].
    split_and!; try done. apply keeps_refl.
  - intros [= <- <-]. destruct (respond_core (lf_errCh f) (Some e) r) as (? & ? & _).
    destruct (respond_frame (lf_errCh f) (Some e) r) as [q Hq].
    split_and!; [apply keeps_respond|done|done|by rewrite Hq|]. intros id ->. apply answered_respond.
Qed.

(** Every future of the batch is answered or still in it; the batch does not grow. *)
Lemma peer_changes_keeps fuel : forall i ready sd r ready' sd' r',
  peer_changes env now fuel i ready sd r = Return (ready', sd', r') ->
  keeps r r' /\ lead r' = lead r /\ marks r' = marks r /\ r_verifyCh r' = r_verifyCh r /\
  (length ready' <= length ready)%nat /\
  (forall f id, f ∈ ready -> lf_errCh f = Some id ->
     (answered id r' \/ waiting id r') \/ exists f', f' ∈ ready' /\ lf_errCh f' = Some id).
Proof.
  induction fuel as [|fuel IH]; intros i ready sd r ready' sd' r'; cbn [peer_changes].
  { intros [= <- <- <-]. split_and!; try done; [apply keeps_refl|eauto]. }
  destruct (ready !! i) as [f|] eqn:Hi; [|intros [= <- <- <-]; split_and!; try done; [apply keeps_refl|eauto]].
  pose proof (length_swap_remove i ready f Hi) as Hlen.
  assert (Hdrop : forall r1, keeps r r1 -> lead r1 = lead r -> marks r1 = marks r -> r_verifyCh r1 = r_verifyCh r ->
    (forall id, lf_errCh f = Some id -> answered id r1) ->
    peer_changes env now fuel i (swap_remove i ready) sd r1 = Return (ready', sd', r') ->
    keeps r r' /\ lead r' = lead r /\ marks r' = marks r /\ r_verifyCh r' = r_verifyCh r /\
    (length ready' <= length ready)%nat /\
    (forall f id, f ∈ ready -> lf_errCh f = Some id ->
       (answered id r' \/ waiting id r') \/ exists f', f' ∈ ready' /\ lf_errCh f' = Some id)).
  { intros r1 Hk Hl Hm Hv Ha (Hk2 & Hl2 & Hm2 & Hv2 & Hlen2 & Hf2)%IH. split_and!; try congruence; [by eapply keeps_trans|lia|].
    intros g id Hg Hid. destruct (elem_of_swap_remove i ready f g Hi Hg) as [->|Hg'].
    - left. apply Hk2. left. by apply Ha.
    - by apply (Hf2 g). }
  destruct sd.
  { destruct (respond_core (lf_errCh f) (Some ErrNotLeader) r) as (? & ? & _).
    destruct (respond_frame (lf_errCh f) (Some ErrNotLeader) r) as [q Hq].
    apply Hdrop; [apply keeps_respond|done|done|by rewrite Hq|]. intros id ->. apply answered_respond. }
  assert (Hpeer : (let! (prepared, r0) := preparePeerChange env f r in
      match prepared with
      | None => peer_changes env now fuel i (swap_remove i ready) false r0
      | Some f => let! (ok, r1) := processLog env now (lf_log f) None true r0 in
                  peer_changes env now fuel (S i) (<[i:=f]> ready) ok r1
      end) = Return (ready', sd', r') ->
    keeps r r' /\ lead r' = lead r /\ marks r' = marks r /\ r_verifyCh r' = r_verifyCh r /\
    (length ready' <= length ready)%nat /\
    (forall f id, f ∈ ready -> lf_errCh f = Some id ->
       (answered id r' \/ waiting id r') \/ exists f', f' ∈ ready' /\ lf_errCh f' = Some id)).
  { destruct (preparePeerChange env f r) as [[p r0]|] eqn:Ep; [|done]. cbn [outcome_bind].
    apply preparePeerChange_keeps in Ep as (Hk0 & Hl0 & Hm0 & Hv0 & Hp).
    destruct p as [f'|]; [|by apply Hdrop].
    destruct (processLog _ _ _ _ _ _) as [[ok r1]|] eqn:El; [|done]. cbn [outcome_bind].
    apply processLog_keeps in El as (Hk1 & Hl1 & Hm1 & Hv1 & _).
    intros (Hk2 & Hl2 & Hm2 & Hv2 & Hlen2 & Hf2)%IH. rewrite length_insert in Hlen2.
    split_and!; try congruence; [eapply keeps_trans; [exact Hk0|]; by eapply keeps_trans|].
    intros g id Hg Hid. apply list_elem_of_lookup in Hg as [j Hj].
    destruct (decide (j = i)) as [->|Hne].
    - rewrite Hi in Hj. injection Hj as <-. apply (Hf2 f'); [|congruence].
      apply (list_elem_of_lookup_2 _ i). apply list_lookup_insert_eq. by apply lookup_lt_Some in Hi.
    - apply (Hf2 g); [|done]. apply (list_elem_of_lookup_2 _ j). by rewrite list_lookup_insert_ne. }
  destruct (log_Type (lf_log f)); try (exact Hpeer); intros E%IH; exact E.
Qed.

(** The rounds are enough: every future of the batch that is left has been looked at. *)
Lemma peer_changes_all fuel : forall i ready sd r ready' sd' r',
  (length ready - i <= fuel)%nat -> sd = true ->
  peer_changes env now fuel i ready sd r = Return (ready', sd', r') -> length ready' = Nat.min i (length ready).
Proof.
  induction fuel as [|fuel IH]; intros i ready sd r ready' sd' r' Hfuel ->; cbn [peer_changes].
  { intros [= <- <- <-]. lia. }
  destruct (ready !! i) as [f|] eqn:Hi.
  2: { intros [= <- <- <-]. apply lookup_ge_None in Hi. lia. }
  pose proof (lookup_lt_Some _ _ _ Hi). intros E. apply IH in E; rewrite ?(length_swap_remove _ _ _ Hi) in *; [lia|lia|done].
Qed.

(** A batch of a leader is answered or tracked. *)
Lemma leader_apply_keeps ready sd r sd' r' :
  leader_inv r -> is_Some (lead r) -> getLastIndex (r_raftState r) + Z.of_nat (length ready) + 1 < 2 ^ 64 ->
  leader_apply env now ready sd r = Return (sd', r') ->
  keeps r r' /\ (forall f id, f ∈ ready -> lf_errCh f = Some id -> answered id r' \/ waiting id r') /\
  is_Some (lead r') /\ (getState r' = Leader -> leader_inv r').
Proof.
  intros Hinv Hsome Hfit. unfold leader_apply.
  destruct (peer_changes _ _ _ _ _ _ _) as [[[ready1 sd1] r1]|] eqn:E1; [|done]. cbn [outcome_bind].
  apply peer_changes_keeps in E1 as (Hk1 & Hl1 & Hm1 & Hv1 & Hlen1 & Hf1).
  assert (Hinv1 : leader_inv r1) by by eapply leader_inv_same.
  destruct ready1 as [|f0 fs].
  - intros [= <- <-]. split_and!; [done| |by rewrite Hl1|done]. intros f id Hf Hid.
    destruct (Hf1 f id Hf Hid) as [?|(f' & Hf' & _)]; [done|by apply elem_of_nil in Hf'].
  - destruct (dispatchLogs _ r1) as [r2|] eqn:E2; [|done]. cbn [outcome_bind]. intros [= <- <-].
    apply dispatchLogs_keeps in E2 as (Hk2 & Hf2 & Hv2 & Hl2 & Hst2); [|done|by rewrite Hl1|].
    2: { injection Hm1 as -> _. lia. }
    split_and!; [by eapply keeps_trans| |done|].
    + intros f id Hf Hid. destruct (Hf1 f id Hf Hid) as [?|(f' & Hf' & Hid')]; [by apply Hk2|by apply (Hf2 f')].
    + destruct Hst2 as [->|[_ ?]]; done.
Qed.
End Dispatch.

(** ** RPCs *)

Section Rpc.
Context {L K : Type} {HL : LogStore L} {HK : StableStore K}.
Context (env : raftEnv) (now : Time).
Implicit Types (r : Raft L K).

Lemma checkPrevious_sides a r b r' : checkPrevious a r = Return (b, r') -> sides r' = sides r.
Proof.
  unfold checkPrevious. destruct (getLastEntry _). repeat case_if; try (by intros [= _ <-]).
  destruct (GetLog _ _) as [[[l|e] logs]|]; cbn [outcome_bind]; [by intros [= _ <-]..|done].
Qed.

Lemma storeEntries_sides a r b r' : storeEntries a r = Return (b, r') -> sides r' = sides r.
Proof.
  unfold storeEntries. destruct (head (ae_Entries a)) as [first|]; [|by intros [= _ <-]].
  destruct (last (ae_Entries a)) as [lst|]; [|by intros [= _ <-]].
  assert (Hst : forall r0, sides r0 = sides r -> (let! (err, logs) := StoreLogs (ae_Entries a) (r_logs r0) in
      let r2 := set_rlogs logs r0 in
      match err with
      | Some _ => Return (false, r2)
      | None => Return (true, upd_raftState (rs_setLastLog (log_Index lst) (log_Term lst)) r2)
      end) = Return (b, r') -> sides r' = sides r).
  { intros r0 Hr0. destruct (StoreLogs _ _) as [[[e|] logs]|]; cbn [outcome_bind]; [by intros [= _ <-]..|done]. }
  case_if; [|by apply Hst]. destruct (DeleteRange _ _ _) as [[[e|] logs]|]; cbn [outcome_bind]; [by intros [= _ <-]| |done].
  by apply Hst.
Qed.

Lemma advanceCommit_keeps a r r' : advanceCommit env now a r = Return r' ->
  keeps r r' /\ lead r' = lead r /\ r_verifyCh r' = r_verifyCh r.
Proof.
  unfold advanceCommit. case_if; [|intros [= <-]; split_and!; auto using keeps_refl].
  intros (Hk & Hl & Hv & _)%processLogs_keeps. split_and!; [|exact Hl|exact Hv].
  eapply keeps_trans; [|exact Hk]. by apply keeps_sides.
Qed.

Lemma quiet_not_leader r r' : getState r <> Leader -> quiet r r' -> getState r' <> Leader.
Proof. intros Hr (_ & _ & _ & Hs). destruct Hs as [[-> _]|[-> | ->]]; done. Qed.

(** An append request leaves the futures and the tracker alone, and a leader that accepts it is one no
    more. *)
Lemma appendEntries_keeps a r resp r' :
  appendEntries env now a r = Return (resp, r') ->
  keeps r r' /\ lead r' = lead r /\ r_verifyCh r' = r_verifyCh r /\
  (getState r' = Leader -> marks r' = marks r /\ getState r = Leader).
Proof.
  unfold appendEntries. case_if; [intros [= _ <-]; split_and!; auto using keeps_refl|].
  destruct (if (_ || _ : bool) then _ else _) as [[x r1]|] eqn:E1; [|done]. cbn [outcome_bind].
  assert (Hst1 : getState r1 <> Leader).
  { revert E1. case_if.
    - destruct (setCurrentTerm _ _) as [r0|] eqn:E0; [|done]. intros [= _ <-]. revert E0. unfold setCurrentTerm.
      destruct (SetUint64 _ _ _) as [[[e|] k]|]; cbn [outcome_bind]; [done| |done]. by intros [= <-].
    - intros [= _ <-]. zbool. by match goal with H : bool_decide _ = true |- _ => apply bool_decide_eq_true_1 in H; rewrite H end. }
  apply adopt_silent in E1 as [Hsd1 _]. set (r2 := set_leader _ r1).
  destruct (checkPrevious a r2) as [[ok r3]|] eqn:E3; [|done]. cbn [outcome_bind].
  pose proof (checkPrevious_quiet _ _ _ _ E3) as Hq3. apply checkPrevious_sides in E3.
  assert (Hsd3 : sides r3 = sides r) by (rewrite E3; exact Hsd1).
  assert (Hst3 : getState r3 <> Leader) by by apply (quiet_not_leader r2).
  destruct ok; cbn [negb].
  2: { intros [= _ <-]. pose proof Hsd3 as [= ? _ ? _]. split_and!; [by apply keeps_sides|done|done|done]. }
  destruct (storeEntries a r3) as [[ok r4]|] eqn:E4; [|done]. cbn [outcome_bind].
  pose proof (storeEntries_quiet _ _ _ _ E4) as Hq4. apply storeEntries_sides in E4.
  assert (Hsd4 : sides r4 = sides r) by congruence. pose proof Hsd4 as [= Hl4 _ Hv4 _].
  assert (Hst4 : getState r4 <> Leader) by by apply (quiet_not_leader r3).
  destruct ok; cbn [negb]; [|intros [= _ <-]; split_and!; [by apply keeps_sides|done|done|done]].
  destruct (advanceCommit _ _ _ _) as [r5|] eqn:E5; [|done]. cbn [outcome_bind].
  pose proof (advanceCommit_quiet _ _ _ _ _ E5) as Hq5.
  apply advanceCommit_keeps in E5 as (Hk5 & Hl5 & Hv5). intros [= _ <-].
  split_and!.
  - eapply keeps_trans; [apply keeps_sides; exact Hsd4|exact Hk5].
  - rewrite <- Hl4. exact Hl5.
  - rewrite <- Hv4. exact Hv5.
  - intros Hst5. exfalso. by apply (quiet_not_leader r4 r5).
Qed.

Lemma installSnapshot_sides req io r resp e r' :
  installSnapshot env now req io r = Return (resp, e, r') ->
  sides r' = sides r /\ (is_Term req <> getCurrentTerm r -> getState r' = Leader -> marks r' = marks r) /\
  (getState r' = Leader -> getState r = Leader).
Proof.
  unfold installSnapshot. case_if; [by intros [= _ _ <-]|].
  destruct (if is_Term req >? getCurrentTerm r then _ else _) as [[t r1]|] eqn:E1; [|done]. cbn [outcome_bind].
  assert (Hst : is_Term req <> getCurrentTerm r -> getState r1 = Follower).
  { intros Hne. revert E1. zbool. rewrite Z.gtb_ltb, (proj2 (Z.ltb_lt _ _)) by lia.
    destruct (setCurrentTerm _ _) as [r0|] eqn:E0; [|done]. intros [= _ <-]. revert E0. unfold setCurrentTerm.
    destruct (SetUint64 _ _ _) as [[[e'|] k]|]; cbn [outcome_bind]; [done| |done]. by intros [= <-]. }
  apply adopt_silent in E1 as (Hsd1 & _ & HLd).
  assert (Hout : forall r2, sides r2 = sides r1 -> getState r2 = getState r1 ->
    sides r2 = sides r /\ (is_Term req <> getCurrentTerm r -> getState r2 = Leader -> marks r2 = marks r) /\
    (getState r2 = Leader -> getState r = Leader)).
  { intros r2 Hs2 Hst2. split_and!; [congruence| |by rewrite Hst2]. intros Hne HL2. specialize (Hst Hne). congruence. }
  destruct (io_create io); [intros [= _ _ <-]; by apply Hout|].
  destruct (io_copy io); [intros [= _ _ <-]; by apply Hout|].
  case_if; [intros [= _ _ <-]; by apply Hout|].
  destruct (io_close io); [intros [= _ _ <-]; by apply Hout|].
  destruct (io_restore io) as [[?|]|]; try (intros [= _ _ <-]; by apply Hout).
  destruct (decodePeers _ _) as [ps|]; [|done]. cbn [outcome_bind].
  set (r2 := set_peers _ _ _).
  destruct (compactLogs _ r2) as [[e' r3]|] eqn:E3; [|done]. cbn [outcome_bind].
  intros [= _ _ <-]. assert (Hsd3 : sides r3 = sides r2) by by apply compactLogs_silent in E3 as [? _].
  assert (Hst3 : getState r3 = getState r2).
  { revert E3. unfold compactLogs. destruct (FirstIndex _) as [[[m|?] s]|]; cbn [outcome_bind]; [|by intros [= _ <-]|done].
    case_if; [by intros [= _ <-]|].
    destruct (DeleteRange _ _ _) as [[[?|] s']|]; cbn [outcome_bind]; [by intros [= _ <-]..|done]. }
  apply Hout; [exact Hsd3|exact Hst3].
Qed.

(** A node takes a snapshot only from a leader of another node's term: by election safety a leader
    receives none in its own term. *)
Definition rpc_ok (cmd : rpc_command) r : Prop :=
  match cmd with
  | CmdInstall req _ => is_Term req <> getCurrentTerm r
  | _ => True
  end.

Lemma processRPC_keeps cmd r res r' :
  processRPC env now cmd r = Return (res, r') ->
  keeps r r' /\ lead r' = lead r /\ r_verifyCh r' = r_verifyCh r /\
  (rpc_ok cmd r -> getState r' = Leader -> marks r' = marks r) /\
  (getState r' = Leader -> getState r = Leader).
Proof.
  unfold processRPC. destruct cmd as [a|req|req io|].
  - destruct (appendEntries _ _ _ _) as [[resp r1]|] eqn:E; [|done]. intros [= _ <-].
    apply appendEntries_keeps in E as (? & ? & ? & Hm). split_and!; try done; [intros _ ?; by apply Hm|by intros [_ ?]%Hm].
  - destruct (requestVote _ _ _ _) as [[resp r1]|] eqn:E; [|done]. intros [= _ <-].
    apply requestVote_silent in E as (Hs & Hm & Hst). pose proof Hs as [= ? _ ? _]. split_and!; [by apply keeps_sides|done..].
  - destruct (installSnapshot _ _ _ _ _) as [[[resp e] r1]|] eqn:E; [|done]. intros [= _ <-].
    apply installSnapshot_sides in E as (Hs & Hm & Hst). pose proof Hs as [= ? _ ? _].
    split_and!; [by apply keeps_sides|done|done| |done]. intros Hok. by apply Hm.
  - intros [= _ <-]. split_and!; auto using keeps_refl.
Qed.
End Rpc.

(** ** The main loop *)

Section Main.
Context {L K : Type} {HL : LogStore L} {HK : StableStore K}.
Context (env : raftEnv) (now : Time).
Implicit Types (r : Raft L K).

(** Only a leader has a tracker. *)
Definition loop_inv (l : loop) r : Prop :=
  match l with
  | LeaderLoop _ => is_Some (lead r) /\ leader_inv r
  | CandidateLoop _ _ _ => lead r = None /\ getState r <> Leader
  | _ => lead r = None
  end.

(** The futures an event brings. *)
Definition submitted (ev : main_event) (id : nat) : Prop :=
  match ev with
  | EvApply ready => exists f, f ∈ ready /\ lf_errCh f = Some id
  | EvPeers i _ => i = id
  | _ => False
  end.

(** What an event relies on: the log does not reach the largest index; a leader receives no snapshot
    of its own term; a node that may become leader has not applied entries beyond its log. *)
Definition step_ok (l : loop) (ev : main_event) r : Prop :=
  let last := getLastIndex (r_raftState r) in
  match l with
  | LeaderLoop _ =>
      match ev with
      | EvApply ready => last + Z.of_nat (length ready) + 1 < 2 ^ 64
      | EvRPC cmd => rpc_ok cmd r
      | _ => True
      end
  | CandidateLoop _ _ _ => 0 <= last /\ last + 2 < 2 ^ 64 /\ rs_lastApplied (r_raftState r) <= last
  | _ => True
  end.

Lemma verifyLeader_keeps id r r' :
  verifyLeader id r = Return r' -> leader_inv r ->
  keeps r r' /\ (answered id r' \/ waiting id r') /\ leader_inv r' /\ (is_Some (lead r) -> is_Some (lead r')).
Proof.
  unfold verifyLeader. intros E Hinv. case_if.
  - injection E as <-. set (r1 := set_verifyFutures _ r).
    destruct (respond_core (Some id) None r1) as (Hl & Hm & _). split_and!.
    + apply (keeps_trans _ r1); [by apply keeps_sides|exact (keeps_respond (Some id) None r1)].
    + left. exact (answered_respond id None r1).
    + by apply (leader_inv_same r).
    + intros Hs. change (is_Some (lead (respond (Some id) None r1))). by rewrite Hl.
  - destruct (r_leaderState r) as [ls|] eqn:Els; [|done]. injection E as <-.
    unfold keeps, waiting, answered, leader_inv, lead in *. rewrite Els in *. simpl in *. split_and!.
    + intros i. rewrite !elem_of_app, !elem_of_elements. set_solver.
    + right. left. rewrite elem_of_app, elem_of_elements. set_solver.
    + done.
    + by eexists.
Qed.

(** The future that comes out of the channel of a leader is answered or waits for its quorum. *)
Lemma leader_verify_keeps id v r r' :
  leader_verify id v r = Return r' -> leader_inv r -> is_Some (lead r) ->
  keeps r r' /\ (answered id r' \/ waiting id r') /\ leader_inv r' /\ is_Some (lead r').
Proof.
  unfold leader_verify. intros E Hinv Hsome. case_if.
  { apply verifyLeader_keeps in E as (? & ? & ? & ?); [|done]. split_and!; auto. }
  assert (Hgen : forall e r0, lead r0 = lead r -> marks r0 = marks r -> sides r0 = sides r ->
    let r1 := respond (Some id) e (upd_leaderState (fun ls => ls_set_notify (ls_notify ls ∖ {[id]}) ls) r0) in
    keeps r r1 /\ (answered id r1 \/ waiting id r1) /\ leader_inv r1 /\ is_Some (lead r1)).
  { intros e r0 Hl Hm Hs. cbn zeta. set (r2 := upd_leaderState _ r0).
    destruct (respond_core (Some id) e r2) as (Hl2 & Hm2 & _).
    destruct Hsome as [[i nt] Hlead]. rewrite Hlead in Hl.
    assert (Hlead2 : lead r2 = Some (i, nt ∖ {[id]})).
    { unfold r2, upd_leaderState, lead in *. simpl. destruct (r_leaderState r0); simpl in *; [|done]. by injection Hl as -> ->. }
    split_and!.
    - intros j Hj. destruct (decide (j = id)) as [->|Hne]; [left; apply answered_respond|].
      apply (keeps_respond (Some id) e r2). pose proof Hs as [= _ Hf Hv Hr]. destruct Hj as [Hj|[Hj|[Hj|Hj]]].
      + left. unfold answered. change (r_responses r2) with (r_responses r0). by rewrite Hr.
      + right. left. rewrite Hlead2. rewrite Hlead in Hj. simpl in *.
        rewrite elem_of_app, elem_of_elements in *. set_solver.
      + right. right. left. change (r_fsmCommitCh r2) with (r_fsmCommitCh r0). by rewrite Hf.
      + right. right. right. change (r_verifyCh r2) with (r_verifyCh r0). by rewrite Hv.
    - left. apply answered_respond.
    - apply (leader_inv_same r2 _ Hl2 Hm2). unfold leader_inv in *. rewrite Hlead2. rewrite Hlead in Hinv.
      change (r_raftState r2) with (r_raftState r0). injection Hm as -> ->. done.
    - rewrite Hl2, Hlead2. by eexists. }
  case_if; injection E as <-; [by apply (Hgen _ (setState Follower r))|by apply (Hgen _ r)].
Qed.

(** When a leader leaves its loop every future it tracks is answered. *)
Lemma leave_leader_keeps r r' :
  leave_leader now r = Return r' ->
  keeps r r' /\ lead r' = None /\ marks r' = marks r /\ r_raftState r' = r_raftState r /\
  r_shutdown r' = r_shutdown r /\ forall id, id ∈ lead_ids (lead r) -> answered id r'.
Proof.
  unfold leave_leader. destruct (r_leaderState (setLastContact now r)) as [ls|] eqn:Els; [|done].
  destruct (Cancel _ _) as [[cs i']|] eqn:Ec; [|done]. cbn [outcome_bind].
  set (r1 := foldl (fun r p => respond (lf_errCh p.1) (Some p.2) r) (setLastContact now r) cs).
  destruct (respond_list (fun p : logFuture * error => lf_errCh p.1) (fun p => Some p.2) cs (setLastContact now r))
    as (Hk1 & Ha1 & Hl1 & Hm1 & Hs1 & Hf1 & Hv1 & Hsh1 & Han1). fold r1 in Hk1, Ha1, Hl1, Hm1, Hs1, Hf1, Hv1, Hsh1, Han1.
  set (r2 := foldl _ r1 (elements (ls_notify ls))).
  destruct (respond_list (fun id : nat => Some id) (fun _ => Some ErrLeadershipLost) (elements (ls_notify ls)) r1)
    as (Hk2 & Ha2 & Hl2 & Hm2 & Hs2 & Hf2 & Hv2 & Hsh2 & Han2). fold r2 in Hk2, Ha2, Hl2, Hm2, Hs2, Hf2, Hv2, Hsh2, Han2.
  intros [= <-]. set (r3 := if decide _ then _ else _).
  assert (Hr3 : r_responses r3 = r_responses r2 /\ r_fsmCommitCh r3 = r_fsmCommitCh r2 /\ r_verifyCh r3 = r_verifyCh r2 /\
    lead r3 = None /\ r_raftState r3 = r_raftState r2 /\ r_shutdown r3 = r_shutdown r2).
  { unfold r3. by case_decide. }
  destruct Hr3 as (Er & Ef & Ev & El & Es & Esh).
  assert (Hids : forall id, id ∈ lead_ids (lead r) -> answered id r3).
  { intros id Hid. unfold lead in Hid. change (r_leaderState (setLastContact now r)) with (r_leaderState r) in Els.
    rewrite Els in Hid. simpl in Hid. unfold answered. rewrite Er. apply elem_of_app in Hid as [Hid|Hid].
    - unfold inflight_ids in Hid. apply list_elem_of_omap in Hid as (f & Hf & Hid).
      apply Han2, (Ha1 (f, ErrLeadershipLost)); [|done]. revert Ec. unfold Cancel.
      destruct (if_stopCh (ls_inflight ls)), (if_commitCh (ls_inflight ls)); try done. intros [= <- _].
      apply elem_of_app. apply elem_of_app in Hf as [Hf|Hf].
      { right. apply list_elem_of_fmap. by exists f. }
      left.
      apply list_elem_of_fmap in Hf as ([k g] & -> & Hg). apply list_elem_of_fmap. by exists (k, g).
    - by apply (Ha2 id). }
  split_and!; try done.
  - intros id [Ha|[Hw|[Hw|Hw]]].
    + left. unfold answered. rewrite Er. by apply Han2, Han1.
    + left. by apply Hids.
    + right. right. left. rewrite Ef, Hf2, Hf1. exact Hw.
    + right. right. right. rewrite Ev, Hv2, Hv1. exact Hw.
  - unfold marks. rewrite Es, Hs2, Hs1. done.
  - rewrite Es, Hs2, Hs1. done.
  - rewrite Esh, Hsh2, Hsh1. done.
Qed.

Definition may_lead r : Prop :=
  let last := getLastIndex (r_raftState r) in
  0 <= last /\ last + 2 < 2 ^ 64 /\ rs_lastApplied (r_raftState r) <= last.

Lemma may_lead_marks r r' : marks r' = marks r -> may_lead r -> may_lead r'.
Proof. unfold may_lead, marks. by intros [= -> ->]. Qed.

(** A new leader starts with an empty tracker behind its log. *)
Lemma enter_leader_keeps r r' :
  lead r = None -> may_lead r -> enter_leader env now r = Return r' ->
  keeps r r' /\ is_Some (lead r') /\ (getState r' = Leader -> leader_inv r').
Proof.
  intros Hnone (Hlo & Hhi & Happ). unfold enter_leader. set (r0 := set_leaderState _ r).
  assert (Hk0 : keeps r r0).
  { intros id [Ha|[Hw|Hw]]; [by left| |right; right; exact Hw]. rewrite Hnone in Hw. by apply elem_of_nil in Hw. }
  assert (Hinv0 : leader_inv r0).
  { exists (getLastIndex (r_raftState r) + 1), [], []. simpl. split_and!; [lia|lia| |done|lia|lia].
    exists [], [], [], false. repeat split; constructor. }
  destruct (start_streams _ _ _) as [r1|] eqn:E1; [|done]. cbn [outcome_bind].
  apply start_streams_silent in E1 as ((Hsd1 & Hm1 & _) & _). pose proof Hsd1 as [= Hl1 _ _ _].
  destruct (encodePeers _ _) as [data|]; [|done]. cbn [outcome_bind].
  destruct (dispatchLogs _ r1) as [r2|] eqn:E2; [|done]. cbn [outcome_bind].
  apply dispatchLogs_keeps in E2 as (Hk2 & _ & _ & Hs2 & Hst2).
  2: by apply (leader_inv_same r0). 2: { rewrite Hl1. by eexists. } 2: { injection Hm1 as -> _. simpl. lia. }
  assert (Hk : keeps r r2).
  { eapply keeps_trans; [exact Hk0|]. eapply keeps_trans; [by apply keeps_sides|exact Hk2]. }
  assert (Hinv2 : getState r2 = Leader -> leader_inv r2) by (destruct Hst2 as [->|[_ ?]]; done).
  case_if; intros [= <-]; split_and!; done.
Qed.

Lemma enter_loop_keeps r l' r' :
  lead r = None -> (r_shutdown r = false -> getState r = Leader -> may_lead r) ->
  enter_loop env now r = Return (l', r') -> keeps r r' /\ loop_inv l' r'.
Proof.
  intros Hnone Hml. unfold enter_loop. destruct (r_shutdown r) eqn:Hsd.
  { intros [= <- <-]. split; [by apply keeps_sides|done]. }
  destruct (getState r) eqn:Hst; try (intros [= <- <-]; split; [apply keeps_refl|done]).
  - destruct (electSelf r) as [[[req b] r1]|] eqn:E; [|done]. cbn [outcome_bind]. intros [= <- <-].
    apply electSelf_silent in E as (Hs & _ & Hnl). pose proof Hs as [= Hl _ _ _]. split; [by apply keeps_sides|].
    split; [congruence|]. intros HLd%Hnl. congruence.
  - destruct (enter_leader env now r) as [r1|] eqn:E; [|done]. cbn [outcome_bind].
    apply enter_leader_keeps in E as (Hk & Hs & Hinv); [|done|by apply Hml].
    case_decide; [intros [= <- <-]; split; [done|]; split; auto|].
    destruct (leave_leader now r1) as [r2|] eqn:E2; [|done]. cbn [outcome_bind]. intros [= <- <-].
    apply leave_leader_keeps in E2 as (Hk2 & Hl2 & _). split; [by eapply keeps_trans|done].
Qed.

(** A loop that is not the leader's: what its events share. *)
Lemma refuse_keeps r : keeps r (refuse_verify r) /\ lead (refuse_verify r) = lead r /\
  marks (refuse_verify r) = marks r /\ getState (refuse_verify r) = getState r.
Proof.
  unfold refuse_verify. destruct (r_verifyCh r) as [|id q] eqn:Ev; [split_and!; auto using keeps_refl|].
  set (r1 := set_verifyCh q r). destruct (respond_core (Some id) (Some ErrNotLeader) r1) as (Hl & Hm & Hst & _).
  split_and!; [|exact Hl|exact Hm|exact Hst].
  intros j [Hj|[Hj|[Hj|Hj]]].
  - apply (keeps_respond (Some id) _ r1). by left.
  - apply (keeps_respond (Some id) _ r1). right. by left.
  - apply (keeps_respond (Some id) _ r1). right. right. by left.
  - rewrite Ev in Hj. apply elem_of_cons in Hj as [->|Hj]; [left; apply answered_respond|].
    apply (keeps_respond (Some id) _ r1). right. right. by right.
Qed.

Lemma force_peers_keeps id ps r : keeps r (force_peers id ps r) /\ answered id (force_peers id ps r) /\
  lead (force_peers id ps r) = lead r /\ marks (force_peers id ps r) = marks r /\
  getState (force_peers id ps r) = getState r.
Proof.
  unfold force_peers. set (r1 := set_peers _ _ r). destruct (respond_core (Some id) None r1) as (Hl & Hm & Hst & _).
  split_and!; [|apply answered_respond|exact Hl|exact Hm|exact Hst].
  apply (keeps_trans _ r1); [by apply keeps_sides|apply keeps_respond].
Qed.

(** Steps of a follower or a candidate: nothing is lost, there is no tracker, and the node is ready to
    lead if it was. *)
Definition idle_step ev r (l : option loop) r' : Prop :=
  keeps r r' /\ (forall id, submitted ev id -> answered id r') /\ lead r' = None /\
  match l with
  | Some FollowerLoop | None => True
  | Some (CandidateLoop _ _ _) => getState r' <> Leader
  | Some _ => False
  end.

Lemma follower_step_keeps ev r l r' :
  lead r = None -> follower_step env now ev r = Return (l, r') ->
  idle_step ev r l r' /\ (l = None -> getState r' = Leader -> r_shutdown r' = true).
Proof.
  intros Hnone. unfold follower_step, idle_step. destruct ev; cbn [submitted];
    try (intros [= <- <-]; split; [split_and!; auto using keeps_refl; done|done]; fail).
  - destruct (processRPC _ _ _ _) as [[res r1]|] eqn:E; [|done]. cbn [outcome_bind]. intros [= <- <-].
    apply processRPC_keeps in E as (Hk & Hl & _). split; [|done]. split_and!; [done|done|congruence|done].
  - intros [= <- <-]. destruct (respond_all_spec ready (Some ErrNotLeader) r) as (Hk & Ha & Hl & _).
    split; [|done]. split_and!; [done| |congruence|done]. intros id (f & Hf & Hid). by apply (Ha f).
  - intros [= <- <-]. destruct (refuse_keeps r) as (? & Hl & _). split; [|done]. split_and!; [done|done|congruence|done].
  - intros [= <- <-]. destruct (force_peers_keeps id peers r) as (? & ? & Hl & _).
    split; [|done]. split_and!; [done|by intros ? <-|congruence|done].
  - intros [= <- <-]. destruct (heartbeatTimeout_silent now r) as (Hs & _ & _). pose proof Hs as [= Hl _ _ _].
    split; [|case_decide; [congruence|done]]. split_and!; [by apply keeps_sides|done|congruence|by case_decide].
  - intros [= <- <-]. split; [|by destruct (r_shutdown r)].
    split_and!; [apply keeps_refl|done|done|by destruct (r_shutdown r)].
Qed.

Lemma candidate_step_keeps ev voteCh needed granted r l r' :
  lead r = None -> may_lead r -> candidate_step env now ev voteCh needed granted r = Return (l, r') ->
  idle_step ev r l r' /\ (l = None -> getState r' = Leader -> getState r = Leader \/ may_lead r').
Proof.
  intros Hnone Hml. unfold candidate_step, idle_step.
  assert (Hdone : forall b r1, keeps r r1 -> lead r1 = None -> (getState r1 = Leader -> getState r = Leader \/ may_lead r1) ->
    (forall id, submitted ev id -> answered id r1) ->
    Return (if decide (getState r1 = Candidate) then Some (CandidateLoop voteCh needed b) else None, r1) = Return (l, r') ->
    (keeps r r' /\ (forall id, submitted ev id -> answered id r') /\ lead r' = None /\
     match l with
     | Some FollowerLoop | None => True
     | Some (CandidateLoop _ _ _) => getState r' <> Leader
     | Some _ => False
     end) /\
    (l = None -> getState r' = Leader -> getState r = Leader \/ may_lead r')).
  { intros b r1 Hk Hl Hst Ha [= <- <-]. split; [|done]. split_and!; [done|done|done|]. case_decide; [congruence|done]. }
  destruct ev as [cmd|ready| |id peers| |vote| | | | |]; cbn [submitted] in *.
  - destruct (processRPC _ _ _ _) as [[res r1]|] eqn:E; [|done]. cbn [outcome_bind].
    apply processRPC_keeps in E as (Hk & Hl & _ & _ & Hst). apply Hdone; [done|congruence|by left; apply Hst|done].
  - destruct (respond_all_spec ready (Some ErrNotLeader) r) as (Hk & Ha & Hl & Hm & Hs & _).
    intros E. replace (getState r) with (getState (respond_all ready (Some ErrNotLeader) r)) in E by (unfold getState; by rewrite Hs).
    revert E. apply Hdone; [done|congruence|intros _; right; by apply (may_lead_marks r)|].
    intros id (f & Hf & Hid). by apply (Ha f).
  - destruct (refuse_keeps r) as (Hk & Hl & Hm & Hst). intros E. replace (getState r) with (getState (refuse_verify r)) in E by exact Hst. revert E.
    apply Hdone; [done|congruence|intros _; right; by apply (may_lead_marks r)|done].
  - intros [= <- <-]. destruct (force_peers_keeps id peers r) as (Hk & Ha & Hl & _).
    split; [|done]. split_and!; [|by intros ? <-|simpl; by rewrite <- Hnone, <- Hl|done].
    eapply keeps_trans; [exact Hk|]. by apply keeps_sides.
  - apply Hdone; auto using keeps_refl; done.
  - destruct voteCh; [|apply Hdone; auto using keeps_refl; done].
    destruct (candidateVote _ _ _ _) as [[g r1]|] eqn:E; [|done]. cbn [outcome_bind].
    apply candidateVote_sides in E as [Hs Hm]. pose proof Hs as [= Hl _ _ _].
    apply Hdone; [by apply keeps_sides|congruence|intros _; right; by apply (may_lead_marks r)|done].
  - intros [= <- <-]. split; [|auto]. split_and!; auto using keeps_refl; done.
  - apply Hdone; auto using keeps_refl; done.
  - apply Hdone; auto using keeps_refl; done.
  - apply Hdone; auto using keeps_refl; done.
  - destruct (r_shutdown r); [|apply Hdone; auto using keeps_refl; done].
    intros [= <- <-]. split; [|auto]. split_and!; auto using keeps_refl; done.
Qed.

(** Steps of a leader. *)
Lemma leader_step_keeps ev sd r l r' :
  is_Some (lead r) -> leader_inv r -> step_ok (LeaderLoop sd) ev r ->
  leader_step env now ev sd r = Return (l, r') ->
  keeps r r' /\ (forall id, submitted ev id -> answered id r' \/ waiting id r') /\ is_Some (lead r') /\
  (getState r' = Leader -> leader_inv r') /\
  match l with
  | Some _ => getState r' = Leader
  | None => getState r' <> Leader \/ r_shutdown r' = true
  end.
Proof.
  intros Hsome Hinv Hok. unfold leader_step.
  assert (Hdone : forall b r1, keeps r r1 -> is_Some (lead r1) -> (getState r1 = Leader -> leader_inv r1) ->
    (forall id, submitted ev id -> answered id r1 \/ waiting id r1) ->
    Return (if decide (getState r1 = Leader) then Some b else None, r1) = Return (l, r') ->
    keeps r r' /\ (forall id, submitted ev id -> answered id r' \/ waiting id r') /\ is_Some (lead r') /\
    (getState r' = Leader -> leader_inv r') /\
    match l with Some _ => getState r' = Leader | None => getState r' <> Leader \/ r_shutdown r' = true end).
  { intros b r1 Hk Hl Hi Ha [= <- <-]. split_and!; try done. case_decide; [done|by left]. }
  destruct ev as [cmd|ready| |id peers| |vote| | | | |]; cbn [submitted step_ok] in *.
  - destruct (processRPC _ _ _ _) as [[res r1]|] eqn:E; [|done]. cbn [outcome_bind].
    apply processRPC_keeps in E as (Hk & Hl & _ & Hm & _). apply Hdone; [done|by rewrite Hl| |done].
    intros Hst. apply (leader_inv_same r); auto.
  - destruct ready as [|f fs].
    { apply Hdone; auto using keeps_refl. intros id (f & Hf & _). by apply elem_of_nil in Hf. }
    destruct (leader_apply _ _ _ _ _) as [[sd1 r1]|] eqn:E; [|done]. cbn [outcome_bind].
    apply leader_apply_keeps in E as (Hk & Ha & Hl & Hi); [|done..]. apply Hdone; [done|done|done|].
    intros id (g & Hg & Hid). by apply (Ha g).
  - destruct (r_verifyCh r) as [|id q] eqn:Ev; [apply Hdone; auto using keeps_refl; done|].
    set (r1 := set_verifyCh q r).
    assert (Hdeq : forall r2, keeps r1 r2 -> answered id r2 \/ waiting id r2 -> keeps r r2).
    { intros r2 Hk Hid j [Hj|[Hj|[Hj|Hj]]]; [apply Hk; by left|apply Hk; right; by left|apply Hk; right; right; by left|].
      rewrite Ev in Hj. apply elem_of_cons in Hj as [->|Hj]; [done|]. apply Hk. right. right. by right. }
    destruct (leader_verify id _ r1) as [r2|] eqn:E; [|done]. cbn [outcome_bind].
    apply leader_verify_keeps in E as (Hk & Hid & Hi & Hl); [|done|done]. apply Hdone; [by apply Hdeq|done|done|done].
  - destruct (respond_core (Some id) (Some ErrLeader) r) as (Hl & Hm & _).
    apply Hdone; [apply keeps_respond|by rewrite Hl|intros _; by apply (leader_inv_same r)|].
    intros ? <-. left. apply answered_respond.
  - apply Hdone; auto using keeps_refl; done.
  - apply Hdone; auto using keeps_refl; done.
  - apply Hdone; auto using keeps_refl; done.
  - destruct (r_leaderState r) as [ls|] eqn:Els; [|apply Hdone; auto using keeps_refl; done].
    destruct (ls_stepDown ls); [|apply Hdone; auto using keeps_refl; done].
    assert (Hl : sides (setState Follower (set_leaderState (Some (ls_set_stepDown false ls)) r)) = sides r).
    { unfold sides, lead. simpl. by rewrite Els. }
    apply Hdone; [by apply keeps_sides|by eexists|done|done].
  - destruct (leader_commit _ _ _) as [r1|] eqn:E; [|done]. cbn [outcome_bind].
    apply leader_commit_keeps in E as (Hk & Hi & Hl); [|done]. apply Hdone; auto; done.
  - destruct (checkLeaderLease now r) as [d r1] eqn:E.
    assert (Hr1 : r1 = setState Follower r \/ r1 = r).
    { revert E. unfold checkLeaderLease. destruct (foldl _ _ _) as [contacted maxDiff].
      case_if; intros E; simplify_eq; auto. }
    destruct Hr1 as [->| ->].
    + apply Hdone; [by apply keeps_sides|done|done|done].
    + apply Hdone; auto using keeps_refl; done.
  - destruct (r_shutdown r) eqn:Hsd; [|apply Hdone; auto using keeps_refl; done].
    intros [= <- <-]. split_and!; auto using keeps_refl; done.
Qed.

Lemma main_step_keeps l ev r l' r' :
  loop_inv l r -> step_ok l ev r -> l <> Terminated -> main_step env now ev l r = Return (l', r') ->
  keeps r r' /\ (forall id, submitted ev id -> answered id r' \/ waiting id r') /\ loop_inv l' r'.
Proof.
  intros Hinv Hok Hrun. unfold main_step. destruct l as [|voteCh needed granted|sd|]; [| | |done].
  - destruct (follower_step _ _ _ _) as [[o r1]|] eqn:E1; [|done]. cbn [outcome_bind].
    apply follower_step_keeps in E1 as ((Hk & Ha & Hl & Ho) & Hx); [|done].
    destruct o as [l1|].
    + intros [= <- <-]. split_and!; [done|by left; apply Ha|]. destruct l1; done.
    + intros E2. apply enter_loop_keeps in E2 as [Hk2 Hi2]; [|done|].
      2: { intros Hsd Hst. specialize (Hx eq_refl Hst). congruence. }
      split_and!; [by eapply keeps_trans| |done]. intros id Hid. apply Hk2. left. by apply Ha.
  - destruct Hinv as [Hnone Hnl]. destruct (candidate_step _ _ _ _ _ _ _) as [[o r1]|] eqn:E1; [|done]. cbn [outcome_bind].
    apply candidate_step_keeps in E1 as ((Hk & Ha & Hl & Ho) & Hx); [|done|done].
    destruct o as [l1|].
    + intros [= <- <-]. split_and!; [done|by left; apply Ha|]. destruct l1; done.
    + intros E2. apply enter_loop_keeps in E2 as [Hk2 Hi2]; [|done|].
      2: { intros _ Hst. by destruct (Hx eq_refl Hst). }
      split_and!; [by eapply keeps_trans| |done]. intros id Hid. apply Hk2. left. by apply Ha.
  - destruct Hinv as [Hsome Hinv]. destruct (leader_step _ _ _ _ _) as [[o r1]|] eqn:E1; [|done]. cbn [outcome_bind].
    apply leader_step_keeps in E1 as (Hk & Ha & Hl & Hi & Ho); [|done..].
    destruct o as [sd1|].
    + intros [= <- <-]. split_and!; [done|done|]. split; auto.
    + destruct (leave_leader now r1) as [r2|] eqn:E2; [|done]. cbn [outcome_bind].
      apply leave_leader_keeps in E2 as (Hk2 & Hl2 & Hm2 & Hs2 & Hsh2 & _).
      intros E3. apply enter_loop_keeps in E3 as [Hk3 Hi3]; [|done|].
      2: { intros Hsd Hst. unfold getState in *. rewrite Hs2 in Hst. destruct Ho as [Ho|Ho]; [done|]. congruence. }
      assert (Hk13 : keeps r1 r') by by eapply keeps_trans.
      split_and!; [by eapply keeps_trans| |done]. intros id Hid. by apply Hk13, Ha.
Qed.
End Main.

(** A run of the main goroutine, with the acknowledgements of the streams in between. *)
Inductive run_item :=
| Main (now : Time) (ev : main_event)
| Ack (first last : Z).

Section Run.
Context {L K : Type} {HL : LogStore L} {HK : StableStore K}.
Context (env : raftEnv).
Implicit Types (r : Raft L K).

Fixpoint run_main (items : list run_item) (l : loop) r : outcome (loop * Raft L K) :=
  match items with
  | [] => Return (l, r)
  | Main now ev :: items => let! (l, r) := main_step env now ev l r in run_main items l r
  | Ack first last :: items => let! r := on_inflight (CommitRange first last) r in run_main items l r
  end.

(** Every event of the run meets the conditions of [step_ok], and none is sent to a loop that has
    ended. *)
Fixpoint run_ok (items : list run_item) (l : loop) r : Prop :=
  match items with
  | [] => True
  | Main now ev :: items =>
      l <> Terminated /\ step_ok l ev r /\
      match main_step env now ev l r with Return (l, r) => run_ok items l r | Panic _ => True end
  | Ack first last :: items =>
      match on_inflight (CommitRange first last) r with Return r => run_ok items l r | Panic _ => True end
  end.

Definition run_submitted (items : list run_item) (id : nat) : Prop :=
  exists now ev, Main now ev ∈ items /\ submitted ev id.

(** Acknowledgements move futures inside of the tracker. *)
Lemma ack_keeps first last l r r' :
  loop_inv l r -> on_inflight (CommitRange first last) r = Return r' -> keeps r r' /\ loop_inv l r'.
Proof.
  intros Hinv. unfold on_inflight. destruct (r_leaderState r) as [ls|] eqn:Els.
  2: { intros [= <-]. split; [apply keeps_refl|done]. }
  assert (Hlead : lead r = Some (ls_inflight ls, ls_notify ls)) by (unfold lead; by rewrite Els).
  destruct l as [|voteCh needed granted|sd|]; simpl in Hinv; try (rewrite Hlead in Hinv; done);
    try (destruct Hinv as [Hinv _]; rewrite Hlead in Hinv; done).
  destruct Hinv as [_ Hinv]. unfold leader_inv in Hinv. rewrite Hlead in Hinv.
  destruct Hinv as (base & spec & taken & Hb & Hsz & Hsim & Hnum & Hlast & Happ).
  destruct (sim_CommitRange base Hb first last spec taken _ Hsz Hsim) as (i' & -> & Hsim').
  cbn [outcome_bind]. intros [= <-].
  assert (Hvotes : forall xs s, (fun f => (lf_errCh f, log_Index (lf_log f))) <$> foldl (fun s idx => spec_ack base idx s) s xs
    = (fun f => (lf_errCh f, log_Index (lf_log f))) <$> s).
  { induction xs as [|x xs IH]; intros s; simpl; [done|]. rewrite IH. unfold spec_ack. case_if; [|done].
    apply list_eq. intros k. rewrite !list_lookup_fmap, list_lookup_alter. case_decide; [|done]. subst k. by rewrite <- option_fmap_compose. }
  specialize (Hvotes (seqZ first (last - first + 1)) spec). simpl in Hsim'.
  set (spec' := foldl _ _ _) in *.
  assert (Hlen : length spec' = length spec) by (apply (f_equal length) in Hvotes; by rewrite !length_fmap in Hvotes).
  assert (Hids : forall id, id ∈ omap lf_errCh (drop (length taken) spec) -> id ∈ omap lf_errCh (drop (length taken) spec')).
  { intros id Hid. apply list_elem_of_omap in Hid as (f & Hf & Hid). apply list_elem_of_lookup in Hf as [k Hk].
    rewrite lookup_drop in Hk. apply (f_equal (fun m => m !! (length taken + k)%nat)) in Hvotes.
    rewrite !list_lookup_fmap, Hk in Hvotes. destruct (spec' !! (length taken + k)%nat) as [f'|] eqn:Ef; [|done].
    injection Hvotes as He _. apply list_elem_of_omap. exists f'. split; [|congruence].
    apply (list_elem_of_lookup_2 _ k). by rewrite lookup_drop. }
  split.
  - intros id [Ha|[Hw|Hw]]; [by left| |right; right; exact Hw]. right. left. rewrite Hlead in Hw. unfold lead. simpl in *.
    rewrite elem_of_app in *. destruct Hw as [Hw|Hw]; [left|by right].
    apply (sim_ids base spec' taken); [done|]. apply Hids. by apply (sim_ids base spec taken (ls_inflight ls)).
  - split; [by eexists|]. unfold leader_inv, lead. simpl. exists base, spec', taken. rewrite Hlen.
    split_and!; try done. unfold numbered in *. rewrite Hlen, <- Hnum.
    apply (f_equal (fmap snd)) in Hvotes. rewrite <- !list_fmap_compose in Hvotes. exact Hvotes.
Qed.

Lemma run_main_keeps items : forall l r l' r',
  loop_inv l r -> run_ok items l r -> run_main items l r = Return (l', r') ->
  keeps r r' /\ (forall id, run_submitted items id -> answered id r' \/ waiting id r') /\ loop_inv l' r'.
Proof.
  induction items as [|it items IH]; intros l r l' r' Hinv Hok; cbn [run_main].
  { intros [= <- <-]. split_and!; [apply keeps_refl| |done]. intros id (now & ev & Hin & _). by apply elem_of_nil in Hin. }
  cbn [run_ok] in Hok. destruct it as [now ev|first last].
  - destruct Hok as (Hrun & Hstep & Hok).
    destruct (main_step env now ev l r) as [[l1 r1]|] eqn:E1; [|done]. cbn [outcome_bind]. intros E2.
    apply main_step_keeps in E1 as (Hk1 & Ha1 & Hi1); [|done..].
    apply IH in E2 as (Hk2 & Ha2 & Hi2); [|done|done]. split_and!; [by eapply keeps_trans| |done].
    intros id (now' & ev' & Hin & Hid). apply elem_of_cons in Hin as [[= -> ->]|Hin]; [by apply Hk2, Ha1|].
    apply Ha2. by exists now', ev'.
  - destruct (on_inflight _ r) as [r1|] eqn:E1; [|done]. cbn [outcome_bind]. intros E2.
    apply (ack_keeps first last l) in E1 as [Hk1 Hi1]; [|done].
    apply IH in E2 as (Hk2 & Ha2 & Hi2); [|done|done]. split_and!; [by eapply keeps_trans| |done].
    intros id (now' & ev' & Hin & Hid). apply elem_of_cons in Hin as [|Hin]; [done|].
    apply Ha2. by exists now', ev'.
Qed.
End Run.

(** C11: no request of the application is lost on a node that keeps the entries it has applied.  Over
    every run of the main goroutine (RPCs, batches of commands and membership changes, confirmations of
    leadership, timers, votes, commits, the loss and the gain of leadership) interleaved with
    acknowledgements by the replication streams in any order, in which a candidate never has a log that
    ends before the last entry it has applied, a leader gets no snapshot of its own term, and indices
    stay below 2^64: every future handed to the node is answered, or it still waits in the tracker of the
    leader, among the confirmations the leader waits for, on the way to the state machine, or in the
    channel of verify futures; and no future waits in a tracker once the node is not the leader.  The
    first condition is needed: [truncation_loses_future] is a run without it that loses a future. *)
Theorem no_future_lost {L K} `{LogStore L} `{StableStore K} env items l (r : Raft L K) l' r' id :
  loop_inv l r -> run_ok env items l r -> run_main env items l r = Return (l', r') ->
  answered id r \/ waiting id r \/ run_submitted items id ->
  (answered id r' \/ waiting id r') /\
  (id ∈ lead_ids (lead r') -> exists sd, l' = LeaderLoop sd).
Proof.
  intros Hinv Hok Hrun Hid. destruct (run_main_keeps env items l r l' r' Hinv Hok Hrun) as (Hk & Ha & Hinv').
  split; [destruct Hid as [?|[?|?]]; [apply Hk; by left|apply Hk; by right|by apply Ha]|].
  intros Hin. destruct l'; simpl in Hinv'; eauto; exfalso.
  1,3: rewrite Hinv' in Hin; by apply elem_of_nil in Hin.
  destruct Hinv' as [Hn _]. rewrite Hn in Hin. by apply elem_of_nil in Hin.
Qed.

(** *** Elected, one command, an acknowledgement, the commit, and the loss of leadership *)

Definition ex_granted : RequestVoteResponse := mkRequestVoteResponse 1 [] true.
Definition ex_items : list run_item :=
  [Main 1 (EvVote ex_granted); Main 2 (EvVote ex_granted);
   Main 3 (EvApply [newLogFuture 7 LogCommand "x" ""; newLogFuture 8 LogRemovePeer "" "z"]);
   Ack 1 2; Main 4 EvCommitCh; Main 5 (EvApply [newLogFuture 9 LogCommand "y" ""]);
   Main 6 (EvRPC (CmdVote (mkRequestVoteRequest 2 "a" 0 0)))].

Lemma no_future_lost_witness :
  exists l' r', run_main ex_env ex_items (CandidateLoop true 2 0) ex_r2 = Return (l', r') /\
    l' = FollowerLoop /\ r_responses r' = [(8%nat, Some ErrUnknownPeer); (9%nat, Some ErrLeadershipLost)] /\
    (answered 7 r' \/ waiting 7 r') /\ (answered 9 r' \/ waiting 9 r').
Proof.
  destruct (run_main ex_env ex_items (CandidateLoop true 2 0) ex_r2) as [[l' r']|] eqn:E;
    [|exfalso; apply (f_equal is_return) in E; vm_compute in E; discriminate].
  assert (Hl : (l', r_responses r') = (FollowerLoop, [(8%nat, Some ErrUnknownPeer); (9%nat, Some ErrLeadershipLost)])).
  { replace (l', r_responses r') with
      (let p := ex_returns (l', r') (run_main ex_env ex_items (CandidateLoop true 2 0) ex_r2) in (p.1, r_responses p.2))
      by (rewrite E; reflexivity). vm_compute. reflexivity. }
  injection Hl as Hl Hresp. exists l', r'. split; [reflexivity|]. split; [exact Hl|]. split; [exact Hresp|].
  assert (Hinv : loop_inv (CandidateLoop true 2 0) ex_r2) by (split; vm_compute; [reflexivity|discriminate]).
  assert (Hok : run_ok ex_env ex_items (CandidateLoop true 2 0) ex_r2) by (vm_compute; intuition discriminate).
  split.
  - apply (no_future_lost ex_env ex_items (CandidateLoop true 2 0) ex_r2 l' r' 7 Hinv Hok E). right. right.
    exists 3, (EvApply [newLogFuture 7 LogCommand "x" ""; newLogFuture 8 LogRemovePeer "" "z"]).
    split; [apply (list_elem_of_lookup_2 _ 2); reflexivity|].
    exists (newLogFuture 7 LogCommand "x" ""). split; [apply (list_elem_of_lookup_2 _ 0); reflexivity|reflexivity].
  - apply (no_future_lost ex_env ex_items (CandidateLoop true 2 0) ex_r2 l' r' 9 Hinv Hok E). right. right.
    exists 5, (EvApply [newLogFuture 9 LogCommand "y" ""]).
    split; [apply (list_elem_of_lookup_2 _ 5); reflexivity|].
    exists (newLogFuture 9 LogCommand "y" ""). split; [apply (list_elem_of_lookup_2 _ 0); reflexivity|reflexivity].
Defined.

(** *** A future that is lost when a candidate has applied more than it has in its log *)

(** A follower stores and applies four entries; the append of the second one arrives once more, late, and
    [appendEntries] truncates the log behind it; the node is elected, stores its first entry at 3, the
    command of future 7 at 4, and commits both: [processLogs] takes 4 for an old entry and returns. *)
Definition lost_append (prev prevTerm : Z) (indices : list Z) (commit : Z) : AppendEntriesRequest :=
  mkAppendEntriesRequest 1 "a" prev prevTerm ((fun i => mkLog i 1 LogCommand "x" "") <$> indices) commit.
Definition lost_items : list run_item :=
  [Main 1 (EvRPC (CmdAppend (lost_append 0 0 [1; 2; 3; 4] 4)));
   Main 2 (EvRPC (CmdAppend (lost_append 1 1 [2] 1)));
   Main (10 * Second) EvHeartbeatTimer;
   Main (10 * Second) (EvVote (mkRequestVoteResponse 2 [] true));
   Main (10 * Second) (EvVote (mkRequestVoteResponse 2 [] true));
   Main (10 * Second) (EvApply [newLogFuture 7 LogCommand "y" ""]); Ack 3 4; Main (10 * Second) EvCommitCh].

Lemma truncation_loses_future :
  exists r', run_main ex_env lost_items FollowerLoop (ex_node "b") = Return (LeaderLoop false, r') /\
    run_submitted lost_items 7 /\ ~ answered 7 r' /\ ~ waiting 7 r'.
Proof.
  assert (Hres : match run_main ex_env lost_items FollowerLoop (ex_node "b") with
    | Return (LeaderLoop false, r') =>
        bool_decide (7%nat ∉ (r_responses r').*1 /\ 7%nat ∉ lead_ids (lead r') /\
                     7%nat ∉ fsm_ids (r_fsmCommitCh r') /\ 7%nat ∉ r_verifyCh r')
    | _ => false end = true) by (vm_compute; reflexivity).
  destruct (run_main ex_env lost_items FollowerLoop (ex_node "b")) as [[[| |[|]|] r']|]; try discriminate Hres.
  apply bool_decide_eq_true_1 in Hres as (Ha & Hl & Hf & Hv). exists r'. split_and!; [done| |done|].
  - exists (10 * Second), (EvApply [newLogFuture 7 LogCommand "y" ""]).
    split; [apply (list_elem_of_lookup_2 _ 5); reflexivity|].
    exists (newLogFuture 7 LogCommand "y" ""). split; [apply (list_elem_of_lookup_2 _ 0)|]; reflexivity.
  - unfold waiting. tauto.
Qed.

(** ** A heartbeat that overtakes the last vote *)

(** The term of a node after a request of a newer term. *)
Lemma appendEntries_term `{LogStore L} `{StableStore K} env now a (r : Raft L K) resp r' :
  getCurrentTerm r < ae_Term a -> appendEntries env now a r = Return (resp, r') -> getCurrentTerm r' = ae_Term a.
Proof.
  intros Hlt. unfold appendEntries. destruct (Z.ltb_spec (ae_Term a) (getCurrentTerm r)); [lia|].
  rewrite (proj2 (Z.gtb_lt _ _)) by lia. cbn [orb].
  destruct (setCurrentTerm (ae_Term a) (setState Follower r)) as [r1|] eqn:E1; [|done]. cbn [outcome_bind].
  assert (Ht1 : getCurrentTerm r1 = ae_Term a).
  { revert E1. unfold setCurrentTerm. destruct (SetUint64 _ _ _) as [[[e|] k]|]; cbn [outcome_bind]; [done| |done].
    by intros [= <-]. }
  set (r1' := set_leader _ r1). change (getCurrentTerm r1' = ae_Term a) in Ht1. clearbody r1'.
  destruct (checkPrevious a r1') as [[ok r2]|] eqn:E2; [|done]. cbn [outcome_bind].
  apply checkPrevious_quiet in E2 as (_ & _ & Ht2 & _). destruct ok; cbn [negb]; [|intros [= _ <-]; congruence].
  destruct (storeEntries a r2) as [[ok r3]|] eqn:E3; [|done]. cbn [outcome_bind].
  apply storeEntries_quiet in E3 as (_ & _ & Ht3 & _). destruct ok; cbn [negb]; [|intros [= _ <-]; congruence].
  destruct (advanceCommit _ _ _ _) as [r4|] eqn:E4; [|done]. cbn [outcome_bind].
  apply advanceCommit_quiet in E4 as (_ & _ & Ht4 & _). intros [= _ <-].
  change (getCurrentTerm r4 = ae_Term a). congruence.
Qed.

(** C36: a heartbeat can make a second leader of its term.  The transport runs heartbeats beside the
    main loop.  When a candidate waits for the vote that completes its quorum and the leader of a newer
    term sends a heartbeat first, the node adopts the newer term; the vote, given for the old term, then
    still makes it leader, because the loop compares the term of a vote with its own only for being
    greater and does not look at its state again: the node leads the term of the heartbeat's sender. *)
Theorem heartbeat_makes_second_leader `{LogStore L} `{StableStore K} env now a (r r1 : Raft L K) answer
    votesNeeded grantedVotes vote :
  getState r = Candidate -> getCurrentTerm r < ae_Term a ->
  processHeartbeat env now (CmdAppend a) r = Return (Some answer, r1) ->
  rvr_Term vote = getCurrentTerm r -> rvr_Granted vote = true -> votesNeeded = grantedVotes + 1 ->
  exists r2, candidateVote votesNeeded vote grantedVotes r1 = Return (votesNeeded, r2) /\
    getState r2 = Leader /\ getCurrentTerm r2 = ae_Term a.
Proof.
  intros _ Hlt. unfold processHeartbeat. destruct (r_shutdown r); [done|].
  destruct (appendEntries env now a r) as [[resp r']|] eqn:E; [|done]. cbn [outcome_bind]. intros [= _ <-] Hv Hg ->.
  apply appendEntries_term in E; [|done]. unfold candidateVote. rewrite E, Hg, Hv.
  destruct (Z.gtb_spec (getCurrentTerm r) (ae_Term a)); [lia|].
  destruct (Z.geb_spec (grantedVotes + 1) (grantedVotes + 1)); [|lia]. by eexists.
Qed.

(** Node [b] votes for [a] in term 1 and its answer is late; [b] then starts an election of its own and
    wins term 2 with the vote of [c]. *)
Definition ex_b : Raft ex_store ex_store :=
  let r := (ex_returns (mkRequestVoteRequest 0 "" 0 0, false, ex_v.2) (electSelf (heartbeatTimeout (100 * Second) ex_v.2))).2 in
  let own := ex_returns (0, r) (candidateVote 2 (mkRequestVoteResponse 2 [] true) 0 r) in
  (ex_returns (0, r) (candidateVote 2 (mkRequestVoteResponse 2 [] true) own.1 own.2)).2.

Definition ex_heartbeat : AppendEntriesRequest := mkAppendEntriesRequest 2 (EncodePeer "b") 0 0 [] 0.

Lemma heartbeat_makes_second_leader_witness :
  getState ex_b = Leader /\ getCurrentTerm ex_b = 2 /\
  exists answer r1 r2, processHeartbeat ex_env 7 (CmdAppend ex_heartbeat) ex_r2 = Return (Some answer, r1) /\
    candidateVote 2 ex_v.1 1 r1 = Return (2, r2) /\ getState r2 = Leader /\ getCurrentTerm r2 = 2.
Proof.
  split; [vm_compute; reflexivity|]. split; [vm_compute; reflexivity|].
  destruct (processHeartbeat ex_env 7 (CmdAppend ex_heartbeat) ex_r2) as [[[answer|] r1]|] eqn:E;
    [|exfalso; apply (f_equal (fun o => match o with Return (Some _, _) => true | _ => false end)) in E;
      vm_compute in E; discriminate..].
  edestruct (heartbeat_makes_second_leader ex_env 7 ex_heartbeat ex_r2 r1 answer 2 1 ex_v.1) as (r2 & H2 & Hs & Ht);
    [vm_compute; reflexivity|vm_compute; reflexivity|exact E|vm_compute; reflexivity|vm_compute; reflexivity|reflexivity|].
  exists answer, r1, r2. split; [reflexivity|]. split; [exact H2|]. split; [exact Hs|exact Ht].
Defined.
