(* ===== verification/RaftMatching.v ===== *)
(** * Raft: log matching in a cluster (internal/raft/raft.go, replication.go)

    A cluster of nodes that elect leaders (RaftElection.v), dispatch entries as leaders, send append
    requests read from their logs, and handle requests that are delivered in any order, any number of
    times or never, while disks fail and nodes restart.  The theorem: two logs that have an entry of
    the same index and term agree on every earlier entry both hold.

    The proof keeps a history: the lists of entries that leaders have built.  A list of the history is
    known by its length and the term of its last entry, since a term has one leader and a leader only
    adds to its log; every log is part of a list of the history, and every request is one cut in two.

    Not covered: snapshots, after which it does not hold ([snapshot_keeps_stale_log]), heartbeats that
    run beside the main loop, and requests read while the log they are read from changes. *)
From S2P Require Import Prelude GoStrings RaftBase Inflight BoltStore Raft RaftElection RaftReplication.
From S2P Require Import RaftStream RaftLeader.

Open Scope string_scope.
Open Scope Z_scope.
Local Open Scope go_scope.

(** ** The cluster *)

(** The nodes of an election cluster and the append requests ever sent. *)
Record LogCluster (L K : Type) := mkLogCluster {
  lc_cluster : Cluster L K;
  lc_appends : list AppendEntriesRequest;
}.
Arguments mkLogCluster {L K}.
Arguments lc_cluster {L K}.
Arguments lc_appends {L K}.

(** The fields of a node that the log depends on. *)
Definition counters {L K} (r : Raft L K) : Z * Z * Z * Z * Z :=
  let s := r_raftState r in
  (rs_lastLogIndex s, rs_lastLogTerm s, rs_lastSnapshotIndex s, rs_commitIndex s, rs_lastApplied s).
Definition log_part {L K} (r : Raft L K) : L * (Z * Z * Z * Z * Z) := (r_logs r, counters r).

Section Cluster.
Context `{LogStoreLaws L} `{StableStoreLaws K}.
Context (env : raftEnv) (members : list string) (conf : RaftConfig).
Implicit Types (r : Raft L K) (c : Cluster L K) (nd : Node L K).

(** What a leader and its streams do besides: apply committed entries, count acknowledgements, check
    the lease, answer futures.  The log is read at most; the node may step down. *)
Definition minor r r' : Prop :=
  same_log r r' /\ r_stable r' = r_stable r /\ same_member r r' /\
  getCurrentTerm r' = getCurrentTerm r /\ steps_down r r' /\
  rs_lastSnapshotIndex (r_raftState r') = rs_lastSnapshotIndex (r_raftState r) /\
  uint64_ok (rs_commitIndex (r_raftState r')) /\ 0 <= rs_lastApplied (r_raftState r').

(** The same election goes on in a node that has changed. *)
Definition changed nd r' : Node L K := mkNode r' (still_candidate r' (nd_election nd)).

Inductive lstep : LogCluster L K -> LogCluster L K -> Prop :=
(** Timers, elections, votes, the end of an office. *)
| lstep_election c c' sent : vstep env c c' -> lstep (mkLogCluster c sent) (mkLogCluster c' sent)
(** A stream reads a request from the log of its node, whatever the node has become since the stream
    was started; it may fail to. *)
| lstep_send c sent n nd term nextIndex lastIndex req r' :
    c_nodes c !! n = Some nd -> uint64_ok term -> 0 < nextIndex -> uint64_ok nextIndex -> uint64_ok lastIndex ->
    setupAppendEntries term nextIndex lastIndex (nd_raft nd) = Return (req, r') ->
    lstep (mkLogCluster c sent)
      (mkLogCluster (update_node n (changed nd r') c)
         match req with inl a => a :: sent | inr _ => sent end)
| lstep_heartbeat c sent n nd s :
    c_nodes c !! n = Some nd -> uint64_ok (fr_currentTerm s) ->
    lstep (mkLogCluster c sent) (mkLogCluster c (heartbeatRequest s (nd_raft nd) :: sent))
(** A node handles a request that was sent, one that leaves the membership as it is. *)
| lstep_append c sent n nd a now resp r' :
    c_nodes c !! n = Some nd -> a ∈ sent -> r_peers r' ≡ₚ r_peers (nd_raft nd) ->
    appendEntries env now a (nd_raft nd) = Return (resp, r') ->
    lstep (mkLogCluster c sent) (mkLogCluster (update_node n (changed nd r') c) sent)
(** A leader appends a batch to its log; it never dispatches an empty one. *)
| lstep_dispatch c sent n nd fs r' :
    c_nodes c !! n = Some nd -> getState (nd_raft nd) = Leader -> fs <> [] ->
    rs_lastLogIndex (r_raftState (nd_raft nd)) + Z.of_nat (length fs) < 2 ^ 64 ->
    dispatchLogs fs (nd_raft nd) = Return r' ->
    lstep (mkLogCluster c sent) (mkLogCluster (update_node n (changed nd r') c) sent)
| lstep_minor c sent n nd r' :
    c_nodes c !! n = Some nd -> minor (nd_raft nd) r' ->
    lstep (mkLogCluster c sent) (mkLogCluster (update_node n (changed nd r') c) sent)
(** The process dies and starts again from its disk, which holds no snapshot. *)
| lstep_restart c sent n nd r' :
    c_nodes c !! n = Some nd ->
    NewRaft conf (r_logs (nd_raft nd)) (r_stable (nd_raft nd)) (mkStaticPeers members) n (inl [])
      = Return (inl r') ->
    lstep (mkLogCluster c sent) (mkLogCluster (update_node n (mkNode r' None) c) sent).

(** The start: new nodes with empty disks, nothing sent. *)
Definition log_init (x : LogCluster L K) : Prop :=
  let c := lc_cluster x in
  (forall n nd, c_nodes c !! n = Some nd -> n ∈ members /\ nd_election nd = None /\
     exists logs k, log_rep logs ∅ /\ conf_rep k ∅ /\
       NewRaft conf logs k (mkStaticPeers members) n (inl []) = Return (inl (nd_raft nd))) /\
  c_msgs c = [] /\ c_votes c = [] /\ c_elected c = [] /\ lc_appends x = [].

Inductive log_reachable : LogCluster L K -> Prop :=
| log_reach_init x : log_init x -> log_reachable x
| log_reach_step x x' : log_reachable x -> lstep x x' -> log_reachable x'.

(** ** The invariant *)

Definition last_term (l : list Log) : Z := default 0 (log_Term <$> last l).

(** The lists leaders have built: entries numbered from 1 as they are stored, with every beginning of
    a list, each known by its length and last term, each of a term that was won. *)
Record history_ok (built : list Log -> Prop) (elected : list (string * Z)) : Prop := {
  hist_numbered l : built l -> consecutive 1 l /\ Forall (fun e => log_peer e = "") l /\ Z.of_nat (length l) < 2 ^ 64;
  hist_nil : built [];
  hist_prefix l k : built l -> built (take k l);
  hist_unique l l' : built l -> built l' -> length l = length l' -> last_term l = last_term l' -> l = l';
  hist_won l : built l -> l <> [] -> exists n, (n, last_term l) ∈ elected;
}.

(** The log of a node is part of the list [l]. *)
Definition log_ok (built : list Log -> Prop) (l : list Log) r : Prop :=
  built l /\
  (exists m, log_rep (r_logs r) m /\
     forall i e, m !! i = Some e -> 1 <= i /\ l !! Z.to_nat (i - 1) = Some e) /\
  rs_lastLogIndex (r_raftState r) = Z.of_nat (length l) /\ rs_lastLogTerm (r_raftState r) = last_term l /\
  rs_lastSnapshotIndex (r_raftState r) = 0 /\
  uint64_ok (rs_commitIndex (r_raftState r)) /\ 0 <= rs_lastApplied (r_raftState r).

(** A leader holds everything its term has built. *)
Definition lead_ok (built : list Log -> Prop) (elected : list (string * Z)) (l : list Log) (n : string) nd : Prop :=
  (forall t, (n, t) ∈ elected -> t <= getCurrentTerm (nd_raft nd)) /\
  (nd_election nd <> None -> (n, getCurrentTerm (nd_raft nd)) ∉ elected) /\
  (getState (nd_raft nd) = Leader -> (n, getCurrentTerm (nd_raft nd)) ∈ elected /\
     forall l', built l' -> l' <> [] -> last_term l' = getCurrentTerm (nd_raft nd) -> (length l' <= length l)%nat).

(** A request is a list of the history, cut in two. *)
Definition request_ok (built : list Log -> Prop) (a : AppendEntriesRequest) : Prop :=
  uint64_ok (ae_Term a) /\ uint64_ok (ae_LeaderCommitIndex a) /\
  exists l0, built (l0 ++ ae_Entries a)%list /\ ae_PrevLogEntry a = Z.of_nat (length l0) /\
    ae_PrevLogTerm a = last_term l0.

Record log_inv (x : LogCluster L K) (built : list Log -> Prop) : Prop := {
  li_cluster : cluster_inv members (lc_cluster x);
  li_history : history_ok built (c_elected (lc_cluster x));
  li_nodes n nd : c_nodes (lc_cluster x) !! n = Some nd ->
    exists l, log_ok built l (nd_raft nd) /\ lead_ok built (c_elected (lc_cluster x)) l n nd;
  li_requests : Forall (request_ok built) (lc_appends x);
}.

(** ** Histories *)

Implicit Types (built : list Log -> Prop) (elected : list (string * Z)) (l : list Log).

Lemma last_term_snoc l e : last_term (l ++ [e]) = log_Term e.
Proof. unfold last_term. by rewrite last_snoc. Qed.

Lemma last_term_take l i e : l !! i = Some e -> last_term (take (S i) l) = log_Term e.
Proof. intros He. by rewrite (take_S_r _ _ _ He), last_term_snoc. Qed.

(** A list that ends with an entry of another is the beginning of the other. *)
Lemma hist_cut built elected l l0 i e :
  history_ok built elected -> built l -> built l0 -> length l0 = S i ->
  l !! i = Some e -> log_Term e = last_term l0 -> l0 = take (S i) l.
Proof.
  intros Hh Hl Hl0 Hlen He Ht. apply (hist_unique _ _ Hh); [done|by apply (hist_prefix _ _ Hh)| |].
  - rewrite length_take. apply lookup_lt_Some in He. lia.
  - by rewrite (last_term_take _ _ _ He).
Qed.

Lemma hist_index built elected l i e :
  history_ok built elected -> built l -> l !! i = Some e -> log_Index e = 1 + Z.of_nat i /\ erase_peer e = e.
Proof.
  intros Hh Hl He. destruct (hist_numbered _ _ Hh _ Hl) as (Hc & Hp & _).
  split; [by apply (consecutive_lookup 1 l)|]. rewrite Forall_lookup in Hp. specialize (Hp _ _ He).
  destruct e. simpl in *. by subst.
Qed.

(** ** What handlers leave of the log *)

Lemma log_ok_part built l r r' : log_part r' = log_part r -> log_ok built l r -> log_ok built l r'.
Proof.
  unfold log_part, counters, log_ok. intros [= -> -> -> -> -> ->]. done.
Qed.

Lemma log_ok_minor built l r r' : minor r r' -> log_ok built l r -> log_ok built l r'.
Proof.
  intros ((Hs & Hi & Ht) & _ & _ & _ & _ & Hsn & Hc & Ha) (Hb & (m & Hm & Hin) & Hli & Hlt & Hl0 & _ & _).
  split; [done|]. split; [exists m; by split; [apply Hs|]|]. by rewrite Hi, Ht, Hsn.
Qed.

Lemma setCurrentTerm_part t r r' : setCurrentTerm t r = Return r' -> log_part r' = log_part r.
Proof.
  unfold setCurrentTerm. destruct (SetUint64 _ _ _) as [[[e|] k]|]; cbn [outcome_bind]; [done| |done].
  by intros [= <-].
Qed.

Lemma persistVote_part t cand r err r' : persistVote t cand r = Return (err, r') -> log_part r' = log_part r.
Proof.
  unfold persistVote. destruct (SetUint64 _ _ _) as [[[e|] k]|]; cbn [outcome_bind]; [by intros [= _ <-]| |done].
  destruct (stable_Set _ _ _) as [[e k']|]; cbn [outcome_bind]; [|done]. by intros [= _ <-].
Qed.

Lemma adopt_part (b : bool) t r x r' :
  (if b then let! r := setCurrentTerm t (setState Follower r) in Return (t, r)
   else Return (getCurrentTerm r, r)) = Return (x, r') -> log_part r' = log_part r.
Proof.
  destruct b; [|by intros [= _ <-]]. destruct (setCurrentTerm _ _) as [r1|] eqn:E; [|done].
  cbn [outcome_bind]. intros [= _ <-]. by rewrite (setCurrentTerm_part _ _ _ E).
Qed.

Lemma requestVote_part now req r resp r' : requestVote env now req r = Return (resp, r') -> log_part r' = log_part r.
Proof.
  unfold requestVote. destruct (encodePeers _ _); [|done]. cbn [outcome_bind]. case_if; [by intros [= _ <-]|]. case_if; [by intros [= _ <-]|].
  destruct (if rv_Term req >? getCurrentTerm r then _ else _) as [[x r1]|] eqn:E1; [|done].
  apply adopt_part in E1. cbn [outcome_bind]. rewrite <- E1. clear E1.
  destruct (GetUint64 _ _) as [[v k]|]; [|done]. cbn [outcome_bind].
  destruct (read_or 0 v); [|by intros [= _ <-]].
  destruct (stable_Get _ _) as [[v' k']|]; [|done]. cbn [outcome_bind].
  destruct (read_or "" v'); [|by intros [= _ <-]]. case_if; [by intros [= _ <-]|].
  destruct (getLastEntry _) as [li lt]. case_if; [by intros [= _ <-]|]. case_if; [by intros [= _ <-]|].
  destruct (persistVote _ _ _) as [[err r2]|] eqn:E2; [|done]. apply persistVote_part in E2. cbn [outcome_bind].
  destruct err; intros [= _ <-]; exact E2.
Qed.

Lemma electSelf_part r req ok r' : electSelf r = Return (req, ok, r') -> log_part r' = log_part r.
Proof.
  unfold electSelf. destruct (setCurrentTerm _ _) as [r1|] eqn:E1; [|done]. cbn [outcome_bind].
  apply setCurrentTerm_part in E1. destruct (getLastEntry _) as [li lt].
  destruct (persistVote _ _ _) as [[err r2]|] eqn:E2; [|done]. apply persistVote_part in E2. cbn [outcome_bind].
  destruct err; intros [= _ _ <-]; congruence.
Qed.

Lemma candidateVote_part needed vote granted r granted' r' :
  candidateVote needed vote granted r = Return (granted', r') -> log_part r' = log_part r.
Proof.
  unfold candidateVote. case_if.
  - destruct (setCurrentTerm _ _) as [r1|] eqn:E1; [|done]. intros [= _ <-]. by rewrite (setCurrentTerm_part _ _ _ E1).
  - case_if; by intros [= _ <-].
Qed.

Lemma heartbeatTimeout_part now r : log_part (heartbeatTimeout now r) = log_part r.
Proof. unfold heartbeatTimeout. by repeat case_if. Qed.

(** ** Sending *)

(** Reading the log keeps what it holds. *)
Definition rereads r r' : Prop :=
  exists logs, r' = set_rlogs logs r /\ forall m, log_rep (r_logs r) m -> log_rep logs m.

Lemma rereads_refl r : rereads r r.
Proof. exists (r_logs r). split; [by destruct r|done]. Qed.

Lemma rereads_trans r1 r2 r3 : rereads r1 r2 -> rereads r2 r3 -> rereads r1 r3.
Proof. intros (l1 & -> & H1') (l2 & -> & H2'). exists l2. split; [done|]. eauto. Qed.

Lemma rereads_GetLog i r v logs :
  uint64_ok i -> GetLog i (r_logs r) = Return (v, logs) -> rereads r (set_rlogs logs r).
Proof. intros Hi E. exists logs. split; [done|]. by eapply GetLog_same. Qed.

Lemma read_logs_rereads n : forall i r v r',
  0 <= i -> i + Z.of_nat n <= 2 ^ 64 -> read_logs n i r = Return (v, r') -> rereads r r'.
Proof.
  induction n as [|n IH]; intros i r v r' H1' H2'; cbn [read_logs]; [intros [= _ <-]; apply rereads_refl|].
  destruct (GetLog i (r_logs r)) as [[w logs]|] eqn:E; [|done]. cbn [outcome_bind].
  apply rereads_GetLog in E; [|unfold uint64_ok; lia]. destruct w as [e|e]; [|by intros [= _ <-]].
  destruct (read_logs n (i + 1) _) as [[ls r1]|] eqn:E1; [|done]. cbn [outcome_bind].
  apply IH in E1; [|lia..]. destruct ls; intros [= _ <-]; by eapply rereads_trans.
Qed.

Lemma setPreviousLog_rereads next r v r' :
  setPreviousLog next r = Return (v, r') -> rereads r r'.
Proof.
  unfold setPreviousLog. case_if; [intros [= _ <-]; apply rereads_refl|].
  case_if; [intros [= _ <-]; apply rereads_refl|].
  destruct (GetLog _ _) as [[w logs]|] eqn:E; [|done]. cbn [outcome_bind].
  apply rereads_GetLog in E; [|by apply Z.mod_pos_bound]. by destruct w; intros [= _ <-].
Qed.

Lemma setNewLogs_range next lastIndex r :
  0 < next -> uint64_ok next -> uint64_ok lastIndex ->
  next + Z.of_nat (Z.to_nat (umin (wrapu64 (next + rc_MaxAppendEntries (r_conf r) - 1)) lastIndex - next + 1)) <= 2 ^ 64.
Proof. unfold uint64_ok. rewrite umin_spec. lia. Qed.

Lemma setupAppendEntries_rereads term next lastIndex r v r' :
  0 < next -> uint64_ok next -> uint64_ok lastIndex ->
  setupAppendEntries term next lastIndex r = Return (v, r') -> rereads r r'.
Proof.
  intros H1' H2' H3'. unfold setupAppendEntries. destruct (setPreviousLog next r) as [[[[pe pt]|e] r1]|] eqn:E1; [| |done];
    cbn [outcome_bind]; apply setPreviousLog_rereads in E1; [|by intros [= _ <-]].
  unfold setNewLogs. destruct (read_logs _ _ _) as [[es r2]|] eqn:E2; [|done]. cbn [outcome_bind].
  apply read_logs_rereads in E2; [|lia|by apply setNewLogs_range].
  destruct es; intros [= _ <-]; by eapply rereads_trans.
Qed.

Lemma log_ok_rereads built l r r' : rereads r r' -> log_ok built l r -> log_ok built l r'.
Proof.
  intros (logs & -> & Hm) (Hb & (m & Hrep & Hin) & Hrest). split; [done|]. split; [|done]. exists m. auto.
Qed.

(** A run of stored entries continues a list. *)
Lemma take_run p n l (es : list Log) :
  length es = n -> (forall k, (k < n)%nat -> es !! k = l !! (p + k)%nat) -> (take p l ++ es)%list = take (p + n) l.
Proof.
  intros Hlen Hes. rewrite <- take_take_drop. f_equal. apply list_eq. intros k.
  destruct (decide (k < n)%nat).
  - rewrite lookup_take_lt, lookup_drop by done. auto.
  - rewrite !lookup_ge_None_2; [done|rewrite length_take; lia|lia].
Qed.

(** What a stream reads is part of the list of its node. *)
Lemma send_ok built elected l r term next lastIndex a r' :
  history_ok built elected -> log_ok built l r -> uint64_ok term -> 0 < next -> uint64_ok next -> uint64_ok lastIndex ->
  setupAppendEntries term next lastIndex r = Return (inl a, r') -> request_ok built a.
Proof.
  intros Hh (Hb & (m & Hrep & Hin) & _ & _ & Hsn & Hc & _) Ht Hn0 Hn Hli. unfold setupAppendEntries.
  assert (Hidx : indexed m).
  { intros i e He. destruct (Hin _ _ He) as [Hi Hl]. destruct (hist_index _ _ _ _ _ Hh Hb Hl). lia. }
  destruct (setPreviousLog next r) as [[[[pe pt]|e] r1]|] eqn:E1; cbn [outcome_bind]; [|done..].
  assert (Hprev : pe = next - 1 /\ pt = last_term (take (Z.to_nat (next - 1)) l) /\ (Z.to_nat (next - 1) <= length l)%nat).
  { revert E1. unfold setPreviousLog. destruct (Z.eqb_spec next 1) as [->|Hne]; [intros [= <- <- _]; split_and!; [done|done|simpl; lia]|].
    unfold uint64_ok in Hn. rewrite wrapu64_id by (unfold uint64_ok; lia). rewrite Hsn.
    destruct (Z.eqb_spec (next - 1) 0); [lia|].
    destruct (GetLog_law (r_logs r) m (next - 1) Hrep) as (v & s' & -> & _ & Hv); [unfold uint64_ok; lia|].
    cbn [outcome_bind]. destruct v as [e|e]; [|done]. intros [= <- <- _].
    rewrite (Hidx _ _ Hv). destruct (Hin _ _ Hv) as [_ Hl]. pose proof (lookup_lt_Some _ _ _ Hl).
    replace (Z.to_nat (next - 1)) with (S (Z.to_nat (next - 1 - 1))) by lia.
    rewrite (last_term_take _ _ _ Hl). split_and!; [done|done|lia]. }
  destruct Hprev as (-> & -> & Hlen). apply setPreviousLog_rereads in E1 as (logs & -> & Hsame).
  unfold setNewLogs. destruct (read_logs _ next _) as [[[es|e] r2]|] eqn:E2; cbn [outcome_bind]; [|done..].
  pose proof (setNewLogs_range next lastIndex r Hn0 Hn Hli) as Hrange. pose proof (read_logs_state _ _ _ _ _ E2) as Hrs.
  apply (read_logs_spec _ _ _ m) in E2 as (_ & Hes & _ & Hlook); [|by apply Hsame|done|lia|exact Hrange].
  intros [= <- _]. split; [done|]. split; [cbn [ae_LeaderCommitIndex]; by rewrite Hrs|].
  exists (take (Z.to_nat (next - 1)) l). cbn [ae_Entries ae_PrevLogEntry ae_PrevLogTerm]. split_and!; [|rewrite length_take; lia|done].
  rewrite (take_run _ _ _ _ eq_refl); [by apply (hist_prefix _ _ Hh)|].
  intros k Hk. rewrite Hes in Hk. specialize (Hlook (next + Z.of_nat k) ltac:(lia)).
  replace (Z.to_nat (next + Z.of_nat k - next)) with k in Hlook by lia.
  destruct (es !! k) as [e|] eqn:Ek; [|apply lookup_ge_None_1 in Ek; lia].
  destruct (Hin _ _ Hlook) as [_ Hl]. symmetry. replace (Z.to_nat (next - 1) + k)%nat with (Z.to_nat (next + Z.of_nat k - 1)) by lia.
  done.
Qed.

(** ** Receiving *)

(** The log of a node, if its fields are known. *)
Lemma log_ok_intro built l r m :
  built l -> log_rep (r_logs r) m -> (forall i e, m !! i = Some e -> 1 <= i /\ l !! Z.to_nat (i - 1) = Some e) ->
  rs_lastLogIndex (r_raftState r) = Z.of_nat (length l) -> rs_lastLogTerm (r_raftState r) = last_term l ->
  rs_lastSnapshotIndex (r_raftState r) = 0 ->
  uint64_ok (rs_commitIndex (r_raftState r)) -> 0 <= rs_lastApplied (r_raftState r) -> log_ok built l r.
Proof. intros. split_and!; try done. by exists m. Qed.

(** An accepted request continues a beginning of the node's list. *)
Lemma checkPrevious_ok built elected l l0 a r b r' :
  history_ok built elected -> log_ok built l r -> built l0 ->
  ae_PrevLogEntry a = Z.of_nat (length l0) -> ae_PrevLogTerm a = last_term l0 ->
  checkPrevious a r = Return (b, r') ->
  log_ok built l r' /\ r_raftState r' = r_raftState r /\ (b = true -> l0 = take (length l0) l).
Proof.
  intros Hh (Hb & (m & Hrep & Hin) & Hli & Hlt & Hsn & Hc & Ha) Hb0 Hpe Hpt E.
  destruct (hist_numbered _ _ Hh _ Hb0) as (_ & _ & Hlen).
  apply (checkPrevious_spec a r m) in E as (Hrep' & Hrs & Hmatch); [|done|rewrite Hpe; unfold uint64_ok; lia].
  split; [apply (log_ok_intro built l r' m); by rewrite ?Hrs|]. split; [done|]. intros Hacc.
  destruct (length l0) as [|k] eqn:Ek; [by apply nil_length_inv in Ek as ->|].
  destruct (Hmatch Hacc) as [Hz|[Hl|(e & He & Ht)]]; [lia| |].
  - unfold getLastEntry in Hl. rewrite Hsn, Hli in Hl. destruct (Z.geb_spec (Z.of_nat (length l)) 0); [|lia].
    injection Hl as Hl1 Hl2. rewrite firstn_all2 by lia. apply (hist_unique _ _ Hh); [done|done|lia|congruence].
  - destruct (Hin _ _ He) as [_ Hl]. eapply (hist_cut built elected l l0 k e); [done..| |congruence].
    by replace (Z.to_nat (ae_PrevLogEntry a - 1)) with k in Hl by lia.
Qed.

(** The entries of a request carry their numbers. *)
Lemma entries_numbered built elected l0 es k e :
  history_ok built elected -> built (l0 ++ es)%list -> es !! k = Some e ->
  log_Index e = 1 + Z.of_nat (length l0) + Z.of_nat k /\ erase_peer e = e.
Proof.
  intros Hh Hb Hk. destruct (hist_index _ _ (l0 ++ es)%list (length l0 + k) e Hh Hb) as [Hi He]; [|split; [lia|done]].
  rewrite lookup_app_r by lia. by replace (length l0 + k - length l0)%nat with k by lia.
Qed.

Lemma entries_consecutive built elected l0 es :
  history_ok built elected -> built (l0 ++ es)%list ->
  consecutive (1 + Z.of_nat (length l0)) es /\ erase_peer <$> es = es.
Proof.
  intros Hh Hb. split; apply list_eq; intros k; rewrite list_lookup_fmap; destruct (es !! k) as [e|] eqn:Ek.
  - destruct (entries_numbered _ _ _ _ _ _ Hh Hb Ek) as [Hi _]. apply lookup_lt_Some in Ek. symmetry. apply lookup_seqZ. lia.
  - symmetry. apply lookup_ge_None_2. apply lookup_ge_None_1 in Ek. rewrite length_seqZ. lia.
  - destruct (entries_numbered _ _ _ _ _ _ Hh Hb Ek) as [_ He]. simpl. by rewrite He.
  - done.
Qed.

(** Clearing the entries from [first] on leaves entries of [l0], or everything on an error. *)
Lemma delete_suffix_ok built elected l l0 first r m err r' :
  history_ok built elected -> built l -> log_rep (r_logs r) m ->
  (forall i e, m !! i = Some e -> 1 <= i /\ l !! Z.to_nat (i - 1) = Some e) ->
  rs_lastLogIndex (r_raftState r) = Z.of_nat (length l) -> first = 1 + Z.of_nat (length l0) -> l0 = take (length l0) l ->
  (if first <=? rs_lastLogIndex (r_raftState r) then
     let! (err, logs) := DeleteRange first (rs_lastLogIndex (r_raftState r)) (r_logs r) in Return (err, set_rlogs logs r)
   else Return (None, r)) = Return (err, r') ->
  exists m', log_rep (r_logs r') m' /\ r_raftState r' = r_raftState r /\
    (forall i e, m' !! i = Some e -> m !! i = Some e) /\
    (err = None -> forall i e, m' !! i = Some e -> 1 <= i /\ l0 !! Z.to_nat (i - 1) = Some e).
Proof.
  intros Hh Hb Hrep Hin Hli Hf Hl0. rewrite Hli.
  assert (Hcut : forall i e, m !! i = Some e -> i <= Z.of_nat (length l0) -> 1 <= i /\ l0 !! Z.to_nat (i - 1) = Some e).
  { intros i e He Hi. destruct (Hin _ _ He) as [Hi1 Hl]. split; [done|]. rewrite Hl0, lookup_take_lt by lia. done. }
  destruct (Z.leb_spec first (Z.of_nat (length l))) as [Hd|Hd].
  - destruct (hist_numbered _ _ Hh _ Hb) as (_ & _ & Hlen).
    destruct (DeleteRange_law (r_logs r) m first (Z.of_nat (length l)) Hrep) as (e & s1 & -> & Hs1);
      [unfold uint64_ok; lia..|]. cbn [outcome_bind]. intros [= <- <-].
    exists (if e is None then delete_logs first (Z.of_nat (length l)) m else m).
    split; [done|]. split; [done|]. destruct e; [by split|]. unfold delete_logs. split.
    + intros i e0 [? _]%map_lookup_filter_Some. done.
    + intros _ i e0 [He Hr]%map_lookup_filter_Some. simpl in Hr. apply Hcut; [done|].
      destruct (Hin _ _ He) as [Hi Hl%lookup_lt_Some]. lia.
  - intros [= <- <-]. exists m. split_and!; [done|done|auto|]. intros _ i e He. apply Hcut; [done|].
    destruct (Hin _ _ He) as [Hi Hl%lookup_lt_Some]. lia.
Qed.

(** Entries after those of [l0]. *)
Lemma stored_after l0 es (m : gmap Z Log) i e :
  (forall i e, m !! i = Some e -> 1 <= i /\ l0 !! Z.to_nat (i - 1) = Some e) ->
  (map_seqZ (1 + Z.of_nat (length l0)) es ∪ m) !! i = Some e ->
  1 <= i /\ (l0 ++ es)%list !! Z.to_nat (i - 1) = Some e.
Proof.
  intros Hm [He|[_ He]]%lookup_union_Some_raw.
  - apply lookup_map_seqZ_Some in He as [Hi He]. split; [lia|]. rewrite lookup_app_r by lia.
    by replace (Z.to_nat (i - 1) - length l0)%nat with (Z.to_nat (i - (1 + Z.of_nat (length l0)))) by lia.
  - destruct (Hm _ _ He) as [Hi Hl]. split; [done|]. by apply lookup_app_l_Some.
Qed.

Lemma entries_ok built elected l0 es :
  history_ok built elected -> built (l0 ++ es)%list -> Forall (fun e => uint64_ok (log_Index e)) es.
Proof.
  intros Hh Hb. destruct (hist_numbered _ _ Hh _ Hb) as (_ & _ & Hlen). rewrite length_app in Hlen.
  apply Forall_lookup. intros k e Hk. destruct (entries_numbered _ _ _ _ _ _ Hh Hb Hk) as [Hi _].
  apply lookup_lt_Some in Hk. unfold uint64_ok. lia.
Qed.

Lemma store_ok built elected l l0 a r b r' :
  history_ok built elected -> log_ok built l r -> built (l0 ++ ae_Entries a)%list -> l0 = take (length l0) l ->
  storeEntries a r = Return (b, r') -> exists l', log_ok built l' r'.
Proof.
  intros Hh Hok Hb0 Hl0. pose proof Hok as (Hb & (m & Hrep & Hin) & Hli & Hlt & Hsn & Hcm & Hap). unfold storeEntries.
  set (es := ae_Entries a) in *. destruct es as [|first es'] eqn:Ees; [intros [= _ <-]; by exists l|]. cbn [head]. rewrite <- Ees in *.
  destruct (last es) as [lst|] eqn:Elast; [|by rewrite Ees, last_None in Elast].
  destruct (entries_numbered _ _ _ _ 0%nat first Hh Hb0 ltac:(by rewrite Ees)) as [Hfirst _]. rewrite Z.add_0_r in Hfirst.
  destruct (entries_numbered _ _ _ _ (pred (length es)) lst Hh Hb0 ltac:(by rewrite <- last_lookup)) as [Hlst _].
  assert (Hne : (0 < length es)%nat) by (rewrite Ees; simpl; lia).
  destruct (if log_Index first <=? _ then _ else _) as [[err r1]|] eqn:E1; [|done]. cbn [outcome_bind].
  apply (delete_suffix_ok built elected l l0 _ _ m) in E1 as (m1 & Hrep1 & Hrs1 & Hsub & Hbelow); [|done..].
  assert (Hkeep : forall r2, r_raftState r2 = r_raftState r -> log_rep (r_logs r2) m1 -> log_ok built l r2).
  { intros r2 Hrs2 Hrep2. apply (log_ok_intro built l r2 m1); rewrite ?Hrs2; try done. intros i e He. apply Hin; auto. }
  destruct err as [e|]; [intros [= _ <-]; exists l; by apply Hkeep|].
  destruct (StoreLogs_law (r_logs r1) m1 es Hrep1 (entries_ok _ _ _ _ Hh Hb0)) as (err & s2 & -> & Hs2).
  cbn [outcome_bind]. destruct err as [e|]; intros [= _ <-]; [exists l; by apply Hkeep|].
  destruct (entries_consecutive _ _ _ _ Hh Hb0) as [Hc He]. rewrite He, (insert_logs_seq _ _ _ Hc) in Hs2.
  exists (l0 ++ es)%list. eapply (log_ok_intro built (l0 ++ es)%list); [done|exact Hs2|..]; simpl; rewrite ?Hrs1; try done.
  - intros i e'. apply stored_after. by apply Hbelow.
  - rewrite length_app, Hlst. lia.
  - unfold last_term. by rewrite last_app, Elast.
Qed.

(** *** Applying entries *)

Lemma processLog_counters now e f pre r b r' : processLog env now e f pre r = Return (b, r') -> counters r' = counters r.
Proof.
  assert (Hresp : forall ch x r0, counters (respond ch x r0) = counters r0).
  { intros ch x r0. by destruct (respond_frame ch x r0) as [q ->]. }
  assert (Hset : forall r0, counters r0 = counters r ->
    counters match f with Some f => if pre then r0 else respond (lf_errCh f) None r0 | None => r0 end = counters r).
  { intros r0 Hq. destruct f as [f|], pre; try done. by rewrite Hresp. }
  unfold processLog. intros E. destruct (log_Type e).
  all: try (destruct (decodePeers _ _) as [ps|]; [|done]; cbn [outcome_bind] in E;
    destruct (applyPeerSet _ _ _ _ _) as [[b' r1]|] eqn:E1; [|done]; injection E as <- <-; apply Hset;
    apply applyPeerSet_frame in E1 as (ps' & store & ls & [->|[->| ->]]);
    [done..|unfold Raft_Shutdown; by case_if]).
  all: try (injection E as <- <-; by apply Hset).
  all: case_if; [destruct f|]; simplify_eq; by rewrite ?Hresp.
Qed.

Lemma process_one_counters now idx f r r' : process_one env now idx f r = Return r' -> counters r' = counters r.
Proof.
  assert (Hst : process_stored env now idx r = Return r' -> counters r' = counters r).
  { unfold process_stored. destruct (GetLog idx (r_logs r)) as [[[e|e] logs]|]; cbn [outcome_bind]; [|done..].
    destruct (processLog _ _ e None false _) as [[b r1]|] eqn:E1; [|done]. intros [= <-].
    by apply processLog_counters in E1. }
  unfold process_one. destruct f as [f|]; [|done]. case_if; [|done].
  destruct (processLog _ _ _ _ _ _) as [[b r1]|] eqn:E1; [|done]. intros [= <-]. by eapply processLog_counters.
Qed.

Lemma process_range_counters now n : forall idx f r r',
  0 <= idx -> 0 <= rs_lastApplied (r_raftState r) -> process_range env now n idx f r = Return r' ->
  0 <= rs_lastApplied (r_raftState r') /\ rs_commitIndex (r_raftState r') = rs_commitIndex (r_raftState r) /\
  rs_lastSnapshotIndex (r_raftState r') = rs_lastSnapshotIndex (r_raftState r).
Proof.
  induction n as [|n IH]; intros idx f r r' Hi Ha; cbn [process_range]; [by intros [= <-]|].
  destruct (process_one _ _ idx f r) as [r1|] eqn:E; [|done]. cbn [outcome_bind].
  apply process_one_counters in E. injection E as _ _ Hs Hc _. intros (H1' & H2' & H3')%IH; [|lia|done].
  cbn [rs_commitIndex rs_lastSnapshotIndex r_raftState upd_raftState rs_setLastApplied] in H2', H3'.
  split_and!; [done|congruence|congruence].
Qed.

Lemma processLogs_ok now index f r r' :
  0 <= rs_lastApplied (r_raftState r) -> uint64_ok index -> processLogs env now index f r = Return r' ->
  same_log r r' /\ 0 <= rs_lastApplied (r_raftState r') /\
  rs_commitIndex (r_raftState r') = rs_commitIndex (r_raftState r) /\
  rs_lastSnapshotIndex (r_raftState r') = rs_lastSnapshotIndex (r_raftState r).
Proof.
  unfold uint64_ok. intros Ha Hi. unfold processLogs.
  destruct (Z.leb_spec index (rs_lastApplied (r_raftState r))); [intros [= <-]; split; [apply same_log_refl|done]|].
  intros E. split; [eapply process_range_same_log; [..|exact E]; lia|]. eapply process_range_counters; [..|exact E]; lia.
Qed.

Lemma advanceCommit_ok built elected now l a r r' :
  history_ok built elected -> log_ok built l r -> uint64_ok (ae_LeaderCommitIndex a) ->
  advanceCommit env now a r = Return r' -> log_ok built l r'.
Proof.
  intros Hh (Hb & (m & Hrep & Hin) & Hli & Hlt & Hsn & Hcm & Hap) Hc E.
  pose proof (advanceCommit_same_log env now a r r' Hap Hc E) as (Hs & Hi & Ht).
  destruct (hist_numbered _ _ Hh _ Hb) as (_ & _ & Hlen).
  apply (log_ok_intro built l r' m); [done|by apply Hs|done|congruence|congruence|..]; revert E; unfold advanceCommit;
    (destruct (_ && _); [|by intros [= <-]]); unfold getLastIndex; rewrite umin_spec, umax_spec, Hli, Hsn; intros E;
    apply processLogs_ok in E as (_ & Ha' & Hc' & Hs'); try done; try (unfold uint64_ok in *; lia).
  - by rewrite Hs'.
  - rewrite Hc'. simpl. unfold uint64_ok in *. lia.
Qed.

Lemma append_ok built elected now l a r resp r' :
  history_ok built elected -> log_ok built l r -> request_ok built a ->
  appendEntries env now a r = Return (resp, r') -> exists l', log_ok built l' r'.
Proof.
  intros Hh Hok (_ & Hc & l0 & Hb0 & Hpe & Hpt). unfold appendEntries.
  case_if; [intros [= _ <-]; by exists l|].
  destruct (if (_ || _ : bool) then _ else _) as [[x r1]|] eqn:E1; [|done]. cbn [outcome_bind].
  apply adopt_part in E1. set (r1' := set_leader _ r1).
  assert (Hok1 : log_ok built l r1') by by apply (log_ok_part built l r).
  assert (Hbl0 : built l0).
  { rewrite <- (take_app_length l0 (ae_Entries a)). by apply (hist_prefix _ _ Hh). }
  destruct (checkPrevious a r1') as [[ok r2]|] eqn:E2; [|done]. cbn [outcome_bind].
  destruct (checkPrevious_ok built elected l l0 a r1' ok r2 Hh Hok1 Hbl0 Hpe Hpt E2) as (Hok2 & _ & Hpre).
  destruct ok; cbn [negb]; [|intros [= _ <-]; by exists l].
  destruct (storeEntries a r2) as [[ok r3]|] eqn:E3; [|done]. cbn [outcome_bind].
  destruct (store_ok built elected l l0 a r2 ok r3 Hh Hok2 Hb0 (Hpre eq_refl) E3) as [l' Hok3].
  destruct ok; cbn [negb]; [|intros [= _ <-]; by exists l'].
  destruct (advanceCommit _ _ _ _) as [r4|] eqn:E4; [|done]. cbn [outcome_bind]. intros [= _ <-].
  exists l'. apply (log_ok_part built l' r4); [done|]. by eapply advanceCommit_ok.
Qed.

(** ** Dispatching *)

Lemma consecutive_app first l l' :
  consecutive first l -> consecutive (first + Z.of_nat (length l)) l' -> consecutive first (l ++ l')%list.
Proof.
  unfold consecutive. intros H1' H2'. rewrite fmap_app, length_app, H1', H2', Nat2Z.inj_add. by rewrite seqZ_app by lia.
Qed.

Lemma consecutive_take first l k : consecutive first l -> consecutive first (take k l).
Proof.
  intros Hc. apply list_eq. intros i. rewrite list_lookup_fmap. destruct (take k l !! i) as [e|] eqn:E.
  - pose proof (lookup_lt_Some _ _ _ E) as Hlt. apply lookup_take_Some in E as [E _].
    simpl. rewrite (consecutive_lookup _ _ _ _ Hc E). symmetry. apply lookup_seqZ. lia.
  - symmetry. apply lookup_ge_None_2. apply lookup_ge_None_1 in E. rewrite length_seqZ. lia.
Qed.

(** The lists that a leader adds when it appends [es] to [l]. *)
Definition extended built l (es : list Log) (l' : list Log) : Prop :=
  built l' \/ exists k, (0 < k <= length es)%nat /\ l' = (l ++ take k es)%list.

Lemma last_term_extended l (es : list Log) t k :
  Forall (fun e => log_Term e = t) es -> (0 < k <= length es)%nat -> last_term (l ++ take k es) = t.
Proof.
  intros Hes Hk. destruct (lookup_lt_is_Some_2 es (pred k)) as [e He]; [lia|].
  replace k with (S (pred k)) by lia. rewrite (take_S_r _ _ _ He), app_assoc, last_term_snoc.
  rewrite Forall_lookup in Hes. eauto.
Qed.

Lemma extended_prefix built elected l es l' k :
  history_ok built elected -> built l -> extended built l es l' -> extended built l es (take k l').
Proof.
  intros Hh Hl [Hb|(j & Hj & ->)]; [left; by apply (hist_prefix _ _ Hh)|].
  destruct (decide (k <= length l)%nat) as [Hk|Hk].
  - left. rewrite take_app_le by lia. by apply (hist_prefix _ _ Hh).
  - right. rewrite take_app_ge by lia. rewrite take_take. eexists. split; [|done]. lia.
Qed.

(** The history of a leader that appends to its log. *)
Lemma extended_ok built elected l es n t :
  history_ok built elected -> built l -> consecutive (1 + Z.of_nat (length l)) es ->
  Forall (fun e => log_peer e = "") es -> Forall (fun e => log_Term e = t) es ->
  Z.of_nat (length l) + Z.of_nat (length es) < 2 ^ 64 -> (n, t) ∈ elected ->
  (forall l', built l' -> l' <> [] -> last_term l' = t -> (length l' <= length l)%nat) ->
  history_ok (extended built l es) elected.
Proof.
  intros Hh Hl Hc Hp Ht Hlen Hn Hmax. destruct (hist_numbered _ _ Hh _ Hl) as (Hcl & Hpl & _).
  assert (Hnew : forall l1 k, built l1 -> (0 < k <= length es)%nat -> length l1 = length (l ++ take k es) ->
    last_term l1 = last_term (l ++ take k es) -> False).
  { intros l1 k Hb Hk Hle Hlt. rewrite (last_term_extended _ _ _ _ Ht Hk) in Hlt. rewrite length_app, length_take in Hle.
    assert (l1 <> []) by (intros ->; simpl in Hle; lia). specialize (Hmax l1 Hb ltac:(done) Hlt). lia. }
  split.
  - intros l' [Hb|(k & Hk & ->)]; [by apply (hist_numbered _ _ Hh)|].
    split; [apply consecutive_app; [done|by apply consecutive_take]|].
    split; [apply Forall_app; split; [done|by apply Forall_take]|]. rewrite length_app, length_take. lia.
  - left. by apply (hist_nil _ _ Hh).
  - intros l' k. by eapply extended_prefix.
  - intros l1 l2 [H1'|(k1 & Hk1 & ->)] [H2'|(k2 & Hk2 & ->)] Hle Hlt.
    + by apply (hist_unique _ _ Hh).
    + exfalso. by eapply (Hnew l1 k2).
    + exfalso. by eapply (Hnew l2 k1).
    + rewrite !length_app, !length_take in Hle. by replace k2 with k1 by lia.
  - intros l' [Hb|(k & Hk & ->)] Hne; [by apply (hist_won _ _ Hh)|]. exists n. by rewrite (last_term_extended _ _ t).
Qed.

Lemma log_ok_mono built built' l r :
  (forall l', built l' -> built' l') -> log_ok built l r -> log_ok built' l r.
Proof. intros Hs (Hb & Hrest). split; [auto|done]. Qed.

Lemma request_ok_mono built built' a :
  (forall l', built l' -> built' l') -> request_ok built a -> request_ok built' a.
Proof. intros Hs (? & ? & l0 & Hb & ? & ?). split_and!; [done..|]. exists l0. auto. Qed.

Lemma respond_all_frame fs e r : exists q, respond_all fs e r = set_responses q r.
Proof.
  revert r. induction fs as [|f fs IH]; intros r; [exists (r_responses r); by destruct r|].
  unfold respond_all. cbn [foldl]. destruct (respond_frame (lf_errCh f) e r) as [q ->].
  destruct (IH (set_responses q r)) as [q' Hq]. exists q'. exact Hq.
Qed.

(** The entries as [dispatchLogs] stores them. *)
Definition dispatched (lastIndex term clusterSize : Z) (fs : list logFuture) : list Log :=
  erase_peer <$> (lf_log <$> number_logs lastIndex term clusterSize fs).

Lemma dispatched_spec lastIndex t cs fs :
  0 <= lastIndex -> lastIndex + Z.of_nat (length fs) < 2 ^ 64 ->
  let es := dispatched lastIndex t cs fs in
  length es = length fs /\ consecutive (1 + lastIndex) es /\
  Forall (fun e => log_peer e = "") es /\ Forall (fun e => log_Term e = t) es /\
  Forall (fun e => uint64_ok (log_Index e)) (lf_log <$> number_logs lastIndex t cs fs).
Proof.
  intros Hl Hlen es.
  assert (Hes : forall k f, number_logs lastIndex t cs fs !! k = Some f ->
    log_Index (lf_log f) = 1 + lastIndex + Z.of_nat k /\ log_Term (lf_log f) = t /\ (k < length fs)%nat).
  { intros k f. unfold number_logs. rewrite list_lookup_imap, fmap_Some. intros (f0 & Hf0 & ->). simpl.
    apply lookup_lt_Some in Hf0. rewrite wrapu64_id by (unfold uint64_ok; lia). split_and!; [lia|done|done]. }
  assert (Hlen' : length es = length fs) by (unfold es, dispatched, number_logs; by rewrite !length_fmap, length_imap).
  split; [done|]. split_and!.
  - assert (Hlook : forall k, es !! k = (fun f => erase_peer (lf_log f)) <$> (number_logs lastIndex t cs fs !! k)).
    { intros k. unfold es, dispatched. rewrite !list_lookup_fmap. by destruct (number_logs _ _ _ _ !! k). }
    apply list_eq. intros k. rewrite list_lookup_fmap, Hlook.
    destruct (number_logs lastIndex t cs fs !! k) as [f|] eqn:E; simpl; symmetry.
    + destruct (Hes _ _ E) as (Hi & _ & Hk). apply lookup_seqZ. lia.
    + apply lookup_ge_None_2. apply lookup_ge_None_1 in E. unfold number_logs in E. rewrite length_imap in E.
      rewrite length_seqZ. lia.
  - apply Forall_fmap, Forall_true. done.
  - unfold es, dispatched. rewrite !Forall_fmap. apply Forall_lookup. intros k f E. by destruct (Hes _ _ E) as (_ & ? & _).
  - rewrite Forall_fmap. apply Forall_lookup. intros k f E. destruct (Hes _ _ E) as (Hi & _ & Hk). simpl.
    rewrite Hi. unfold uint64_ok. lia.
Qed.

(** [dispatchLogs]: the store fails and the node steps down, or the log is extended. *)
Lemma dispatch_ok built l fs r r' :
  log_ok built l r -> fs <> [] -> Z.of_nat (length l) + Z.of_nat (length fs) < 2 ^ 64 ->
  dispatchLogs fs r = Return r' ->
  let es := dispatched (Z.of_nat (length l)) (getCurrentTerm r) (Z.of_nat (length (r_peers r)) + 1) fs in
  r_stable r' = r_stable r /\ same_member r r' /\ getCurrentTerm r' = getCurrentTerm r /\
  ((getState r' = Follower /\ log_ok built l r') \/
   (getState r' = getState r /\ log_ok (extended built l es) (l ++ es)%list r')).
Proof.
  intros Hok Hne Hlen. pose proof Hok as (Hb & (m & Hrep & Hin) & Hli & Hlt & Hsn & Hcm & Hap). unfold dispatchLogs, getLastIndex.
  rewrite umax_spec, Hsn, Hli, Z.max_l by lia. set (cs := Z.of_nat (length (r_peers r)) + 1).
  destruct (dispatched_spec (Z.of_nat (length l)) (getCurrentTerm r) cs fs ltac:(lia) Hlen) as (Hle & Hc & Hp & Ht & Hu).
  set (es := dispatched _ _ _ _) in *. set (futures := number_logs _ _ _ _) in *.
  destruct (StoreLogs_law (r_logs r) m (lf_log <$> futures) Hrep Hu) as (err & s2 & -> & Hs2). cbn [outcome_bind].
  destruct err as [e|].
  { destruct (respond_all_frame futures (Some e) (set_rlogs s2 r)) as [q ->]. intros [= <-].
    split; [done|]. split; [by split|]. split; [done|]. left. split; [done|]. by apply (log_ok_intro built l _ m). }
  destruct (r_leaderState _) as [ls|]; [|done]. destruct (StartAll _ _) as [i|]; [|done]. cbn [outcome_bind]. intros [= <-].
  split; [done|]. split; [by split|]. split; [done|]. right. split; [done|]. fold es in Hs2.
  change (erase_peer <$> (lf_log <$> futures)) with es in Hs2. rewrite (insert_logs_seq _ _ _ Hc) in Hs2.
  assert (Hpos : (0 < length es)%nat) by (rewrite Hle; destruct fs; simpl; [done|lia]). clearbody es.
  eapply (log_ok_intro _ (l ++ es)%list); [|exact Hs2|..]; simpl; try done.
  - right. exists (length es). split; [lia|]. by rewrite firstn_all.
  - intros i' e. by apply stored_after.
  - rewrite wrapu64_id by (unfold uint64_ok; lia). rewrite length_app, Hle. lia.
  - symmetry. rewrite <- (firstn_all es). apply last_term_extended; [done|lia].
Qed.

(** ** Steps of one node *)

(** Only a request that is ignored leaves a leader in office. *)
Lemma append_not_leader now a r resp r' :
  appendEntries env now a r = Return (resp, r') -> r' = r \/ getState r' <> Leader.
Proof.
  unfold appendEntries. case_if; [intros [= _ <-]; by left|].
  destruct (if (_ || _ : bool) then _ else _) as [[x r1]|] eqn:E1; [|done]. cbn [outcome_bind].
  assert (H1' : getState r1 = Follower).
  { revert E1. destruct (_ || _) eqn:Eb.
    - destruct (setCurrentTerm _ _) as [r0|] eqn:E0; [|done]. intros [= _ <-]. revert E0. unfold setCurrentTerm.
      destruct (SetUint64 _ _ _) as [[[e|] k]|]; cbn [outcome_bind]; [done| |done]. by intros [= <-].
    - intros [= _ <-]. apply orb_false_iff in Eb as [_ Eb]. apply negb_false_iff, bool_decide_eq_true in Eb. done. }
  assert (Hend : forall r2, quiet (set_leader (DecodePeer (ae_Leader a)) r1) r2 -> getState r2 <> Leader).
  { intros r2 (_ & _ & _ & [[Hs _]|[Hs|Hs]]); [|by rewrite Hs..]. rewrite Hs. change (getState r1 <> Leader). by rewrite H1'. }
  destruct (checkPrevious _ _) as [[ok1 r2]|] eqn:E2; [|done]. apply checkPrevious_quiet in E2. cbn [outcome_bind].
  destruct ok1; cbn [negb]; [|intros [= _ <-]; right; by apply Hend].
  destruct (storeEntries _ _) as [[ok2 r3]|] eqn:E3; [|done]. apply storeEntries_quiet in E3. cbn [outcome_bind].
  destruct ok2; cbn [negb]; [|intros [= _ <-]; right; apply Hend; eauto using quiet_trans].
  destruct (advanceCommit _ _ _ _) as [r4|] eqn:E4; [|done]. apply advanceCommit_quiet in E4. cbn [outcome_bind].
  intros [= _ <-]. right. change (getState r4 <> Leader). apply Hend. eauto using quiet_trans.
Qed.

(** A node that keeps its role or loses it. *)
Lemma lead_ok_step built elected l l' n nd r' :
  lead_ok built elected l n nd -> getCurrentTerm (nd_raft nd) <= getCurrentTerm r' -> steps_down (nd_raft nd) r' ->
  (getState r' = Leader -> l' = l) -> lead_ok built elected l' n (changed nd r').
Proof.
  intros (Ht & Hel & Hl) Hle Hs Hl'. split_and!; simpl.
  - intros t Hin. specialize (Ht t Hin). lia.
  - unfold still_candidate. case_decide as Hc; [|done]. destruct Hs as [[_ Hs]|[Hs|Hs]]; [|congruence..].
    rewrite Hs. exact Hel.
  - intros HL. destruct Hs as [[Hs1 Hs2]|[Hs|Hs]]; [|congruence..]. rewrite Hs2, (Hl' HL). apply Hl. congruence.
Qed.

(** A step that extends the history, or leaves it, and changes one node. *)
Lemma inv_node_step c sent sent' built built' n nd' l' :
  log_inv (mkLogCluster c sent) built -> (forall l, built l -> built' l) -> history_ok built' (c_elected c) ->
  cluster_inv members (update_node n nd' c) -> log_ok built' l' (nd_raft nd') -> lead_ok built' (c_elected c) l' n nd' ->
  (forall n2 nd2 l2, n2 <> n -> c_nodes c !! n2 = Some nd2 -> lead_ok built (c_elected c) l2 n2 nd2 ->
     lead_ok built' (c_elected c) l2 n2 nd2) ->
  Forall (request_ok built') sent' ->
  log_inv (mkLogCluster (update_node n nd' c) sent') built'.
Proof.
  intros [_ _ Hn _] Hsub Hh Hc Hlog Hlead Hothers Hreq. split; try done. simpl in *. intros n2 nd2.
  destruct (decide (n2 = n)) as [->|Hne].
  - rewrite lookup_insert_eq. intros [= <-]. by exists l'.
  - rewrite lookup_insert_ne by done. intros E. destruct (Hn _ _ E) as (l2 & Hlog2 & Hlead2).
    exists l2. split; [by eapply log_ok_mono|by eapply Hothers].
Qed.

Lemma inv_node c sent sent' built n nd' l' :
  log_inv (mkLogCluster c sent) built -> cluster_inv members (update_node n nd' c) ->
  log_ok built l' (nd_raft nd') -> lead_ok built (c_elected c) l' n nd' -> Forall (request_ok built) sent' ->
  log_inv (mkLogCluster (update_node n nd' c) sent') built.
Proof. intros Hinv Hc Hlog Hlead Hreq. eapply inv_node_step; try done. apply (li_history _ _ Hinv). Qed.

Context (members_nodup : NoDup members) (members_named : "" ∉ members).
Context (no_forced_leader : rc_StartAsLeader conf = false).

Lemma inv_changed c n nd r' :
  cluster_inv members c -> c_nodes c !! n = Some nd -> r_stable r' = r_stable (nd_raft nd) ->
  same_member (nd_raft nd) r' -> getCurrentTerm r' = getCurrentTerm (nd_raft nd) -> steps_down (nd_raft nd) r' ->
  cluster_inv members (update_node n (changed nd r') c).
Proof.
  intros Hinv E Hs Hm Ht Hd. destruct (inv_nodes _ _ Hinv _ _ E) as (_ & _ & _ & (m & vt & Hk & Hdk & Hv) & _).
  eapply (inv_quiet_step members conf members_nodup members_named no_forced_leader c n nd m vt r' m vt); try done.
  split_and!; [by rewrite Hs|by rewrite Ht|apply keeps_votes_refl|lia|done..].
Qed.

Lemma step_send_inv c sent built n nd term next lastIndex req r' :
  log_inv (mkLogCluster c sent) built -> c_nodes c !! n = Some nd -> uint64_ok term -> 0 < next -> uint64_ok next ->
  uint64_ok lastIndex -> setupAppendEntries term next lastIndex (nd_raft nd) = Return (req, r') ->
  log_inv (mkLogCluster (update_node n (changed nd r') c) match req with inl a => a :: sent | inr _ => sent end) built.
Proof.
  intros Hinv E Ht H1' H2' H3' Es. destruct (li_nodes _ _ Hinv _ _ E) as (l & Hlog & Hlead).
  pose proof (setupAppendEntries_rereads _ _ _ _ _ _ H1' H2' H3' Es) as Hr. pose proof Hr as (logs & -> & _).
  apply (inv_node c sent _ built n _ l); [done| |by eapply log_ok_rereads| |].
  - apply inv_changed; [apply (li_cluster _ _ Hinv)|done|done|by split|done|by left].
  - eapply lead_ok_step; [done|done|by left|done].
  - pose proof (li_requests _ _ Hinv) as Hreq. destruct req as [a|e]; [|done]. constructor; [|done].
    exact (send_ok built _ l _ _ _ _ _ _ (li_history _ _ Hinv) Hlog Ht H1' H2' H3' Es).
Qed.

Lemma step_append_inv c sent built n nd a now resp r' :
  log_inv (mkLogCluster c sent) built -> c_nodes c !! n = Some nd -> a ∈ sent -> r_peers r' ≡ₚ r_peers (nd_raft nd) ->
  appendEntries env now a (nd_raft nd) = Return (resp, r') ->
  log_inv (mkLogCluster (update_node n (changed nd r') c) sent) built.
Proof.
  intros Hinv E Ha Hp Ea. destruct (li_nodes _ _ Hinv _ _ E) as (l & Hlog & Hlead).
  pose proof (li_requests _ _ Hinv) as Hreq. pose proof Hreq as Hra. rewrite Forall_forall in Hra. specialize (Hra a Ha).
  destruct (append_ok built _ now l a _ resp r' (li_history _ _ Hinv) Hlog Hra Ea) as [l' Hlog'].
  destruct (inv_nodes _ _ (li_cluster _ _ Hinv) _ _ E) as (_ & _ & _ & (m & vt & Hk & Hd & _) & _).
  destruct (appendEntries_spec env now a _ m vt resp r' Hk Hd (proj1 Hra) Hp Ea) as [m' (_ & _ & _ & Hle & _ & Hs)].
  assert (Hcl : cluster_inv members (update_node n (changed nd r') c)).
  { eapply (inv_append env members conf); [done..|apply (li_cluster _ _ Hinv)|done|exact (proj1 Hra)|done|done]. }
  destruct (append_not_leader now a _ resp r' Ea) as [->|Hnl].
  - apply (inv_node c sent _ built n _ l); try done. by eapply lead_ok_step.
  - apply (inv_node c sent _ built n _ l'); try done. by eapply lead_ok_step.
Qed.

Lemma step_dispatch_inv c sent built n nd fs r' :
  log_inv (mkLogCluster c sent) built -> c_nodes c !! n = Some nd -> getState (nd_raft nd) = Leader -> fs <> [] ->
  rs_lastLogIndex (r_raftState (nd_raft nd)) + Z.of_nat (length fs) < 2 ^ 64 ->
  dispatchLogs fs (nd_raft nd) = Return r' ->
  exists built', log_inv (mkLogCluster (update_node n (changed nd r') c) sent) built'.
Proof.
  intros Hinv E HL Hne Hlen Ed. destruct (li_nodes _ _ Hinv _ _ E) as (l & Hlog & Hlead).
  pose proof Hlog as (Hb & _ & Hli & _). rewrite Hli in Hlen. pose proof Hlead as (Ht & Hel & Hlast).
  destruct (Hlast HL) as [Hwon Hmax]. pose proof (li_history _ _ Hinv) as Hh. simpl in Hh, Hwon.
  destruct (dispatch_ok built l fs _ r' Hlog Hne Hlen Ed) as (Hs & Hm & Htr & Hcase).
  set (es := dispatched _ _ _ _) in Hcase.
  destruct (dispatched_spec (Z.of_nat (length l)) (getCurrentTerm (nd_raft nd))
    (Z.of_nat (length (r_peers (nd_raft nd))) + 1) fs ltac:(lia) Hlen) as (Hle & Hc & Hp & Hterm & _).
  fold es in Hle, Hc, Hp, Hterm. clearbody es.
  destruct Hcase as [[Hf Hlog']|[HL' Hlog']].
  { exists built. apply (inv_node c sent _ built n _ l); [done| |done| |apply (li_requests _ _ Hinv)].
    - apply inv_changed; [apply (li_cluster _ _ Hinv)|done..|by right; left].
    - eapply lead_ok_step; [done|lia|by right; left|done]. }
  exists (extended built l es). eapply (inv_node_step c sent _ built _ n _ (l ++ es)%list); try done.
  - by left.
  - eapply (extended_ok built _ l es n); try done. lia.
  - apply inv_changed; [apply (li_cluster _ _ Hinv)|done..|by left].
  - split_and!; simpl; [by rewrite Htr|..].
    + unfold still_candidate. case_decide; [congruence|done].
    + intros _. rewrite Htr. split; [done|]. intros l' [Hb'|(k & Hk & ->)] Hn' Hlt.
      * specialize (Hmax l' Hb' Hn' Hlt). rewrite length_app. lia.
      * rewrite !length_app, length_take. lia.
  - intros n2 nd2 l2 Hne2 E2 (Ht2 & Hel2 & Hl2). split_and!; [done..|]. intros HL2. destruct (Hl2 HL2) as [Hwon2 Hmax2].
    split; [done|]. intros l' [Hb'|(k & Hk & ->)] Hn' Hlt; [auto|]. exfalso. apply Hne2.
    rewrite (last_term_extended _ _ _ _ Hterm Hk) in Hlt. rewrite <- Hlt in Hwon2.
    exact (elected_once members c n2 n _ (li_cluster _ _ Hinv) Hwon2 Hwon).
  - eapply Forall_impl; [apply (li_requests _ _ Hinv)|]. intros a. apply request_ok_mono. by left.
Qed.

(** *** Elections *)

Lemma inv_view c c' sent built n nd' l' :
  log_inv (mkLogCluster c sent) built -> cluster_inv members c' -> c_nodes c' = <[n := nd']> (c_nodes c) ->
  c_elected c' = c_elected c -> log_ok built l' (nd_raft nd') -> lead_ok built (c_elected c) l' n nd' ->
  log_inv (mkLogCluster c' sent) built.
Proof.
  intros [_ Hh Hn Hreq] Hc Hnodes Hel Hlog Hlead. split; simpl in *; rewrite ?Hel; try done. rewrite Hnodes. intros n2 nd2.
  rewrite lookup_insert_Some. intros [[<- <-]|[_ E]]; [by exists l'|by apply Hn].
Qed.

(** A leader that was just elected finds nothing of its term in the history. *)
Lemma inv_won c c' sent built n nd' l' t :
  log_inv (mkLogCluster c sent) built -> cluster_inv members c' -> c_nodes c' = <[n := nd']> (c_nodes c) ->
  c_elected c' = (n, t) :: c_elected c -> (n, t) ∉ c_elected c -> getCurrentTerm (nd_raft nd') = t -> nd_election nd' = None ->
  (forall t', (n, t') ∈ c_elected c -> t' <= t) -> log_ok built l' (nd_raft nd') -> log_inv (mkLogCluster c' sent) built.
Proof.
  intros [_ Hh Hn Hreq] Hc Hnodes Hel Hnot Ht Hnone Hmax Hlog. split; simpl in *; try done.
  - destruct Hh as [H1' H2' H3' H4' H5']. split; try done. intros l Hl Hne. destruct (H5' l Hl Hne) as [n' Hn'].
    exists n'. rewrite Hel. by right.
  - rewrite Hnodes, Hel. intros n2 nd2. rewrite lookup_insert_Some. intros [[<- <-]|[Hne E]].
    + exists l'. split; [done|]. split_and!; rewrite ?Ht.
      * intros t' [[= ->]|Hin]%elem_of_cons; [done|]. auto.
      * done.
      * intros _. split; [left|]. intros l2 Hl2 Hne2 Hlt. exfalso. apply Hnot.
        destruct (hist_won _ _ Hh _ Hl2 Hne2) as [n' Hn']. rewrite Hlt in Hn'.
        replace n with n'; [done|]. eapply (elected_once members c'); [done|rewrite Hel; by right|rewrite Hel; by left].
    + destruct (Hn _ _ E) as (l2 & Hlog2 & (Ht2 & Hel2 & Hl2)). exists l2. split; [done|]. split_and!.
      * intros t' [[= ]|Hin]%elem_of_cons; [done|]. auto.
      * intros He Hin. apply (Hel2 He). by apply elem_of_cons in Hin as [[= ]|Hin].
      * intros HL. destruct (Hl2 HL) as [Hin Hm2]. split; [by right|done].
Qed.

Lemma step_tally_inv c sent built n nd el v resp granted r' :
  log_inv (mkLogCluster c sent) built -> c_nodes c !! n = Some nd -> nd_election nd = Some el ->
  VoteResponse v (el_req el) resp ∈ c_msgs c -> v ∉ el_voters el ->
  candidateVote (el_needed el) resp (el_granted el) (nd_raft nd) = Return (granted, r') ->
  log_inv (mkLogCluster (record_leader n r' (update_node n (mkNode r' (still_candidate r'
    (Some (mkElection (el_req el) (el_needed el) granted (v :: el_voters el))))) c)) sent) built.
Proof.
  intros Hinv E Eel Hmsg Hv Ecv. destruct (li_nodes _ _ Hinv _ _ E) as (l & Hlog & (Ht & Hel & Hl)).
  pose proof (li_cluster _ _ Hinv) as Hc. simpl in Hc, Ht, Hel.
  assert (Hc' := inv_tally members conf members_nodup members_named no_forced_leader c n nd el v resp granted r' Hc E Eel Hmsg Hv Ecv).
  destruct (inv_nodes _ _ Hc _ _ E) as (_ & _ & _ & (m & vt & Hk & Hd & _) & Hels).
  destruct (Hels el Eel) as [Hst _]. pose proof (inv_msgs _ _ Hc) as Hmsgs. rewrite Forall_forall in Hmsgs.
  destruct (Hmsgs _ Hmsg) as [Hrt _]. pose proof (candidateVote_part _ _ _ _ _ _ Ecv) as Hpart.
  apply (candidateVote_spec _ _ _ _ m vt) in Ecv as (m' & _ & _ & _ & Hle & _ & Hcase); [|done..].
  assert (Hlog' : log_ok built l r') by by apply (log_ok_part built l (nd_raft nd)).
  assert (Hnot : (n, getCurrentTerm (nd_raft nd)) ∉ c_elected c) by (apply Hel; by rewrite Eel).
  set (nd' := mkNode r' _) in *. destruct (decide (getState r' = Leader)) as [HL|HL].
  - destruct Hcase as [Hf|(Htr & _)]; [congruence|].
    eapply (inv_won c _ sent built n nd' l (getCurrentTerm r')); [done|exact Hc'|done|..]; try done.
    + simpl. by rewrite decide_True.
    + by rewrite Htr.
    + unfold nd', still_candidate. simpl. rewrite decide_False; [done|congruence].
    + rewrite Htr. exact Ht.
  - eapply (inv_view c _ sent built n nd' l); [done|exact Hc'|done| |done|].
    + simpl. by rewrite decide_False.
    + split_and!; simpl; [|..|done].
      * intros t Hin. specialize (Ht t Hin). lia.
      * unfold still_candidate. case_decide as Hcd; [|done]. intros _.
        destruct Hcase as [Hf|(-> & _)]; [congruence|done].
Qed.

Lemma step_vote_inv c sent built n nd req now resp r' :
  log_inv (mkLogCluster c sent) built -> c_nodes c !! n = Some nd -> VoteRequest n req ∈ c_msgs c ->
  requestVote env now req (nd_raft nd) = Return (resp, r') ->
  log_inv (mkLogCluster (record_vote (rvr_Granted resp) n req (send [VoteResponse n req resp]
    (update_node n (changed nd r') c))) sent) built.
Proof.
  intros Hinv E Hmsg Er. destruct (li_nodes _ _ Hinv _ _ E) as (l & Hlog & Hlead).
  pose proof (li_cluster _ _ Hinv) as Hc. simpl in Hc.
  assert (Hc' := inv_vote env members conf members_nodup members_named no_forced_leader c n nd req now resp r' Hc E Hmsg Er).
  destruct (inv_nodes _ _ Hc _ _ E) as (_ & _ & _ & (m & vt & Hk & Hd & _) & _).
  pose proof (inv_msgs _ _ Hc) as Hmsgs. rewrite Forall_forall in Hmsgs. destruct (Hmsgs _ Hmsg) as [Hrt Hcand].
  pose proof (requestVote_part _ _ _ _ _ Er) as Hpart.
  apply (requestVote_spec _ _ _ _ m vt) in Er as (m' & vt' & (_ & _ & _ & Hle & _ & Hs) & _); [|done..|].
  2: { intros Heq. by rewrite Heq in Hcand. }
  eapply (inv_view c _ sent built n (changed nd r') l); [done|exact Hc'|done|done| |].
  - by apply (log_ok_part built l (nd_raft nd)).
  - by eapply lead_ok_step.
Qed.

Lemma step_vstep_inv c c' sent built :
  log_inv (mkLogCluster c sent) built -> vstep env c c' -> log_inv (mkLogCluster c' sent) built.
Proof.
  intros Hinv Hstep. pose proof (li_cluster _ _ Hinv) as Hc. simpl in Hc.
  assert (Hc' := inv_vstep env members conf members_nodup members_named no_forced_leader c c' Hc Hstep).
  destruct Hstep as [c n nd now E Hst|c n nd req ok r' E Hst Hmax Ee|c n nd req now resp r' E Hmsg Er
    |c n nd el v resp granted r' E Eel Hmsg Hnew Ecv|c n nd E Hst];
    [| |by eapply step_vote_inv|by eapply step_tally_inv|];
    destruct (li_nodes _ _ Hinv _ _ E) as (l & Hlog & Hlead).
  - eapply (inv_view c _ sent built n _ l); [done|exact Hc'|done|done| |].
    + apply (log_ok_part built l (nd_raft nd)); [apply heartbeatTimeout_part|done].
    + destruct Hlead as (Ht & _ & _). split_and!; simpl; [|done|].
      * intros t Hin. specialize (Ht t Hin). unfold heartbeatTimeout. by repeat case_if.
      * intros HL. exfalso. revert HL. unfold heartbeatTimeout.
        repeat case_if; try done; [by rewrite Hst|change (getState (nd_raft nd) = Leader -> False); by rewrite Hst].
  - destruct (inv_nodes _ _ Hc _ _ E) as (Hn & Ha & _ & (m & vt & Hk & Hd & _) & _).
    pose proof (electSelf_part _ _ _ _ Ee) as Hpart.
    apply (electSelf_spec _ m vt) in Ee as (_ & Ht' & _ & Hst' & _); [|done..|rewrite Ha; by intros ->].
    eapply (inv_view c _ sent built n _ l); [done|exact Hc'|done|by destruct ok| |].
    + by apply (log_ok_part built l (nd_raft nd)).
    + destruct Hlead as (Ht & _ & _). split_and!; simpl; rewrite ?Ht'.
      * intros t Hin. specialize (Ht t Hin). lia.
      * intros _ Hin. specialize (Ht _ Hin). lia.
      * congruence.
  - eapply (inv_view c _ sent built n _ l); [done|exact Hc'|done|done|done|].
    destruct Hlead as (Ht & _ & _). by split_and!.
Qed.

(** *** Restarts *)

Lemma NewRaft_log built elected l logs k ps addr m r' :
  history_ok built elected -> rc_StartAsLeader conf = false -> built l -> log_rep logs m ->
  (forall i e, m !! i = Some e -> 1 <= i /\ l !! Z.to_nat (i - 1) = Some e) ->
  NewRaft conf logs k ps addr (inl []) = Return (inl r') -> exists l', log_ok built l' r'.
Proof.
  intros Hh Hconf Hb Hrep Hin. unfold NewRaft. rewrite Hconf. destruct (ValidateConfig conf); [done|].
  destruct (GetUint64 _ _) as [[t k1]|]; [|done]. cbn [outcome_bind]. destruct (read_or 0 t) as [t'|]; [|done].
  destruct (LastIndex_law logs m Hrep) as (li & logs1 & -> & Hrep1 & Hlast). cbn [outcome_bind].
  destruct li as [li|e]; [|done].
  assert (Hfin : forall l' e logs2, built l' -> log_rep logs2 m -> log_Index e = Z.of_nat (length l') -> log_Term e = last_term l' ->
    (forall i e, m !! i = Some e -> 1 <= i /\ l' !! Z.to_nat (i - 1) = Some e) -> forall r1,
    setCurrentTerm t' (setState Follower (mkRaft (mkRaftState 0 0 0 0 0 0 0 Follower) conf "" addr
      (ExcludePeer (StaticPeers_Peers ps) addr) ps logs2 k1 zero_time [] [] false None ∅ [])) = Return r1 ->
    log_ok built l' (upd_raftState (rs_setLastLog (log_Index e) (log_Term e)) r1)).
  { intros l' e logs2 Hb' Hrep2 Hi Ht Hin' r1 E1. apply setCurrentTerm_part in E1. unfold log_part, counters in E1.
    injection E1 as El _ _ Es Ec Ea. eapply (log_ok_intro built l' _ m); simpl; rewrite ?El, ?Es, ?Ec, ?Ea; try done. }
  destruct (Z.gtb_spec li 0) as [Hpos|Hpos].
  - destruct Hlast as [[_ ->]|[[e0 He0] Hle]]; [lia|].
    destruct (GetLog_law logs1 m li Hrep1) as (v & logs2 & -> & Hrep2 & Hv).
    { destruct (Hin _ _ He0) as [_ Hl%lookup_lt_Some]. destruct (hist_numbered _ _ Hh _ Hb) as (_ & _ & Hlen). unfold uint64_ok. lia. }
    cbn [outcome_bind]. destruct v as [e|e]; [|done]. destruct (setCurrentTerm _ _) as [r1|] eqn:E1; [|done].
    cbn [outcome_bind restoreSnapshot first_restorable]. intros [= <-].
    destruct (Hin _ _ Hv) as [_ Hl]. destruct (hist_index _ _ _ _ _ Hh Hb Hl) as [Hi _]. pose proof (lookup_lt_Some _ _ _ Hl).
    exists (take (Z.to_nat li) l). apply (Hfin _ e logs2); try done.
    + by apply (hist_prefix _ _ Hh).
    + rewrite length_take. lia.
    + replace (Z.to_nat li) with (S (Z.to_nat (li - 1))) by lia. by rewrite (last_term_take _ _ _ Hl).
    + intros i e' He'. destruct (Hin _ _ He') as [Hi1 Hl']. split; [done|].
      rewrite lookup_take_lt; [done|]. specialize (Hle i (mk_is_Some _ _ He')). lia.
  - cbn [outcome_bind]. destruct (setCurrentTerm _ _) as [r1|] eqn:E1; [|done].
    cbn [outcome_bind restoreSnapshot first_restorable]. intros [= <-]. exists [].
    assert (Hm : m = ∅). { destruct Hlast as [[Hm _]|[[e0 He0] _]]; [done|]. destruct (Hin _ _ He0). lia. }
    apply (Hfin [] zeroLog logs1); try done; [by apply (hist_nil _ _ Hh)|]. rewrite Hm. intros i e. by rewrite lookup_empty.
Qed.

Lemma step_restart_inv c sent built n nd r' :
  log_inv (mkLogCluster c sent) built -> c_nodes c !! n = Some nd ->
  NewRaft conf (r_logs (nd_raft nd)) (r_stable (nd_raft nd)) (mkStaticPeers members) n (inl []) = Return (inl r') ->
  log_inv (mkLogCluster (update_node n (mkNode r' None) c) sent) built.
Proof.
  intros Hinv E En. destruct (li_nodes _ _ Hinv _ _ E) as (l & Hlog & (Ht & _ & _)).
  pose proof (li_cluster _ _ Hinv) as Hc. simpl in Hc. destruct Hlog as (Hb & (m & Hrep & Hin) & _).
  destruct (NewRaft_log built _ l _ _ _ _ m r' (li_history _ _ Hinv) no_forced_leader Hb Hrep Hin En) as [l' Hlog'].
  destruct (inv_nodes _ _ Hc _ _ E) as (_ & _ & _ & (mk & vt & Hk & Hd & _) & _).
  destruct (NewRaft_spec _ _ _ _ _ _ mk _ vt _ Hk Hd no_forced_leader En) as (Hst & Ht' & _).
  apply (inv_node c sent _ built n _ l'); [done| |done| |apply (li_requests _ _ Hinv)].
  - by eapply (inv_restart members conf).
  - split_and!; simpl; [|done|congruence]. by rewrite Ht'.
Qed.

Lemma step_minor_inv c sent built n nd r' :
  log_inv (mkLogCluster c sent) built -> c_nodes c !! n = Some nd -> minor (nd_raft nd) r' ->
  log_inv (mkLogCluster (update_node n (changed nd r') c) sent) built.
Proof.
  intros Hinv E Hm. destruct (li_nodes _ _ Hinv _ _ E) as (l & Hlog & Hlead). pose proof Hm as (_ & Hs & Hme & Ht & Hd & _).
  apply (inv_node c sent _ built n _ l); [done| |by eapply log_ok_minor| |apply (li_requests _ _ Hinv)].
  - by apply inv_changed; [apply (li_cluster _ _ Hinv)|..].
  - eapply lead_ok_step; [done|lia|done|done].
Qed.

(** *** All steps *)

Lemma log_inv_step x x' built : log_inv x built -> lstep x x' -> exists built', log_inv x' built'.
Proof.
  intros Hinv Hstep. destruct Hstep as
    [c c' sent Hv|c sent n nd term next li req r' E Ht H1' H2' H3' Es|c sent n nd s E Ht|c sent n nd a now resp r' E Ha Hp Ea
    |c sent n nd fs r' E HL Hne Hlen Ed|c sent n nd r' E Hm|c sent n nd r' E En].
  - exists built. by eapply step_vstep_inv.
  - exists built. exact (step_send_inv c sent built n nd term next li req r' Hinv E Ht H1' H2' H3' Es).
  - exists built. destruct Hinv as [H1' H2' H3' H4']. split; try done. constructor; [|done].
    split; [done|]. split; [done|]. exists []. split_and!; [apply (hist_nil _ _ H2')|done|done].
  - exists built. exact (step_append_inv c sent built n nd a now resp r' Hinv E Ha Hp Ea).
  - by eapply step_dispatch_inv.
  - exists built. by eapply step_minor_inv.
  - exists built. by eapply step_restart_inv.
Qed.

Lemma log_inv_init x : log_init x -> exists built, log_inv x built.
Proof.
  intros (Hn & Hm & Hv & He & Ha). exists (fun l => l = []).
  assert (Hh : history_ok (fun l => l = []) (c_elected (lc_cluster x))).
  { split; try done. - by intros l ->. - intros l k ->. by rewrite take_nil. - by intros l l' -> ->. }
  split; [|done| |by rewrite Ha].
  - apply (inv_init members conf); try done. split_and!; try done. intros n nd E.
    destruct (Hn n nd E) as (Hmem & Hel & logs & k & _ & Hk & En). split_and!; try done. by exists logs, k, (inl []).
  - intros n nd E. destruct (Hn n nd E) as (Hmem & Hel & logs & k & Hrep & Hk & En).
    destruct (NewRaft_log _ _ [] _ _ _ _ ∅ _ Hh no_forced_leader eq_refl Hrep ltac:(intros i e; by rewrite lookup_empty) En)
      as [l Hl].
    assert (Hd : disk_ok ∅ 0 0) by (split_and!; [by left|by left|done|done]).
    destruct (NewRaft_spec _ _ _ _ _ _ ∅ 0 0 _ Hk Hd no_forced_leader En) as (Hst & _).
    exists l. split; [done|]. rewrite He. split_and!; [set_solver|by rewrite Hel|congruence].
Qed.

Lemma log_inv_reachable x : log_reachable x -> exists built, log_inv x built.
Proof. induction 1 as [x Hi|x x' _ [built IH] Hs]; [by apply log_inv_init|by eapply log_inv_step]. Qed.
End Cluster.

(** A read that returns an entry returns what the log holds. *)
Lemma GetLog_holds `{LogStoreLaws L} (s s' : L) m i e :
  log_rep s m -> uint64_ok i -> GetLog i s = Return (inl e, s') -> m !! i = Some e.
Proof.
  intros Hs Hi E. destruct (GetLog_law s m i Hs Hi) as (v & s1 & E1 & _ & Hv). rewrite E in E1. by injection E1 as <- <-.
Qed.

(** C6: log matching.  In a cluster with a fixed membership whose nodes handle one event at a time,
    elect leaders, dispatch entries, read append requests from their logs for followers at any index and
    at any time, and handle those requests in any order, repeated or lost, while disk transactions fail
    and nodes restart, as long as no snapshot is taken: when two nodes can read an entry with the same
    index and the same term from their logs, then at every earlier index at which both can read an
    entry they read the same one. *)
Theorem log_matching `{LogStoreLaws L} `{StableStoreLaws K} env members conf (x : LogCluster L K)
    n1 n2 nd1 nd2 i e1 e2 s1 s2 j f1 f2 s3 s4 :
  NoDup members -> "" ∉ members -> rc_StartAsLeader conf = false -> log_reachable env members conf x ->
  c_nodes (lc_cluster x) !! n1 = Some nd1 -> c_nodes (lc_cluster x) !! n2 = Some nd2 ->
  uint64_ok i -> 0 <= j <= i ->
  GetLog i (r_logs (nd_raft nd1)) = Return (inl e1, s1) -> GetLog i (r_logs (nd_raft nd2)) = Return (inl e2, s2) ->
  log_Term e1 = log_Term e2 ->
  GetLog j (r_logs (nd_raft nd1)) = Return (inl f1, s3) -> GetLog j (r_logs (nd_raft nd2)) = Return (inl f2, s4) ->
  f1 = f2.
Proof.
  intros Hnd Hne Hconf Hr E1 E2 Hi Hj G1 G2 Ht G3 G4. assert (Hj' : uint64_ok j) by (unfold uint64_ok in *; lia).
  apply log_inv_reachable in Hr as [built Hinv]; [|done..]. pose proof (li_history _ _ _ Hinv) as Hh.
  destruct (li_nodes _ _ _ Hinv _ _ E1) as (l1 & (Hb1 & (m1 & Hm1 & Hin1) & _) & _).
  destruct (li_nodes _ _ _ Hinv _ _ E2) as (l2 & (Hb2 & (m2 & Hm2 & Hin2) & _) & _).
  destruct (Hin1 _ _ (GetLog_holds _ _ _ _ _ Hm1 Hi G1)) as [Hi1 L1]. destruct (Hin2 _ _ (GetLog_holds _ _ _ _ _ Hm2 Hi G2)) as [_ L2].
  destruct (Hin1 _ _ (GetLog_holds _ _ _ _ _ Hm1 Hj' G3)) as [Hj1 L3]. destruct (Hin2 _ _ (GetLog_holds _ _ _ _ _ Hm2 Hj' G4)) as [_ L4].
  assert (Heq : take (S (Z.to_nat (i - 1))) l1 = take (S (Z.to_nat (i - 1))) l2).
  { pose proof (lookup_lt_Some _ _ _ L1). eapply (hist_cut built _ l2); [done|done|by apply (hist_prefix _ _ Hh)| |exact L2|].
    - rewrite length_take. lia.
    - by rewrite (last_term_take _ _ _ L1). }
  apply (f_equal (lookup (Z.to_nat (j - 1)))) in Heq. rewrite !lookup_take_lt, L3, L4 in Heq by lia. by injection Heq.
Qed.

(** ** What counts as minor *)

Section Minor.
Context `{LogStoreLaws L} `{StableStore K}.
Context (env : raftEnv).
Implicit Types (r : Raft L K).

(** Bookkeeping on the streams, the tracker and the futures. *)
Lemma minor_fields r r' :
  uint64_ok (rs_commitIndex (r_raftState r)) -> 0 <= rs_lastApplied (r_raftState r) ->
  r_raftState r' = r_raftState r -> r_logs r' = r_logs r -> r_stable r' = r_stable r ->
  r_localAddr r' = r_localAddr r -> r_peers r' = r_peers r -> minor r r'.
Proof.
  intros Hc Ha Hs Hl Hk Hadr Hp. split; [apply same_log_fields; [done|by rewrite Hs..]|].
  split; [done|]. split; [split; [done|by rewrite Hp]|]. unfold getCurrentTerm, steps_down, getState, getCurrentTerm. rewrite Hs.
  split_and!; auto.
Qed.

(** The check of the lease. *)
Lemma checkLeaderLease_minor now r :
  uint64_ok (rs_commitIndex (r_raftState r)) -> 0 <= rs_lastApplied (r_raftState r) -> minor r (checkLeaderLease now r).2.
Proof.
  intros Hc Ha. unfold checkLeaderLease. destruct (foldl _ _ _) as [contacted maxDiff]. case_if; [|by apply minor_fields].
  split_and!; try done. right. by left.
Qed.

(** Committed entries are applied. *)
Lemma commit_loop_minor now fs : forall r r',
  uint64_ok (rs_commitIndex (r_raftState r)) -> 0 <= rs_lastApplied (r_raftState r) ->
  Forall (fun f => uint64_ok (log_Index (lf_log f))) fs -> commit_loop env now fs r = Return r' ->
  quiet r r' /\ same_log r r' /\ rs_lastSnapshotIndex (r_raftState r') = rs_lastSnapshotIndex (r_raftState r) /\
  uint64_ok (rs_commitIndex (r_raftState r')) /\ 0 <= rs_lastApplied (r_raftState r').
Proof.
  induction fs as [|f fs IH]; intros r r' Hc Ha Hfs; cbn [commit_loop].
  { intros [= <-]. split_and!; auto using quiet_refl, same_log_refl. }
  apply Forall_cons in Hfs as [Hf Hfs]. set (r0 := upd_raftState _ r).
  destruct (processLogs _ _ _ _ r0) as [r1|] eqn:E; [|done]. cbn [outcome_bind]. intros E2.
  assert (Hq : quiet r0 r1).
  { revert E. unfold processLogs. case_if; [intros [= <-]; apply quiet_refl|]. apply process_range_quiet. }
  apply (processLogs_ok env now _ (Some f)) in E as (Hs & Ha1 & Hc1 & Hsn1); [|done|done].
  apply IH in E2 as (Hq2 & Hs2 & Hsn2 & Hc2 & Ha2); [|by rewrite Hc1|done|done].
  split_and!; [|..|by rewrite Hsn2, Hsn1|done|done].
  - eapply quiet_trans; [|done]. eapply quiet_trans; [|done]. by apply quiet_same.
  - eapply same_log_trans; [|done]. eapply same_log_trans; [|done]. by apply same_log_fields.
Qed.

Lemma leader_commit_minor now r r' :
  uint64_ok (rs_commitIndex (r_raftState r)) -> 0 <= rs_lastApplied (r_raftState r) ->
  (forall ls, r_leaderState r = Some ls -> Forall (fun f => uint64_ok (log_Index (lf_log f))) (if_committed (ls_inflight ls))) ->
  r_peers r' ≡ₚ r_peers r -> leader_commit env now r = Return r' -> minor r r'.
Proof.
  intros Hc Ha Hfs Hp. unfold leader_commit. destruct (r_leaderState r) as [ls|]; [|intros [= <-]; by apply minor_fields].
  specialize (Hfs ls eq_refl). destruct (if_commitCh (ls_inflight ls)) as [[]|]; try (intros [= <-]; by apply minor_fields).
  unfold Committed. cbn [set_commitCh if_committed]. intros E.
  apply commit_loop_minor in E as ((Hk & Hadr & Ht & Hs) & (Hl & Hli & Hlt) & Hsn & Hc' & Ha'); [|done..].
  split_and!; try done.
Qed.
End Minor.

(** *** A leader that copies its first entries to a follower *)

Definition ex_lead : Raft ex_store ex_store := set_leaderState (Some (newLeaderState 1)) (nd_raft (get_node "a" ex_c5)).
Definition ex_c6 : Cluster ex_store ex_store := update_node "a" (changed (get_node "a" ex_c5) ex_lead) ex_c5.
Definition ex_batch : list logFuture := [newLogFuture 7 LogCommand "x" ""; newLogFuture 8 LogCommand "y" ""].
Definition ex_wrote : Raft ex_store ex_store := ex_returns ex_lead (dispatchLogs ex_batch ex_lead).
Definition ex_c7 : Cluster ex_store ex_store := update_node "a" (changed (get_node "a" ex_c6) ex_wrote) ex_c6.
Definition ex_read : (AppendEntriesRequest + error) * Raft ex_store ex_store :=
  ex_returns (inr (Errorf ""), ex_wrote) (setupAppendEntries 1 1 2 ex_wrote).
Definition ex_copy : AppendEntriesRequest :=
  mkAppendEntriesRequest 1 "a" 0 0 [mkLog 1 1 LogCommand "x" ""; mkLog 2 1 LogCommand "y" ""] 0.
Definition ex_c8 : Cluster ex_store ex_store := update_node "a" (changed (get_node "a" ex_c7) ex_read.2) ex_c7.
Definition ex_took : AppendEntriesResponse * Raft ex_store ex_store :=
  ex_returns (mkAppendEntriesResponse 0 0 false false, ex_v.2) (appendEntries ex_env 9 ex_copy ex_v.2).
Definition ex_c9 : Cluster ex_store ex_store := update_node "b" (changed (get_node "b" ex_c8) ex_took.2) ex_c8.

Lemma ex_log_init : log_init ex_members DefaultConfig (mkLogCluster ex_c0 []).
Proof.
  split; [|done]. intros n nd [Hm ->]%ex_c0_nodes. split; [done|]. split; [done|]. exists (ex_disk []), (ex_disk []).
  split; [exact ex_disk_empty|]. split; [split; [constructor|done]|]. by apply ex_node_new.
Qed.

Lemma ex_c5_log_reachable : log_reachable ex_env ex_members DefaultConfig (mkLogCluster ex_c5 []).
Proof.
  eapply log_reach_step; [|apply lstep_election, ex_vstep5]. eapply log_reach_step; [|apply lstep_election, ex_vstep4].
  eapply log_reach_step; [|apply lstep_election, ex_vstep3]. eapply log_reach_step; [|apply lstep_election, ex_vstep2].
  eapply log_reach_step; [|apply lstep_election, ex_vstep1]. apply log_reach_init, ex_log_init.
Qed.

Lemma ex_c9_log_reachable : log_reachable ex_env ex_members DefaultConfig (mkLogCluster ex_c9 [ex_copy]).
Proof.
  apply (log_reach_step _ _ _ (mkLogCluster ex_c8 [ex_copy])).
  apply (log_reach_step _ _ _ (mkLogCluster ex_c7 [])).
  apply (log_reach_step _ _ _ (mkLogCluster ex_c6 [])).
  apply (log_reach_step _ _ _ (mkLogCluster ex_c5 [])).
  - exact ex_c5_log_reachable.
  - apply (lstep_minor _ _ _ ex_c5 [] "a" (get_node "a" ex_c5) ex_lead); [vm_compute; reflexivity|].
    apply minor_fields; [unfold uint64_ok; vm_compute; intuition discriminate|vm_compute; discriminate|vm_compute; reflexivity..].
  - apply (lstep_dispatch _ _ _ ex_c6 [] "a" (get_node "a" ex_c6) ex_batch ex_wrote);
      [vm_compute; reflexivity|vm_compute; reflexivity|discriminate|vm_compute; reflexivity|vm_compute; reflexivity].
  - apply (lstep_send _ _ _ ex_c7 [] "a" (get_node "a" ex_c7) 1 1 2 (inl ex_copy) ex_read.2);
      [vm_compute; reflexivity|unfold uint64_ok; lia|lia|unfold uint64_ok; lia|unfold uint64_ok; lia|vm_compute; reflexivity].
  - apply (lstep_append _ _ _ ex_c8 [ex_copy] "b" (get_node "b" ex_c8) ex_copy 9 ex_took.1 ex_took.2);
      [vm_compute; reflexivity|set_solver| |vm_compute; reflexivity].
    vm_compute. reflexivity.
Qed.

Lemma log_matching_witness :
  exists s1 s2, GetLog 1 (r_logs (nd_raft (get_node "a" ex_c9))) = Return (inl (mkLog 1 1 LogCommand "x" ""), s1) /\
    forall f, GetLog 1 (r_logs (nd_raft (get_node "b" ex_c9))) = Return (inl f, s2) -> f = mkLog 1 1 LogCommand "x" "".
Proof.
  pose (d := (inl zeroLog, ex_disk []) : (Log + error) * ex_store).
  pose (o := fun i n => ex_returns d (GetLog i (r_logs (nd_raft (get_node n ex_c9))))).
  exists (o 1 "a").2, (o 1 "b").2.
  assert (G3 : GetLog 1 (r_logs (nd_raft (get_node "a" ex_c9))) = Return (inl (mkLog 1 1 LogCommand "x" ""), (o 1 "a").2))
    by (vm_compute; reflexivity).
  split; [exact G3|]. intros f G4. symmetry.
  apply (log_matching ex_env ex_members DefaultConfig (mkLogCluster ex_c9 [ex_copy]) "a" "b" (get_node "a" ex_c9) (get_node "b" ex_c9) 2
    (mkLog 2 1 LogCommand "y" "") (mkLog 2 1 LogCommand "y" "") (o 2 "a").2 (o 2 "b").2 1 _ f (o 1 "a").2 (o 1 "b").2).
  - apply (bool_decide_unpack _). vm_compute. exact I.
  - apply (bool_decide_unpack _). vm_compute. exact I.
  - reflexivity.
  - exact ex_c9_log_reachable.
  - vm_compute. reflexivity.
  - vm_compute. reflexivity.
  - unfold uint64_ok. lia.
  - lia.
  - vm_compute. reflexivity.
  - vm_compute. reflexivity.
  - reflexivity.
  - exact G3.
  - exact G4.
Defined.

(** ** After a snapshot *)

Lemma compactLogs_short `{LogStoreLaws L} `{StableStore K} snapIdx (r : Raft L K) m err r' :
  log_rep (r_logs r) m -> rs_lastLogIndex (r_raftState r) <= rc_TrailingLogs (r_conf r) ->
  compactLogs snapIdx r = Return (err, r') -> log_rep (r_logs r') m /\ r_raftState r' = r_raftState r.
Proof.
  intros Hm Hle. unfold compactLogs. destruct (FirstIndex_law (r_logs r) m Hm) as (v & s' & -> & Hs' & _). cbn [outcome_bind].
  destruct v as [n|e]; [|by intros [= _ <-]]. cbn [r_raftState set_rlogs r_conf].
  destruct (Z.leb_spec (rs_lastLogIndex (r_raftState r)) (rc_TrailingLogs (r_conf r))); [by intros [= _ <-]|lia].
Qed.

Lemma installSnapshot_log `{LogStoreLaws L} `{StableStore K} env now req io (r : Raft L K) m resp err r' :
  log_rep (r_logs r) m -> rs_lastLogIndex (r_raftState r) <= rc_TrailingLogs (r_conf r) ->
  installSnapshot env now req io r = Return (resp, err, r') -> isr_Success resp = true ->
  log_rep (r_logs r') m /\ rs_lastLogIndex (r_raftState r') = rs_lastLogIndex (r_raftState r) /\
  rs_lastApplied (r_raftState r') = is_LastLogIndex req.
Proof.
  intros Hm Hle. unfold installSnapshot. case_if; [by intros [= <- _ _]|].
  destruct (if is_Term req >? getCurrentTerm r then _ else _) as [[x r1]|] eqn:E1; [|done]. cbn [outcome_bind].
  assert (Hr1 : r_logs r1 = r_logs r /\ rs_lastLogIndex (r_raftState r1) = rs_lastLogIndex (r_raftState r) /\ r_conf r1 = r_conf r).
  { revert E1. case_if; [|by intros [= _ <-]]. destruct (setCurrentTerm _ _) as [r0|] eqn:E0; [|done]. intros [= _ <-].
    revert E0. unfold setCurrentTerm. destruct (SetUint64 _ _ _) as [[[e|] k]|]; cbn [outcome_bind]; [done| |done].
    by intros [= <-]. }
  destruct Hr1 as (El & Ei & Ec). destruct (io_create io); [by intros [= <- _ _]|]. destruct (io_copy io); [by intros [= <- _ _]|].
  destruct (negb _); [by intros [= <- _ _]|]. destruct (io_close io); [by intros [= <- _ _]|].
  destruct (io_restore io) as [[e|]|]; [by intros [= <- _ _]| |by intros [= <- _ _]].
  destruct (decodePeers _ _) as [peers|]; [|done]. cbn [outcome_bind]. set (r2 := set_peers _ _ _).
  destruct (compactLogs _ r2) as [[ce r3]|] eqn:E3; [|done]. cbn [outcome_bind]. intros [= <- <- <-] _.
  apply (compactLogs_short _ _ m) in E3 as [Hm3 Hs3]; [|by unfold r2; simpl; rewrite El|unfold r2; simpl; by rewrite Ei, Ec].
  cbn [r_logs r_raftState setLastContact]. rewrite Hs3. unfold r2. by simpl.
Qed.

(** C35: a snapshot does not clear the log.  When a node installs a snapshot beyond its log, which is
    not longer than the number of trailing entries to keep (10240 by default), all its entries stay,
    also those that conflict with what the snapshot stands for; the entries the leader sends next, right
    after the snapshot, are appended behind them.  The log then has an entry of the leader's next to
    entries the leader never had: log matching does not survive snapshots. *)
Theorem snapshot_keeps_stale_log `{LogStoreLaws L} `{StableStore K} env now req io (r : Raft L K) m resp err r'
    now' a resp' r'' :
  log_rep (r_logs r) m -> log_bounded r m -> rs_lastLogIndex (r_raftState r) <= rc_TrailingLogs (r_conf r) ->
  rs_lastLogIndex (r_raftState r) <= is_LastLogIndex req ->
  installSnapshot env now req io r = Return (resp, err, r') -> isr_Success resp = true ->
  ae_Entries a <> [] -> consecutive (is_LastLogIndex req + 1) (ae_Entries a) ->
  ae_PrevLogEntry a = is_LastLogIndex req -> is_LastLogIndex req + 1 + Z.of_nat (length (ae_Entries a)) <= 2 ^ 64 ->
  uint64_ok (ae_LeaderCommitIndex a) ->
  appendEntries env now' a r' = Return (resp', r'') -> aer_Success resp' = true ->
  log_rep (r_logs r'') (map_seqZ (is_LastLogIndex req + 1) (erase_peer <$> ae_Entries a) ∪ m).
Proof.
  intros Hm Hb Hle Hsnap Ei Hs Hne Hc Hprev Hlen Hcm Ea Hs'. pose proof Hb as [Hu Hmax]. unfold uint64_ok in Hu.
  destruct (installSnapshot_log env now req io r m resp err r' Hm Hle Ei Hs) as (Hm' & Hli & Hap).
  destruct (accepted_log env now' a r' m (is_LastLogIndex req + 1) resp' r'') as (Hm'' & _); try done; try lia.
  - unfold log_bounded. by rewrite Hli.
  - rewrite Hprev. unfold uint64_ok. lia.
  - rewrite entries_before_all in Hm''; [done|]. intros i Hi. specialize (Hmax i Hi). lia.
Qed.

(** *** A follower whose entries the leader never had *)

Definition ex_snapshot : InstallSnapshotRequest := mkInstallSnapshotRequest 2 "a" 5 2 "" 9.
Definition ex_snapshot_io : snapshot_io := mkSnapshotIO None 9 None None (Some None).
Definition ex_after_snapshot : AppendEntriesRequest := mkAppendEntriesRequest 2 "a" 5 2 [log_ex 6 2 "w"] 5.

Lemma snapshot_keeps_stale_log_witness :
  exists r' resp' r'' m,
    installSnapshot ex_env 7 ex_snapshot ex_snapshot_io (ex_follower 1 ex_old_log []) =
      Return (mkInstallSnapshotResponse 2 true, None, r') /\
    appendEntries ex_env 8 ex_after_snapshot r' = Return (resp', r'') /\ log_rep (r_logs r'') m /\
    m !! 3 = Some (log_ex 3 1 "z") /\ m !! 5 = None /\ m !! 6 = Some (log_ex 6 2 "w").
Proof.
  destruct (installSnapshot ex_env 7 ex_snapshot ex_snapshot_io (ex_follower 1 ex_old_log [])) as [[[resp err] r']|] eqn:E;
    [|exfalso; apply (f_equal is_return) in E; vm_compute in E; discriminate].
  pose (d := (resp, err, r')).
  assert (Hr : r' = (ex_returns d (installSnapshot ex_env 7 ex_snapshot ex_snapshot_io (ex_follower 1 ex_old_log []))).2)
    by (rewrite E; reflexivity).
  assert (Hs : (resp, err) = (mkInstallSnapshotResponse 2 true, None)).
  { transitivity (ex_returns d (installSnapshot ex_env 7 ex_snapshot ex_snapshot_io (ex_follower 1 ex_old_log []))).1.
    - rewrite E. reflexivity.
    - vm_compute. reflexivity. }
  injection Hs as -> ->.
  destruct (appendEntries ex_env 8 ex_after_snapshot r') as [[resp' r'']|] eqn:E';
    [|exfalso; apply (f_equal is_return) in E'; rewrite Hr in E'; vm_compute in E'; discriminate].
  assert (Hs' : aer_Success resp' = true).
  { replace resp' with (ex_returns (resp', r'') (appendEntries ex_env 8 ex_after_snapshot r')).1 by (rewrite E'; reflexivity).
    rewrite Hr. vm_compute. reflexivity. }
  eexists r', resp', r'', _. split; [reflexivity|]. split; [exact E'|]. split.
  - apply (snapshot_keeps_stale_log ex_env 7 ex_snapshot ex_snapshot_io (ex_follower 1 ex_old_log []) (insert_logs ex_old_log ∅)
             (mkInstallSnapshotResponse 2 true) None r' 8 ex_after_snapshot resp' r'').
    + exact ex_follower_rep.
    + exact ex_old_bounded.
    + cbn. lia.
    + cbn. lia.
    + exact E.
    + reflexivity.
    + discriminate.
    + repeat constructor.
    + reflexivity.
    + cbn. lia.
    + unfold uint64_ok. cbn. lia.
    + exact E'.
    + exact Hs'.
  - split; [vm_compute; reflexivity|]. split; vm_compute; reflexivity.
Defined.
