(* ===== verification/RaftNotify.v ===== *)
(** * Raft: notices of leadership (internal/raft/raft.go: LeaderCh, NotifyCh, runLeader)

    A node tells the application when it becomes leader and when it stops to be: on the channel of
    [LeaderCh], where a notice is dropped unless a receiver waits for it, and on the channel
    [NotifyCh] of the configuration, where the main loop blocks until the notice is taken or the node
    is shut down.  The state is what receivers have got; who is ready when is an argument. *)
From S2P Require Import Prelude.

(** What the receivers of both channels have got, the latest notice last. *)
Record notices := mkNotices {
  no_leaderCh : list bool;
  no_notifyCh : list bool;
}.

(** A send in a [select] with [default]: on an unbuffered channel it happens when a receiver waits. *)
Definition asyncNotifyBool (waiting : bool) (v : bool) (got : list bool) : list bool :=
  if waiting then got ++ [v] else got.

(** How a send on [NotifyCh] ends: a receiver takes the notice, or the node is shut down first. *)
Inductive notify_select := NotifySent | NotifyShutdown.

(** The start of [runLeader].  [notify] is [None] when no channel is configured. *)
Definition notify_acquired (waiting : bool) (notify : option notify_select) (n : notices) : notices :=
  mkNotices (asyncNotifyBool waiting true (no_leaderCh n))
    (match notify with
     | Some NotifySent => no_notifyCh n ++ [true]
     | Some NotifyShutdown | None => no_notifyCh n
     end).

(** The end of the clean-up of [runLeader]; after a shutdown the notice is sent if a receiver waits
    at that moment ([late]). *)
Definition notify_lost (waiting late : bool) (notify : option notify_select) (n : notices) : notices :=
  mkNotices (asyncNotifyBool waiting false (no_leaderCh n))
    (match notify with
     | Some NotifySent => no_notifyCh n ++ [false]
     | Some NotifyShutdown => asyncNotifyBool late false (no_notifyCh n)
     | None => no_notifyCh n
     end).

(** One term of office: who waits on [LeaderCh] at its start and at its end. *)
Definition office (x : bool * bool) (n : notices) : notices :=
  notify_lost x.2 false (Some NotifySent) (notify_acquired x.1 (Some NotifySent) n).

(** Until the shutdown the receiver of [NotifyCh] gets each change of leadership exactly once, in
    order, whatever the receivers of [LeaderCh] do. *)
Lemma notify_complete xs n :
  no_notifyCh (foldl (fun n x => office x n) n xs) = no_notifyCh n ++ concat (replicate (length xs) [true; false]).
Proof.
  revert n. induction xs as [|x xs IH]; intros n; simpl; [by rewrite app_nil_r|].
  rewrite IH. simpl. by rewrite <- !app_assoc.
Qed.

(** A receiver of [LeaderCh] that waits at the start of an office and not at its end believes, until
    the next notice, that the node leads. *)
Lemma leaderCh_stale n : last (no_leaderCh (office (true, false) n)) = Some true.
Proof. unfold office. simpl. by rewrite last_snoc. Qed.
