(* ===== verification/RaftFsm.v ===== *)
(** * Raft: the state machine and its snapshots (internal/raft/raft.go: runFSM, runSnapshots,
    takeSnapshot, restoreSnapshot; fsm.go, snapshot.go, discard_snapshot.go; the Persist of
    pkg/group/fsm_snapshot.go)

    Two more goroutines of a node.  One applies committed entries to the state machine of the
    application and restores or snapshots it between two entries; the other takes snapshots, on a timer
    or on request.  The state machine and the store of snapshots are behind interfaces; the store on
    disk of FileSnapshot.v and the one that keeps nothing are its instances. *)
From S2P Require Import Prelude GoStrings RaftBase Inflight BoltStore GoCrc64 FileSnapshot.
From S2P Require Import Raft RaftElection RaftReplication RaftStream RaftLeader.

Open Scope string_scope.
Open Scope Z_scope.
Local Open Scope go_scope.

(** ** Interfaces *)

(** [SnapshotStore] and [SnapshotSink]. *)
Class SnapshotStore (S Sink : Type) := {
  store_Create : Time -> Z -> Z -> string -> S -> (Sink + error) * S;
  store_List : S -> (list SnapshotMeta + error) * S;
  store_Open : string -> S -> (SnapshotMeta * string + error) * S;
  snk_Write : string -> Sink -> S -> (nat * option error) * Sink * S;
  snk_Close : Sink -> S -> option error * Sink * S;
  snk_Cancel : Sink -> S -> option error * Sink * S;
  snk_ID : Sink -> string;
}.

(** [FSM] and [FSMSnapshot]: a snapshot is the bytes it will be written as, or the error of encoding
    it. *)
Class FSM (F : Type) := {
  app_Apply : Time -> Log -> F -> F;
  app_Snapshot : Time -> F -> ((string + error) + error) * F;
  app_Restore : Time -> string -> F -> option error * F;
}.

(** *** The store on disk *)

(** [FileSnapshotSink.ID]. *)
Definition sink_ID (k : FileSnapshotSink) : string := sm_ID (fm_meta (sk_meta k)).

Definition file_store `{MetaCodec} (retain : Z) : SnapshotStore FS FileSnapshotSink := {|
  store_Create := Create;
  store_List := List_snapshots retain;
  store_Open := Open_snapshot;
  snk_Write := sink_Write;
  snk_Close := sink_Close retain;
  snk_Cancel := sink_Cancel;
  snk_ID := sink_ID;
|}.

(** *** The store that keeps nothing *)

Inductive DiscardSnapshotSink := mkDiscardSink.

Definition discard_Create (_ : Time) (_ _ : Z) (_ : string) (s : unit) : (DiscardSnapshotSink + error) * unit :=
  (inl mkDiscardSink, s).
Definition discard_List (s : unit) : (list SnapshotMeta + error) * unit := (inl [], s).
Definition discard_Open (_ : string) (s : unit) : (SnapshotMeta * string + error) * unit :=
  (inr (Errorf "open is not supported"), s).
Definition discard_Write (b : string) (k : DiscardSnapshotSink) (s : unit)
    : (nat * option error) * DiscardSnapshotSink * unit := ((String.length b, None), k, s).
Definition discard_Close (k : DiscardSnapshotSink) (s : unit)
    : option error * DiscardSnapshotSink * unit := (None, k, s).
Definition discard_ID (_ : DiscardSnapshotSink) : string := "discard".
Definition discard_Cancel (k : DiscardSnapshotSink) (s : unit)
    : option error * DiscardSnapshotSink * unit := (None, k, s).

Definition discard_store : SnapshotStore unit DiscardSnapshotSink := {|
  store_Create := discard_Create;
  store_List := discard_List;
  store_Open := discard_Open;
  snk_Write := discard_Write;
  snk_Close := discard_Close;
  snk_Cancel := discard_Cancel;
  snk_ID := discard_ID;
|}.

(** ** Persisting a snapshot *)

Section Snapshots.
Context {S Sink : Type} {HS : SnapshotStore S Sink} {F : Type} {HF : FSM F}.
Context {L K : Type} {HL : LogStore L} {HK : StableStore K}.
Context (env : raftEnv).
Implicit Types (r : Raft L K) (d : S) (k : Sink).

(** [fsmSnapshot.Persist]: the bytes, then [Close]; any error cancels the sink. *)
Definition Persist (snap : string + error) k d : option error * Sink * S :=
  let failed := fun e k d => let '(_, k, d) := snk_Cancel k d in (Some e, k, d) in
  match snap with
  | inr e => failed e k d
  | inl b =>
      let '((_, err), k, d) := snk_Write b k d in
      match err with
      | Some e => failed e k d
      | None =>
          let '(err, k, d) := snk_Close k d in
          match err with
          | Some e => failed e k d
          | None => (None, k, d)
          end
      end
  end.

(** ** The goroutine of the state machine *)

(** [runFSM]: its own index and term of the last entry, and the state machine. *)
Record fsmLoop := mkFsmLoop {
  fl_lastIndex : Z;
  fl_lastTerm : Z;
  fl_fsm : F;
}.

(** [fsmCommitCh]: the next entry; only commands are applied, a future is answered either way. *)
Definition runFSM_commit (now : Time) (st : fsmLoop) r : fsmLoop * Raft L K :=
  match r_fsmCommitCh r with
  | [] => (st, r)
  | t :: q =>
      let l := ct_log t in
      let f := if bool_decide (log_Type l = LogCommand) then app_Apply now l (fl_fsm st) else fl_fsm st in
      (mkFsmLoop (log_Index l) (log_Term l) f,
       respond (ct_future t ≫= lf_errCh) None (set_fsmCommitCh q r))
  end.

(** [fsmRestoreCh]: the answer to the request. *)
Definition runFSM_restore (now : Time) (id : string) (st : fsmLoop) d : option error * fsmLoop * S :=
  let '(opened, d) := store_Open id d in
  match opened with
  | inr e => (Some (Errorf ("failed to open snapshot " ++ id ++ ": " ++ error_msg e)), st, d)
  | inl (meta, source) =>
      let '(err, f) := app_Restore now source (fl_fsm st) in
      match err with
      | Some e =>
          (Some (Errorf ("failed to restore snapshot " ++ id ++ ": " ++ error_msg e)),
           mkFsmLoop (fl_lastIndex st) (fl_lastTerm st) f, d)
      | None => (None, mkFsmLoop (sm_Index meta) (sm_Term meta) f, d)
      end
  end.

(** What a [reqSnapshotFuture] is filled with. *)
Record snapshot_request := mkSnapshotRequest {
  sq_index : Z;
  sq_term : Z;
  sq_peers : list string;
  sq_snapshot : string + error;
}.

(** [fsmSnapshotCh]. *)
Definition runFSM_snapshot (now : Time) (st : fsmLoop) r : (snapshot_request + error) * fsmLoop :=
  if fl_lastIndex st =? 0 then (inr ErrNothingNewToSnapshot, st)
  else
    let peers := StaticPeers_Peers (r_peerStore r) in
    let '(snap, f) := app_Snapshot now (fl_fsm st) in
    let st := mkFsmLoop (fl_lastIndex st) (fl_lastTerm st) f in
    match snap with
    | inr e => (inr e, st)
    | inl snap => (inl (mkSnapshotRequest (fl_lastIndex st) (fl_lastTerm st) peers snap), st)
    end.

(** ** Taking snapshots *)

(** [takeSnapshot]; [shutdownFirst]: the shutdown channel is closed and chosen. *)
Definition takeSnapshot (now : Time) (shutdownFirst : bool) (st : fsmLoop) r d
    : outcome (option error * fsmLoop * Raft L K * S) :=
  if r_shutdown r && shutdownFirst then Return (Some ErrRaftShutdown, st, r, d)
  else
    let '(req, st) := runFSM_snapshot now st r in
    match req with
    | inr e =>
        Return (Some (if bool_decide (e = ErrNothingNewToSnapshot) then e
                      else Errorf ("failed to start snapshot: " ++ error_msg e)), st, r, d)
    | inl req =>
        let! peerSet := encodePeers (env_encodePeers env) (sq_peers req) in
        let '(sink, d) := store_Create now (sq_index req) (sq_term req) peerSet d in
        match sink with
        | inr e => Return (Some (Errorf ("failed to create snapshot: " ++ error_msg e)), st, r, d)
        | inl k =>
            let '(err, k, d) := Persist (sq_snapshot req) k d in
            match err with
            | Some e =>
                let '(_, _, d) := snk_Cancel k d in
                Return (Some (Errorf ("failed to persist snapshot: " ++ error_msg e)), st, r, d)
            | None =>
                let '(err, k, d) := snk_Close k d in
                match err with
                | Some e => Return (Some (Errorf ("failed to close snapshot: " ++ error_msg e)), st, r, d)
                | None =>
                    let r := upd_raftState (rs_setLastSnapshot (sq_index req) (sq_term req)) r in
                    let! (err, r) := compactLogs (sq_index req) r in
                    Return (err, st, r, d)
                end
            end
        end
    end.

(** [runSnapshots]: the timer, a request, the shutdown channel; [None] ends the loop. *)
Inductive snapshot_event := SnapTimer | SnapRequest (id : nat) | SnapShutdown.

Definition runSnapshots_step (now : Time) (ev : snapshot_event) (shutdownFirst : bool) (st : fsmLoop) r d
    : outcome (option (fsmLoop * Raft L K * S)) :=
  match ev with
  | SnapTimer =>
      let! (due, r) := shouldSnapshot r in
      if due : bool then
        let! (_, st, r, d) := takeSnapshot now shutdownFirst st r d in Return (Some (st, r, d))
      else Return (Some (st, r, d))
  | SnapRequest id =>
      let! (err, st, r, d) := takeSnapshot now shutdownFirst st r d in
      Return (Some (st, respond (Some id) err r, d))
  | SnapShutdown => Return (if r_shutdown r then None else Some (st, r, d))
  end.

(** ** Restart *)

(** The loop of [restoreSnapshot] over the snapshots of the store, newest first. *)
Fixpoint restore_loop (now : Time) (snapshots : list SnapshotMeta) (f : F) d
    : option SnapshotMeta * F * S :=
  match snapshots with
  | [] => (None, f, d)
  | m :: snapshots =>
      let '(opened, d) := store_Open (sm_ID m) d in
      match opened with
      | inr _ => restore_loop now snapshots f d
      | inl (_, source) =>
          let '(err, f) := app_Restore now source f in
          match err with
          | Some _ => restore_loop now snapshots f d
          | None => (Some m, f, d)
          end
      end
  end.

Definition restoreSnapshot_from (now : Time) (f : F) r d : option error * F * Raft L K * S :=
  let '(listed, d) := store_List d in
  match listed with
  | inr e => (Some e, f, r, d)
  | inl snapshots =>
      let '(m, f, d) := restore_loop now snapshots f d in
      match m with
      | Some m =>
          (None, f, upd_raftState (rs_setLastSnapshot (sm_Index m) (sm_Term m))
                      (upd_raftState (rs_setLastApplied (sm_Index m)) r), d)
      | None =>
          match snapshots with
          | [] => (None, f, r, d)
          | _ => (Some (Errorf "failed to load any existing snapshots"), f, r, d)
          end
      end
  end.
End Snapshots.
Arguments fsmLoop : clear implicits.
Arguments mkFsmLoop {F}.
Arguments fl_lastIndex {F}.
Arguments fl_lastTerm {F}.
Arguments fl_fsm {F}.

(** ** From a snapshot to the next start *)

Lemma sorted_head {A} (R : A -> A -> Prop) (l : list A) x :
  Sorted R l -> x ∈ l -> (forall y, y ∈ l -> y <> x -> ~ R y x) -> (forall y : A, y = x \/ y <> x) -> head l = Some x.
Proof.
  intros Hs. induction Hs as [|a l Hs IH Hd]; intros Hx HR Hdec; [by apply elem_of_nil in Hx|]. simpl.
  destruct (Hdec a) as [->|Hne]; [done|]. exfalso.
  assert (Hh : head l = Some x).
  { apply IH; [set_solver| |done]. intros y Hy. apply HR. set_solver. }
  destruct l as [|b l]; [done|]. injection Hh as ->. inversion Hd as [|? ? Hab]. by apply (HR a); [set_solver|..].
Qed.

Lemma list_loop_head retain metas : forall m acc, exists l, list_loop retain metas (m :: acc) = m :: l.
Proof.
  induction metas as [|x metas IH]; intros m acc; simpl; [by eexists|]. case_if; [by eexists|]. apply IH.
Qed.

Lemma sink_Close_closed `{MetaCodec} retain k s e k' s' :
  sink_Close retain k s = (e, k', s') -> sk_closed k' = true.
Proof.
  unfold sink_Close. destruct (sk_closed k) eqn:Hc; [by intros [= _ <- _]|].
  assert (Hfin : forall k0 s0 e0 k1 s1, finalize k0 s0 = (e0, k1, s1) -> sk_closed k0 = true -> sk_closed k1 = true).
  { intros k0 s0 e0 k1 s1. unfold finalize, bufio_Flush, multi_Write. intros E H0. repeat case_match; simplify_eq/=; done. }
  destruct (finalize _ _) as [[err k1] s1] eqn:Ef. apply Hfin in Ef; [|done].
  destruct err; [by intros [= _ <- _]|]. destruct (writeMeta _ _) as [[?|] ?]; [by intros [= _ <- _]|].
  destruct (os_Rename _ _ _) as [[?|] ?]; [by intros [= _ <- _]|].
  destruct (ReapSnapshots _ _). by intros [= _ <- _].
Qed.

(** A snapshot newer than every other one of the store is listed first, whatever is reaped. *)
Lemma newest_is_first (retain : Z) (old all l : list fileSnapshotMeta) new :
  0 < retain -> (forall x, x ∈ old -> meta_Less x new = true) -> all ≡ₚ new :: old ->
  Sorted meta_newer l -> l ≡ₚ take (Z.to_nat retain) (merge_sort meta_newer all) -> head l = Some new.
Proof.
  intros Hret Hnewest Hall Hsort Hl.
  assert (Hin : forall x, x ∈ all -> x <> new -> ~ meta_newer x new).
  { intros x Hx Hne. rewrite Hall in Hx. apply elem_of_cons in Hx as [->|Hx]; [done|].
    unfold meta_newer. by rewrite (Hnewest x Hx). }
  assert (Hdec : forall y, y = new \/ y <> new) by (intros y; destruct (decide (y = new)); auto).
  assert (Hsm : head (merge_sort meta_newer all) = Some new).
  { apply (sorted_head meta_newer); [apply Sorted_merge_sort, _| | |done].
    - rewrite merge_sort_Permutation, Hall. set_solver.
    - intros y Hy. apply Hin. by rewrite merge_sort_Permutation in Hy. }
  apply (sorted_head meta_newer); [done| | |done].
  - rewrite Hl. destruct (merge_sort meta_newer all) as [|x xs]; [done|]. injection Hsm as ->.
    destruct (Z.to_nat retain) eqn:E; [lia|]. simpl. set_solver.
  - intros y Hy. apply Hin. rewrite Hl in Hy. apply elem_of_take in Hy as (i & Hy & _).
    apply list_elem_of_lookup_2 in Hy. by rewrite merge_sort_Permutation in Hy.
Qed.

(** Compaction returns and leaves the protocol's own state alone. *)
Lemma compactLogs_returns `{LogStoreLaws L} {K} (r : Raft L K) (m : gmap Z Log) i :
  log_rep (r_logs r) m -> (forall i, is_Some (m !! i) -> uint64_ok i) -> uint64_ok i ->
  uint64_ok (rs_lastLogIndex (r_raftState r)) -> uint64_ok (rc_TrailingLogs (r_conf r)) ->
  exists err r', compactLogs i r = Return (err, r') /\ r_raftState r' = r_raftState r.
Proof.
  intros Hm Hdom Hix Hll Htl. unfold compactLogs.
  destruct (FirstIndex_law (r_logs r) m Hm) as (v & sl & -> & Hsl & Hv). cbn [outcome_bind].
  destruct v as [minLog|e]; [|by eexists _, _]. cbn [set_rlogs r_raftState r_conf r_logs].
  case_if; [by eexists _, _|]. zbool. unfold uint64_ok in Hll, Htl, Hix.
  assert (Hmin : uint64_ok minLog) by (destruct Hv as [[_ ->]|[Hmin _]]; [done|by apply Hdom]).
  destruct (DeleteRange_law sl m minLog (umin i (wrapu64
    (rs_lastLogIndex (r_raftState r) - rc_TrailingLogs (r_conf r)))) Hsl Hmin) as (e1 & s3 & -> & _).
  { rewrite umin_spec, wrapu64_id by (unfold uint64_ok; simpl in *; lia). unfold uint64_ok. simpl in *. lia. }
  cbn [outcome_bind]. destruct e1; by eexists _, _.
Qed.

(** A state machine writes [b]; the next start reads [b] back. *)
Lemma snapshot_restart `{MetaCodecLaws} `{FSM F} `{LogStoreLaws L} `{StableStore K} env retain ops faults ks
    (s : FS) now (st : fsmLoop F) (r : Raft L K) (m : gmap Z Log) peers b :
  app_Snapshot now (fl_fsm st) = (inl (inl b), fl_fsm st) ->
  Forall snap_op_ok ops -> NoDup (omap op_name ops) ->
  run_snap_ops retain ops ([], mkFS ∅ faults) = (ks, s) -> fs_faults s = [] -> 0 < retain ->
  let n := snapshotName now (fl_lastTerm st) (fl_lastIndex st) in
  n ∉ omap op_name ops ->
  (forall old, old ∈ metas_of (fs_nodes s) ->
     meta_Less old (mkFileSnapshotMeta (mkSnapshotMeta n (fl_lastIndex st) (fl_lastTerm st) "" 0) "") = true) ->
  fl_lastIndex st <> 0 -> uint64_ok (fl_lastIndex st) -> uint64_ok (fl_lastTerm st) ->
  env_encodePeers env (StaticPeers_Peers (r_peerStore r)) = inl peers ->
  log_rep (r_logs r) m -> (forall i, is_Some (m !! i) -> uint64_ok i) ->
  uint64_ok (rs_lastLogIndex (r_raftState r)) -> uint64_ok (rc_TrailingLogs (r_conf r)) ->
  exists err r' s',
    takeSnapshot (HS := file_store retain) env now false st r s = Return (err, st, r', s') /\
    (rs_lastSnapshotIndex (r_raftState r'), rs_lastSnapshotTerm (r_raftState r')) =
      (fl_lastIndex st, fl_lastTerm st) /\
    forall (r0 : Raft L K) later (g g' : F), app_Restore later b g = (None, g') ->
      exists r0', restoreSnapshot_from (HS := file_store retain) later g r0 s' = (None, g', r0', s') /\
      rs_lastApplied (r_raftState r0') = fl_lastIndex st /\
      (rs_lastSnapshotIndex (r_raftState r0'), rs_lastSnapshotTerm (r_raftState r0')) =
        (fl_lastIndex st, fl_lastTerm st).
Proof.
  intros Esnap Hok Hnd Hrun Hcalm Hret n Hfresh Hnewest Hnz Hix Htm Henc Hm Hdom Hll Htl.
  destruct (snapshot_cycle retain ops faults ks s now (fl_lastIndex st) (fl_lastTerm st) peers [b] Hok Hnd Hrun Hcalm Hfresh Hix Htm)
    as (k0 & s0 & k1 & s1 & k2 & s2 & all & l & Ecr & Ewr & Ecl & Hall & Eget & Hsort & Hl & Hopen).
  fold n in Hall, Hopen. set (new := sealed_meta _ _) in *.
  assert (Hnew : head l = Some new).
  { eapply (newest_is_first retain (metas_of (fs_nodes s))); done. }
  destruct l as [|new' l]; [done|]. injection Hnew as ->.
  specialize (Hopen ltac:(set_solver)). change (concat_all [b]) with (b ++ "") in Hopen. rewrite str_app_nil_r in Hopen.
  set (r1 := upd_raftState (rs_setLastSnapshot (fl_lastIndex st) (fl_lastTerm st)) r).
  destruct (compactLogs_returns r1 m (fl_lastIndex st)) as (err & r' & Ecomp & Hst'); try done.
  exists err, r', s2. split; [|split].
  - unfold takeSnapshot. rewrite andb_false_r. unfold runFSM_snapshot. rewrite (proj2 (Z.eqb_neq _ _)) by done.
    rewrite Esnap. cbn [sq_peers sq_index sq_term sq_snapshot fl_lastIndex fl_lastTerm].
    unfold encodePeers. rewrite list_fmap_id, Henc. cbn [outcome_bind]. cbn [file_store store_Create]. rewrite Ecr.
    unfold Persist. cbn [file_store snk_Write]. cbn [write_all] in Ewr.
    destruct (sink_Write b k0 s0) as [[[nb e] k1'] s1']. destruct e; [done|]. injection Ewr as -> ->.
    cbn [file_store snk_Close]. rewrite Ecl.
    assert (Hc2 : sink_Close retain k2 s2 = (None, k2, s2)) by (unfold sink_Close; by rewrite (sink_Close_closed _ _ _ _ _ _ Ecl)).
    rewrite Hc2. fold r1. rewrite Ecomp. by destruct st.
  - by rewrite Hst'.
  - intros r0 later g g' Erest. unfold restoreSnapshot_from. cbn [file_store store_List]. unfold List_snapshots. rewrite Eget.
    cbn [list_loop app length]. destruct (list_loop_head retain l (fm_meta new) []) as [tl Etl].
    assert (Hlist : exists tl, (if Z.of_nat 1 =? retain then [fm_meta new] else list_loop retain l [fm_meta new]) = fm_meta new :: tl).
    { case_if; eauto. }
    destruct Hlist as [tl' ->]. cbn [restore_loop file_store store_Open].
    change (sm_ID (fm_meta new)) with n. rewrite Hopen, Erest. by eexists.
Qed.

(** C17: a snapshot comes back as it was written.  A node whose state machine has applied entries up to
    [lastIndex] takes a snapshot into the store on disk (after any history of the store; the disk works
    now; the new snapshot is newer than those in the store).  It returns and records the index and the term of
    the last entry the state machine has applied; the next start of a node from that store hands to the
    state machine, in whatever state, exactly the bytes that the state machine wrote for the snapshot, and
    when it accepts them resumes after that entry, with the state it made of them.  Whether that is the
    state at the time of the snapshot is up to the state machine's own encoding, and for freno's it is not
    (C37). *)
Theorem snapshot_recovers `{MetaCodecLaws} `{FSM F} `{LogStoreLaws L} `{StableStore K} env retain ops faults ks
    (s : FS) now (st : fsmLoop F) (r : Raft L K) (m : gmap Z Log) peers written :
  app_Snapshot now (fl_fsm st) = (inl (inl written), fl_fsm st) ->
  Forall snap_op_ok ops -> NoDup (omap op_name ops) ->
  run_snap_ops retain ops ([], mkFS ∅ faults) = (ks, s) -> fs_faults s = [] -> 0 < retain ->
  let n := snapshotName now (fl_lastTerm st) (fl_lastIndex st) in
  n ∉ omap op_name ops ->
  (forall old, old ∈ metas_of (fs_nodes s) ->
     meta_Less old (mkFileSnapshotMeta (mkSnapshotMeta n (fl_lastIndex st) (fl_lastTerm st) "" 0) "") = true) ->
  fl_lastIndex st <> 0 -> uint64_ok (fl_lastIndex st) -> uint64_ok (fl_lastTerm st) ->
  env_encodePeers env (StaticPeers_Peers (r_peerStore r)) = inl peers ->
  log_rep (r_logs r) m -> (forall i, is_Some (m !! i) -> uint64_ok i) ->
  uint64_ok (rs_lastLogIndex (r_raftState r)) -> uint64_ok (rc_TrailingLogs (r_conf r)) ->
  exists err r' s',
    takeSnapshot (HS := file_store retain) env now false st r s = Return (err, st, r', s') /\
    (rs_lastSnapshotIndex (r_raftState r'), rs_lastSnapshotTerm (r_raftState r')) =
      (fl_lastIndex st, fl_lastTerm st) /\
    forall (r0 : Raft L K) later (g g' : F), app_Restore later written g = (None, g') ->
      exists r0', restoreSnapshot_from (HS := file_store retain) later g r0 s' = (None, g', r0', s') /\
        rs_lastApplied (r_raftState r0') = fl_lastIndex st /\
        (rs_lastSnapshotIndex (r_raftState r0'), rs_lastSnapshotTerm (r_raftState r0')) =
          (fl_lastIndex st, fl_lastTerm st).
Proof. apply snapshot_restart. Qed.

(** A state machine that is a string: an entry appends to it, a snapshot is the string. *)
#[local] Instance string_fsm : FSM string := {|
  app_Apply _ l f := (f ++ log_Data l)%string;
  app_Snapshot _ f := (inl (inl f), f);
  app_Restore _ b _ := (None, b);
|}.

Definition fsm_ops_ex : list snap_op := [OpCreate (7 * Millisecond) 2 1 "p"; OpWrite 0 "x"; OpClose 0].
Definition fsm_run_ex : sinks * FS := run_snap_ops 2 fsm_ops_ex ([], mkFS ∅ []).

Lemma snapshot_recovers_witness :
  exists err r' s',
    takeSnapshot (HS := file_store 2) ex_env (9 * Millisecond) false (mkFsmLoop 3 2 "xuv") ex_leader fsm_run_ex.2
      = Return (err, mkFsmLoop 3 2 "xuv", r', s') /\
    (rs_lastSnapshotIndex (r_raftState r'), rs_lastSnapshotTerm (r_raftState r')) = (3, 2) /\
    exists r0', restoreSnapshot_from (HS := file_store 2) (20 * Millisecond) "old" (ex_node "a") s' = (None, "xuv", r0', s') /\
      rs_lastApplied (r_raftState r0') = 3 /\
      (rs_lastSnapshotIndex (r_raftState r0'), rs_lastSnapshotTerm (r_raftState r0')) = (3, 2).
Proof.
  destruct (snapshot_recovers ex_env 2 fsm_ops_ex [] fsm_run_ex.1 fsm_run_ex.2 (9 * Millisecond) (mkFsmLoop 3 2 "xuv") ex_leader
           (insert_logs ex_leader_log ∅) "" "xuv") as (err & r' & s' & Ht & Hs & Hr).
  - reflexivity.
  - by repeat constructor.
  - apply (bool_decide_unpack _). vm_compute. exact I.
  - vm_compute. reflexivity.
  - vm_compute. reflexivity.
  - done.
  - apply (bool_decide_unpack _). vm_compute. exact I.
  - intros old Hold.
    assert (Ho : old = sealed_meta (mkFileSnapshotMeta (mkSnapshotMeta "1-2-7" 2 1 "p" 0) "") "x").
    { assert (Em : metas_of (fs_nodes fsm_run_ex.2) = [sealed_meta (mkFileSnapshotMeta (mkSnapshotMeta "1-2-7" 2 1 "p" 0) "") "x"])
        by (vm_compute; reflexivity).
      rewrite Em in Hold. by apply list_elem_of_singleton in Hold. }
    subst old. reflexivity.
  - discriminate.
  - done.
  - done.
  - reflexivity.
  - exact ex_leader_rep.
  - intros i Hi. simpl in Hi. repeat (apply lookup_insert_is_Some' in Hi as [<-|Hi]; [done|]).
    rewrite lookup_empty in Hi. by destruct Hi.
  - done.
  - done.
  - exists err, r', s'. split; [exact Ht|]. split; [exact Hs|]. apply Hr. reflexivity.
Defined.
