(* ===== verification/RaftAnswers.v ===== *)
(** * Raft: what the answer to a command means (internal/raft/raft.go, future.go)

    A command is handed to the node as a future.  This file follows that future through the tracker of
    the leader, the application of committed entries and the queue of the state machine: it is answered
    with success only by the goroutine of the state machine, in the step that applies the command.  The
    main goroutine, the acknowledgements of the streams, confirmations of leadership and the goroutine
    of the state machine interleave in any order. *)
From S2P Require Import Prelude GoStrings RaftBase Inflight BoltStore FileSnapshot.
From S2P Require Import Raft RaftElection RaftReplication RaftStream RaftLeader RaftFsm.

Open Scope string_scope.
Open Scope Z_scope.
Local Open Scope go_scope.

(** ** The course of a command *)

Create HintDb course.

(** The future [id] stands for the command [cmd]. *)
Section Course.
Context (id : nat) (cmd : string).

Definition is_cmd (l : Log) : Prop := log_Type l = LogCommand /\ log_Data l = cmd.
Definition carries (f : logFuture) : Prop := lf_errCh f = Some id -> is_cmd (lf_log f).

Definition tracked (i : inflight) : Prop :=
  Forall carries (if_committed i) /\ map_Forall (fun _ f => carries f) (if_operations i).

Definition queued (t : commitTuple) : Prop :=
  forall f, ct_future t = Some f -> lf_errCh f = Some id -> is_cmd (ct_log t).

(** Wherever the future waits it waits with its command, and it has not been answered with success. *)
Definition on_course {L K} (r : Raft L K) : Prop :=
  (forall i n, lead r = Some (i, n) -> tracked i /\ id ∉ n) /\
  Forall queued (r_fsmCommitCh r) /\ id ∉ r_verifyCh r /\ (id, None) ∉ r_responses r.

(** *** The tracker *)

Lemma notify_tracked fuel : forall index op i i',
  carries op -> tracked i -> notify fuel index op i = Return i' -> tracked i'.
Proof.
  induction fuel as [|fuel IH]; intros index op i i' Hop [Hc Ho]; cbn [notify]; [done|].
  destruct (if index =? if_maxCommit i then _ else _) as [mn mx].
  assert (Ht : forall ch, tracked (mkInflight (if_committed i ++ [op])%list ch mn mx (delete index (if_operations i)) (if_stopCh i))).
  { intros ch. split; simpl; [apply Forall_app; split; [done|by constructor]|by apply map_Forall_delete]. }
  assert (Hdone : forall ch, notify_done (mkInflight (if_committed i ++ [op])%list ch mn mx (delete index (if_operations i)) (if_stopCh i))
    = Return i' -> tracked i').
  { intros ch. unfold notify_done. cbn [if_commitCh]. destruct (asyncNotifyCh ch) as [ch'|]; [|done]. intros [= <-]. apply Ht. }
  case_if; [|apply Hdone]. destruct (delete index (if_operations i) !! mn) as [op'|] eqn:E; [|done].
  case_if; [|apply Hdone]. apply IH; [|apply Ht]. apply (Ht (Open false)) in E. exact E.
Qed.

Lemma commit_tracked index i i' : tracked i -> commit index i = Return i' -> tracked i'.
Proof.
  intros Hi. unfold commit. destruct (if_operations i !! index) as [op|] eqn:E; [|by intros [= <-]].
  destruct (mq_Commit (lf_policy op)) as [policy ok]. pose proof (proj2 Hi _ _ E) as Hop. cbn beta in Hop.
  set (op' := mkLogFuture _ _ policy). set (i1 := set_operations _ i).
  assert (H1 : tracked i1) by (split; [apply Hi|apply map_Forall_insert_2; [exact Hop|apply Hi]]).
  case_if; [by intros [= <-]|]. case_if; [by intros [= <-]|]. by apply notify_tracked.
Qed.

Lemma StartAll_tracked fs : forall i i', Forall carries fs -> tracked i -> StartAll fs i = Return i' -> tracked i'.
Proof.
  induction fs as [|f fs IH]; intros i i' Hfs Hi; cbn [StartAll]; [by intros [= <-]|].
  apply Forall_cons in Hfs as [Hf Hfs].
  destruct (start f i) as [i1|] eqn:E; [|done]. cbn [outcome_bind]. apply IH; [done|].
  apply commit_tracked in E; [done|]. split; [apply Hi|apply map_Forall_insert_2; [exact Hf|apply Hi]].
Qed.

Lemma commit_each_tracked xs : forall i i', tracked i -> commit_each xs i = Return i' -> tracked i'.
Proof.
  induction xs as [|x xs IH]; intros i i' Hi; cbn [commit_each]; [by intros [= <-]|].
  destruct (commit x i) as [i1|] eqn:E; [|done]. cbn [outcome_bind]. apply IH. by eapply commit_tracked.
Qed.

(** *** Answers *)

Section Node.
Context {L K : Type}.
Implicit Types (r : Raft L K).

Lemma on_course_sides r r' : sides r' = sides r -> on_course r -> on_course r'.
Proof. unfold sides, on_course. by intros [= -> -> -> ->]. Qed.

Lemma on_course_silent r r' : silent r r' -> on_course r -> on_course r'.
Proof. intros [Hs _]. by apply on_course_sides. Qed.

(** The other parts of the node, one at a time. *)
Lemma on_course_lead r r' : r_fsmCommitCh r' = r_fsmCommitCh r -> r_verifyCh r' = r_verifyCh r ->
  r_responses r' = r_responses r -> (forall i n, lead r' = Some (i, n) -> tracked i /\ id ∉ n) ->
  on_course r -> on_course r'.
Proof. unfold on_course. intros -> -> -> Hl (_ & Hrest). by split. Qed.

Lemma respond_course ch e r : (ch = Some id -> e <> None) -> on_course r -> on_course (respond ch e r).
Proof.
  intros Hne Hr. unfold respond. destruct ch as [c|]; [|done]. case_decide; [done|].
  destruct Hr as (Hl & Hq & Hv & Ha). split_and!; [exact Hl|exact Hq|exact Hv|]. simpl.
  rewrite elem_of_app. intros [?|Hin]; [done|]. apply list_elem_of_singleton in Hin as [= <- <-]. by apply Hne.
Qed.

Lemma respond_each_course {A} (ch : A -> option nat) (e : A -> option error) xs : forall r,
  Forall (fun x => ch x = Some id -> e x <> None) xs -> on_course r ->
  on_course (foldl (fun r x => respond (ch x) (e x) r) r xs).
Proof.
  induction xs as [|x xs IH]; intros r Hxs Hr; simpl; [done|]. apply Forall_cons in Hxs as [Hx Hxs].
  apply IH; [done|]. by apply respond_course.
Qed.

Lemma respond_error_course fs e r : on_course r -> on_course (respond_all fs (Some e) r).
Proof. apply respond_each_course, Forall_true. done. Qed.
End Node.
End Course.

#[export] Hint Resolve respond_course respond_error_course : course.

(** ** The handlers of the main goroutine *)

Section Handlers.
Context (id : nat) (cmd : string).
Context {L K : Type} {HL : LogStore L} {HK : StableStore K}.
Context (env : raftEnv) (now : Time).
Implicit Types (r : Raft L K).
Notation course := (on_course id cmd).
Notation fits := (carries id cmd).

(** An entry of another kind than a command answers its future at once: it is not ours. *)
Lemma processLog_course l f pre r b r' :
  (forall g, f = Some g -> l = lf_log g /\ fits g) -> course r ->
  processLog env now l f pre r = Return (b, r') -> course r'.
Proof.
  intros Hf Hr. unfold processLog.
  assert (Hfin : log_Type l <> LogCommand -> forall r0, silent r r0 -> course match f with
    | Some f => if pre then r0 else respond (lf_errCh f) None r0 | None => r0 end).
  { intros Hl r0 Hs. apply (on_course_silent id cmd _ _ Hs) in Hr. destruct f as [g|]; [|done]. destruct pre; [done|].
    apply respond_course; [|done]. intros Hg. destruct (Hf g eq_refl) as [-> Hfit]. by apply Hfit in Hg as [? _]. }
  assert (Hcmd : (if r_shutdown r && env_shutdownFirst env l then
       match f with Some f => Return (false, respond (lf_errCh f) (Some ErrRaftShutdown) r) | None => Return (false, r) end
     else Return (false, set_fsmCommitCh (r_fsmCommitCh r ++ [mkCommitTuple l f])%list r)) = Return (b, r') -> course r').
  { case_if; [destruct f; intros [= _ <-]; auto with course|]. intros [= _ <-].
    destruct Hr as (Hl & Hq & Hv & Ha). split_and!; [exact Hl| |exact Hv|exact Ha]. simpl. apply Forall_app. split; [done|].
    constructor; [|constructor]. intros g Hg Hid. simpl in *. destruct (Hf g Hg) as [-> Hfit]. by apply Hfit. }
  destruct (log_Type l); try exact Hcmd; try (intros [= _ <-]; by apply Hfin).
  all: destruct (decodePeers _ _) as [ps|]; [|done]; cbn [outcome_bind];
    destruct (applyPeerSet _ _ _ _ _) as [[b' r1]|] eqn:E1; [|done]; intros [= _ <-];
    apply Hfin; [done|]; by eapply applyPeerSet_silent.
Qed.

Lemma process_stored_course idx r r' : course r -> process_stored env now idx r = Return r' -> course r'.
Proof.
  intros Hr. unfold process_stored. destruct (GetLog _ _) as [[[l|e] logs]|]; cbn [outcome_bind]; [|done..].
  destruct (processLog _ _ _ _ _ _) as [[b r1]|] eqn:E; [|done]. intros [= <-].
  by apply processLog_course in E.
Qed.

Lemma process_range_course n : forall idx f r r',
  (forall g, f = Some g -> fits g) -> course r -> process_range env now n idx f r = Return r' -> course r'.
Proof.
  induction n as [|n IH]; intros idx f r r' Hf Hr; cbn [process_range]; [by intros [= <-]|].
  destruct (process_one _ _ _ _ _) as [r1|] eqn:E1; [|done]. cbn [outcome_bind]. apply IH; [done|].
  enough (course r1) by done. revert E1. unfold process_one. destruct f as [g|]; [|by apply process_stored_course].
  case_if; [|by apply process_stored_course]. destruct (processLog _ _ _ _ _ _) as [[b r2]|] eqn:E; [|done]. intros [= <-].
  apply processLog_course in E; [done| |done]. intros g' [= <-]. auto.
Qed.

Lemma processLogs_course idx f r r' :
  (forall g, f = Some g -> fits g) -> course r -> processLogs env now idx f r = Return r' -> course r'.
Proof. unfold processLogs. intros Hf Hr. case_if; [by intros [= <-]|by apply process_range_course]. Qed.

(** *** Commits and batches *)

Lemma commit_loop_course fs : forall r r', Forall fits fs -> course r -> commit_loop env now fs r = Return r' -> course r'.
Proof.
  induction fs as [|f fs IH]; intros r r' Hfs Hr; cbn [commit_loop]; [by intros [= <-]|].
  apply Forall_cons in Hfs as [Hf Hfs]. destruct (processLogs _ _ _ _ _) as [r1|] eqn:E; [|done]. cbn [outcome_bind].
  apply IH; [done|]. apply processLogs_course in E; [done| |done]. by intros g [= <-].
Qed.

Lemma leader_commit_course r r' : course r -> leader_commit env now r = Return r' -> course r'.
Proof.
  intros Hr. unfold leader_commit. destruct (r_leaderState r) as [ls|] eqn:Els; [|by intros [= <-]].
  assert (Hls : lead r = Some (ls_inflight ls, ls_notify ls)) by (unfold lead; by rewrite Els).
  destruct (proj1 Hr _ _ Hls) as [[Hc Ho] Hn].
  destruct (if_commitCh (ls_inflight ls)) as [[]|]; [|by intros [= <-]..]. cbn [Committed set_commitCh if_committed].
  apply commit_loop_course; [done|]. revert Hr. apply on_course_lead; try done.
  intros i n [= <- <-]. split; [|done]. split; simpl; [constructor|done].
Qed.

Lemma number_logs_fits last t n fs : Forall fits fs -> Forall fits (number_logs last t n fs).
Proof.
  intros Hfs. apply Forall_lookup. intros k f Hf. unfold number_logs in Hf. rewrite list_lookup_imap in Hf.
  apply fmap_Some in Hf as (g & Hg & ->). rewrite Forall_lookup in Hfs. exact (Hfs k g Hg).
Qed.

Lemma dispatchLogs_course fs r r' : Forall fits fs -> course r -> dispatchLogs fs r = Return r' -> course r'.
Proof.
  intros Hfs Hr. unfold dispatchLogs. set (fs' := number_logs _ _ _ fs).
  destruct (StoreLogs _ _) as [[[e|] logs]|]; cbn [outcome_bind]; [|cbn [set_rlogs r_leaderState]|done].
  { intros [= <-]. enough (Hx : course (respond_all fs' (Some e) (set_rlogs logs r))) by exact Hx. auto with course. }
  destruct (r_leaderState r) as [ls|] eqn:Els; [|done].
  destruct (StartAll fs' (ls_inflight ls)) as [i|] eqn:E; [|done]. cbn [outcome_bind]. intros [= <-].
  assert (Hls : lead r = Some (ls_inflight ls, ls_notify ls)) by (unfold lead; by rewrite Els).
  destruct (proj1 Hr _ _ Hls) as [Ht Hn].
  revert Hr. apply on_course_lead; try done. intros i' n [= <- <-]. split; [|done].
  eapply StartAll_tracked; [|exact Ht|exact E]. by apply number_logs_fits.
Qed.

Lemma swap_remove_Forall {A} (P : A -> Prop) i l : Forall P l -> Forall P (swap_remove i l).
Proof.
  intros Hl. unfold swap_remove. destruct (last l) as [x|] eqn:E; [|done]. apply Forall_take, Forall_insert; [done|].
  rewrite Forall_lookup in Hl. rewrite last_lookup in E. by eapply Hl.
Qed.

Lemma peer_changes_course fuel : forall i ready sd r ready' sd' r',
  Forall fits ready -> course r ->
  peer_changes env now fuel i ready sd r = Return (ready', sd', r') -> Forall fits ready' /\ course r'.
Proof.
  induction fuel as [|fuel IH]; intros i ready sd r ready' sd' r' Hfs Hr; cbn [peer_changes]; [by intros [= <- <- <-]|].
  destruct (ready !! i) as [f|] eqn:Hi; [|by intros [= <- <- <-]].
  destruct sd; [apply IH; [by apply swap_remove_Forall|auto with course]|].
  destruct (log_Type (lf_log f)) eqn:Ht; try (by apply IH).
  all: unfold preparePeerChange; destruct (changedPeers _ _) as [ps|e]; cbn [outcome_bind];
    [|apply IH; [by apply swap_remove_Forall|auto with course]];
    destruct (encodePeers _ _) as [data|]; [|done]; cbn [outcome_bind];
    destruct (processLog _ _ _ _ _ _) as [[ok r1]|] eqn:El; [|done]; cbn [outcome_bind];
    apply IH; [|by apply processLog_course in El]; apply Forall_insert; [done|]; intros Hid;
    rewrite Forall_lookup in Hfs; destruct (Hfs i f Hi Hid) as [Hc _]; congruence.
Qed.

Lemma leader_apply_course ready sd r sd' r' :
  Forall fits ready -> course r -> leader_apply env now ready sd r = Return (sd', r') -> course r'.
Proof.
  intros Hfs Hr. unfold leader_apply.
  destruct (peer_changes _ _ _ _ _ _ _) as [[[ready1 sd1] r1]|] eqn:E1; [|done]. cbn [outcome_bind].
  apply peer_changes_course in E1 as [Hfs1 Hr1]; [|done..]. destruct ready1 as [|f fs]; [by intros [= _ <-]|].
  destruct (dispatchLogs _ r1) as [r2|] eqn:E2; [|done]. intros [= _ <-]. by apply dispatchLogs_course in E2.
Qed.

(** *** RPCs *)

Lemma appendEntries_course a r resp r' : course r -> appendEntries env now a r = Return (resp, r') -> course r'.
Proof.
  intros Hr. unfold appendEntries. case_if; [by intros [= _ <-]|].
  destruct (if (_ || _ : bool) then _ else _) as [[x r1]|] eqn:E1; [|done]. cbn [outcome_bind].
  apply adopt_silent in E1. apply (on_course_silent id cmd _ _ E1) in Hr. set (r2 := set_leader _ r1).
  destruct (checkPrevious a r2) as [[ok r3]|] eqn:E3; [|done]. cbn [outcome_bind].
  apply checkPrevious_sides in E3. apply (on_course_sides id cmd r2 r3 E3) in Hr.
  destruct ok; [|by intros [= _ <-]]. cbn [negb].
  destruct (storeEntries a r3) as [[ok r4]|] eqn:E4; [|done]. cbn [outcome_bind].
  apply storeEntries_sides in E4. apply (on_course_sides id cmd r3 r4 E4) in Hr.
  destruct ok; [|by intros [= _ <-]]. cbn [negb].
  destruct (advanceCommit _ _ _ _) as [r5|] eqn:E5; [|done]. cbn [outcome_bind]. intros [= _ <-].
  enough (Hx : course r5) by exact Hx. revert E5. unfold advanceCommit. case_if; [|by intros [= <-]].
  by apply processLogs_course.
Qed.

Lemma processRPC_course c r res r' : course r -> processRPC env now c r = Return (res, r') -> course r'.
Proof.
  intros Hr. unfold processRPC. destruct c as [a|req|req io|].
  - destruct (appendEntries _ _ _ _) as [[resp r1]|] eqn:E; [|done]. intros [= _ <-]. by apply appendEntries_course in E.
  - destruct (requestVote _ _ _ _) as [[resp r1]|] eqn:E; [|done]. intros [= _ <-].
    apply requestVote_silent in E. by apply (on_course_silent id cmd r).
  - destruct (installSnapshot _ _ _ _ _) as [[[resp e] r1]|] eqn:E; [|done]. intros [= _ <-].
    apply installSnapshot_sides in E as [Hs _]. by apply (on_course_sides id cmd r).
  - by intros [= _ <-].
Qed.

(** *** Confirmations of leadership have futures of their own *)

Lemma forget_course j r : course r ->
  course (upd_leaderState (fun ls => ls_set_notify (ls_notify ls ∖ {[j]}) ls) r).
Proof.
  intros Hr. pose proof (proj1 Hr) as Hl. revert Hr. apply on_course_lead; try done.
  intros i n. unfold lead, upd_leaderState in *. simpl. destruct (r_leaderState r) as [ls|]; [|done]. intros [= <- <-].
  destruct (Hl (ls_inflight ls) (ls_notify ls) eq_refl). split; [done|]. simpl. set_solver.
Qed.

Lemma leader_verify_course j v r r' : j <> id -> course r -> leader_verify j v r = Return r' -> course r'.
Proof.
  intros Hj Hr. unfold leader_verify.
  assert (Hresp : forall e r0, course r0 -> course (respond (Some j) e r0)).
  { intros e r0. apply respond_course. by intros [= ?]. }
  case_if.
  - unfold verifyLeader. case_if.
    + intros [= <-]. by apply (Hresp None (set_verifyFutures _ r)).
    + destruct (r_leaderState r) as [ls|] eqn:Els; [|done]. intros [= <-].
      assert (Hls : lead r = Some (ls_inflight ls, ls_notify ls)) by (unfold lead; by rewrite Els).
      destruct (proj1 Hr _ _ Hls) as [Ht Hn]. revert Hr. apply on_course_lead; try done.
      intros i n [= <- <-]. split; [done|]. set_solver.
  - case_if; intros [= <-];
      [exact (Hresp _ _ (forget_course j (setState Follower r) Hr))|exact (Hresp _ _ (forget_course j r Hr))].
Qed.

Lemma refuse_course r : course r -> course (refuse_verify r).
Proof.
  intros Hr. unfold refuse_verify. destruct (r_verifyCh r) as [|j q] eqn:Ev; [done|].
  apply respond_course; [done|]. destruct Hr as (Hl & Hq & Hv & Ha). rewrite Ev in Hv.
  split_and!; [exact Hl|exact Hq|set_solver|exact Ha].
Qed.

Lemma force_peers_course j ps r : j <> id -> course r -> course (force_peers j ps r).
Proof. intros Hj Hr. unfold force_peers. apply respond_course; [by intros [= ?]|exact Hr]. Qed.

(** *** The end and the beginning of leadership *)

Lemma leave_leader_course r r' : course r -> leave_leader now r = Return r' -> course r'.
Proof.
  intros Hr. unfold leave_leader. destruct (r_leaderState (setLastContact now r)) as [ls|]; [|done].
  destruct (Cancel _ _) as [[cs i']|]; [|done]. cbn [outcome_bind].
  set (r1 := foldl _ (setLastContact now r) cs). set (r2 := foldl _ r1 _). intros [= <-].
  assert (Hr2 : course r2).
  { apply (respond_each_course id cmd (fun j => Some j)); [by apply Forall_true|].
    apply (respond_each_course id cmd (fun p : logFuture * error => lf_errCh p.1)); [by apply Forall_true|exact Hr]. }
  case_decide; revert Hr2; by apply on_course_lead.
Qed.

Lemma enter_leader_course r r' : course r -> enter_leader env now r = Return r' -> course r'.
Proof.
  intros Hr. unfold enter_leader. set (r0 := set_leaderState _ r).
  assert (Hr0 : course r0).
  { revert Hr. apply on_course_lead; try done. intros i n [= <- <-]. split; [|set_solver]. split; [constructor|apply map_Forall_empty]. }
  destruct (start_streams _ _ _) as [r1|] eqn:E1; [|done]. cbn [outcome_bind].
  apply start_streams_silent in E1 as [E1 _]. apply (on_course_silent id cmd _ _ E1) in Hr0.
  destruct (encodePeers _ _) as [data|]; [|done]. cbn [outcome_bind].
  destruct (dispatchLogs _ r1) as [r2|] eqn:E2; [|done]. cbn [outcome_bind].
  apply dispatchLogs_course in E2; [|by repeat constructor|done]. case_if; by intros [= <-].
Qed.

Lemma enter_loop_course r l r' : course r -> enter_loop env now r = Return (l, r') -> course r'.
Proof.
  intros Hr. unfold enter_loop. case_if; [by intros [= _ <-]|]. destruct (getState r); try by intros [= _ <-].
  - destruct (electSelf r) as [[[req b] r1]|] eqn:E; [|done]. cbn [outcome_bind]. intros [= _ <-].
    apply electSelf_silent in E. by apply (on_course_silent id cmd r).
  - destruct (enter_leader env now r) as [r1|] eqn:E; [|done]. cbn [outcome_bind].
    apply enter_leader_course in E; [|done]. case_decide; [by intros [= _ <-]|].
    destruct (leave_leader now r1) as [r2|] eqn:E2; [|done]. intros [= _ <-]. by apply leave_leader_course in E2.
Qed.

(** ** The loops *)

(** The number [id] is that of one future: a batch that has it has the command. *)
Definition event_fits (ev : main_event) : Prop :=
  match ev with
  | EvApply ready => Forall fits ready
  | EvPeers j _ => j <> id
  | _ => True
  end.

Lemma follower_step_course ev r l r' :
  event_fits ev -> course r -> follower_step env now ev r = Return (l, r') -> course r'.
Proof.
  intros Hev Hr. unfold follower_step. destruct ev; cbn [event_fits] in Hev; try (by intros [= _ <-]).
  - destruct (processRPC _ _ _ _) as [[res r1]|] eqn:E; [|done]. intros [= _ <-]. by apply processRPC_course in E.
  - intros [= _ <-]. auto with course.
  - intros [= _ <-]. by apply refuse_course.
  - intros [= _ <-]. by apply force_peers_course.
  - intros [= _ <-]. apply (on_course_silent id cmd r); [apply heartbeatTimeout_silent|done].
Qed.

Lemma candidate_step_course ev voteCh needed granted r l r' :
  event_fits ev -> course r -> candidate_step env now ev voteCh needed granted r = Return (l, r') -> course r'.
Proof.
  intros Hev Hr. unfold candidate_step. destruct ev; cbn [event_fits] in Hev; try (by intros [= _ <-]).
  - destruct (processRPC _ _ _ _) as [[res r1]|] eqn:E; [|done]. intros [= _ <-]. by apply processRPC_course in E.
  - intros [= _ <-]. auto with course.
  - intros [= _ <-]. by apply refuse_course.
  - intros [= _ <-]. by apply (force_peers_course id0 peers).
  - destruct voteCh; [|by intros [= _ <-]].
    destruct (candidateVote _ _ _ _) as [[g r1]|] eqn:E; [|done]. intros [= _ <-].
    apply candidateVote_sides in E as [Hs _]. by apply (on_course_sides id cmd r).
Qed.

Lemma leader_step_course ev sd r l r' :
  event_fits ev -> course r -> leader_step env now ev sd r = Return (l, r') -> course r'.
Proof.
  intros Hev Hr. unfold leader_step. destruct ev as [c|ready| |j peers| |vote| | | | |]; cbn [event_fits] in Hev; try (by intros [= _ <-]).
  - destruct (processRPC _ _ _ _) as [[res r1]|] eqn:E; [|done]. intros [= _ <-]. by apply processRPC_course in E.
  - destruct ready as [|f fs]; [by intros [= _ <-]|].
    destruct (leader_apply _ _ _ _ _) as [[sd1 r1]|] eqn:E; [|done]. intros [= _ <-]. by apply leader_apply_course in E.
  - destruct (r_verifyCh r) as [|j q] eqn:Ev; [by intros [= _ <-]|].
    destruct (leader_verify j _ _) as [r2|] eqn:E; [|done]. intros [= _ <-].
    destruct Hr as (Hl & Hq & Hv & Ha). rewrite Ev in Hv. apply leader_verify_course in E; [done|set_solver|].
    split_and!; [exact Hl|exact Hq|set_solver|exact Ha].
  - intros [= _ <-]. apply (respond_course id cmd (Some j) (Some ErrLeader)); [by intros [= ?]|done].
  - destruct (r_leaderState r) as [ls|] eqn:Els; [|by intros [= _ <-]].
    destruct (ls_stepDown ls); intros [= _ <-]; [|done].
    apply (on_course_sides id cmd r); [|done]. unfold sides, lead. simpl. by rewrite Els.
  - destruct (leader_commit _ _ _) as [r1|] eqn:E; [|done]. intros [= _ <-]. by apply leader_commit_course in E.
  - unfold checkLeaderLease. destruct (foldl _ _ _) as [contacted maxDiff]. case_if; by intros [= _ <-].
Qed.

Lemma main_step_course ev l r l' r' :
  event_fits ev -> course r -> main_step env now ev l r = Return (l', r') -> course r'.
Proof.
  intros Hev Hr. unfold main_step. destruct l as [|voteCh needed granted|sd|]; [| | |by intros [= _ <-]].
  - destruct (follower_step _ _ _ _) as [[o r1]|] eqn:E; [|done]. cbn [outcome_bind].
    apply follower_step_course in E; [|done..]. destruct o; [by intros [= _ <-]|by apply enter_loop_course].
  - destruct (candidate_step _ _ _ _ _ _ _) as [[o r1]|] eqn:E; [|done]. cbn [outcome_bind].
    apply candidate_step_course in E; [|done..]. destruct o; [by intros [= _ <-]|by apply enter_loop_course].
  - destruct (leader_step _ _ _ _ _) as [[o r1]|] eqn:E; [|done]. cbn [outcome_bind].
    apply leader_step_course in E; [|done..]. destruct o; [by intros [= _ <-]|].
    destruct (leave_leader now r1) as [r2|] eqn:E2; [|done]. cbn [outcome_bind].
    apply leave_leader_course in E2; [|done]. by apply enter_loop_course.
Qed.

Lemma ack_course first last r r' : course r -> on_inflight (CommitRange first last) r = Return r' -> course r'.
Proof.
  intros Hr. unfold on_inflight. destruct (r_leaderState r) as [ls|] eqn:Els; [|by intros [= <-]].
  destruct (CommitRange _ _ _) as [i|] eqn:E; [|done]. cbn [outcome_bind]. intros [= <-].
  assert (Hls : lead r = Some (ls_inflight ls, ls_notify ls)) by (unfold lead; by rewrite Els).
  destruct (proj1 Hr _ _ Hls) as [Ht Hn]. revert Hr. apply on_course_lead; try done. intros i' n [= <- <-].
  split; [|done]. by eapply commit_each_tracked.
Qed.
End Handlers.

(** A future the node has not seen. *)
Lemma fresh_course {L K} id cmd (r : Raft L K) : ~ answered id r -> ~ waiting id r -> on_course id cmd r.
Proof.
  unfold waiting, answered. intros Ha Hw. split_and!.
  - intros i n Hl. rewrite Hl in Hw. simpl in Hw. unfold inflight_ids in Hw.
    assert (Hin : forall f, f ∈ (if_committed i ++ (map_to_list (if_operations i)).*2)%list -> lf_errCh f <> Some id).
    { intros f Hf Hid. apply Hw. left. apply elem_of_app. left. apply list_elem_of_omap. eauto. }
    split; [split|].
    + apply Forall_forall. intros f Hf Hid. destruct (Hin f); [apply elem_of_app; by left|done].
    + intros k f Hf Hid. destruct (Hin f); [|done]. apply elem_of_app. right. apply list_elem_of_fmap. exists (k, f).
      split; [done|]. by apply elem_of_map_to_list.
    + intros Hn. apply Hw. left. apply elem_of_app. right. by apply elem_of_elements.
  - apply Forall_forall. intros t Ht f Hf Hid. exfalso. apply Hw. right. left. unfold fsm_ids.
    apply list_elem_of_omap. exists t. split; [done|]. by rewrite Hf.
  - tauto.
  - intros Hin. apply Ha. apply list_elem_of_fmap. by exists (id, None).
Qed.

(** ** A node with its state machine *)

(** What the state machine is made to do. *)
Inductive fsm_op :=
| Applied (now : Time) (l : Log)
| Restored (now : Time) (source : string).

(** What happens in a node: an event of the main goroutine, the acknowledgement of a range by a stream,
    a confirmation asked for, an entry taken by the goroutine of the state machine, or a snapshot
    restored by it. *)
Inductive node_item :=
| NMain (now : Time) (ev : main_event)
| NAck (first last : Z)
| NVerify (id : nat)
| NCommit (now : Time)
| NRestore (now : Time) (snapshot : string).

Section Node.
Context {S Sink : Type} {HS : SnapshotStore S Sink} {F : Type} {HF : FSM F}.
Context {L K : Type} {HL : LogStore L} {HK : StableStore K}.
Context (env : raftEnv).

Record node := mkNode {
  n_loop : loop;
  n_raft : Raft L K;
  n_fsm : fsmLoop F;
  n_snaps : S;
}.

Definition do_op (f : F) (o : fsm_op) : F :=
  match o with
  | Applied now l => app_Apply now l f
  | Restored now source => (app_Restore now source f).2
  end.

(** The operation on the state machine in the next step of its goroutine. *)
Definition commit_ops (now : Time) (r : Raft L K) : list fsm_op :=
  match r_fsmCommitCh r with
  | t :: _ => if bool_decide (log_Type (ct_log t) = LogCommand) then [Applied now (ct_log t)] else []
  | [] => []
  end.
Definition restore_ops (now : Time) (sid : string) (d : S) : list fsm_op :=
  match (store_Open sid d).1 with inl (_, source) => [Restored now source] | inr _ => [] end.

(** One item, with the operations on the state machine. *)
Definition node_step (it : node_item) (n : node) : outcome (list fsm_op * node) :=
  match it with
  | NMain now ev =>
      let! (l, r) := main_step env now ev (n_loop n) (n_raft n) in
      Return ([], mkNode l r (n_fsm n) (n_snaps n))
  | NAck first last =>
      let! r := on_inflight (CommitRange first last) (n_raft n) in
      Return ([], mkNode (n_loop n) r (n_fsm n) (n_snaps n))
  | NVerify id =>
      match VerifyLeader SelSent id (n_raft n) with
      | Some (_, r) => Return ([], mkNode (n_loop n) r (n_fsm n) (n_snaps n))
      | None => Return ([], n)
      end
  | NCommit now =>
      let '(st, r) := runFSM_commit now (n_fsm n) (n_raft n) in
      Return (commit_ops now (n_raft n), mkNode (n_loop n) r st (n_snaps n))
  | NRestore now sid =>
      let '(_, st, d) := runFSM_restore now sid (n_fsm n) (n_snaps n) in
      Return (restore_ops now sid (n_snaps n), mkNode (n_loop n) (n_raft n) st d)
  end.

Fixpoint run_node (items : list node_item) (n : node) : outcome (list fsm_op * node) :=
  match items with
  | [] => Return ([], n)
  | it :: items =>
      let! (ops, n) := node_step it n in
      let! (ops', n) := run_node items n in
      Return ((ops ++ ops')%list, n)
  end.

(** The future [id] is that of the command [cmd]. *)
Definition item_fits (id : nat) (cmd : string) (it : node_item) : Prop :=
  match it with
  | NMain _ ev => event_fits id cmd ev
  | NVerify j => j <> id
  | _ => True
  end.

Lemma node_step_fsm it n ops n' : node_step it n = Return (ops, n') ->
  fl_fsm (n_fsm n') = foldl do_op (fl_fsm (n_fsm n)) ops.
Proof.
  unfold node_step. destruct it as [now ev|first last|j|now|now sid].
  - destruct (main_step _ _ _ _ _) as [[l r]|]; [|done]. by intros [= <- <-].
  - destruct (on_inflight _ _) as [r|]; [|done]. by intros [= <- <-].
  - destruct (VerifyLeader _ _ _) as [[f r]|]; by intros [= <- <-].
  - unfold runFSM_commit, commit_ops. destruct (r_fsmCommitCh (n_raft n)) as [|t q]; [by intros [= <- <-]|].
    intros [= <- <-]. simpl. by case_bool_decide.
  - unfold runFSM_restore, restore_ops. destruct (store_Open sid (n_snaps n)) as [[[meta source]|e] d]; [|by intros [= <- <-]].
    cbn [fst]. destruct (app_Restore now source (fl_fsm (n_fsm n))) as [[e|] f] eqn:E; intros [= <- <-]; simpl; by rewrite E.
Qed.

Lemma run_node_fsm items : forall n ops n', run_node items n = Return (ops, n') ->
  fl_fsm (n_fsm n') = foldl do_op (fl_fsm (n_fsm n)) ops.
Proof.
  induction items as [|it items IH]; intros n ops n'; cbn [run_node]; [by intros [= <- <-]|].
  destruct (node_step it n) as [[o1 n1]|] eqn:E1; [|done]. cbn [outcome_bind].
  destruct (run_node items n1) as [[o2 n2]|] eqn:E2; [|done]. cbn [outcome_bind]. intros [= <- <-].
  rewrite foldl_app. rewrite (IH _ _ _ E2). f_equal. by apply node_step_fsm in E1.
Qed.

(** Only the step that applies the command answers its future with success. *)
Lemma node_step_course id cmd it n ops n' :
  item_fits id cmd it -> on_course id cmd (n_raft n) -> node_step it n = Return (ops, n') ->
  on_course id cmd (n_raft n') \/ exists now l, Applied now l ∈ ops /\ is_cmd cmd l.
Proof.
  intros Hit Hr. unfold node_step. destruct it as [now ev|first last|j|now|now sid]; cbn [item_fits] in Hit.
  - destruct (main_step _ _ _ _ _) as [[l r]|] eqn:E; [|done]. intros [= _ <-]. left. by eapply main_step_course.
  - destruct (on_inflight _ _) as [r|] eqn:E; [|done]. intros [= _ <-]. left. by eapply ack_course.
  - simpl. intros [= _ <-]. left. destruct Hr as (Hl & Hq & Hv & Ha). split_and!; [exact Hl|exact Hq| |exact Ha]. set_solver.
  - unfold runFSM_commit, commit_ops. destruct Hr as (Hl & Hq & Hv & Ha).
    destruct (r_fsmCommitCh (n_raft n)) as [|t q] eqn:Eq; intros [= <- <-]; [left; split_and!; [exact Hl|cbn; by rewrite Eq|exact Hv|exact Ha]|].
    apply Forall_cons in Hq as [Ht Hq]. destruct (decide ((ct_future t ≫= lf_errCh) = Some id)) as [He|He].
    + right. apply bind_Some in He as (f & Hf & Hid). pose proof (Ht f Hf Hid) as Hc. exists now, (ct_log t). split; [|done].
      rewrite bool_decide_true by apply Hc. set_solver.
    + left. cbn [n_raft]. apply respond_course; [done|]. by split_and!.
  - destruct (runFSM_restore now sid _ _) as [[e st] d]. intros [= _ <-]. by left.
Qed.

Lemma run_node_course id cmd items : forall n ops n',
  Forall (item_fits id cmd) items -> on_course id cmd (n_raft n) -> run_node items n = Return (ops, n') ->
  on_course id cmd (n_raft n') \/ exists now l, Applied now l ∈ ops /\ is_cmd cmd l.
Proof.
  induction items as [|it items IH]; intros n ops n' Hits Hr; cbn [run_node]; [intros [= _ <-]; by left|].
  apply Forall_cons in Hits as [Hit Hits].
  destruct (node_step it n) as [[o1 n1]|] eqn:E1; [|done]. cbn [outcome_bind].
  destruct (run_node items n1) as [[o2 n2]|] eqn:E2; [|done]. cbn [outcome_bind]. intros [= <- <-].
  destruct (node_step_course id cmd it n o1 n1 Hit Hr E1) as [Hr1|(now & l & Hin & Hl)].
  2: { right. exists now, l. split; [apply elem_of_app; by left|done]. }
  destruct (IH _ _ _ Hits Hr1 E2) as [?|(now & l & Hin & Hl)]; [by left|].
  right. exists now, l. split; [apply elem_of_app; by right|done].
Qed.

(** An answer with success is in the list of answers. *)
Lemma Future_Error_success id (r : Raft L K) : Future_Error id r = Some None -> (id, None) ∈ r_responses r.
Proof.
  unfold Future_Error. intros H. apply fmap_Some in H as ([j e] & Hh & He). simpl in He. subst e.
  destruct (filter _ (r_responses r)) as [|p q] eqn:E; [done|]. injection Hh as ->.
  assert (Hin : (j, None) ∈ filter (fun p => p.1 = id) (r_responses r)) by (rewrite E; set_solver).
  apply list_elem_of_filter in Hin as [Hj Hin]. simpl in Hj. by subst.
Qed.

Lemma success_applied id cmd items n ops n' :
  ~ answered id (n_raft n) -> ~ waiting id (n_raft n) -> Forall (item_fits id cmd) items ->
  run_node items n = Return (ops, n') -> Future_Error id (n_raft n') = Some None ->
  (exists now l, Applied now l ∈ ops /\ log_Type l = LogCommand /\ log_Data l = cmd) /\
  fl_fsm (n_fsm n') = foldl do_op (fl_fsm (n_fsm n)) ops.
Proof.
  intros Ha Hw Hits Hrun Hans. split; [|by eapply run_node_fsm].
  destruct (run_node_course id cmd items n ops n' Hits) as [Hc|?]; [by apply fresh_course|done| |done].
  exfalso. by apply Hc, Future_Error_success.
Qed.
End Node.
