(* ===== verification/NetTransport.v ===== *)
(** * Raft: the network transport (internal/raft/net_transport.go, tcp_transport.go, transport.go)

    A node calls another one over a pooled connection: a byte for the kind of call, the request, then
    on the way back an error text and the response, all in msgpack.  A connection is two byte streams,
    each side seen through the bufio reader and writer of the code.  msgpack is a class (how a value is
    written, in chunks, and read back from the front of a stream) with the round trip as its law.  What
    is not the program's doing is an argument: how dials and writes go, what the other side does
    until the deadline. *)
From S2P Require Import Prelude GoStrings RaftBase Inflight BoltStore GoCrc64 FileSnapshot.
From S2P Require Import Raft RaftElection RaftReplication RaftStream RaftLeader.

Open Scope string_scope.
Open Scope Z_scope.
Local Open Scope go_scope.

(** ** Messages *)

Definition rpcAppendEntries : ascii := "000".
Definition rpcRequestVote : ascii := "001".
Definition rpcInstallSnapshot : ascii := "002".
Definition DefaultTimeoutScale : Z := 256 * 1024.
Definition rpcMaxPipeline : nat := 128.

Definition ErrTransportShutdown : error := Sentinel "transport shutdown".
Definition ErrPipelineShutdown : error := Sentinel "append pipeline closed".
Definition io_EOF : error := Sentinel "EOF".
Definition net_timeout : error := Errorf "i/o timeout".
Definition net_closed : error := Errorf "use of closed network connection".

(** The requests that are sent. *)
Inductive rpc_args :=
| ArgsAppend (a : AppendEntriesRequest)
| ArgsVote (v : RequestVoteRequest)
| ArgsInstall (i : InstallSnapshotRequest).

Definition args_type (a : rpc_args) : ascii :=
  match a with
  | ArgsAppend _ => rpcAppendEntries
  | ArgsVote _ => rpcRequestVote
  | ArgsInstall _ => rpcInstallSnapshot
  end.

(** Reading a value from the front of a stream: the value and what follows it; more bytes are needed;
    the bytes are not a value. *)
Inductive decoded (A : Type) :=
| Got (a : A) (rest : string)
| Short
| Bad (e : error).
Arguments Got {A}.
Arguments Short {A}.
Arguments Bad {A}.

(** The msgpack encoder and decoder; [put_*] are the chunks handed to the writer. *)
Class RpcCodec := {
  put_error : string -> list string;
  put_args : rpc_args -> list string;
  put_resp : rpc_response -> list string;
  get_error : string -> decoded string;
  get_args : ascii -> string -> decoded rpc_args;
  get_resp : ascii -> string -> decoded rpc_response;
}.

(** Unexported fields of the entries are not sent. *)
Definition sent (a : rpc_args) : rpc_args :=
  match a with
  | ArgsAppend a =>
      ArgsAppend (mkAppendEntriesRequest (ae_Term a) (ae_Leader a) (ae_PrevLogEntry a) (ae_PrevLogTerm a)
                    (erase_peer <$> ae_Entries a) (ae_LeaderCommitIndex a))
  | a => a
  end.

(** Every integer fits its field. *)
Definition args_ok (a : rpc_args) : Prop :=
  match a with
  | ArgsAppend a => uint64_ok (ae_Term a) /\ uint64_ok (ae_PrevLogEntry a) /\ uint64_ok (ae_PrevLogTerm a) /\
      uint64_ok (ae_LeaderCommitIndex a) /\
      Forall (fun l => uint64_ok (log_Index l) /\ uint64_ok (log_Term l)) (ae_Entries a)
  | ArgsVote v => uint64_ok (rv_Term v) /\ uint64_ok (rv_LastLogIndex v) /\ uint64_ok (rv_LastLogTerm v)
  | ArgsInstall i => uint64_ok (is_Term i) /\ uint64_ok (is_LastLogIndex i) /\ uint64_ok (is_LastLogTerm i) /\
      int64_ok (is_Size i)
  end.

(** A response that fits the call. *)
Definition resp_ok (t : ascii) (p : rpc_response) : Prop :=
  match p with
  | RespAppend p => t = rpcAppendEntries /\ uint64_ok (aer_Term p) /\ uint64_ok (aer_LastLog p)
  | RespVote p => t = rpcRequestVote /\ uint64_ok (rvr_Term p)
  | RespInstall p => t = rpcInstallSnapshot /\ uint64_ok (isr_Term p)
  | RespNil => False
  end.

Fixpoint cat (l : list string) : string :=
  match l with [] => "" | p :: l => p ++ cat l end.

(** msgpack values are self-delimiting: a value is read back whatever follows it, and a value that has
    arrived in part is not taken for another one. *)
Class RpcCodecLaws `{RpcCodec} := {
  get_put_error e rest : get_error (cat (put_error e) ++ rest) = Got e rest;
  get_put_args a rest : args_ok a -> get_args (args_type a) (cat (put_args a) ++ rest) = Got (sent a) rest;
  get_put_resp t p rest : resp_ok t p -> get_resp t (cat (put_resp p) ++ rest) = Got p rest;
  get_error_cut e n : (n < String.length (cat (put_error e)))%nat -> get_error (str_take n (cat (put_error e))) = Short;
  get_args_cut a n : args_ok a -> (n < String.length (cat (put_args a)))%nat ->
    get_args (args_type a) (str_take n (cat (put_args a))) = Short;
  get_resp_cut t p n : resp_ok t p -> (n < String.length (cat (put_resp p)))%nat ->
    get_resp t (str_take n (cat (put_resp p))) = Short;
}.

(** ** A connection *)

(** One side of a [net.Conn] with its bufio reader and writer: what has arrived and was not read,
    whether the other side has closed, what went out and is not read there yet, the writer's buffer and
    the error it sticks to, whether this side has closed, and how the next writes to the socket go
    ([Some (n, e)]: [n] bytes go out, then the error; no entry: they succeed). *)
Record stream := mkStream {
  st_in : string;
  st_eof : bool;
  st_out : string;
  st_buf : string;
  st_werr : option error;
  st_closed : bool;
  st_faults : list (option (nat * error));
}.

Definition fresh_stream (faults : list (option (nat * error))) : stream := mkStream "" false "" "" None false faults.

Definition st_set_in (i : string) (s : stream) : stream :=
  mkStream i (st_eof s) (st_out s) (st_buf s) (st_werr s) (st_closed s) (st_faults s).
Definition st_set_buf (b : string) (e : option error) (s : stream) : stream :=
  mkStream (st_in s) (st_eof s) (st_out s) b e (st_closed s) (st_faults s).

(** [net.Conn.Write]: how many bytes went out. *)
Definition conn_Write (p : string) (s : stream) : nat * option error * stream :=
  if st_closed s then (0%nat, Some net_closed, s)
  else
    let sent := fun n => mkStream (st_in s) (st_eof s) (st_out s ++ str_take n p) (st_buf s) (st_werr s) false
                           (tail (st_faults s)) in
    match st_faults s with
    | Some (n, e) :: _ => (Nat.min n (String.length p), Some e, sent n)
    | _ => (String.length p, None, sent (String.length p))
    end.

(** [bufio.Writer.Flush]. *)
Definition w_Flush (s : stream) : option error * stream :=
  match st_werr s with
  | Some e => (Some e, s)
  | None =>
      if decide (st_buf s = "") then (None, s)
      else
        let '(n, err, s) := conn_Write (st_buf s) s in
        match err with
        | Some e => (Some e, st_set_buf (str_drop n (st_buf s)) (Some e) s)
        | None => (None, st_set_buf "" None s)
        end
  end.

(** [bufio.Writer.Write] with an empty buffer: a long chunk goes straight to the socket. *)
Definition w_rest (p : string) (s : stream) : option error * stream :=
  if (String.length p <=? bufio_size)%nat then (None, st_set_buf p None s)
  else
    let '(_, err, s) := conn_Write p s in
    match err with
    | Some e => (Some e, st_set_buf "" (Some e) s)
    | None => (None, s)
    end.

Definition w_Write (p : string) (s : stream) : option error * stream :=
  match st_werr s with
  | Some e => (Some e, s)
  | None =>
      let avail := (bufio_size - String.length (st_buf s))%nat in
      if (String.length p <=? avail)%nat then (None, st_set_buf (st_buf s ++ p) None s)
      else if decide (st_buf s = "") then w_rest p s
      else
        let '(err, s) := w_Flush (st_set_buf (st_buf s ++ str_take avail p) None s) in
        match err with
        | Some e => (Some e, s)
        | None => w_rest (str_drop avail p) s
        end
  end.

(** [bufio.Writer.WriteByte]. *)
Definition w_WriteByte (c : ascii) (s : stream) : option error * stream :=
  match st_werr s with
  | Some e => (Some e, s)
  | None =>
      let '(err, s) := if (bufio_size <=? String.length (st_buf s))%nat then w_Flush s else (None, s) in
      match err with
      | Some e => (Some e, s)
      | None => (None, st_set_buf (st_buf s ++ String c "") None s)
      end
  end.

(** [enc.Encode]: the chunks of a value, until one fails. *)
Fixpoint enc_Encode (chunks : list string) (s : stream) : option error * stream :=
  match chunks with
  | [] => (None, s)
  | p :: chunks =>
      let '(err, s) := w_Write p s in
      match err with Some e => (Some e, s) | None => enc_Encode chunks s end
  end.

(** [net.Conn.Close]. *)
Definition conn_Close (s : stream) : stream :=
  mkStream (st_in s) (st_eof s) (st_out s) (st_buf s) (st_werr s) true (st_faults s).

(** [dec.Decode] on what has arrived by the deadline, if there is one; [None] waits forever. *)
Definition dec_Decode {A} (get : string -> decoded A) (deadline : bool) (s : stream)
    : option ((A + error) * stream) :=
  if st_closed s then Some (inr net_closed, s)
  else match get (st_in s) with
       | Got a rest => Some (inl a, st_set_in rest s)
       | Bad e => Some (inr e, s)
       | Short => if st_eof s then Some (inr io_EOF, s)
                  else if deadline then Some (inr net_timeout, s) else None
       end.

(** ** An error text used as a format *)

(** [fmt.Errorf(text)]: the text is a format, without arguments for its verbs.  Flags, width, precision
    and argument indexes are read and dropped; a verb is reported as missing its argument.  The text
    is UTF-8. *)
Definition is_flag (c : ascii) : bool :=
  bool_decide (c ∈ ["#"; "0"; "+"; "-"; " "]%char).
(** A continuation byte of UTF-8. *)
Definition is_cont (c : ascii) : bool := (128 <=? nat_of_ascii c)%nat && (nat_of_ascii c <? 192)%nat.

Fixpoint span (f : ascii -> bool) (s : string) : string * string :=
  match s with
  | "" => ("", "")
  | String c s' => if f c then let '(a, b) := span f s' in (String c a, b) else ("", s)
  end.

Definition is_byte (c : ascii) (s : string) : bool :=
  match s with "" => false | String d _ => bool_decide (c = d) end.

(** [parsenum]: whether there is a number, and what follows; nothing follows one that is too large. *)
Fixpoint parsenum (num : Z) (isnum : bool) (s : string) : bool * string :=
  match s with
  | "" => (isnum, "")
  | String c s' =>
      match digit_of c with
      | Some d => if 1000000 <? num then (false, "") else parsenum (num * 10 + d) true s'
      | None => (isnum, s)
      end
  end.

(** [argNumber] with no arguments: what follows, whether there was a bracket, and whether it was an index. *)
Definition arg_number (s : string) : string * bool * bool :=
  if negb (is_byte "[" s) then (s, false, false)
  else
    let '(inner, after) := span (fun c => bool_decide (c <> "]"%char)) (str_drop 1 s) in
    if (String.length s <? 3)%nat || bool_decide (after = "") then (str_drop 1 s, true, false)
    else let '(ok, rest) := parsenum 0 false inner in (str_drop 1 after, true, ok && bool_decide (rest = "")).

(** One verb: what is printed and what follows; no following text: the format ends there. *)
Definition print_verb (s : string) : string * option string :=
  let '(s, bad1, after) := arg_number (span is_flag s).2 in
  let '(pre1, s, after) :=
    if is_byte "*" s then ("%!(BADWIDTH)", str_drop 1 s, false) else ("", (parsenum 0 false s).2, after) in
  let '(pre2, s, bad2, after) :=
    if is_byte "." s then
      let '(s, bad2, after) := arg_number (str_drop 1 s) in
      if is_byte "*" s then ("%!(BADPREC)", str_drop 1 s, bad2, false)
      else ("", (parsenum 0 false s).2, bad2, after)
    else ("", s, false, after) in
  let '(s, bad3, _) := if after then (s, false, false) else arg_number s in
  match s with
  | "" => (pre1 ++ pre2 ++ "%!(NOVERB)", None)
  | String c s =>
      if bool_decide (c = "%"%char) then (pre1 ++ pre2 ++ "%", Some s)
      else
        let '(more, s) := if (192 <=? nat_of_ascii c)%nat then span is_cont s else ("", s) in
        (pre1 ++ pre2 ++ "%!" ++ String c more ++ (if bad1 || bad2 || bad3 then "(BADINDEX)" else "(MISSING)"), Some s)
  end.

(** Every verb consumes at least one byte: the length of the text is enough fuel. *)
Fixpoint sprintf0 (fuel : nat) (s : string) : string :=
  match fuel with
  | O => ""
  | S fuel =>
      let '(plain, s) := span (fun c => bool_decide (c <> "%"%char)) s in
      match s with
      | "" => plain
      | String _ s =>
          let '(out, rest) := print_verb s in
          plain ++ out ++ match rest with Some s => sprintf0 fuel s | None => "" end
      end
  end.

Definition Errorf0 (text : string) : error := Errorf (sprintf0 (S (String.length text)) text).

(** ** The transport *)

Record netConn := mkNetConn {
  nc_target : string;
  nc_id : nat;
}.

Record NetworkTransport := mkNetworkTransport {
  nt_connPool : gmap string (list netConn);
  nt_heartbeatFn : bool;  (* a handler is set *)
  nt_maxPool : Z;
  nt_shutdown : bool;
  nt_timeout : Duration;
  nt_TimeoutScale : Z;
}.

(** The transport of a node, its connections by their number, and how the next dials go: a connection
    with its faults, or an error. *)
Record net := mkNet {
  n_trans : NetworkTransport;
  n_conns : list stream;
  n_dials : list (list (option (nat * error)) + error);
}.

Definition set_pool (pool : gmap string (list netConn)) (n : net) : net :=
  let t := n_trans n in
  mkNet (mkNetworkTransport pool (nt_heartbeatFn t) (nt_maxPool t) (nt_shutdown t) (nt_timeout t) (nt_TimeoutScale t))
    (n_conns n) (n_dials n).
Definition set_conn (id : nat) (s : stream) (n : net) : net :=
  mkNet (n_trans n) (<[id := s]> (n_conns n)) (n_dials n).

(** A pointer to a connection: every [netConn] of the code has its connection. *)
Definition conn_of (id : nat) (n : net) : stream := default (fresh_stream []) (n_conns n !! id).

Definition NewNetworkTransport (maxPool : Z) (timeout : Duration) : NetworkTransport :=
  mkNetworkTransport ∅ false maxPool false timeout DefaultTimeoutScale.

Definition SetHeartbeatHandler (t : NetworkTransport) : NetworkTransport :=
  mkNetworkTransport (nt_connPool t) true (nt_maxPool t) (nt_shutdown t) (nt_timeout t) (nt_TimeoutScale t).

(** [NetworkTransport.Close]: the pooled connections stay as they are. *)
Definition transport_Close (t : NetworkTransport) : NetworkTransport :=
  if nt_shutdown t then t
  else mkNetworkTransport (nt_connPool t) (nt_heartbeatFn t) (nt_maxPool t) true (nt_timeout t) (nt_TimeoutScale t).

Definition IsShutdown (t : NetworkTransport) : bool := nt_shutdown t.

(** [netConn.Release]. *)
Definition Release (c : netConn) (n : net) : net := set_conn (nc_id c) (conn_Close (conn_of (nc_id c) n)) n.

Definition getPooledConn (target : string) (n : net) : option netConn * net :=
  match nt_connPool (n_trans n) !! target with
  | None | Some [] => (None, n)
  | Some (c :: cs) =>
      (last (c :: cs), set_pool (<[target := removelast (c :: cs)]> (nt_connPool (n_trans n))) n)
  end.

Definition getConn (target : string) (n : net) : (netConn + error) * net :=
  let '(pooled, n) := getPooledConn target n in
  match pooled with
  | Some c => (inl c, n)
  | None =>
      let dials := tail (n_dials n) in
      match n_dials n with
      | inr e :: _ => (inr e, mkNet (n_trans n) (n_conns n) dials)
      | d =>
          let faults := match d with inl f :: _ => f | _ => [] end in
          (inl (mkNetConn target (length (n_conns n))),
           mkNet (n_trans n) (n_conns n ++ [fresh_stream faults])%list dials)
      end
  end.

Definition returnConn (c : netConn) (n : net) : net :=
  let conns := default [] (nt_connPool (n_trans n) !! nc_target c) in
  if negb (IsShutdown (n_trans n)) && (Z.of_nat (length conns) <? nt_maxPool (n_trans n)) then
    set_pool (<[nc_target c := (conns ++ [c])%list]> (nt_connPool (n_trans n))) n
  else Release c n.

(** ** Calls *)

Section Client.
Context {HC : RpcCodec}.

(** [sendRPC]. *)
Definition sendRPC (c : netConn) (args : rpc_args) (n : net) : option error * net :=
  let failed := fun e s => (Some e, Release c (set_conn (nc_id c) s n)) in
  let '(err, s) := w_WriteByte (args_type args) (conn_of (nc_id c) n) in
  match err with
  | Some e => failed e s
  | None =>
      let '(err, s) := enc_Encode (put_args args) s in
      match err with
      | Some e => failed e s
      | None =>
          let '(err, s) := w_Flush s in
          match err with
          | Some e => failed e s
          | None => (None, set_conn (nc_id c) s n)
          end
      end
  end.

(** [decodeResponse]: whether the connection can be reused, and the response or the error. *)
Definition decodeResponse (c : netConn) (t : ascii) (n : net) : option (bool * (rpc_response + error) * net) :=
  let deadline := 0 <? nt_timeout (n_trans n) in
  match dec_Decode get_error deadline (conn_of (nc_id c) n) with
  | None => None
  | Some (inr e, s) => Some (false, inr e, Release c (set_conn (nc_id c) s n))
  | Some (inl rpcError, s) =>
      match dec_Decode (get_resp t) deadline s with
      | None => None
      | Some (inr e, s) => Some (false, inr e, Release c (set_conn (nc_id c) s n))
      | Some (inl resp, s) =>
          let n := set_conn (nc_id c) s n in
          if decide (rpcError = "") then Some (true, inl resp, n) else Some (true, inr (Errorf0 rpcError), n)
      end
  end.

(** What the other side does with the connection until the deadline. *)
Context {P : Type} (remote : string -> stream -> P -> stream * P).

Definition remote_acts (c : netConn) (n : net) (p : P) : net * P :=
  let '(s, p) := remote (nc_target c) (conn_of (nc_id c) n) p in (set_conn (nc_id c) s n, p).

(** [genericRPC]; [None]: it waits forever. *)
Definition genericRPC (target : string) (args : rpc_args) (n : net) (p : P)
    : option ((rpc_response + error) * net * P) :=
  let '(conn, n) := getConn target n in
  match conn with
  | inr e => Some (inr e, n, p)
  | inl c =>
      let '(err, n) := sendRPC c args n in
      match err with
      | Some e => Some (inr e, n, p)
      | None =>
          let '(n, p) := remote_acts c n p in
          match decodeResponse c (args_type args) n with
          | None => None
          | Some (canReturn, r, n) => Some (r, if canReturn : bool then returnConn c n else n, p)
          end
      end
  end.

(** [InstallSnapshot]'s deadline: the timeout, scaled by the size. *)
Definition snapshot_timeout (t : NetworkTransport) (size : Z) : Duration :=
  let timeout := wrap64 (nt_timeout t * (size `quot` nt_TimeoutScale t)) in
  if timeout <? nt_timeout t then nt_timeout t else timeout.

(** [InstallSnapshot]; [io.Copy(conn.w, data)]: the content in chunks as it is read, and the error of
    reading it. *)
Definition InstallSnapshot (target : string) (i : InstallSnapshotRequest) (data : list string)
    (readErr : option error) (n : net) (p : P)
    : option ((rpc_response + error) * net * P) :=
  let '(conn, n) := getConn target n in
  match conn with
  | inr e => Some (inr e, n, p)
  | inl c =>
      let '(err, n) := sendRPC c (ArgsInstall i) n in
      match err with
      | Some e => Some (inr e, Release c n, p)
      | None =>
          let '(err, s) := enc_Encode data (conn_of (nc_id c) n) in
          match (if err is Some e then Some e else readErr) with
          | Some e => Some (inr e, Release c (set_conn (nc_id c) s n), p)
          | None =>
              let '(err, s) := w_Flush s in
              let n := set_conn (nc_id c) s n in
              match err with
              | Some e => Some (inr e, Release c n, p)
              | None =>
                  let '(n, p) := remote_acts c n p in
                  match decodeResponse c rpcInstallSnapshot n with
                  | None => None
                  | Some (_, r, n) => Some (r, Release c n, p)
                  end
              end
          end
      end
  end.
End Client.

(** ** Serving calls *)

Inductive command_result := CmdDone | CmdFailed (e : error) | CmdWaits.

Section Server.
Context {HC : RpcCodec} {P : Type}.

(** The consumer of the calls: the request and, for a snapshot, the bytes its reader can give; the
    answer and how many of those bytes were read.  [None]: no answer. *)
Context (consume : rpc_args -> string -> P -> option (rpc_response * option error * nat) * P).
Context (heartbeat : rpc_args -> P -> option (rpc_response * option error) * P).

(** A heartbeat, as [handleCommand] recognizes it; an empty leader stands for none. *)
Definition isHeartbeat (a : rpc_args) : bool :=
  match a with
  | ArgsAppend a =>
      negb (ae_Term a =? 0) && bool_decide (ae_Leader a <> "") && (ae_PrevLogEntry a =? 0) &&
      (ae_PrevLogTerm a =? 0) && bool_decide (ae_Entries a = []) && (ae_LeaderCommitIndex a =? 0)
  | _ => false
  end.

(** [io.LimitReader(r, req.Size)] over what has arrived. *)
Definition limited (a : rpc_args) (rest : string) : string :=
  match a with ArgsInstall i => str_take (Z.to_nat (is_Size i)) rest | _ => "" end.

(** The answer of a call, error first. *)
Definition sendResponse (resp : rpc_response) (err : option error) (s : stream) : command_result * stream :=
  let '(e1, s) := enc_Encode (put_error (if err is Some e then error_msg e else "")) s in
  match e1 with
  | Some e => (CmdFailed e, s)
  | None =>
      let '(e2, s) := enc_Encode (put_resp resp) s in
      (match e2 with Some e => CmdFailed e | None => CmdDone end, s)
  end.

(** [handleCommand]; [down]: the transport is shut down and the selects see it. *)
Definition handleCommand (heartbeatFn down : bool) (s : stream) (p : P) : command_result * stream * P :=
  match st_in s with
  | "" => (if st_closed s then CmdFailed net_closed else if st_eof s then CmdFailed io_EOF else CmdWaits, s, p)
  | String t rest =>
      if negb (bool_decide (t ∈ [rpcAppendEntries; rpcRequestVote; rpcInstallSnapshot])) then
        (CmdFailed (Errorf ("unknown rpc type " ++ Itoa (Z.of_nat (nat_of_ascii t)))), st_set_in rest s, p)
      else
        match dec_Decode (get_args t) false (st_set_in rest s) with
        | None => (CmdWaits, s, p)
        | Some (inr e, s) => (CmdFailed e, s, p)
        | Some (inl a, s) =>
            let beat := isHeartbeat a && heartbeatFn in
            if negb beat && down then (CmdFailed ErrTransportShutdown, s, p)
            else
              let '(answer, n, p) :=
                if beat then let '(r, p) := heartbeat a p in (r, 0%nat, p)
                else match consume a (limited a (st_in s)) p with
                     | (Some (resp, err, n), p) => (Some (resp, err), n, p)
                     | (None, p) => (None, 0%nat, p)
                     end in
              let s := st_set_in (str_drop (Nat.min n (String.length (limited a (st_in s)))) (st_in s)) s in
              match answer with
              | None => (if down then CmdFailed ErrTransportShutdown else CmdWaits, s, p)
              | Some (resp, err) =>
                  if down then (CmdFailed ErrTransportShutdown, s, p)
                  else let '(r, s) := sendResponse resp err s in (r, s, p)
              end
        end
  end.

(** [handleConn]: commands until one fails, each answered before the next; it also stops here when it
    waits for bytes, or for an answer, that did not come yet.  One command takes a byte at least. *)
Fixpoint handleConn (fuel : nat) (heartbeatFn down : bool) (s : stream) (p : P) : stream * P :=
  match fuel with
  | O => (s, p)
  | S fuel =>
      let '(r, s, p) := handleCommand heartbeatFn down s p in
      match r with
      | CmdWaits => (s, p)
      | CmdFailed _ => (conn_Close s, p)
      | CmdDone =>
          let '(err, s) := w_Flush s in
          match err with Some _ => (conn_Close s, p) | None => handleConn fuel heartbeatFn down s p end
      end
  end.
End Server.

(** [listen]: what [Accept] returns in turn, and for an error whether the transport is shut down by
    then.  The connections that get a [handleConn] of their own, and whether the loop has ended. *)
Fixpoint listen (accepts : list (nat + error * bool)) : list nat * bool :=
  match accepts with
  | [] => ([], false)
  | inl conn :: accepts => let '(conns, ended) := listen accepts in (conn :: conns, ended)
  | inr (_, down) :: accepts => if down : bool then ([], true) else listen accepts
  end.

(** Until the shutdown every accepted connection is served, whatever fails in between. *)
Lemma listen_serves accepts :
  Forall (fun a => if a is inr (_, down) then down = false else True) accepts ->
  listen accepts = (omap (fun a => if a is inl conn then Some conn else None) accepts, false).
Proof.
  induction 1 as [|[conn|[e down]] accepts Ha _ IH]; simpl; [done| |by subst].
  by rewrite IH.
Qed.

(** ** TCP *)

Inductive netAddr :=
| TCPAddr (ip port : string) (unspecified : bool)
| OtherAddr (text : string).

Definition errNotAdvertisable : error := Sentinel "local bind address is not advertisable".
Definition errNotTCP : error := Sentinel "local address is not a TCP address".

Record TCPStreamLayer := mkTCPStreamLayer {
  tl_advertise : option netAddr;
  tl_listener : netAddr;
}.

Definition Addr (t : TCPStreamLayer) : netAddr := default (tl_listener t) (tl_advertise t).

(** [newTCPTransport]; [listen]: the address the listener is bound to, or the error. *)
Definition newTCPTransport (listen : netAddr + error) (advertise : option netAddr) (maxPool : Z) (timeout : Duration)
    : (TCPStreamLayer * NetworkTransport) + error :=
  match listen with
  | inr e => inr e
  | inl l =>
      let stream := mkTCPStreamLayer advertise l in
      match Addr stream with
      | OtherAddr _ => inr errNotTCP
      | TCPAddr _ _ unspecified =>
          if unspecified : bool then inr errNotAdvertisable
          else inl (stream, NewNetworkTransport maxPool timeout)
      end
  end.

(** [net.Addr.String] of the two kinds of addresses, and [LocalAddr]. *)
Definition netAddr_String (a : netAddr) : string :=
  match a with
  | TCPAddr ip port _ => (if Contains ip ":" then "[" ++ ip ++ "]" else ip) ++ ":" ++ port
  | OtherAddr text => text
  end.
Definition LocalAddr (t : TCPStreamLayer) : string := netAddr_String (Addr t).

(** ** Bytes in, bytes out *)

(** Everything written so far is on the wire or in the buffer. *)
Definition flowing (s : stream) (w : string) : Prop :=
  st_werr s = None /\ st_closed s = false /\ st_out s ++ st_buf s = w.
(** What writing does not change. *)
Definition same_input (s s' : stream) : Prop :=
  st_in s' = st_in s /\ st_eof s' = st_eof s /\ (st_faults s = [] -> st_faults s' = []).

Definition write_spec (s : stream) (w : string) (r : option error * stream) : Prop :=
  match r with
  | (None, s') => flowing s' w /\ same_input s s'
  | (Some _, s') => st_faults s <> []
  end.

Lemma write_spec_trans s s' w r : same_input s s' -> write_spec s' w r -> write_spec s w r.
Proof.
  intros (H1 & H2 & H3). destruct r as [[e|] s'']; simpl; [naive_solver|].
  intros [? (? & ? & ?)]. split; [done|]. split_and!; [congruence..|auto].
Qed.

Lemma conn_Write_spec p s : st_closed s = false ->
  match conn_Write p s with
  | (_, None, s') => st_out s' = st_out s ++ p /\ st_buf s' = st_buf s /\ st_werr s' = st_werr s /\
                     st_closed s' = false /\ same_input s s'
  | (_, Some _, _) => st_faults s <> []
  end.
Proof.
  intros Hc. unfold conn_Write. rewrite Hc. unfold same_input. destruct (st_faults s) as [|[[n e]|] fs] eqn:Hf; simpl; [|done|];
    rewrite ?str_take_all; rewrite ?Hf; naive_solver.
Qed.

Lemma w_Flush_spec s w : flowing s w ->
  match w_Flush s with
  | (None, s') => flowing s' w /\ same_input s s' /\ st_buf s' = ""
  | (Some _, s') => st_faults s <> []
  end.
Proof.
  intros (He & Hc & <-). unfold w_Flush. rewrite He. case_decide as Hb.
  - split; [done|]. split; [unfold same_input; auto|done].
  - pose proof (conn_Write_spec (st_buf s) s Hc) as Hw. destruct (conn_Write _ s) as [[k [e|]] s']; [done|].
    destruct Hw as (Ho & _ & _ & Hc' & Hi). split; [|split; [exact Hi|done]].
    split_and!; [done..|]. simpl. by rewrite Ho, str_app_nil_r.
Qed.

Lemma w_rest_spec p s w : flowing s w -> st_buf s = "" -> write_spec s (w ++ p) (w_rest p s).
Proof.
  intros (He & Hc & <-) Hb. unfold w_rest. case_if.
  - split; [|unfold same_input; auto]. split_and!; [done..|]. simpl. by rewrite Hb, str_app_nil_r.
  - pose proof (conn_Write_spec p s Hc) as Hw. destruct (conn_Write _ s) as [[k [e|]] s']; [done|].
    destruct Hw as (Ho & Hb' & He' & Hc' & Hi). split; [|done]. split_and!; [congruence|done|].
    by rewrite Ho, Hb', Hb, !str_app_nil_r.
Qed.

Lemma w_Write_spec p s w : flowing s w -> write_spec s (w ++ p) (w_Write p s).
Proof.
  intros Hf. pose proof Hf as (He & Hc & <-). unfold w_Write. rewrite He. case_if; [|case_decide as Hb].
  - split; [|unfold same_input; auto]. split_and!; [done..|]. simpl. by rewrite <- str_app_assoc.
  - by apply w_rest_spec.
  - set (k := (bufio_size - _)%nat). set (s1 := st_set_buf _ _ s).
    assert (Hf1 : flowing s1 ((st_out s ++ st_buf s) ++ str_take k p)).
    { split_and!; [done..|]. simpl. by rewrite <- str_app_assoc. }
    pose proof (w_Flush_spec s1 _ Hf1) as Hw. destruct (w_Flush s1) as [[e|] s2]; [done|].
    destruct Hw as (Hf2 & Hi2 & Hb2). apply (write_spec_trans s s2); [exact Hi2|].
    rewrite <- (str_take_drop k p) at 1. rewrite <- str_app_assoc. by apply w_rest_spec.
Qed.

Lemma w_WriteByte_spec c s w : flowing s w -> write_spec s (w ++ String c "") (w_WriteByte c s).
Proof.
  intros Hf. pose proof Hf as (He & Hc & <-). unfold w_WriteByte. rewrite He.
  assert (Hpre : match (if (bufio_size <=? String.length (st_buf s))%nat then w_Flush s else (None, s)) with
                 | (None, s') => flowing s' (st_out s ++ st_buf s) /\ same_input s s'
                 | (Some _, s') => st_faults s <> []
                 end).
  { case_if; [|unfold same_input; auto]. pose proof (w_Flush_spec s _ Hf) as Hw.
    destruct (w_Flush s) as [[e|] s']; [done|]. naive_solver. }
  destruct (if (_ <=? _)%nat then _ else _) as [[e|] s']; [done|]. destruct Hpre as [(He' & Hc' & Hw) Hi].
  split; [|exact Hi]. split_and!; [done..|]. simpl. by rewrite <- Hw, str_app_assoc.
Qed.

Lemma enc_Encode_spec chunks : forall s w, flowing s w -> write_spec s (w ++ cat chunks) (enc_Encode chunks s).
Proof.
  induction chunks as [|p chunks IH]; intros s w Hf; simpl.
  - rewrite str_app_nil_r. split; [done|]. unfold same_input; auto.
  - pose proof (w_Write_spec p s w Hf) as Hw. destruct (w_Write p s) as [[e|] s']; [done|].
    destruct Hw as [Hf' Hi]. apply (write_spec_trans s s'); [done|].
    rewrite <- (str_app_assoc w p). by apply IH.
Qed.

(** ** The pool *)

(** A connection with nothing left to read or to write on either side. *)
Definition clean (s : stream) : Prop :=
  st_in s = "" /\ st_out s = "" /\ st_buf s = "" /\ st_werr s = None /\ st_closed s = false.

Definition pooled (n : net) (c : netConn) : Prop :=
  exists conns, nt_connPool (n_trans n) !! nc_target c = Some conns /\ c ∈ conns.

(** What holds of the pool: its connections exist and are clean, each is there once, and no target
    has more than [maxPool] of them. *)
Definition pool_ok (n : net) : Prop :=
  (forall t conns, nt_connPool (n_trans n) !! t = Some conns ->
     Forall (fun c => nc_target c = t) conns /\ NoDup conns /\
     Z.of_nat (length conns) <= Z.max 0 (nt_maxPool (n_trans n))) /\
  (forall c, pooled n c -> exists s, n_conns n !! nc_id c = Some s /\ clean s) /\
  (forall c c', pooled n c -> pooled n c' -> nc_id c = nc_id c' -> c = c').

(** A connection taken by a call: it is not in the pool. *)
Definition taken (n : net) (c : netConn) : Prop := forall c', pooled n c' -> nc_id c' <> nc_id c.

Lemma pool_ok_set_conn n c s : pool_ok n -> taken n c -> pool_ok (set_conn (nc_id c) s n) /\ taken (set_conn (nc_id c) s n) c.
Proof.
  intros (Hp & Hc & Hi) Ht. split; [|exact Ht]. split; [exact Hp|]. split; [|exact Hi]. intros c' Hc'.
  destruct (Hc c' Hc') as (s' & Hs' & Hcl). exists s'. split; [|done]. simpl. rewrite list_lookup_insert_ne; [done|].
  intros E. by apply (Ht c').
Qed.

Lemma Release_pool_ok n c : pool_ok n -> taken n c -> pool_ok (Release c n) /\ taken (Release c n) c.
Proof. apply pool_ok_set_conn. Qed.

Lemma getConn_spec target n r n' : pool_ok n -> getConn target n = (r, n') ->
  pool_ok n' /\ nt_maxPool (n_trans n') = nt_maxPool (n_trans n) /\ nt_timeout (n_trans n') = nt_timeout (n_trans n) /\
  match r with
  | inl c => nc_target c = target /\ taken n' c /\ exists s, n_conns n' !! nc_id c = Some s /\ clean s
  | inr _ => True
  end.
Proof.
  intros Hn. pose proof Hn as (Hp & Hc & Hi). unfold getConn, getPooledConn.
  assert (Hdial : forall f (d : list (list (option (nat * error)) + error)), let n1 := mkNet (n_trans n) (n_conns n ++ [fresh_stream f])%list d in
    let c := mkNetConn target (length (n_conns n)) in
    pool_ok n1 /\ taken n1 c /\ exists s, n_conns n1 !! nc_id c = Some s /\ clean s).
  { intros f d n1 c. subst n1 c. split; [split; [|split]|split].
    - exact Hp.
    - intros c' Hc'. destruct (Hc c' Hc') as (s & Hs & Hcl). exists s. split; [|done]. simpl.
      by apply lookup_app_l_Some.
    - exact Hi.
    - intros c' Hc'. destruct (Hc c' Hc') as (s & Hs & Hcl). apply lookup_lt_Some in Hs. simpl. lia.
    - exists (fresh_stream f). split; [simpl; by apply list_lookup_middle|done]. }
  destruct (nt_connPool (n_trans n) !! target) as [[|c0 cs]|] eqn:Ep.
  1, 3: destruct (n_dials n) as [|[f|e] d]; intros [= <- <-];
      [destruct (Hdial [] []) as (? & ? & ?)|destruct (Hdial f d) as (? & ? & ?)|]; split_and!; done.
  destruct (Hp target _ Ep) as (Htar & Hnd & Hlen).
  destruct (exists_last (l := c0 :: cs) ltac:(done)) as (init & c & E). rewrite E in *.
  rewrite last_snoc, removelast_last. intros [= <- <-].
  assert (Hct : nc_target c = target).
  { apply Forall_app in Htar as [_ Ht]. by apply Forall_cons in Ht as [Ht _]. }
  assert (Hsub : forall c', pooled (set_pool (<[target := init]> (nt_connPool (n_trans n))) n) c' -> pooled n c' /\ c' <> c).
  { intros c' (conns & Hl & Hin). simpl in Hl. apply lookup_insert_Some in Hl as [[Ht <-]|[Hne Hl]].
    - split; [exists (init ++ [c])%list; rewrite <- Ht, Ep; split; [done|set_solver]|].
      intros ->. apply NoDup_app in Hnd as (_ & Hd & _). apply (Hd c Hin). set_solver.
    - split; [by exists conns|]. intros ->. by apply Hne. }
  assert (Hpc : pooled n c).
  { exists (init ++ [c])%list. rewrite Hct. split; [done|set_solver]. }
  split; [split; [|split]|split_and!; try done].
  - intros t conns Hl. simpl in Hl. apply lookup_insert_Some in Hl as [[<- <-]|[_ Hl]]; [|by apply Hp].
    apply Forall_app in Htar as [? _]. apply NoDup_app in Hnd as [? _]. rewrite length_app in Hlen. simpl in *. split_and!; [done..|lia].
  - intros c' Hc'. apply Hc, Hsub, Hc'.
  - intros c1 c2 H1 H2. apply Hi; by apply Hsub.
  - intros c' Hc' Eid. destruct (Hsub c' Hc') as [Hpc' Hne]. by apply Hne, Hi.
  - exact (Hc c Hpc).
Qed.

Lemma returnConn_spec n c s : pool_ok n -> taken n c -> n_conns n !! nc_id c = Some s -> clean s -> pool_ok (returnConn c n).
Proof.
  intros Hn Ht Hs Hcl. unfold returnConn. case_if; [|by apply Release_pool_ok]. zbool.
  pose proof Hn as (Hp & Hc & Hi). set (conns := default [] _) in *.
  assert (Hconns : Forall (fun c' => nc_target c' = nc_target c) conns /\ NoDup conns /\ forall c', c' ∈ conns -> pooled n c').
  { subst conns. destruct (nt_connPool (n_trans n) !! nc_target c) as [cs|] eqn:E; simpl.
    - destruct (Hp _ _ E) as (H1 & H2 & _). split_and!; [done..|]. intros c' Hin. exists cs.
      rewrite Forall_forall in H1. by rewrite (H1 c' Hin).
    - split_and!; [constructor..|]. intros c' Hc'. by apply elem_of_nil in Hc'. }
  destruct Hconns as (Htar & Hnd & Hpool).
  assert (Hsub : forall c', pooled (set_pool (<[nc_target c := (conns ++ [c])%list]> (nt_connPool (n_trans n))) n) c' ->
    pooled n c' \/ c' = c).
  { intros c' (cs & Hl & Hin). simpl in Hl. apply lookup_insert_Some in Hl as [[E <-]|[_ Hl]]; [|left; by exists cs].
    apply elem_of_app in Hin as [Hin|Hin]; [left; auto|right; by apply list_elem_of_singleton in Hin]. }
  split; [|split].
  - intros t cs Hl. simpl in Hl. apply lookup_insert_Some in Hl as [[<- <-]|[_ Hl]]; [|by apply Hp].
    rewrite length_app. simpl. split_and!; [by apply Forall_app; split; [|apply Forall_singleton]| |lia].
    apply NoDup_app. split_and!; [done| |apply NoDup_singleton]. intros c' Hin ->%list_elem_of_singleton.
    by apply (Ht c (Hpool c Hin)).
  - intros c' [Hc'| ->]%Hsub; [by apply Hc|]. by exists s.
  - intros c1 c2 [H1| ->]%Hsub [H2| ->]%Hsub E; [by apply Hi|..|done]; exfalso.
    + by apply (Ht c1).
    + by apply (Ht c2).
Qed.

(** ** A call and its answer *)

(** How a call goes on the other side by the deadline: whether it was served at all, how many bytes
    of the answer arrive, whether the other side closes. *)
Record delivery := mkDelivery {
  d_served : bool;
  d_bytes : nat;
  d_eof : bool;
}.

Section Calls.
Context `{RpcCodecLaws} {P : Type}.
Context (consume : rpc_args -> string -> P -> option (rpc_response * option error * nat) * P).
Context (heartbeat : rpc_args -> P -> option (rpc_response * option error) * P).
Context (heartbeatFn : bool).

(** The other side serves a connection: it reads what was sent, and what it writes arrives. *)
Definition serve (fuel : nat) (down : bool) (d : delivery) (s : stream) (p : P) : stream * P :=
  if d_served d then
    let '(peer, p) := handleConn consume heartbeat (S fuel) heartbeatFn down
                        (mkStream (st_out s) (st_closed s) "" "" None false []) p in
    (mkStream (st_in s ++ str_take (d_bytes d) (st_out peer)) (st_eof s || d_eof d) (st_in peer)
       (st_buf s) (st_werr s) (st_closed s) (st_faults s), p)
  else (s, p).

(** What a node answers to a request, by either path. *)
Definition answer (a : rpc_args) (data : string) (p : P) : option (rpc_response * option error * nat) * P :=
  if isHeartbeat a && heartbeatFn then
    let '(r, p) := heartbeat a p in ((fun '(resp, err) => (resp, err, 0%nat)) <$> r, p)
  else consume a data p.

(** A node answers a call with a response of its kind. *)
Definition answers_in_kind : Prop := forall a data p resp err k p',
  args_ok a -> answer a data p = (Some (resp, err, k), p') -> resp_ok (args_type a) resp.

Definition error_text (err : option error) : string := if err is Some e then error_msg e else "".
Definition reply (resp : rpc_response) (err : option error) : string :=
  cat (put_error (error_text err)) ++ cat (put_resp resp).

(** A request on the wire. *)
Definition framed (a : rpc_args) : string := String (args_type a) (cat (put_args a)).

Lemma sent_type a : args_type (sent a) = args_type a.
Proof. by destruct a. Qed.
Lemma sent_ok a : args_ok a -> args_ok (sent a).
Proof.
  destruct a as [a|v|i]; [|done..]. simpl. intros (? & ? & ? & ? & Hf). split_and!; [done..|]. by apply Forall_fmap.
Qed.

Lemma get_error_empty : get_error "" = Short.
Proof.
  destruct (String.length (cat (put_error ""))) as [|k] eqn:E.
  - exfalso. assert (E0 : cat (put_error "") = "") by (by destruct (cat (put_error ""))).
    pose proof (get_put_error "" (cat (put_error "x") ++ "")) as H1. rewrite E0 in H1.
    change ("" ++ (cat (put_error "x") ++ "")) with (cat (put_error "x") ++ "") in H1. by rewrite get_put_error in H1.
  - rewrite <- (get_error_cut "" 0) by lia. done.
Qed.

Lemma sendResponse_spec resp err s w : flowing s w -> st_faults s = [] ->
  exists s', sendResponse resp err s = (CmdDone, s') /\ flowing s' (w ++ reply resp err) /\ same_input s s'.
Proof.
  intros Hf Hnf. unfold sendResponse. fold (error_text err).
  pose proof (enc_Encode_spec (put_error (error_text err)) s w Hf) as H1.
  destruct (enc_Encode _ s) as [[e|] s1]; [done|]. destruct H1 as [Hf1 Hi1].
  pose proof (enc_Encode_spec (put_resp resp) s1 _ Hf1) as H2.
  destruct (enc_Encode (put_resp resp) s1) as [[e|] s2]; [exfalso; by apply H2, Hi1|]. destruct H2 as [Hf2 Hi2].
  rewrite str_app_assoc in Hf2. exists s2. split; [done|]. split; [exact Hf2|].
  destruct Hi1 as (?&?&?), Hi2 as (?&?&?). split_and!; [congruence..|auto].
Qed.

(** What was read of the snapshot that follows a request. *)
Definition read_of (k : nat) (a : rpc_args) (rest : string) : nat := Nat.min k (String.length (limited a rest)).

(** What the server does with one request of the wire, whatever follows it. *)
Lemma handleCommand_framed down a rest s w (p : P) :
  args_ok a -> st_in s = framed a ++ rest -> flowing s w -> st_faults s = [] ->
  match handleCommand consume heartbeat heartbeatFn down s p with
  | (CmdDone, s', p') => down = false /\ exists resp err k,
      answer (sent a) (limited a rest) p = (Some (resp, err, k), p') /\ flowing s' (w ++ reply resp err) /\
      st_in s' = str_drop (read_of k a rest) rest /\ st_eof s' = st_eof s /\ st_faults s' = []
  | (_, s', p') => st_out s' = st_out s /\ (down = false -> exists v, answer (sent a) (limited a rest) p = (None, v))
  end.
Proof.
  intros Ha Hin Hf Hnf. unfold handleCommand. rewrite Hin. change (framed a ++ rest) with (String (args_type a) (cat (put_args a) ++ rest)).
  cbn iota. assert (Hk : bool_decide (args_type a ∈ [rpcAppendEntries; rpcRequestVote; rpcInstallSnapshot]) = true)
    by (by destruct a).
  pose proof Hf as (He & Hc & Hw).
  rewrite Hk. cbn [negb]. unfold dec_Decode. cbn [st_closed st_set_in st_in]. rewrite Hc, get_put_args by done.
  cbn [st_in st_set_in].
  assert (Hlim : limited (sent a) rest = limited a rest) by (by destruct a). rewrite Hlim. unfold answer.
  assert (Hsend : forall k resp err (p' : P), down = false ->
    exists s', (let '(r, s') := sendResponse resp err (st_set_in (str_drop (read_of k a rest) rest) (st_set_in rest (st_set_in (cat (put_args a) ++ rest) s))) in
      (r, s', p')) = (CmdDone, s', p') /\ flowing s' (w ++ reply resp err) /\ st_in s' = str_drop (read_of k a rest) rest /\
      st_eof s' = st_eof s /\ st_faults s' = []).
  { intros k resp err p' _. destruct (sendResponse_spec resp err (st_set_in (str_drop (read_of k a rest) rest) (st_set_in rest (st_set_in (cat (put_args a) ++ rest) s))) w)
      as (s' & -> & Hf' & (Hi & Heof & Hn)); [done..|]. exists s'. split_and!; [done|apply Hf'..|done|done|by apply Hn]. }
  destruct (isHeartbeat (sent a) && heartbeatFn); cbn [negb andb].
  2: destruct down; [done|].
  - destruct (heartbeat (sent a) p) as [[[resp err]|] p']; destruct down; try (by simpl; eauto).
    destruct (Hsend 0%nat resp err p' eq_refl) as (s' & E & ?). cbn [st_in st_set_in] in E |- *.
    fold (read_of 0 a rest). rewrite E. split; [done|]. eexists _, _, _. split; [done|]. done.
  - destruct (consume (sent a) (limited a rest) p) as [[[[resp err] k]|] p']; [|by simpl; eauto].
    destruct (Hsend k resp err p' eq_refl) as (s' & E & ?). cbn [st_in st_set_in] in E |- *.
    fold (read_of k a rest). rewrite E. split; [done|]. eexists _, _, _. split; [done|]. done.
Qed.

Lemma str_take_nil k : str_take k "" = "".
Proof. by destruct k. Qed.
Lemma str_drop_nil k : str_drop k "" = "".
Proof. by destruct k. Qed.

(** A call on a connection with nothing else on it. *)
Lemma serve_spec fuel down d a s (p : P) s' p' :
  args_ok a -> st_in s = "" -> st_out s = framed a -> st_closed s = false ->
  serve fuel down d s p = (s', p') ->
  st_buf s' = st_buf s /\ st_werr s' = st_werr s /\ st_closed s' = false /\ st_faults s' = st_faults s /\
  st_eof s' = st_eof s || (d_served d && d_eof d) /\
  (st_in s' = "" /\ (d_served d = true -> down = false -> exists v, answer (sent a) (limited a "") p = (None, v)) \/
   exists resp err k, answer (sent a) (limited a "") p = (Some (resp, err, k), p') /\
     st_in s' = str_take (d_bytes d) (reply resp err) /\ st_out s' = "").
Proof.
  intros Ha Hin Hout Hc. unfold serve. destruct (d_served d); [|by intros [= <- <-]; rewrite orb_false_r; split_and!; auto; left].
  rewrite Hin, Hout, Hc. cbn [handleConn]. rewrite <- (str_app_nil_r (framed a)).
  set (s0 := mkStream _ _ _ _ _ _ _).
  pose proof (handleCommand_framed down a "" s0 "" p Ha eq_refl ltac:(done) eq_refl) as Hcmd.
  destruct (handleCommand _ _ _ _ _ _) as [[r sv] pv]. change ("" ++ ?x) with x in *. destruct r.
  - destruct Hcmd as (-> & resp & err & k & Hans & Hf & Hi & He & Hnf).
    pose proof (w_Flush_spec sv _ Hf) as Hfl. destruct (w_Flush sv) as [[e|] sv2]; [by rewrite Hnf in Hfl|].
    destruct Hfl as ((_ & Hcl2 & Ho2) & (Hi2 & He2 & _) & Hb2). rewrite Hb2, str_app_nil_r in Ho2. rewrite str_drop_nil in Hi.
    assert (Hloop : handleConn consume heartbeat fuel heartbeatFn false sv2 pv = (sv2, pv)).
    { destruct fuel; [done|]. simpl. unfold handleCommand. rewrite Hi2, Hi. cbn iota.
      by rewrite Hcl2, He2, He. }
    rewrite Hloop. intros [= <- <-]. simpl. split_and!; try done. right. exists resp, err, k.
    split_and!; [done| |congruence]. by rewrite Ho2.
  - destruct Hcmd as (Ho & Hno). simpl in Ho. intros [= <- <-]. simpl. rewrite Ho, str_take_nil. split_and!; try done. left. auto.
  - destruct Hcmd as (Ho & Hno). simpl in Ho. intros [= <- <-]. simpl. rewrite Ho, str_take_nil. split_and!; try done. left. auto.
Qed.

Lemma str_take_app_le m (a b : string) :
  (String.length a <= m)%nat -> str_take m (a ++ b) = a ++ str_take (m - String.length a) b.
Proof.
  revert m. induction a as [|x a IH]; intros m Hm; simpl in Hm; [by rewrite Nat.sub_0_r|].
  destruct m; [lia|]. change (String x (str_take m (a ++ b)) = String x (a ++ str_take (m - String.length a) b)). f_equal. apply IH. lia.
Qed.

Lemma str_take_app_lt m (a b : string) : (m < String.length a)%nat -> str_take m (a ++ b) = str_take m a.
Proof.
  revert m. induction a as [|x a IH]; intros m Hm; simpl in Hm; [lia|]. destruct m; [done|].
  change (String x (str_take m (a ++ b)) = String x (str_take m a)). f_equal. apply IH. lia.
Qed.

Lemma str_take_ge m (a : string) : (String.length a <= m)%nat -> str_take m a = a.
Proof.
  intros Hm. rewrite <- (str_app_nil_r a) at 1. rewrite str_take_app_le by done. by rewrite str_take_nil, str_app_nil_r.
Qed.

(** What a client is told when all of an answer arrived. *)
Definition told (resp : rpc_response) (err : option error) : rpc_response + error :=
  if decide (error_text err = "") then inl resp else inr (Errorf0 (error_text err)).

(** Reading an answer from a stream of which [m] bytes arrived. *)
Lemma decodeResponse_prefix c t n s resp err rest m :
  n_conns n !! nc_id c = Some s -> st_in s = str_take m (reply resp err ++ rest) -> st_closed s = false -> resp_ok t resp ->
  if (String.length (reply resp err) <=? m)%nat then
    decodeResponse c t n = Some (true, told resp err,
      set_conn (nc_id c) (st_set_in (str_take (m - String.length (reply resp err)) rest) s) n)
  else forall b r n', decodeResponse c t n = Some (b, r, n') ->
    b = false /\ (exists e, r = inr e) /\ exists s', n' = Release c (set_conn (nc_id c) s' n).
Proof.
  intros Hs Hin Hc Hr. unfold decodeResponse, conn_of, dec_Decode. rewrite Hs. change (default (fresh_stream []) (Some s)) with s.
  rewrite Hc, Hin. pose proof (get_put_error (error_text err)) as Hg. pose proof (get_error_cut (error_text err)) as Hgc.
  pose proof (fun k => get_put_resp t resp k Hr) as Hp. pose proof (fun k => get_resp_cut t resp k Hr) as Hpc. unfold reply.
  set (E := cat (put_error _)) in *. set (R := cat (put_resp _)) in *.
  rewrite str_length_app, str_app_assoc. destruct (decide (String.length E <= m)%nat) as [HE|HE].
  - rewrite str_take_app_le by done. rewrite Hg. cbn [st_set_in st_closed st_in]. rewrite Hc.
    destruct (Nat.leb_spec (String.length E + String.length R) m) as [Hm|Hm].
    + rewrite str_take_app_le by lia. rewrite Hp, Nat.sub_add_distr. unfold told. by case_decide.
    + rewrite str_take_app_lt by lia. rewrite Hpc by lia. intros b r n'. repeat case_if; intros; simplify_eq; eauto 10.
  - rewrite str_take_app_lt by lia. rewrite Hgc by lia.
    destruct (Nat.leb_spec (String.length E + String.length R) m) as [Hm|Hm]; [lia|].
    intros b r n'. repeat case_if; intros; simplify_eq; eauto 10.
Qed.

Lemma decodeResponse_spec c t n s resp err m :
  n_conns n !! nc_id c = Some s -> st_in s = str_take m (reply resp err) -> st_closed s = false -> resp_ok t resp ->
  if (String.length (reply resp err) <=? m)%nat then
    decodeResponse c t n = Some (true, told resp err, set_conn (nc_id c) (st_set_in "" s) n)
  else forall b r n', decodeResponse c t n = Some (b, r, n') ->
    b = false /\ (exists e, r = inr e) /\ exists s', n' = Release c (set_conn (nc_id c) s' n).
Proof.
  intros Hs Hin Hc Hr. rewrite <- (str_app_nil_r (reply resp err)) in Hin.
  pose proof (decodeResponse_prefix c t n s resp err "" m Hs Hin Hc Hr) as Hd. by rewrite str_take_nil in Hd.
Qed.

(** Sending a request on an open connection. *)
Lemma sendRPC_open c a n s :
  n_conns n !! nc_id c = Some s -> st_buf s = "" -> st_werr s = None -> st_closed s = false ->
  match sendRPC c a n with
  | (None, n') => exists s', n' = set_conn (nc_id c) s' n /\ st_in s' = st_in s /\ st_out s' = st_out s ++ framed a /\
      st_buf s' = "" /\ st_werr s' = None /\ st_closed s' = false /\ st_eof s' = st_eof s
  | (Some _, n') => st_faults s <> [] /\ exists s', n' = Release c (set_conn (nc_id c) s' n)
  end.
Proof.
  intros Hs Hbuf He Hc. unfold sendRPC, conn_of. rewrite Hs. change (default (fresh_stream []) (Some s)) with s.
  assert (Hf : flowing s (st_out s)) by (split_and!; [done..|by rewrite Hbuf, str_app_nil_r]).
  pose proof (w_WriteByte_spec (args_type a) s _ Hf) as H1.
  destruct (w_WriteByte _ s) as [[e|] s1]; [split; [done|by eexists]|]. destruct H1 as [Hf1 Hi1].
  pose proof (enc_Encode_spec (put_args a) s1 _ Hf1) as H2. apply (write_spec_trans s s1) in H2; [|done].
  destruct (enc_Encode _ s1) as [[e|] s2]; [split; [done|by eexists]|]. destruct H2 as [Hf2 Hi2].
  pose proof (w_Flush_spec s2 _ Hf2) as H3.
  destruct (w_Flush s2) as [[e|] s3]; [split; [destruct Hi2 as (_ & _ & Hi2); auto|by eexists]|].
  destruct H3 as ((He3 & Hc3 & Ho3) & Hi3 & Hb3). exists s3.
  destruct Hi2 as (Hin2 & Heof2 & _), Hi3 as (Hin3 & Heof3 & _). rewrite Hb3, str_app_nil_r, str_app_assoc in Ho3.
  split_and!; congruence || done.
Qed.

Lemma sendRPC_spec c a n s :
  n_conns n !! nc_id c = Some s -> clean s ->
  match sendRPC c a n with
  | (None, n') => exists s', n' = set_conn (nc_id c) s' n /\ st_in s' = "" /\ st_out s' = framed a /\ st_buf s' = "" /\
      st_werr s' = None /\ st_closed s' = false /\ st_eof s' = st_eof s
  | (Some _, n') => st_faults s <> [] /\ exists s', n' = Release c (set_conn (nc_id c) s' n)
  end.
Proof.
  intros Hs (Hin & Hout & Hbuf & He & Hc). pose proof (sendRPC_open c a n s Hs Hbuf He Hc) as Hsend.
  rewrite Hin, Hout in Hsend. exact Hsend.
Qed.

(** No answer: the call fails and the connection is closed. *)
Lemma decodeResponse_empty c t n s b r n' :
  n_conns n !! nc_id c = Some s -> st_in s = "" -> st_closed s = false ->
  decodeResponse c t n = Some (b, r, n') ->
  b = false /\ (exists e, r = inr e) /\ exists s', n' = Release c (set_conn (nc_id c) s' n).
Proof.
  intros Hs Hin Hc. unfold decodeResponse, conn_of, dec_Decode. rewrite Hs. change (default (fresh_stream []) (Some s)) with s.
  rewrite Hc, Hin, get_error_empty. repeat case_if; intros; simplify_eq; eauto 10.
Qed.

(** What a call may return: an error, or what the other node answered to this very request. *)
Definition answered_by (a : rpc_args) (p p' : P) (r : rpc_response + error) : Prop :=
  match r with
  | inr _ => True
  | inl resp => exists err k, answer (sent a) "" p = (Some (resp, err, k), p') /\ error_text err = ""
  end.

Lemma genericRPC_spec fuel down d target a n (p : P) r n' p' :
  answers_in_kind -> pool_ok n -> args_ok a -> args_type a <> rpcInstallSnapshot ->
  genericRPC (fun _ => serve fuel down d) target a n p = Some (r, n', p') ->
  pool_ok n' /\ answered_by a p p' r.
Proof.
  intros Hkind Hn Ha Ht. unfold genericRPC. destruct (getConn target n) as [conn n1] eqn:Eg.
  apply getConn_spec in Eg as (Hn1 & _ & _ & Hconn); [|done].
  destruct conn as [c|e]; [|by intros [= <- <- <-]]. destruct Hconn as (_ & Htk & s & Hs & Hcl).
  pose proof (sendRPC_spec c a n1 s Hs Hcl) as Hsend. destruct (sendRPC c a n1) as [[e|] n2].
  { destruct Hsend as [_ [s' ->]]. intros [= <- <- <-]. split; [|done].
    destruct (pool_ok_set_conn n1 c s' Hn1 Htk). by apply Release_pool_ok. }
  destruct Hsend as (s1 & -> & Hin1 & Hout1 & Hbuf1 & He1 & Hc1 & _).
  unfold remote_acts, conn_of. cbn [n_conns set_conn]. rewrite list_lookup_insert_eq by (by eapply lookup_lt_Some).
  change (default (fresh_stream []) (Some s1)) with s1.
  destruct (serve fuel down d s1 p) as [s2 p2] eqn:Es.
  apply (serve_spec fuel down d a) in Es as (Hbuf2 & He2 & Hc2 & _ & _ & Hcase); [|done..].
  destruct (pool_ok_set_conn n1 c s1 Hn1 Htk) as [Hn2 Htk2].
  destruct (pool_ok_set_conn _ c s2 Hn2 Htk2) as [Hn3 Htk3]. set (n3 := set_conn (nc_id c) s2 _) in *.
  assert (Hs3 : n_conns n3 !! nc_id c = Some s2).
  { simpl. apply list_lookup_insert_eq. rewrite length_insert. by eapply lookup_lt_Some. }
  assert (Hlim : limited a "" = "") by (by destruct a; simpl; rewrite ?str_take_nil). rewrite Hlim in Hcase.
  destruct (decodeResponse c (args_type a) n3) as [[[b res] n4]|] eqn:Ed; [|done]. intros [= <- <- <-].
  destruct Hcase as [[Hin2 _]|(resp & err & k & Hans & Hin2 & Hout2)].
  - apply (decodeResponse_empty c _ n3 s2) in Ed as (-> & [e ->] & s' & ->); [|done..]. split; [|done].
    destruct (pool_ok_set_conn n3 c s' Hn3 Htk3). by apply Release_pool_ok.
  - assert (Hok : resp_ok (args_type a) resp) by (rewrite <- sent_type; eapply Hkind; [by apply sent_ok|exact Hans]).
    pose proof (decodeResponse_spec c (args_type a) n3 s2 resp err (d_bytes d) Hs3 Hin2 Hc2 Hok) as Hdec.
    destruct (String.length (reply resp err) <=? d_bytes d)%nat.
    + rewrite Hdec in Ed. injection Ed as <- <- <-.
      destruct (pool_ok_set_conn n3 c (st_set_in "" s2) Hn3 Htk3) as [Hn5 Htk5]. split.
      * apply (returnConn_spec _ c (st_set_in "" s2)); [done..| |].
        { simpl. apply list_lookup_insert_eq. by eapply lookup_lt_Some. }
        split_and!; simpl; congruence.
      * unfold told. case_decide; [|done]. simpl. eauto.
    + apply Hdec in Ed as (-> & [e ->] & s' & ->). split; [|done].
      destruct (pool_ok_set_conn n3 c s' Hn3 Htk3). by apply Release_pool_ok.
Qed.

(** Nothing fails on this side: dials succeed, writes to the pooled connections do. *)
Definition net_calm (n : net) : Prop :=
  (forall c s, pooled n c -> n_conns n !! nc_id c = Some s -> st_faults s = []) /\ Forall (fun d => d = inl []) (n_dials n).

Lemma getConn_calm target n r n' : pool_ok n -> net_calm n -> getConn target n = (r, n') ->
  exists c s, r = inl c /\ n_conns n' !! nc_id c = Some s /\ st_faults s = [].
Proof.
  intros (Hp & Hc & _) [Hcalm Hd]. unfold getConn, getPooledConn.
  assert (Hdial : forall d, d = [] -> exists c s, (inl (mkNetConn target (length (n_conns n))) : netConn + error) = inl c /\
    (n_conns n ++ [fresh_stream d])%list !! nc_id c = Some s /\ st_faults s = []).
  { intros d ->. eexists _, _. split; [done|]. split; [by apply list_lookup_middle|done]. }
  destruct (nt_connPool (n_trans n) !! target) as [[|c0 cs]|] eqn:Ep.
  1, 3: destruct Hd as [|x d -> _]; intros [= <- <-]; by apply Hdial.
  destruct (Hp target _ Ep) as (Htar & _ & _).
  destruct (exists_last (l := c0 :: cs) ltac:(done)) as (init & c & E). rewrite E in *.
  rewrite last_snoc. intros [= <- <-].
  assert (Hpc : pooled n c).
  { exists (init ++ [c])%list. apply Forall_app in Htar as [_ Ht]. apply Forall_cons in Ht as [Ht _]. rewrite Ht. split; [done|set_solver]. }
  destruct (Hc c Hpc) as (s & Hs & _). exists c, s. split; [done|]. split; [done|]. by apply (Hcalm c).
Qed.

(** A call that meets no failure returns the answer. *)
Lemma genericRPC_succeeds fuel d target a n (p : P) resp err k p' :
  answers_in_kind -> pool_ok n -> net_calm n -> args_ok a -> args_type a <> rpcInstallSnapshot ->
  answer (sent a) "" p = (Some (resp, err, k), p') ->
  d_served d = true -> (String.length (reply resp err) <= d_bytes d)%nat ->
  exists n', genericRPC (fun _ => serve fuel false d) target a n p = Some (told resp err, n', p').
Proof.
  intros Hkind Hn Hcalm Ha Ht Hans Hsv Hb. unfold genericRPC. destruct (getConn target n) as [conn n1] eqn:Eg.
  destruct (getConn_calm target n _ _ Hn Hcalm Eg) as (c & s & -> & Hs & Hnf).
  apply getConn_spec in Eg as (Hn1 & _ & _ & _ & Htk & s0 & Hs0 & Hcl); [|done]. rewrite Hs in Hs0. injection Hs0 as <-.
  pose proof (sendRPC_spec c a n1 s Hs Hcl) as Hsend. destruct (sendRPC c a n1) as [[e|] n2]; [by destruct Hsend|].
  destruct Hsend as (s1 & -> & Hin1 & Hout1 & Hbuf1 & He1 & Hc1 & _).
  unfold remote_acts, conn_of. cbn [n_conns set_conn]. rewrite list_lookup_insert_eq by (by eapply lookup_lt_Some).
  change (default (fresh_stream []) (Some s1)) with s1.
  destruct (serve fuel false d s1 p) as [s2 p2] eqn:Es.
  apply (serve_spec fuel false d a) in Es as (_ & _ & Hc2 & _ & _ & Hcase); [|done..].
  assert (Hlim : limited a "" = "") by (by destruct a; simpl; rewrite ?str_take_nil). rewrite Hlim, Hans in Hcase.
  destruct Hcase as [[_ Hno]|(resp0 & err0 & k0 & [= <- <- <- <-] & Hin2 & _)]; [by destruct (Hno Hsv eq_refl)|].
  set (n3 := set_conn (nc_id c) s2 _).
  assert (Hs3 : n_conns n3 !! nc_id c = Some s2).
  { simpl. apply list_lookup_insert_eq. rewrite length_insert. by eapply lookup_lt_Some. }
  assert (Hok : resp_ok (args_type a) resp) by (rewrite <- sent_type; eapply Hkind; [by apply sent_ok|exact Hans]).
  pose proof (decodeResponse_spec c (args_type a) n3 s2 resp err (d_bytes d) Hs3 Hin2 Hc2 Hok) as Hdec.
  rewrite (proj2 (Nat.leb_le _ _) Hb) in Hdec. rewrite Hdec. by eexists.
Qed.
End Calls.

(** ** Histories of calls *)

Section History.
Context `{RpcCodecLaws} {P : Type}.
(** The nodes of a cluster, by address, with their joint state. *)
Context (consume : string -> rpc_args -> string -> P -> option (rpc_response * option error * nat) * P).
Context (heartbeat : string -> rpc_args -> P -> option (rpc_response * option error) * P).
Context (heartbeatFn : bool).

(** A call and how it goes on the other side. *)
Record call := mkCall {
  call_target : string;
  call_args : rpc_args;
  call_down : bool;
  call_delivery : delivery;
}.

Definition make_call (x : call) (n : net) (p : P) : option ((rpc_response + error) * net * P) :=
  genericRPC (fun t => serve (consume t) (heartbeat t) heartbeatFn 1 (call_down x) (call_delivery x))
    (call_target x) (call_args x) n p.

Fixpoint make_calls (xs : list call) (n : net) (p : P) : option (list (rpc_response + error) * net * P) :=
  match xs with
  | [] => Some ([], n, p)
  | x :: xs =>
      match make_call x n p with
      | None => None
      | Some (r, n, p) =>
          match make_calls xs n p with
          | None => None
          | Some (rs, n, p) => Some (r :: rs, n, p)
          end
      end
  end.

Definition call_ok (x : call) : Prop := args_ok (call_args x) /\ args_type (call_args x) <> rpcInstallSnapshot.

(** Every result is an error or the answer of the node it was sent to, to that request, in the state the
    nodes were in. *)
Fixpoint results_answer (xs : list call) (rs : list (rpc_response + error)) (p p' : P) : Prop :=
  match xs, rs with
  | [], [] => p' = p
  | x :: xs, r :: rs => exists p1,
      answered_by (consume (call_target x)) (heartbeat (call_target x)) heartbeatFn (call_args x) p p1 r /\
      results_answer xs rs p1 p'
  | _, _ => False
  end.

Lemma genericRPC_target (f g : string -> stream -> P -> stream * P) target a n p :
  (forall s p, f target s p = g target s p) -> pool_ok n -> genericRPC f target a n p = genericRPC g target a n p.
Proof.
  intros Hfg Hn. unfold genericRPC. destruct (getConn target n) as [[c|e] n1] eqn:Eg; [|done].
  apply getConn_spec in Eg as (_ & _ & _ & Ht & _); [|done]. destruct (sendRPC c a n1) as [[e|] n2]; [done|].
  unfold remote_acts. by rewrite Ht, Hfg.
Qed.

Lemma make_calls_spec xs : forall n p rs n' p',
  (forall t, answers_in_kind (consume t) (heartbeat t) heartbeatFn) -> Forall call_ok xs -> pool_ok n ->
  make_calls xs n p = Some (rs, n', p') -> pool_ok n' /\ results_answer xs rs p p'.
Proof.
  induction xs as [|x xs IH]; intros n p rs n' p' Hk Hxs Hn; simpl; [by intros [= <- <- <-]|].
  apply Forall_cons in Hxs as [[Ha Ht] Hxs]. destruct (make_call x n p) as [[[r n1] p1]|] eqn:E1; [|done].
  destruct (make_calls xs n1 p1) as [[[rs1 n2] p2]|] eqn:E2; [|done]. intros [= <- <- <-].
  unfold make_call in E1. erewrite (genericRPC_target _ (fun _ => serve (consume (call_target x)) (heartbeat (call_target x))
    heartbeatFn 1 (call_down x) (call_delivery x))) in E1 by done.
  apply genericRPC_spec in E1 as [Hn1 Hans]; [|done..]. apply IH in E2 as [Hn2 Hrs]; [|done..].
  split; [done|]. by exists p1.
Qed.

Lemma returnConn_maxPool c n : nt_maxPool (n_trans (returnConn c n)) = nt_maxPool (n_trans n).
Proof. unfold returnConn. by case_if. Qed.

Lemma sendRPC_maxPool c a n err n' : sendRPC c a n = (err, n') -> nt_maxPool (n_trans n') = nt_maxPool (n_trans n).
Proof. unfold sendRPC. repeat case_match; intros; by simplify_eq/=. Qed.

Lemma decodeResponse_maxPool c t n b r n' :
  decodeResponse c t n = Some (b, r, n') -> nt_maxPool (n_trans n') = nt_maxPool (n_trans n).
Proof. unfold decodeResponse. repeat case_match; intros; by simplify_eq/=. Qed.

Lemma genericRPC_maxPool (f : string -> stream -> P -> stream * P) target a n p r n' p' : pool_ok n ->
  genericRPC f target a n p = Some (r, n', p') -> nt_maxPool (n_trans n') = nt_maxPool (n_trans n).
Proof.
  intros Hn. unfold genericRPC. destruct (getConn target n) as [[c|e] n1] eqn:Eg.
  2: { apply getConn_spec in Eg as (_ & Hm & _); [|done]. by intros [= <- <- <-]. }
  apply getConn_spec in Eg as (_ & Hm & _); [|done]. rewrite <- Hm.
  destruct (sendRPC c a n1) as [[e|] n2] eqn:Es; apply sendRPC_maxPool in Es; rewrite <- Es; [by intros [= <- <- <-]|].
  unfold remote_acts. destruct (f _ _ p) as [s p1]. destruct (decodeResponse _ _ _) as [[[b res] n3]|] eqn:Ed; [|done].
  apply decodeResponse_maxPool in Ed. simpl in Ed. intros [= <- <- <-]. destruct b; [|done]. by rewrite returnConn_maxPool.
Qed.

Lemma make_calls_maxPool xs : forall n p rs n' p',
  (forall t, answers_in_kind (consume t) (heartbeat t) heartbeatFn) -> Forall call_ok xs -> pool_ok n ->
  make_calls xs n p = Some (rs, n', p') -> nt_maxPool (n_trans n') = nt_maxPool (n_trans n).
Proof.
  induction xs as [|x xs IH]; intros n p rs n' p' Hk Hxs Hn; simpl; [by intros [= <- <- <-]|].
  apply Forall_cons in Hxs as [Hx Hxs]. destruct (make_call x n p) as [[[r n1] p1]|] eqn:E1; [|done].
  destruct (make_calls xs n1 p1) as [[[rs1 n2] p2]|] eqn:E2; [|done]. intros [= <- <- <-].
  assert (Hn1 : pool_ok n1).
  { destruct (make_calls_spec [x] n p [r] n1 p1) as [? _]; [done|by constructor|done| |done]. simpl. by rewrite E1. }
  rewrite (IH n1 p1 rs1 n2 p2); [|done..]. by apply genericRPC_maxPool in E1.
Qed.
End History.

(** A new transport. *)
Definition new_net (maxPool : Z) (timeout : Duration) (dials : list (list (option (nat * error)) + error)) : net :=
  mkNet (NewNetworkTransport maxPool timeout) [] dials.

Lemma new_net_ok maxPool timeout dials : pool_ok (new_net maxPool timeout dials).
Proof.
  split; [|split]; unfold pooled; simpl.
  - intros t conns. by rewrite lookup_empty.
  - intros c (conns & Hl & _). by rewrite lookup_empty in Hl.
  - intros c c' (conns & Hl & _). by rewrite lookup_empty in Hl.
Qed.

(** C20: a call gets the answer to its own request.  Over any history of calls that are not pipelined and
    send no snapshot, through a new transport to nodes that answer each call with a response of its kind,
    with dials and writes failing at any point, requests that are not served or whose answer
    arrives only in part by the deadline, other sides that close or shut down, and connections that are
    pooled and used again: a call that returns a response returns what the node it was sent to answered
    to this very request, never an older or a cut answer; no more than [maxPool] connections per node are
    kept; and afterwards a call that meets no failure returns its answer, or the error text that came
    with it. *)
Theorem calls_get_their_answers `{RpcCodecLaws} {P}
    (consume : string -> rpc_args -> string -> P -> option (rpc_response * option error * nat) * P)
    (heartbeat : string -> rpc_args -> P -> option (rpc_response * option error) * P) heartbeatFn
    maxPool timeout dials xs (p : P) rs n p' :
  (forall t, answers_in_kind (consume t) (heartbeat t) heartbeatFn) -> Forall call_ok xs ->
  make_calls consume heartbeat heartbeatFn xs (new_net maxPool timeout dials) p = Some (rs, n, p') ->
  results_answer consume heartbeat heartbeatFn xs rs p p' /\
  (forall t conns, nt_connPool (n_trans n) !! t = Some conns -> Z.of_nat (length conns) <= Z.max 0 maxPool) /\
  (forall x resp err k p'', call_ok x -> net_calm n -> call_down x = false ->
     answer (consume (call_target x)) (heartbeat (call_target x)) heartbeatFn (sent (call_args x)) "" p'
       = (Some (resp, err, k), p'') ->
     d_served (call_delivery x) = true -> (String.length (reply resp err) <= d_bytes (call_delivery x))%nat ->
     exists n', make_call consume heartbeat heartbeatFn x n p' = Some (told resp err, n', p'')).
Proof.
  intros Hk Hxs Hrun. pose proof (new_net_ok maxPool timeout dials) as Hnew.
  destruct (make_calls_spec consume heartbeat heartbeatFn xs _ p rs n p' Hk Hxs Hnew Hrun) as [Hn Hrs].
  pose proof (make_calls_maxPool consume heartbeat heartbeatFn xs _ p rs n p' Hk Hxs Hnew Hrun) as Hmax. simpl in Hmax.
  split; [done|]. split.
  - intros t conns Hl. rewrite <- Hmax. by apply Hn in Hl as (_ & _ & Hl).
  - intros x resp err k p'' [Ha Ht] Hcalm Hdown Hans Hsv Hb. unfold make_call. rewrite Hdown.
    erewrite (genericRPC_target _ (fun _ => serve (consume (call_target x)) (heartbeat (call_target x))
      heartbeatFn 1 false (call_delivery x))) by done.
    by apply (genericRPC_succeeds _ _ _ 1 (call_delivery x) (call_target x) (call_args x) n p' resp err k p'').
Qed.

(** ** A concrete codec *)

(** Bits from the front of a stream, up to the dot that closes them. *)
Fixpoint bits_get (s : string) : option (positive * string) :=
  match s with
  | "" => None
  | String c s =>
      if decide (c = "0"%char) then prod_map xO id <$> bits_get s
      else if decide (c = "1"%char) then prod_map xI id <$> bits_get s
      else Some (xH, s)
  end.

Definition bits_value {A} `{Countable A} (s : string) : decoded A :=
  match bits_get s with
  | None => Short
  | Some (p, rest) => match decode p with Some a => Got a rest | None => Bad (Errorf "invalid value") end
  end.

Lemma bits_get_app p rest : bits_get (bits_encode p ++ rest) = Some (p, rest).
Proof.
  induction p as [p IH|p IH|]; [| |done].
  - change (bits_encode (xI p) ++ rest) with (String "1" (bits_encode p ++ rest)). cbn. by rewrite IH.
  - change (bits_encode (xO p) ++ rest) with (String "0" (bits_encode p ++ rest)). cbn. by rewrite IH.
Qed.

Lemma bits_get_cut p : forall n, (n < String.length (bits_encode p))%nat -> bits_get (str_take n (bits_encode p)) = None.
Proof.
  induction p as [p IH|p IH|]; intros [|n] Hn; cbn in *; try done; try lia; rewrite IH by lia; done.
Qed.

Lemma bits_value_app {A} `{Countable A} (a : A) rest : bits_value (bits_encode (encode a) ++ rest) = Got a rest.
Proof. unfold bits_value. by rewrite bits_get_app, countable.decode_encode. Qed.

Lemma bits_value_cut {A} `{Countable A} (a : A) n :
  (n < String.length (bits_encode (encode a)))%nat -> bits_value (A := A) (str_take n (bits_encode (encode a))) = Short.
Proof. intros Hn. unfold bits_value. by rewrite bits_get_cut. Qed.

#[export] Instance LogType_countable : Countable LogType.
Proof.
  refine (inj_countable' (fun t => match t with LogUnknown c => inr c | t => inl (type_code t) end : Z + Z)
            (fun s => match s with inl c => code_type c | inr c => LogUnknown c end) _).
  by intros [].
Defined.
#[export] Instance Log_countable : Countable Log.
Proof.
  refine (inj_countable' (fun l => (log_Index l, log_Term l, log_Type l, log_Data l, log_peer l))
            (fun '(i, t, ty, d, p) => mkLog i t ty d p) _).
  by intros [].
Defined.

(** Requests and responses as tuples. *)
Definition args_tuple (a : rpc_args) :=
  match a with
  | ArgsAppend a => inl (ae_Term a, ae_Leader a, ae_PrevLogEntry a, ae_PrevLogTerm a, ae_Entries a, ae_LeaderCommitIndex a)
  | ArgsVote v => inr (inl (rv_Term v, rv_Candidate v, rv_LastLogIndex v, rv_LastLogTerm v))
  | ArgsInstall i => inr (inr (is_Term i, is_Leader i, is_LastLogIndex i, is_LastLogTerm i, is_Peers i, is_Size i))
  end.
Definition tuple_args t : rpc_args :=
  match t with
  | inl (a, b, c, d, e, f) => ArgsAppend (mkAppendEntriesRequest a b c d e f)
  | inr (inl (a, b, c, d)) => ArgsVote (mkRequestVoteRequest a b c d)
  | inr (inr (a, b, c, d, e, f)) => ArgsInstall (mkInstallSnapshotRequest a b c d e f)
  end.
Definition resp_tuple (p : rpc_response) :=
  match p with
  | RespAppend p => Some (inl (aer_Term p, aer_LastLog p, aer_Success p, aer_NoRetryBackoff p))
  | RespVote p => Some (inr (inl (rvr_Term p, rvr_Peers p, rvr_Granted p)))
  | RespInstall p => Some (inr (inr (isr_Term p, isr_Success p)))
  | RespNil => None
  end.
Definition tuple_resp t : rpc_response :=
  match t with
  | Some (inl (a, b, c, d)) => RespAppend (mkAppendEntriesResponse a b c d)
  | Some (inr (inl (a, b, c))) => RespVote (mkRequestVoteResponse a b c)
  | Some (inr (inr (a, b))) => RespInstall (mkInstallSnapshotResponse a b)
  | None => RespNil
  end.

#[export] Instance AppendEntriesRequest_eq_dec : EqDecision AppendEntriesRequest.
Proof. solve_decision. Defined.
#[export] Instance RequestVoteRequest_eq_dec : EqDecision RequestVoteRequest.
Proof. solve_decision. Defined.
#[export] Instance InstallSnapshotRequest_eq_dec : EqDecision InstallSnapshotRequest.
Proof. solve_decision. Defined.
#[export] Instance AppendEntriesResponse_eq_dec : EqDecision AppendEntriesResponse.
Proof. solve_decision. Defined.
#[export] Instance RequestVoteResponse_eq_dec : EqDecision RequestVoteResponse.
Proof. solve_decision. Defined.
#[export] Instance InstallSnapshotResponse_eq_dec : EqDecision InstallSnapshotResponse.
Proof. solve_decision. Defined.

#[export] Instance rpc_args_eq_dec : EqDecision rpc_args.
Proof. solve_decision. Defined.
#[export] Instance rpc_args_countable : Countable rpc_args.
Proof. refine (inj_countable' args_tuple tuple_args _). by intros [[]|[]|[]]. Defined.
#[export] Instance rpc_response_eq_dec : EqDecision rpc_response.
Proof. solve_decision. Defined.
#[export] Instance rpc_response_countable : Countable rpc_response.
Proof. refine (inj_countable' resp_tuple tuple_resp _). by intros [[]|[]|[]|]. Defined.

#[export] Instance bits_rpc_codec : RpcCodec := {
  put_error e := [bits_encode (encode e)];
  put_args a := [bits_encode (encode (sent a))];
  put_resp p := [bits_encode (encode p)];
  get_error := bits_value;
  get_args _ := bits_value;
  get_resp _ := bits_value;
}.

#[export] Instance bits_rpc_codec_laws : RpcCodecLaws.
Proof.
  split; unfold put_error, put_args, put_resp, get_error, get_args, get_resp, bits_rpc_codec, cat;
    setoid_rewrite str_app_nil_r; intros; by rewrite ?bits_value_app, ?bits_value_cut.
Qed.

(** *** Three calls: answered, cut short, answered on a new connection *)

Definition net_ex_consume (_ : string) (a : rpc_args) (_ : string) (p : list rpc_args)
    : option (rpc_response * option error * nat) * list rpc_args :=
  let resp :=
    match a with
    | ArgsAppend a => RespAppend (mkAppendEntriesResponse (ae_Term a) 7 true false)
    | ArgsVote v => RespVote (mkRequestVoteResponse (rv_Term v) [] true)
    | ArgsInstall i => RespInstall (mkInstallSnapshotResponse (is_Term i) true)
    end in
  (Some (resp, None, 0%nat), (p ++ [a])%list).
Definition net_ex_heartbeat (t : string) (a : rpc_args) (p : list rpc_args)
    : option (rpc_response * option error) * list rpc_args :=
  match a with
  | ArgsAppend a => (Some (RespAppend (mkAppendEntriesResponse (ae_Term a) 0 true false), None), p)
  | _ => (None, p)
  end.
Definition net_ex_vote (t : Z) : rpc_args := ArgsVote (mkRequestVoteRequest t "a" 3 1).
Definition net_ex_calls : list call :=
  [mkCall "b" (net_ex_vote 1) false (mkDelivery true 10000 false);
   mkCall "b" (ArgsAppend (mkAppendEntriesRequest 1 "a" 0 0 [] 0)) false (mkDelivery true 3 false);
   mkCall "b" (net_ex_vote 2) false (mkDelivery true 10000 false)].

Lemma net_ex_in_kind t : answers_in_kind (net_ex_consume t) (net_ex_heartbeat t) true.
Proof.
  intros a data p resp err k p' Ha. unfold answer. destruct a as [a|v|i]; simpl in Ha |- *.
  - case_match; intros [= <- <- <- <-]; simpl; unfold uint64_ok in *; (split; [done|]); lia.
  - intros [= <- <- <- <-]. simpl. tauto.
  - intros [= <- <- <- <-]. simpl. tauto.
Qed.

Lemma net_ex_vote_ok t : 0 <= t < 2 ^ 64 -> args_ok (net_ex_vote t).
Proof. intros. split_and!; simpl; unfold uint64_ok; lia. Qed.

Lemma calls_get_their_answers_witness :
  exists rs n p', make_calls net_ex_consume net_ex_heartbeat true net_ex_calls (new_net 3 Second []) [] = Some (rs, n, p') /\
    rs = [inl (RespVote (mkRequestVoteResponse 1 [] true)); inr net_timeout; inl (RespVote (mkRequestVoteResponse 2 [] true))] /\
    results_answer net_ex_consume net_ex_heartbeat true net_ex_calls rs [] p' /\
    exists n', make_call net_ex_consume net_ex_heartbeat true
        (mkCall "b" (net_ex_vote 3) false (mkDelivery true 10000 false)) n p'
      = Some (inl (RespVote (mkRequestVoteResponse 3 [] true)), n', (p' ++ [net_ex_vote 3])%list).
Proof.
  destruct (make_calls net_ex_consume net_ex_heartbeat true net_ex_calls (new_net 3 Second []) []) as [[[rs n] p']|] eqn:E;
    [|exfalso; vm_compute in E; discriminate].
  assert (Hrs : rs = [inl (RespVote (mkRequestVoteResponse 1 [] true)); inr net_timeout; inl (RespVote (mkRequestVoteResponse 2 [] true))]).
  { transitivity (default ([], new_net 3 Second [], []) (make_calls net_ex_consume net_ex_heartbeat true net_ex_calls (new_net 3 Second []) [])).1.1;
      [by rewrite E|vm_compute; reflexivity]. }
  destruct (calls_get_their_answers net_ex_consume net_ex_heartbeat true 3 Second [] net_ex_calls [] rs n p') as (Hres & _ & Hnext).
  - exact net_ex_in_kind.
  - constructor; [split; [apply net_ex_vote_ok; lia|discriminate]|].
    constructor; [split; [|discriminate]; split_and!; simpl; unfold uint64_ok; try lia; constructor|].
    constructor; [split; [apply net_ex_vote_ok; lia|discriminate]|constructor].
  - exact E.
  - exists rs, n, p'. split; [reflexivity|]. split; [exact Hrs|]. split; [exact Hres|].
    apply (Hnext _ (RespVote (mkRequestVoteResponse 3 [] true)) None 0%nat).
    + split; [apply net_ex_vote_ok; lia|discriminate].
    + assert (Hcalm : forallb (fun s => match st_faults s with [] => true | _ => false end) (n_conns n) = true /\ n_dials n = []).
      { set (o := make_calls _ _ _ _ _ _) in E.
        replace n with (default ([], new_net 3 Second [], []) o).1.2 by (by rewrite E). subst o. split; vm_compute; reflexivity. }
      destruct Hcalm as [Hf Hd]. split; [|rewrite Hd; constructor]. intros c s _ Hs.
      apply list_elem_of_lookup_2, list_elem_of_In in Hs. pose proof (proj1 (forallb_forall _ _) Hf s Hs) as Hfs.
      simpl in Hfs. by destruct (st_faults s).
    + reflexivity.
    + reflexivity.
    + reflexivity.
    + apply Nat.leb_le. vm_compute. reflexivity.
Defined.

(** ** A node behind the transport *)

Section Node.
Context {L K : Type} {HL : LogStore L} {HK : StableStore K} (env : raftEnv) (now : Time) (io : snapshot_io).
Implicit Types (r : Raft L K).

Definition to_command (a : rpc_args) : rpc_command :=
  match a with
  | ArgsAppend a => CmdAppend a
  | ArgsVote v => CmdVote v
  | ArgsInstall i => CmdInstall i io
  end.

(** The main loop takes the call.  [installSnapshot] reads its snapshot only once it has created a sink
    for it. *)
Definition snapshot_read (a : rpc_args) (data : string) r : nat :=
  match a with
  | ArgsInstall i =>
      if (is_Term i <? getCurrentTerm r) || bool_decide (is_Some (io_create io)) then 0%nat else String.length data
  | _ => 0%nat
  end.

Definition node_consume (a : rpc_args) (data : string) r : option (rpc_response * option error * nat) * Raft L K :=
  match processRPC env now (to_command a) r with
  | Return (resp, err, r') => (Some (resp, err, snapshot_read a data r), r')
  | Panic _ => (None, r)
  end.

Definition node_heartbeat (a : rpc_args) r : option (rpc_response * option error) * Raft L K :=
  match processHeartbeat env now (to_command a) r with
  | Return (answer, r') => (answer, r')
  | Panic _ => (None, r)
  end.
End Node.

(** C38: the content of a refused snapshot is executed.  [installSnapshot] answers a request of an older
    term without reading the snapshot that follows it on the connection, and [handleCommand] goes on
    with the next byte: the content of the snapshot is taken for requests.  Here the content is a vote
    request, and the node votes. *)
Theorem refused_snapshot_is_executed `{RpcCodecLaws} `{LogStore L} `{StableStore K} env now io heartbeatFn
    (r r' : Raft L K) i v resp :
  args_ok (ArgsInstall i) -> args_ok (ArgsVote v) -> is_Term i < getCurrentTerm r ->
  requestVote env now v r = Return (resp, r') ->
  exists s, handleConn (node_consume env now io) (node_heartbeat env now io) 2 heartbeatFn false
      (mkStream (framed (ArgsInstall i) ++ framed (ArgsVote v)) false "" "" None false []) r = (s, r') /\
    st_out s = reply (RespInstall (mkInstallSnapshotResponse (getCurrentTerm r) false)) None ++ reply (RespVote resp) None.
Proof.
  intros Hi Hv Hterm Hvote. set (s0 := mkStream _ _ _ _ _ _ _). cbn [handleConn].
  set (old := RespInstall _). apply Z.ltb_lt in Hterm.
  assert (Ei : forall data, answer (node_consume env now io) (node_heartbeat env now io) heartbeatFn (ArgsInstall i) data r
    = (Some (old, None, 0%nat), r)).
  { intros data. unfold answer. cbn [isHeartbeat andb]. unfold node_consume, processRPC, to_command, installSnapshot, snapshot_read.
    by rewrite Hterm. }
  assert (Ev : forall data, answer (node_consume env now io) (node_heartbeat env now io) heartbeatFn (ArgsVote v) data r
    = (Some (RespVote resp, None, 0%nat), r')).
  { intros data. unfold answer. cbn [isHeartbeat andb]. unfold node_consume, processRPC, to_command. by rewrite Hvote. }
  pose proof (handleCommand_framed (node_consume env now io) (node_heartbeat env now io) heartbeatFn false
    (ArgsInstall i) (framed (ArgsVote v)) s0 "" r Hi eq_refl ltac:(done) eq_refl) as Hc1. cbn [sent] in Hc1.
  destruct (handleCommand _ _ _ _ s0 r) as [[[]  s1] r1]; [|by destruct Hc1 as [_ [? Hno]]; [done|rewrite Ei in Hno]..].
  destruct Hc1 as (_ & resp1 & err1 & k1 & Hans1 & Hf1 & Hin1 & _ & Hnf1). rewrite Ei in Hans1. injection Hans1 as <- <- <- <-.
  pose proof (w_Flush_spec s1 _ Hf1) as Hfl. destruct (w_Flush s1) as [[e|] s2]; [by rewrite Hnf1 in Hfl|].
  destruct Hfl as (Hf2 & (Hin2 & _ & Hnf2) & Hb2). rewrite Hin1 in Hin2. cbn [str_drop] in Hin2. rewrite <- (str_app_nil_r (framed _)) in Hin2.
  pose proof (handleCommand_framed (node_consume env now io) (node_heartbeat env now io) heartbeatFn false
    (ArgsVote v) "" s2 _ r Hv Hin2 Hf2 (Hnf2 Hnf1)) as Hc2. cbn [sent] in Hc2.
  destruct (handleCommand _ _ _ _ s2 r) as [[[]  s3] r2]; [|by destruct Hc2 as [_ [? Hno]]; [done|rewrite Ev in Hno]..].
  destruct Hc2 as (_ & resp2 & err2 & k2 & Hans2 & Hf3 & _ & _ & Hnf3). rewrite Ev in Hans2. injection Hans2 as <- <- <- <-.
  pose proof (w_Flush_spec s3 _ Hf3) as Hfl. destruct (w_Flush s3) as [[e|] s4]; [by rewrite Hnf3 in Hfl|].
  destruct Hfl as ((_ & _ & Ho4) & _ & Hb4). exists s4. split; [done|].
  rewrite Hb4, str_app_nil_r in Ho4. exact Ho4.
Qed.

(** A node of term 2 is sent a snapshot of term 1 whose content asks for a vote in term 3. *)
Lemma refused_snapshot_is_executed_witness :
  exists resp r' s, requestVote ex_env 5 (mkRequestVoteRequest 3 "b" 9 2) ex_leader = Return (resp, r') /\ rvr_Granted resp = true /\
    handleConn (node_consume ex_env 5 (mkSnapshotIO None 0 None None None)) (node_heartbeat ex_env 5 (mkSnapshotIO None 0 None None None))
      2 true false
      (mkStream (framed (ArgsInstall (mkInstallSnapshotRequest 1 "c" 1 1 "" 50)) ++ framed (ArgsVote (mkRequestVoteRequest 3 "b" 9 2)))
         false "" "" None false []) ex_leader = (s, r').
Proof.
  destruct (requestVote ex_env 5 (mkRequestVoteRequest 3 "b" 9 2) ex_leader) as [[resp r']|] eqn:E;
    [|exfalso; apply (f_equal is_return) in E; vm_compute in E; discriminate].
  destruct (refused_snapshot_is_executed ex_env 5 (mkSnapshotIO None 0 None None None) true ex_leader r'
              (mkInstallSnapshotRequest 1 "c" 1 1 "" 50) (mkRequestVoteRequest 3 "b" 9 2) resp) as (s & Es & _).
  - unfold args_ok, uint64_ok, int64_ok. simpl. lia.
  - unfold args_ok, uint64_ok. simpl. lia.
  - vm_compute. reflexivity.
  - exact E.
  - exists resp, r', s. split; [reflexivity|]. split; [|exact Es].
    replace resp with (ex_returns (resp, r') (requestVote ex_env 5 (mkRequestVoteRequest 3 "b" 9 2) ex_leader)).1 by (by rewrite E).
    vm_compute. reflexivity.
Defined.
