(* ===== verification/NetPipeline.v ===== *)
(** * Raft: pipelined append requests (internal/raft/net_transport.go: netPipeline)

    A pipeline sends append requests over one connection without waiting for the answers; a goroutine
    matches the answers with the requests by their order.  A run interleaves the sender, the other side,
    the network and that goroutine in any order. *)
From S2P Require Import Prelude GoStrings RaftBase Inflight BoltStore GoCrc64 FileSnapshot.
From S2P Require Import Raft RaftElection RaftReplication RaftStream RaftLeader NetTransport.

Open Scope string_scope.
Open Scope Z_scope.
Local Open Scope go_scope.

(** ** Pipelines *)

(** A future of the pipeline: the request and how it was answered. *)
Record appendFuture := mkAppendFuture {
  af_start : Time;
  af_args : AppendEntriesRequest;
  af_answer : option (rpc_response + error);
}.

Record netPipeline := mkNetPipeline {
  np_conn : netConn;
  np_doneCh : list appendFuture;
  np_inprogressCh : list appendFuture;
  np_shutdown : bool;
}.

Section Pipeline.
Context {HC : RpcCodec}.

Definition newNetPipeline (c : netConn) : netPipeline := mkNetPipeline c [] [] false.

Definition AppendEntriesPipeline (target : string) (n : net) : (netPipeline + error) * net :=
  let '(conn, n) := getConn target n in
  match conn with inl c => (inl (newNetPipeline c), n) | inr e => (inr e, n) end.

(** [netPipeline.AppendEntries]: a closed pipeline may still take the future ([pick]: the select sees
    the shutdown first); a full queue blocks ([None]). *)
Definition pipe_AppendEntries (now : Time) (a : AppendEntriesRequest) (pick : bool) (np : netPipeline) (n : net)
    : option ((appendFuture + error) * netPipeline * net) :=
  let future := mkAppendFuture now a None in
  let '(err, n) := sendRPC (np_conn np) (ArgsAppend a) n in
  match err with
  | Some e => Some (inr e, np, n)
  | None =>
      let full := (rpcMaxPipeline <=? length (np_inprogressCh np))%nat in
      if np_shutdown np && (pick || full) then Some (inr ErrPipelineShutdown, np, n)
      else if full then None
      else Some (inl future,
                 mkNetPipeline (np_conn np) (np_doneCh np) (np_inprogressCh np ++ [future])%list (np_shutdown np), n)
  end.

(** One round of [decodeResponses]: the oldest future is answered and handed over ([doneCh] and the
    send that is under way); [None]: it waits, or has returned.  Once the connection is closed a round
    fails; the code can still answer futures whose answers were read into the buffer before. *)
Definition decodeResponses_step (pick : bool) (np : netPipeline) (n : net) : option (netPipeline * net) :=
  if (np_shutdown np && pick) || (rpcMaxPipeline <? length (np_doneCh np))%nat then None
  else match np_inprogressCh np with
       | [] => None
       | f :: q =>
           match decodeResponse (np_conn np) rpcAppendEntries n with
           | None => None
           | Some (_, r, n) =>
               Some (mkNetPipeline (np_conn np)
                       (np_doneCh np ++ [mkAppendFuture (af_start f) (af_args f) (Some r)])%list q
                       (np_shutdown np), n)
           end
       end.

Definition pipe_Close (np : netPipeline) (n : net) : netPipeline * net :=
  if np_shutdown np then (np, n)
  else (mkNetPipeline (np_conn np) (np_doneCh np) (np_inprogressCh np) true, Release (np_conn np) n).
End Pipeline.

(** ** Runs of a pipeline *)

Section Runs.
Context `{RpcCodecLaws} {P : Type}.
Context (consume : rpc_args -> string -> P -> option (rpc_response * option error * nat) * P).
Context (heartbeat : rpc_args -> P -> option (rpc_response * option error) * P).
Context (heartbeatFn : bool).

(** The node on the other side, with a record of what it was asked and what it answered. *)
Definition entry : Type := rpc_args * option (rpc_response * option error).
Definition logged_consume (a : rpc_args) (data : string) (q : P * list entry)
    : option (rpc_response * option error * nat) * (P * list entry) :=
  let '(ans, p) := consume a data q.1 in (ans, (p, (q.2 ++ [(a, fst <$> ans)])%list)).
Definition logged_heartbeat (a : rpc_args) (q : P * list entry)
    : option (rpc_response * option error) * (P * list entry) :=
  let '(ans, p) := heartbeat a q.1 in (ans, (p, (q.2 ++ [(a, ans)])%list)).

(** A pipeline, the bytes of answers that are under way, the other node, and the futures that were
    taken from [doneCh]. *)
Record pipe_run := mkPipeRun {
  pr_pipe : netPipeline;
  pr_net : net;
  pr_transit : string;
  pr_node : P * list entry;
  pr_taken : list appendFuture;
}.
Implicit Types (r : pipe_run).

Definition pr_id r : nat := nc_id (np_conn (pr_pipe r)).
Definition pr_stream r : stream := conn_of (pr_id r) (pr_net r).
Definition st_set_out (o : string) (s : stream) : stream :=
  mkStream (st_in s) (st_eof s) o (st_buf s) (st_werr s) (st_closed s) (st_faults s).
Definition st_set_eof (s : stream) : stream :=
  mkStream (st_in s) true (st_out s) (st_buf s) (st_werr s) (st_closed s) (st_faults s).
Definition pr_set_stream (s : stream) r : pipe_run :=
  mkPipeRun (pr_pipe r) (set_conn (pr_id r) s (pr_net r)) (pr_transit r) (pr_node r) (pr_taken r).

(** The other side handles one command, unless it has closed. *)
Definition serve_one r : pipe_run :=
  let s := pr_stream r in
  if st_eof s then r
  else
    let '(res, sv, q) := handleCommand logged_consume logged_heartbeat heartbeatFn false
                           (mkStream (st_out s) (st_closed s) "" "" None false []) (pr_node r) in
    match res with
    | CmdFailed _ => pr_set_stream (st_set_eof s) (mkPipeRun (pr_pipe r) (pr_net r) (pr_transit r) q (pr_taken r))
    | _ =>
        let '(_, sv) := w_Flush sv in
        pr_set_stream (st_set_out (st_in sv) s)
          (mkPipeRun (pr_pipe r) (pr_net r) (pr_transit r ++ st_out sv) q (pr_taken r))
    end.

Inductive pipe_event :=
| PipeSend (now : Time) (a : AppendEntriesRequest) (pick : bool)
| PipeServe
| PipeArrive (k : nat)
| PipeEOF
| PipeDecode (pick : bool)
| PipeTake
| PipeClose.

(** One event; [None]: it cannot happen now. *)
Definition pipe_step (ev : pipe_event) r : option pipe_run :=
  let with_pipe := fun np n => mkPipeRun np n (pr_transit r) (pr_node r) (pr_taken r) in
  match ev with
  | PipeSend now a pick => (fun '(_, np, n) => with_pipe np n) <$> pipe_AppendEntries now a pick (pr_pipe r) (pr_net r)
  | PipeServe => Some (serve_one r)
  | PipeArrive k =>
      let r' := pr_set_stream (st_set_in (st_in (pr_stream r) ++ str_take k (pr_transit r)) (pr_stream r)) r in
      Some (mkPipeRun (pr_pipe r') (pr_net r') (str_drop k (pr_transit r)) (pr_node r') (pr_taken r'))
  | PipeEOF => Some (pr_set_stream (st_set_eof (pr_stream r)) r)
  | PipeDecode pick => (fun '(np, n) => with_pipe np n) <$> decodeResponses_step pick (pr_pipe r) (pr_net r)
  | PipeTake =>
      let np := pr_pipe r in
      match np_doneCh np with
      | [] => None
      | f :: done => Some (mkPipeRun (mkNetPipeline (np_conn np) done (np_inprogressCh np) (np_shutdown np)) (pr_net r)
                             (pr_transit r) (pr_node r) (pr_taken r ++ [f])%list)
      end
  | PipeClose => let '(np, n) := pipe_Close (pr_pipe r) (pr_net r) in Some (with_pipe np n)
  end.

Fixpoint run_pipe (evs : list pipe_event) r : option pipe_run :=
  match evs with
  | [] => Some r
  | ev :: evs => match pipe_step ev r with Some r => run_pipe evs r | None => None end
  end.

Definition pipe_event_ok (ev : pipe_event) : Prop :=
  if ev is PipeSend _ a _ then args_ok (ArgsAppend a) else True.

(** ** The invariant *)

(** A completed future against the record of the other node. *)
Definition completed_ok (tr : list entry) (i : nat) (f : appendFuture) : Prop :=
  match af_answer f with
  | Some (inl resp) => exists err, tr !! i = Some (sent (ArgsAppend (af_args f)), Some (resp, err)) /\ error_text err = ""
  | Some (inr _) => True
  | None => False
  end.

Definition completed r : list appendFuture := (pr_taken r ++ np_doneCh (pr_pipe r))%list.

(** A request and its entry in the record. *)
Definition entry_of (f : appendFuture) (e : entry) : Prop :=
  e.1 = sent (ArgsAppend (af_args f)) /\ exists resp err, e.2 = Some (resp, err) /\ resp_ok rpcAppendEntries resp.
Definition reply_of (e : entry) : string := if e.2 is Some (resp, err) then reply resp err else "".
Definition frame_of (f : appendFuture) : string := framed (ArgsAppend (af_args f)).

(** While the connection is open, the futures in progress are those that were answered, whose answers
    are what is still to be read, followed by those whose requests are still to be served. *)
Definition pipe_open r (s : stream) : Prop :=
  st_werr s = None /\ st_buf s = "" /\
  exists answered todo old new,
    np_inprogressCh (pr_pipe r) = (answered ++ todo)%list /\ (pr_node r).2 = (old ++ new)%list /\
    length old = length (completed r) /\ Forall2 entry_of answered new /\
    st_in s ++ pr_transit r = cat (reply_of <$> new) /\ st_out s = cat (frame_of <$> todo) /\
    Forall (fun f => args_ok (ArgsAppend (af_args f))) todo.

Definition pipe_inv r : Prop :=
  (forall i f, completed r !! i = Some f -> completed_ok (pr_node r).2 i f) /\
  exists s, n_conns (pr_net r) !! pr_id r = Some s /\
    (st_closed s = true \/ (st_closed s = false /\ np_shutdown (pr_pipe r) = false /\ pipe_open r s)).

Lemma completed_ok_app tr new i f : completed_ok tr i f -> completed_ok (tr ++ new)%list i f.
Proof.
  unfold completed_ok. destruct (af_answer f) as [[resp|e]|]; [|done..]. intros (err & Hl & ?). exists err. split; [|done].
  by apply lookup_app_l_Some.
Qed.

Lemma cat_app l l' : cat (l ++ l')%list = cat l ++ cat l'.
Proof. induction l as [|x l IH]; [done|]. simpl. by rewrite IH, str_app_assoc. Qed.

(** ** The other side *)

Definition answers_always : Prop := forall a data p, args_ok a ->
  exists x p', answer consume heartbeat heartbeatFn a data p = (Some x, p').

Lemma logged_extends down s q res s' q' :
  handleCommand logged_consume logged_heartbeat heartbeatFn down s q = (res, s', q') -> exists new, q'.2 = (q.2 ++ new)%list.
Proof.
  assert (Hsame : exists new, q.2 = (q.2 ++ new)%list) by (exists []; by rewrite app_nil_r).
  unfold handleCommand. destruct (st_in s) as [|t rest]; [by intros [= <- <- <-]|].
  case_if; [by intros [= <- <- <-]|]. destruct (dec_Decode _ _ _) as [[[a|e] s1]|]; [|by intros [= <- <- <-]..].
  case_if; [by intros [= <- <- <-]|].
  assert (Hans : forall (ans : option (rpc_response * option error)) n q1, (exists new, q1.2 = (q.2 ++ new)%list) ->
    (let s2 := st_set_in (str_drop (Nat.min n (String.length (limited a (st_in s1)))) (st_in s1)) s1 in
     match ans with
     | None => (if down then CmdFailed ErrTransportShutdown else CmdWaits, s2, q1)
     | Some (resp, err) => if down then (CmdFailed ErrTransportShutdown, s2, q1)
                           else let '(r, s3) := sendResponse resp err s2 in (r, s3, q1)
     end) = (res, s', q') -> exists new, q'.2 = (q.2 ++ new)%list).
  { intros ans n q1 Hq1. cbv zeta. destruct ans as [[resp err]|]; [|by intros [= <- <- <-]].
    destruct down; [by intros [= <- <- <-]|]. destruct (sendResponse _ _ _). by intros [= <- <- <-]. }
  destruct (isHeartbeat a && heartbeatFn).
  - unfold logged_heartbeat. destruct (heartbeat a q.1) as [ans p]. apply (Hans ans 0%nat). by eexists.
  - unfold logged_consume. destruct (consume a _ q.1) as [[[[resp err] k]|] p]; [apply (Hans (Some (resp, err)) k)|apply (Hans None 0%nat)];
      by eexists.
Qed.

Lemma logged_answer a data q resp err k q' :
  answer logged_consume logged_heartbeat heartbeatFn a data q = (Some (resp, err, k), q') ->
  answer consume heartbeat heartbeatFn a data q.1 = (Some (resp, err, k), q'.1) /\ q'.2 = (q.2 ++ [(a, Some (resp, err))])%list.
Proof.
  unfold answer, logged_heartbeat, logged_consume. destruct (isHeartbeat a && heartbeatFn).
  - destruct (heartbeat a q.1) as [[[resp0 err0]|] p]; simpl; intros [= <- <- <- <-]; done.
  - destruct (consume a data q.1) as [[[[resp0 err0] k0]|] p]; simpl; intros [= <- <- <- <-]; done.
Qed.

Lemma logged_always : answers_always -> forall a data q v, args_ok a ->
  answer logged_consume logged_heartbeat heartbeatFn a data q = (None, v) -> False.
Proof.
  intros Hal a data q v Ha. destruct (Hal a data q.1 Ha) as (x & p' & E). revert E.
  unfold answer, logged_heartbeat, logged_consume. destruct (isHeartbeat a && heartbeatFn).
  - by destruct (heartbeat a q.1) as [[[]|] p].
  - by destruct (consume a data q.1) as [[]]; intros [= -> _].
Qed.

(** The connection of a run is replaced, the rest stays. *)
Lemma pr_stream_lookup r s : n_conns (pr_net r) !! pr_id r = Some s -> pr_stream r = s.
Proof. unfold pr_stream, conn_of. by intros ->. Qed.

Lemma set_stream_lookup r s s' : n_conns (pr_net r) !! pr_id r = Some s ->
  n_conns (set_conn (pr_id r) s' (pr_net r)) !! pr_id r = Some s'.
Proof. intros Hs. simpl. apply list_lookup_insert_eq. by eapply lookup_lt_Some. Qed.

Lemma serve_one_inv r : answers_always -> answers_in_kind consume heartbeat heartbeatFn -> pipe_inv r -> pipe_inv (serve_one r).
Proof.
  intros Hal Hkind (Hdone & s & Hs & Hst). unfold serve_one. rewrite (pr_stream_lookup r s Hs).
  destruct (st_eof s) eqn:Heof; [by split; [|by exists s]|].
  destruct (handleCommand _ _ _ _ _ _) as [[res sv] q] eqn:Eh.
  destruct (logged_extends _ _ _ _ _ _ Eh) as [new Hnew].
  assert (Hdone' : forall i f, completed r !! i = Some f -> completed_ok q.2 i f).
  { intros i f Hf. rewrite Hnew. by apply completed_ok_app, Hdone. }
  destruct Hst as [Hc|(Hc & Hsd & Hw & Hb & ans & todo & old & new1 & Hq & Htr & Hlen & Hent & Hin & Hout & Hok)].
  { destruct res; [destruct (w_Flush sv)| |destruct (w_Flush sv)];
      (split; [exact Hdone'|]; eexists; split; [exact (set_stream_lookup r s _ Hs)|by left]). }
  destruct todo as [|f todo].
  - rewrite Hout, Hc in Eh. cbn in Eh. injection Eh as <- <- <-.
    assert (Hfl : forall x, w_Flush (mkStream x false "" "" None false []) = (None, mkStream x false "" "" None false [])) by done.
    rewrite Hfl. split; [exact Hdone|].
    eexists. split; [exact (set_stream_lookup r s _ Hs)|]. right. split; [done|]. split; [done|]. split; [done|]. split; [done|].
    exists ans, [], old, new1. split_and!; try done. cbn [pr_set_stream pr_transit st_set_out st_in st_out]. by rewrite str_app_nil_r.
  - apply Forall_cons in Hok as [Hf Hok]. rewrite Hc, Hout in Eh.
    pose proof (handleCommand_framed logged_consume logged_heartbeat heartbeatFn false (ArgsAppend (af_args f))
      (cat (frame_of <$> todo)) (mkStream (cat (frame_of <$> f :: todo)) false "" "" None false []) "" (pr_node r) Hf eq_refl
      ltac:(done) eq_refl) as Hcmd.
    rewrite Eh in Hcmd. destruct res.
    2, 3: by destruct Hcmd as [_ [v Hno]]; [done|]; apply logged_always in Hno; [|done|by apply sent_ok].
    destruct Hcmd as (_ & resp & err & k & Hans & Hfl & Hin' & _ & Hnf). apply logged_answer in Hans as [Hans Htr'].
    pose proof (w_Flush_spec sv _ Hfl) as Hflush. destruct (w_Flush sv) as [[e|] sv2]; [by rewrite Hnf in Hflush|].
    destruct Hflush as ((_ & _ & Ho2) & (Hi2 & _) & Hb2). rewrite Hb2, str_app_nil_r in Ho2.
    split; [exact Hdone'|]. eexists. split; [exact (set_stream_lookup r s _ Hs)|]. right. split; [done|]. split; [done|].
    split; [done|]. split; [done|].
    exists (ans ++ [f])%list, todo, old, (new1 ++ [(sent (ArgsAppend (af_args f)), Some (resp, err))])%list.
    split_and!; try done.
    + etrans; [exact Hq|]. by rewrite <- app_assoc.
    + cbn [pr_node pr_set_stream]. rewrite Htr', Htr. by rewrite app_assoc.
    + apply Forall2_app; [done|]. constructor; [|done]. split; [done|]. eexists _, _. split; [done|].
      apply (Hkind (sent (ArgsAppend (af_args f))) _ _ _ _ _ _ (sent_ok _ Hf) Hans).
    + cbn [pr_set_stream pr_transit st_set_out st_in]. rewrite fmap_app, cat_app, <- Hin, str_app_assoc. cbn [fmap list_fmap cat].
      rewrite str_app_nil_r, Ho2. done.
    + cbn [st_set_out st_out]. rewrite Hi2, Hin'. unfold read_of. simpl. by rewrite Nat.min_0_r.
Qed.

(** ** This side *)

Lemma conn_Write_closed p s : st_closed (conn_Write p s).2 = st_closed s.
Proof. unfold conn_Write. destruct (st_closed s) eqn:E; [done|]. by destruct (st_faults s) as [|[[n e]|] fs]. Qed.

Lemma w_Flush_closed s : st_closed (w_Flush s).2 = st_closed s.
Proof.
  unfold w_Flush. destruct (st_werr s); [done|]. case_decide; [done|]. pose proof (conn_Write_closed (st_buf s) s) as Hc.
  by destruct (conn_Write _ s) as [[n [e|]] s'].
Qed.

Lemma w_rest_closed p s : st_closed (w_rest p s).2 = st_closed s.
Proof.
  unfold w_rest. case_if; [done|]. pose proof (conn_Write_closed p s) as Hc. by destruct (conn_Write _ s) as [[n [e|]] s'].
Qed.

Lemma w_Write_closed p s : st_closed (w_Write p s).2 = st_closed s.
Proof.
  unfold w_Write. destruct (st_werr s); [done|]. case_if; [done|]. case_decide; [apply w_rest_closed|].
  set (s1 := st_set_buf _ _ s). pose proof (w_Flush_closed s1) as Hc. destruct (w_Flush s1) as [[e|] s2]; [done|].
  rewrite w_rest_closed. exact Hc.
Qed.

Lemma enc_Encode_closed chunks : forall s, st_closed (enc_Encode chunks s).2 = st_closed s.
Proof.
  induction chunks as [|p chunks IH]; intros s; [done|]. simpl. pose proof (w_Write_closed p s) as Hc.
  destruct (w_Write p s) as [[e|] s']; [done|]. by rewrite IH.
Qed.

Lemma w_WriteByte_closed c s : st_closed (w_WriteByte c s).2 = st_closed s.
Proof.
  unfold w_WriteByte. destruct (st_werr s); [done|]. case_if; [|done]. pose proof (w_Flush_closed s) as Hc.
  by destruct (w_Flush s) as [[e|] s'].
Qed.

Lemma set_conn_lookup id s s' n : n_conns n !! id = Some s -> n_conns (set_conn id s' n) !! id = Some s'.
Proof. intros Hs. simpl. apply list_lookup_insert_eq. by eapply lookup_lt_Some. Qed.

Lemma Release_lookup c s n : n_conns n !! nc_id c = Some s ->
  exists s', n_conns (Release c n) !! nc_id c = Some s' /\ st_closed s' = true.
Proof. intros Hs. eexists. split; [by eapply set_conn_lookup|done]. Qed.

Lemma sendRPC_closed c a n s e n' :
  n_conns n !! nc_id c = Some s -> st_closed s = true -> sendRPC c a n = (e, n') ->
  exists s', n_conns n' !! nc_id c = Some s' /\ st_closed s' = true.
Proof.
  intros Hs Hc. unfold sendRPC, conn_of. rewrite Hs. change (default (fresh_stream []) (Some s)) with s.
  pose proof (w_WriteByte_closed (args_type a) s) as H1. destruct (w_WriteByte _ s) as [[e1|] s1].
  { intros [= <- <-]. eapply Release_lookup. by eapply set_conn_lookup. }
  pose proof (enc_Encode_closed (put_args a) s1) as H2. destruct (enc_Encode _ s1) as [[e2|] s2].
  { intros [= <- <-]. eapply Release_lookup. by eapply set_conn_lookup. }
  pose proof (w_Flush_closed s2) as H3. destruct (w_Flush s2) as [[e3|] s3].
  { intros [= <- <-]. eapply Release_lookup. by eapply set_conn_lookup. }
  intros [= <- <-]. eexists. split; [by eapply set_conn_lookup|]. simpl in *. congruence.
Qed.

Lemma send_inv now a pick r r' : args_ok (ArgsAppend a) -> pipe_inv r ->
  pipe_step (PipeSend now a pick) r = Some r' -> pipe_inv r'.
Proof.
  intros Ha (Hdone & s & Hs & Hst). simpl. unfold pipe_AppendEntries.
  destruct (sendRPC _ _ _) as [e n] eqn:Es.
  set (full := (rpcMaxPipeline <=? _)%nat).
  assert (Hclosed : (exists s', n_conns n !! pr_id r = Some s' /\ st_closed s' = true) ->
    forall np', np_doneCh np' = np_doneCh (pr_pipe r) -> np_conn np' = np_conn (pr_pipe r) ->
    pipe_inv (mkPipeRun np' n (pr_transit r) (pr_node r) (pr_taken r))).
  { intros (s' & Hs' & Hc') np' Hd Hcn. split.
    - intros i f. unfold completed. simpl. rewrite Hd. apply Hdone.
    - exists s'. unfold pr_id. simpl. rewrite Hcn. auto. }
  destruct Hst as [Hc|(Hc & Hsd & Hopen)].
  { assert (Hcl : exists s', n_conns n !! pr_id r = Some s' /\ st_closed s' = true) by (by eapply sendRPC_closed).
    destruct e as [e|]; [intros [= <-]; by apply Hclosed|]. case_if; [intros [= <-]; by apply Hclosed|].
    case_if; [done|]. intros [= <-]. by apply Hclosed. }
  destruct Hopen as (Hw & Hb & ans & todo & old & new & Hq & Htr & Hlen & Hent & Hin & Hout & Hok).
  pose proof (sendRPC_open _ (ArgsAppend a) _ s Hs Hb Hw Hc) as Hsend. rewrite Es in Hsend. destruct e as [e|].
  { destruct Hsend as [_ [s' ->]]. intros [= <-]. apply Hclosed; [|done..]. eapply Release_lookup. by eapply set_conn_lookup. }
  rewrite Hsd. cbn [andb]. case_if; [done|]. intros [= <-].
  destruct Hsend as (s' & -> & Hin' & Hout' & Hb' & Hw' & Hc' & _). split; [exact Hdone|].
  exists s'. split; [by eapply set_conn_lookup|]. right. split; [done|]. split; [done|]. split; [done|]. split; [done|].
  exists ans, (todo ++ [mkAppendFuture now a None])%list, old, new. split_and!; try done.
  - simpl. by rewrite Hq, app_assoc.
  - simpl. by rewrite Hin'.
  - rewrite Hout', Hout, fmap_app, cat_app. simpl. by rewrite str_app_nil_r.
  - apply Forall_app. split; [done|]. by constructor.
Qed.

Lemma str_app_cancel (a x y : string) : a ++ x = a ++ y -> x = y.
Proof. induction a as [|c a IH]; [done|]. intros E. apply IH. by injection E. Qed.

Lemma str_take_prefix (a b : string) : str_take (String.length a) (a ++ b) = a.
Proof. rewrite str_take_app_le by done. by rewrite Nat.sub_diag, str_app_nil_r. Qed.

(** One answer is decoded. *)
Lemma decode_inv pick r r' : pipe_inv r -> pipe_step (PipeDecode pick) r = Some r' -> pipe_inv r'.
Proof.
  intros (Hdone & s & Hs & Hst). simpl. unfold decodeResponses_step. case_if; [done|].
  destruct (np_inprogressCh (pr_pipe r)) as [|f q] eqn:Hq; [done|].
  destruct (decodeResponse _ _ _) as [[[b res] n]|] eqn:Ed; [|done]. intros [= <-].
  set (f' := mkAppendFuture _ _ _). set (r' := mkPipeRun _ _ _ _ _).
  assert (Hcomp : completed r' = (completed r ++ [f'])%list) by (unfold completed; simpl; by rewrite app_assoc).
  assert (Hold : completed_ok (pr_node r).2 (length (completed r)) f' ->
    forall i g, completed r' !! i = Some g -> completed_ok (pr_node r).2 i g).
  { intros Hf i g. rewrite Hcomp. intros [Hg|[Hi Hg]]%lookup_app_Some; [by apply Hdone|].
    apply list_lookup_singleton_Some in Hg as [Hi' <-]. by replace i with (length (completed r)) by lia. }
  assert (Herr : (exists e, res = inr e) -> (exists s', n_conns n !! pr_id r = Some s' /\ st_closed s' = true) -> pipe_inv r').
  { intros [e ->] (s' & Hs' & Hc'). split; [by apply Hold|]. exists s'. auto. }
  destruct Hst as [Hc|(Hc & Hsd & Hw & Hb & ans & todo & old & new & Hq' & Htr & Hlen & Hent & Hin & Hout & Hok)].
  { unfold decodeResponse, conn_of, dec_Decode in Ed. unfold pr_id in Hs. rewrite Hs in Ed.
    change (default (fresh_stream []) (Some s)) with s in Ed. rewrite Hc in Ed. injection Ed as <- <- <-.
    apply Herr; [by eexists|]. eapply Release_lookup. by eapply set_conn_lookup. }
  assert (Hrel : (exists e, res = inr e) /\ (exists s', n = Release (np_conn (pr_pipe r)) (set_conn (pr_id r) s' (pr_net r))) -> pipe_inv r').
  { intros [He [s' ->]]. apply Herr; [done|]. eapply Release_lookup. by eapply set_conn_lookup. }
  rewrite Hq in Hq'. destruct ans as [|f0 ans]; simpl in Hq'.
  { inversion Hent; subst new. simpl in Hin. assert (Hin0 : st_in s = "") by (by destruct (st_in s)).
    apply (decodeResponse_empty _ _ _ s) in Ed as (_ & He & Hs'); [|done..]. by apply Hrel. }
  injection Hq' as <- Hq'. apply Forall2_cons_inv_l in Hent as (e & new' & (He1 & resp & err & He2 & Hresp) & Hent & ->).
  cbn [fmap list_fmap cat] in Hin. unfold reply_of at 1 in Hin. rewrite He2 in Hin.
  assert (Hpre : st_in s = str_take (String.length (st_in s)) (reply resp err ++ cat (reply_of <$> new'))).
  { rewrite <- Hin. by rewrite str_take_prefix. }
  pose proof (decodeResponse_prefix _ _ _ s _ _ _ _ Hs Hpre Hc Hresp) as Hdec.
  destruct (Nat.leb_spec (String.length (reply resp err)) (String.length (st_in s))) as [Hle|Hlt].
  2: { apply Hdec in Ed as (_ & He & Hs'). by apply Hrel. }
  rewrite Hdec in Ed. injection Ed as <- <- <-.
  split.
  - apply Hold. unfold completed_ok. simpl. unfold told. case_decide as Herr0; [|done]. exists err. split; [|done].
    rewrite Htr, <- Hlen. rewrite list_lookup_middle by done. destruct e as [e1 e2]. simpl in *. by subst.
  - eexists. split; [by eapply set_conn_lookup|]. right. split; [done|]. split; [done|]. split; [done|]. split; [done|].
    exists ans, todo, (old ++ [e])%list, new'. split_and!; try done.
    + simpl. rewrite Htr. by rewrite <- app_assoc.
    + rewrite Hcomp, !length_app. simpl. lia.
    + cbn [st_set_in st_in pr_transit r'].
      assert (Hcut : st_in s = reply resp err ++ str_take (String.length (st_in s) - String.length (reply resp err)) (cat (reply_of <$> new'))).
      { rewrite Hpre at 1. by apply str_take_app_le. }
      set (x := str_take _ _) in *. rewrite Hcut, str_app_assoc in Hin. by apply str_app_cancel in Hin.
Qed.

Lemma pipe_step_inv ev r r' : answers_always -> answers_in_kind consume heartbeat heartbeatFn -> pipe_event_ok ev ->
  pipe_inv r -> pipe_step ev r = Some r' -> pipe_inv r'.
Proof.
  intros Hal Hkind Hev Hr. destruct ev as [now a pick| |k| |pick| |].
  - by apply send_inv.
  - intros [= <-]. by apply serve_one_inv.
  - destruct Hr as (Hdone & s & Hs & Hst). simpl. rewrite (pr_stream_lookup r s Hs). intros [= <-].
    split; [exact Hdone|]. eexists. split; [exact (set_stream_lookup r s _ Hs)|].
    destruct Hst as [Hc|(Hc & Hsd & Hw & Hb & ans & todo & old & new & Hq & Htr & Hlen & Hent & Hin & Hout & Hok)]; [by left|].
    right. split; [done|]. split; [done|]. split; [done|]. split; [done|]. exists ans, todo, old, new. split_and!; try done.
    cbn [st_set_in st_in pr_transit]. by rewrite str_app_assoc, str_take_drop.
  - destruct Hr as (Hdone & s & Hs & Hst). simpl. rewrite (pr_stream_lookup r s Hs). intros [= <-].
    split; [exact Hdone|]. eexists. split; [exact (set_stream_lookup r s _ Hs)|]. exact Hst.
  - by apply decode_inv.
  - destruct Hr as (Hdone & s & Hs & Hst). simpl. destruct (np_doneCh (pr_pipe r)) as [|f dn] eqn:Ed; [done|]. intros [= <-].
    assert (Hcomp : completed r = ((pr_taken r ++ [f]) ++ dn)%list) by (unfold completed; by rewrite Ed, <- app_assoc).
    split; [unfold completed; simpl; by rewrite <- Hcomp|]. exists s. split; [done|].
    destruct Hst as [Hc|(Hc & Hsd & Hw & Hb & ans & todo & old & new & Hq & Htr & Hlen & ?)]; [by left|].
    right. split; [done|]. split; [done|]. split; [done|]. split; [done|]. exists ans, todo, old, new.
    split; [done|]. split; [done|]. split; [|done]. rewrite Hlen, Hcomp. done.
  - simpl. unfold pipe_Close. destruct (np_shutdown (pr_pipe r)) eqn:Esd; intros [= <-]; [by destruct r|].
    destruct Hr as (Hdone & s & Hs & _). split; [exact Hdone|].
    destruct (Release_lookup _ s _ Hs) as (s' & Hs' & Hc'). exists s'. split; [exact Hs'|by left].
Qed.

Lemma run_pipe_inv evs : forall r r', answers_always -> answers_in_kind consume heartbeat heartbeatFn ->
  Forall pipe_event_ok evs -> pipe_inv r -> run_pipe evs r = Some r' -> pipe_inv r'.
Proof.
  induction evs as [|ev evs IH]; intros r r' Hal Hkind Hevs Hr; simpl; [by intros [= <-]|].
  apply Forall_cons in Hevs as [Hev Hevs]. destruct (pipe_step ev r) as [r1|] eqn:E; [|done].
  apply IH; [done..|]. by eapply pipe_step_inv.
Qed.

(** A new pipeline over a connection that is not used for anything else. *)
Definition new_run (c : netConn) (n : net) (p : P) : pipe_run := mkPipeRun (newNetPipeline c) n "" (p, []) [].

Lemma new_run_inv c n p s : n_conns n !! nc_id c = Some s -> clean s -> pipe_inv (new_run c n p).
Proof.
  intros Hs (Hin & Hout & Hb & Hw & Hc). split; [done|]. exists s. split; [done|]. right. split; [done|]. split; [done|].
  split; [done|]. split; [done|]. exists [], [], [], []. split_and!; try done. simpl. by rewrite Hin.
Qed.
End Runs.

(** C22: pipelined answers meet their own requests.  With another side that answers every request, with
    a response of its kind: over any interleaving of sends, the other side
    serving, bytes arriving in pieces, decoding, closing, failing writes and timeouts: the [i]-th future
    that completes carries the [i]-th request that was sent, and an error or exactly what the node
    answered to it as its [i]-th request; once something went wrong, no later future is answered with
    somebody else's response.  When the whole answer to the oldest request has arrived, decoding
    completes its future with it. *)
Theorem pipeline_in_order `{RpcCodecLaws} {P}
    (consume : rpc_args -> string -> P -> option (rpc_response * option error * nat) * P)
    (heartbeat : rpc_args -> P -> option (rpc_response * option error) * P) heartbeatFn
    target n c n1 p evs (r : pipe_run (P := P)) :
  answers_always consume heartbeat heartbeatFn -> answers_in_kind consume heartbeat heartbeatFn ->
  pool_ok n -> getConn target n = (inl c, n1) -> Forall pipe_event_ok evs ->
  run_pipe consume heartbeat heartbeatFn evs (new_run c n1 p) = Some r ->
  (forall i f, completed r !! i = Some f -> completed_ok (pr_node r).2 i f) /\
  (forall s f q resp err a, pr_stream r = s -> st_closed s = false -> np_inprogressCh (pr_pipe r) = f :: q ->
     (pr_node r).2 !! length (completed r) = Some (a, Some (resp, err)) -> pr_transit r = "" ->
     (length (np_doneCh (pr_pipe r)) <= rpcMaxPipeline)%nat ->
     a = sent (ArgsAppend (af_args f)) /\
     exists np n', decodeResponses_step false (pr_pipe r) (pr_net r) = Some (np, n') /\
       np_doneCh np = (np_doneCh (pr_pipe r) ++ [mkAppendFuture (af_start f) (af_args f) (Some (told resp err))])%list).
Proof.
  intros Hal Hkind Hn Hget Hevs Hrun. apply getConn_spec in Hget as (_ & _ & _ & _ & _ & s0 & Hs0 & Hcl); [|done].
  destruct (run_pipe_inv consume heartbeat heartbeatFn evs _ r Hal Hkind Hevs (new_run_inv c n1 p s0 Hs0 Hcl) Hrun)
    as (Hdone & s & Hs & Hst).
  split; [exact Hdone|]. intros s1 f q resp err a Hstream Hc Hq Htr Htransit Hroom.
  rewrite (pr_stream_lookup r s Hs) in Hstream. subst s1.
  destruct Hst as [Hc'|(_ & Hsd & Hw & Hb & ans & todo & old & new & Hq' & Htr' & Hlen & Hent & Hin & Hout & Hok)]; [congruence|].
  rewrite Htr', <- Hlen, lookup_app_r, Nat.sub_diag in Htr by done. destruct new as [|e new]; [done|]. injection Htr as ->.
  apply Forall2_cons_inv_r in Hent as (f0 & ans' & (He & resp0 & err0 & [= <- <-] & Hresp) & Hent & ->).
  rewrite Hq in Hq'. injection Hq' as <- Hq'. split; [done|].
  rewrite Htransit, str_app_nil_r in Hin. cbn [fmap list_fmap cat reply_of snd] in Hin.
  pose proof (decodeResponse_prefix _ _ _ s _ _ (cat (reply_of <$> new)) (String.length (st_in s)) Hs
    ltac:(rewrite Hin; symmetry; by apply str_take_all) Hc Hresp) as Hdec.
  rewrite Hin, str_length_app in Hdec. rewrite (proj2 (Nat.leb_le _ _)) in Hdec by lia.
  unfold decodeResponses_step. rewrite andb_false_r, Hq. cbn [orb]. rewrite (proj2 (Nat.ltb_ge _ _)) by done.
  rewrite Hdec. by eexists _, _.
Qed.

(** *** Two requests in flight; the first answer is decoded *)

Definition pipe_ex_request (i : Z) : AppendEntriesRequest := mkAppendEntriesRequest 2 "a" i 2 [log_ex (i + 1) 2 "x"] i.
Definition pipe_ex_events : list pipe_event :=
  [PipeSend 1 (pipe_ex_request 4) false; PipeSend 2 (pipe_ex_request 5) false; PipeServe; PipeArrive 7; PipeServe;
   PipeArrive 100000; PipeDecode false].
Definition pipe_ex_run : option pipe_run :=
  run_pipe (net_ex_consume "b") (net_ex_heartbeat "b") true pipe_ex_events
    (new_run (mkNetConn "b" 0) (getConn "b" (new_net 3 Second [])).2 []).

Lemma pipeline_in_order_witness :
  exists r f np n', pipe_ex_run = Some r /\ completed r = [f] /\ completed_ok (pr_node r).2 0 f /\
    decodeResponses_step false (pr_pipe r) (pr_net r) = Some (np, n') /\ length (np_doneCh np) = 2%nat.
Proof.
  destruct pipe_ex_run as [r|] eqn:E; [|exfalso; vm_compute in E; discriminate].
  set (r0 := new_run (mkNetConn "b" 0) (getConn "b" (new_net 3 Second [])).2 ([] : list rpc_args)).
  destruct (pipeline_in_order (net_ex_consume "b") (net_ex_heartbeat "b") true "b" (new_net 3 Second []) (mkNetConn "b" 0)
              (getConn "b" (new_net 3 Second [])).2 [] pipe_ex_events r) as [Hdone Hnext].
  - intros a data p Ha. unfold answer. destruct a as [a|v|i]; simpl; [case_match|..]; by eexists _, _.
  - exact (net_ex_in_kind "b").
  - apply new_net_ok.
  - reflexivity.
  - repeat (constructor; [first [exact I|split_and!; simpl; unfold uint64_ok; try lia; repeat constructor; unfold uint64_ok; simpl; lia]|]).
    constructor.
  - exact E.
  - assert (Hr : r = default r0 pipe_ex_run) by (by rewrite E). clear E. rewrite Hr in Hdone, Hnext |- *. clear Hr.
    destruct (completed (default r0 pipe_ex_run)) as [|f fs] eqn:Ec; [exfalso; vm_compute in Ec; discriminate|].
    destruct fs as [|g fs]; [|exfalso; vm_compute in Ec; discriminate].
    destruct (Hnext (pr_stream (default r0 pipe_ex_run)) (mkAppendFuture 2 (pipe_ex_request 5) None) []
                (RespAppend (mkAppendEntriesResponse 2 7 true false)) None (ArgsAppend (pipe_ex_request 5)))
      as (_ & np & n' & Es & Hnp); try (vm_compute; reflexivity).
    + apply Nat.leb_le. vm_compute. reflexivity.
    + eexists (default r0 pipe_ex_run), f, np, n'. split; [vm_compute; reflexivity|]. split; [exact Ec|].
      split; [by apply (Hdone 0%nat f)|]. split; [exact Es|]. rewrite Hnp, length_app.
      assert (Hl : length (np_doneCh (pr_pipe (default r0 pipe_ex_run))) = 1%nat) by (vm_compute; reflexivity).
      rewrite Hl. reflexivity.
Defined.
