(* ===== verification/InmemTransport.v ===== *)
(** * Raft: the transport in memory, and observers (internal/raft/inmem_transport.go, transport.go,
    observer.go)

    A transport between nodes of one process, which the tests of raft run on: a call puts a request into
    the channel of the other transport and waits for the answer on a channel of its own.  Transports,
    pipelines and channels are objects of a shared store, by number.  What a [select] takes when more
    than one case is ready, and when a timer fires, are arguments. *)
From S2P Require Import Prelude GoStrings RaftBase Inflight BoltStore FileSnapshot.
From S2P Require Import Raft RaftElection RaftReplication RaftStream RaftLeader NetTransport NetPipeline.

Open Scope string_scope.
Open Scope Z_scope.
Local Open Scope go_scope.

(** ** Objects *)

(** A channel for one answer: with a buffer of one or without, whether somebody receives from it, and
    the answer that was sent. *)
Record chan := mkChan {
  ch_buffered : bool;
  ch_reader : bool;
  ch_value : option (rpc_response * option error);
}.

(** [RPC]: the command, the data of a snapshot, and the channel of the answer. *)
Record RPC := mkRPC {
  rpc_Command : rpc_args;
  rpc_Reader : string;
  rpc_RespChan : nat;
}.

Record inmemPipeline := mkInmemPipeline {
  ip_trans : nat;
  ip_peer : nat;
  ip_peerAddr : string;
  ip_doneCh : list appendFuture;
  ip_inprogressCh : list (appendFuture * nat);
  ip_shutdown : bool;
}.

Record InmemTransport := mkInmemTransport {
  it_consumerCh : list RPC;
  it_localAddr : string;
  it_peers : gmap string nat;
  it_pipelines : list nat;
  it_timeout : Duration;
}.

Record inmem := mkInmem {
  im_trans : gmap nat InmemTransport;
  im_pipes : gmap nat inmemPipeline;
  im_chans : gmap nat chan;
  im_next : nat;
}.

(** [make(chan RPC, 16)] and the channels of a pipeline. *)
Definition inmem_capacity : nat := 16.

Definition empty_transport (addr : string) : InmemTransport :=
  mkInmemTransport [] addr ∅ [] (50 * Millisecond).

Definition trans_of (i : nat) (w : inmem) : InmemTransport := default (empty_transport "") (im_trans w !! i).
Definition set_trans (i : nat) (t : InmemTransport) (w : inmem) : inmem :=
  mkInmem (<[i := t]> (im_trans w)) (im_pipes w) (im_chans w) (im_next w).
Definition set_pipe (i : nat) (p : inmemPipeline) (w : inmem) : inmem :=
  mkInmem (im_trans w) (<[i := p]> (im_pipes w)) (im_chans w) (im_next w).
Definition set_chan (i : nat) (c : chan) (w : inmem) : inmem :=
  mkInmem (im_trans w) (im_pipes w) (<[i := c]> (im_chans w)) (im_next w).
Definition it_set_consumer (q : list RPC) (t : InmemTransport) : InmemTransport :=
  mkInmemTransport q (it_localAddr t) (it_peers t) (it_pipelines t) (it_timeout t).
Definition it_set_peers (peers : gmap string nat) (pipelines : list nat) (t : InmemTransport) : InmemTransport :=
  mkInmemTransport (it_consumerCh t) (it_localAddr t) peers pipelines (it_timeout t).

(** [NewInmemTransport]; [uuid] is the generated address. *)
Definition NewInmemTransport (addr uuid : string) (w : inmem) : string * nat * inmem :=
  let addr := if decide (addr = "") then uuid else addr in
  (addr, im_next w,
   mkInmem (<[im_next w := empty_transport addr]> (im_trans w)) (im_pipes w) (im_chans w) (S (im_next w))).

(** [EncodePeer] and [DecodePeer]. *)
Definition inmem_EncodePeer (p : string) : string := p.
Definition inmem_DecodePeer (buf : string) : string := buf.

(** ** Calls *)

(** [RPC.Respond]: the send on the channel; [None] while it blocks. *)
Definition Respond (c : nat) (resp : rpc_response) (err : option error) (w : inmem) : option inmem :=
  match im_chans w !! c with
  | Some ch =>
      if decide (ch_value ch = None) then
        if ch_buffered ch || ch_reader ch
        then Some (set_chan c (mkChan (ch_buffered ch) (ch_reader ch) (Some (resp, err))) w)
        else None
      else None
  | None => None
  end.

(** [peer.consumerCh <- RPC{...}] with a new channel; [None] while the queue is full. *)
Definition send_rpc (peer : nat) (args : rpc_args) (data : string) (buffered : bool) (w : inmem) : option (nat * inmem) :=
  let t := trans_of peer w in
  if (inmem_capacity <=? length (it_consumerCh t))%nat then None
  else
    let c := im_next w in
    Some (c, mkInmem (<[peer := it_set_consumer (it_consumerCh t ++ [mkRPC args data c])%list t]> (im_trans w))
               (im_pipes w) (<[c := mkChan buffered true None]> (im_chans w)) (S c)).

(** [makeRPC] up to its [select]: the channel it waits on, or the error. *)
Definition makeRPC_send (i : nat) (target : string) (args : rpc_args) (data : string) (w : inmem)
    : option ((nat + error) * inmem) :=
  match it_peers (trans_of i w) !! target with
  | None => Some (inr (Errorf ("failed to connect to peer: " ++ target)), w)
  | Some peer => (fun '(c, w) => (inl c, w)) <$> send_rpc peer args data false w
  end.

(** Its [select]: the answer, or the timer, after which nobody receives any more. *)
Definition makeRPC_wait (c : nat) (timer : bool) (w : inmem) : option ((rpc_response + error) * inmem) :=
  match im_chans w !! c with
  | None => None
  | Some ch =>
      match ch_value ch with
      | Some (resp, None) => Some (inl resp, w)
      | Some (_, Some e) => Some (inr e, w)
      | None =>
          if timer then Some (inr (Errorf "command timed out"), set_chan c (mkChan (ch_buffered ch) false None) w)
          else None
      end
  end.

(** [AppendEntries], [RequestVote], [InstallSnapshot] after the call: the type assertion on the
    response. *)
Definition copy_back (args : rpc_args) (r : rpc_response + error) : outcome (rpc_response + error) :=
  match r, args with
  | inr e, _ => Return (inr e)
  | inl (RespAppend x), ArgsAppend _ => Return (inl (RespAppend x))
  | inl (RespVote x), ArgsVote _ => Return (inl (RespVote x))
  | inl (RespInstall x), ArgsInstall _ => Return (inl (RespInstall x))
  | inl _, _ => Panic "interface conversion"
  end.

(** The time a call waits. *)
Definition call_timeout (args : rpc_args) (t : InmemTransport) : Duration :=
  match args with ArgsInstall _ => wrap64 (10 * it_timeout t) | _ => it_timeout t end.

(** The node behind a transport takes the next request. *)
Definition consume (i : nat) (w : inmem) : option (RPC * inmem) :=
  match it_consumerCh (trans_of i w) with
  | [] => None
  | r :: q => Some (r, set_trans i (it_set_consumer q (trans_of i w)) w)
  end.

(** ** Pipelines *)

Definition inmem_AppendEntriesPipeline (i : nat) (target : string) (w : inmem) : (nat + error) * inmem :=
  let t := trans_of i w in
  match it_peers t !! target with
  | None => (inr (Errorf ("failed to connect to peer: " ++ target)), w)
  | Some peer =>
      let p := im_next w in
      (inl p, mkInmem (<[i := it_set_peers (it_peers t) (it_pipelines t ++ [p])%list t]> (im_trans w))
                (<[p := mkInmemPipeline i peer target [] [] false]> (im_pipes w)) (im_chans w) (S p))
  end.

(** The cases of the selects of a pipeline. *)
Inductive pipe_case := PipeReady | PipeTimer | PipeShutdown.

(** [inmemPipeline.AppendEntries]; [None] for a case that is not ready. *)
Definition inpipe_AppendEntries (now : Time) (p : nat) (a : AppendEntriesRequest) (first second : pipe_case) (w : inmem)
    : option ((appendFuture + error) * inmem) :=
  match im_pipes w !! p with
  | None => None
  | Some pipe =>
      let future := mkAppendFuture now a None in
      match first with
      | PipeTimer => if it_timeout (trans_of (ip_trans pipe) w) >? 0
                     then Some (inr (Errorf "command enqueue timeout"), w) else None
      | PipeShutdown => if ip_shutdown pipe then Some (inr ErrPipelineShutdown, w) else None
      | PipeReady =>
          match send_rpc (ip_peer pipe) (ArgsAppend a) "" true w with
          | None => None
          | Some (c, w) =>
              match second with
              | PipeReady =>
                  if (inmem_capacity <=? length (ip_inprogressCh pipe))%nat then None
                  else Some (inl future,
                         set_pipe p (mkInmemPipeline (ip_trans pipe) (ip_peer pipe) (ip_peerAddr pipe) (ip_doneCh pipe)
                           (ip_inprogressCh pipe ++ [(future, c)])%list (ip_shutdown pipe)) w)
              | PipeShutdown => if ip_shutdown pipe then Some (inr ErrPipelineShutdown, w) else None
              | PipeTimer => None
              end
          end
      end
  end.

(** One round of [decodeResponses]: the oldest future is answered by its response or by the timer, and
    handed over; [None]: no case is ready, or the goroutine has returned. *)
Definition inmem_decodeResponses (p : nat) (pick : pipe_case) (w : inmem) : option (outcome inmem) :=
  match im_pipes w !! p with
  | None => None
  | Some pipe =>
      match ip_inprogressCh pipe with
      | [] => None
      | (f, c) :: q =>
          let hand_over := fun answer =>
            if (inmem_capacity <=? length (ip_doneCh pipe))%nat then None
            else Some (Return (set_pipe p (mkInmemPipeline (ip_trans pipe) (ip_peer pipe) (ip_peerAddr pipe)
                   (ip_doneCh pipe ++ [mkAppendFuture (af_start f) (af_args f) (Some answer)])%list q (ip_shutdown pipe)) w)) in
          match pick with
          | PipeReady =>
              match im_chans w !! c ≫= ch_value with
              | Some (RespAppend r, err) => hand_over (if err is Some e then inr e else inl (RespAppend r))
              | Some _ => Some (Panic "interface conversion")
              | None => None
              end
          | PipeTimer => if it_timeout (trans_of (ip_trans pipe) w) >? 0 then hand_over (inr (Errorf "command timed out")) else None
          | PipeShutdown => None
          end
      end
  end.

Definition close_pipe (pipe : inmemPipeline) : inmemPipeline :=
  mkInmemPipeline (ip_trans pipe) (ip_peer pipe) (ip_peerAddr pipe) (ip_doneCh pipe) (ip_inprogressCh pipe) true.

(** [inmemPipeline.Close]: a second one does nothing. *)
Definition inpipe_Close (p : nat) (pipes : gmap nat inmemPipeline) : gmap nat inmemPipeline := alter close_pipe p pipes.

(** ** Connections *)

Definition Connect (i : nat) (peer : string) (j : nat) (w : inmem) : inmem :=
  let t := trans_of i w in set_trans i (it_set_peers (<[peer := j]> (it_peers t)) (it_pipelines t) t) w.

(** The loop of [Disconnect]: a pipeline to the peer is closed and the last one takes its place; [idx]
    stays.  Every round takes one pipeline off the rest, so their number is fuel enough
    ([disconnect_loop_spec]). *)
Fixpoint disconnect_loop (fuel : nat) (peer : string) (idx : nat) (l : list nat) (pipes : gmap nat inmemPipeline)
    : list nat * gmap nat inmemPipeline :=
  match fuel with
  | O => (l, pipes)
  | S fuel =>
      match l !! idx with
      | None => (l, pipes)
      | Some p =>
          if decide (ip_peerAddr <$> pipes !! p = Some peer)
          then disconnect_loop fuel peer idx (swap_remove idx l) (inpipe_Close p pipes)
          else disconnect_loop fuel peer (S idx) l pipes
      end
  end.

Definition Disconnect (i : nat) (peer : string) (w : inmem) : inmem :=
  let t := trans_of i w in
  let '(l, pipes) := disconnect_loop (length (it_pipelines t)) peer 0 (it_pipelines t) (im_pipes w) in
  mkInmem (<[i := it_set_peers (delete peer (it_peers t)) l t]> (im_trans w)) pipes (im_chans w) (im_next w).

Definition DisconnectAll (i : nat) (w : inmem) : inmem :=
  let t := trans_of i w in
  mkInmem (<[i := it_set_peers ∅ [] t]> (im_trans w)) (foldl (fun m p => inpipe_Close p m) (im_pipes w) (it_pipelines t))
    (im_chans w) (im_next w).

Definition inmem_Close (i : nat) (w : inmem) : option error * inmem := (None, DisconnectAll i w).

(** ** Observers *)

(** What is observed, without the node itself. *)
Inductive Observation :=
| ObsVote (req : RequestVoteRequest)
| ObsState (s : RaftState)
| LeaderObservation (leader : string).

(** [Observer]: its channel (the capacity and what is in it), if it has one. *)
Record Observer := mkObserver {
  ob_channel : option (nat * list Observation);
  ob_blocking : bool;
  ob_filter : option (Observation -> bool);
  ob_id : Z;
  ob_numObserved : Z;
  ob_numDropped : Z;
}.

(** [NewObserver]; the counter is shared by all nodes. *)
Definition NewObserver (channel : option (nat * list Observation)) (blocking : bool)
    (filter : option (Observation -> bool)) (nextObserverID : Z) : Observer * Z :=
  let id := wrapu64 (nextObserverID + 1) in (mkObserver channel blocking filter id 0 0, id).

Definition GetNumObserved (o : Observer) : Z := ob_numObserved o.
Definition GetNumDropped (o : Observer) : Z := ob_numDropped o.

Definition RegisterObserver (o : Observer) (m : gmap Z Observer) : gmap Z Observer := <[ob_id o := o]> m.
Definition DeregisterObserver (o : Observer) (m : gmap Z Observer) : gmap Z Observer := delete (ob_id o) m.

(** One round of [observe]; [None] while a blocking observer's channel is full. *)
Definition observe_one (x : Observation) (o : Observer) : option Observer :=
  if (match ob_filter o with Some f => negb (f x) | None => false end) then Some o
  else
    match ob_channel o with
    | None => Some o
    | Some (cap, q) =>
        if (length q <? cap)%nat then
          Some (mkObserver (Some (cap, (q ++ [x])%list)) (ob_blocking o) (ob_filter o) (ob_id o)
                  (wrapu64 (ob_numObserved o + 1)) (ob_numDropped o))
        else if ob_blocking o then None
        else Some (mkObserver (ob_channel o) (ob_blocking o) (ob_filter o) (ob_id o) (ob_numObserved o)
                     (wrapu64 (ob_numDropped o + 1)))
    end.

(** [observe]: the observers in the order of the map. *)
Definition observe (x : Observation) (m : gmap Z Observer) : option (gmap Z Observer) :=
  foldr (fun p acc => acc ← acc; o ← observe_one x p.2; Some (<[p.1 := o]> acc)) (Some m) (map_to_list m).

(** ** Properties *)

Lemma swap_remove_perm {A} i (l : list A) x : l !! i = Some x -> l ≡ₚ x :: swap_remove i l.
Proof.
  intros Hi. pose proof (lookup_lt_Some _ _ _ Hi) as Hlt. unfold swap_remove.
  destruct l as [|y l _] using rev_ind; [done|]. rewrite last_snoc, length_app, Nat.add_sub.
  rewrite length_app in Hlt. simpl in Hlt. destruct (decide (i = length l)) as [->|Hne].
  - rewrite list_lookup_middle in Hi by done. injection Hi as <-.
    rewrite insert_app_r_alt, take_app_length by lia. symmetry. apply Permutation_cons_append.
  - rewrite lookup_app_l in Hi by lia. rewrite insert_app_l by lia.
    rewrite take_app_le by (rewrite length_insert; lia). rewrite take_ge by (rewrite length_insert; lia).
    apply list_elem_of_split_length in Hi as (a & b & -> & ->).
    rewrite insert_app_r_alt, Nat.sub_diag by lia. cbn [insert list_insert]. rewrite <- app_assoc. simpl.
    rewrite <- (Permutation_middle a (b ++ [y]) x). apply perm_skip, Permutation_app_head.
    symmetry. apply Permutation_cons_append.
Qed.

(** Whether a pipeline goes to the peer. *)
Definition goes_to (peer : string) (pipes : gmap nat inmemPipeline) (p : nat) : Prop :=
  ip_peerAddr <$> pipes !! p = Some peer.

#[export] Instance goes_to_dec peer pipes p : Decision (goes_to peer pipes p).
Proof. unfold goes_to. apply _. Defined.

Lemma goes_to_Close peer pipes q p : goes_to peer (inpipe_Close q pipes) p <-> goes_to peer pipes p.
Proof.
  unfold goes_to, inpipe_Close. destruct (decide (p = q)) as [->|Hne]; [|by rewrite lookup_alter_ne].
  rewrite lookup_alter_eq. by destruct (pipes !! q).
Qed.

(** The loop leaves the pipelines to other peers and closes the ones to this peer. *)
Lemma disconnect_loop_spec fuel peer : forall idx l pipes l' pipes',
  (length l - idx <= fuel)%nat -> NoDup l -> (forall k p, (k < idx)%nat -> l !! k = Some p -> ~ goes_to peer pipes p) ->
  disconnect_loop fuel peer idx l pipes = (l', pipes') ->
  (forall p, p ∈ l' <-> p ∈ l /\ ~ goes_to peer pipes p) /\ NoDup l' /\
  (forall p, pipes' !! p = if decide (p ∈ l /\ goes_to peer pipes p) then close_pipe <$> pipes !! p else pipes !! p).
Proof.
  induction fuel as [|fuel IH]; intros idx l pipes l' pipes' Hf Hnd Hb; cbn [disconnect_loop].
  - assert (Hall : forall p, p ∈ l -> ~ goes_to peer pipes p).
    { intros p Hp. apply list_elem_of_lookup in Hp as [k Hk]. pose proof (lookup_lt_Some _ _ _ Hk).
      apply (Hb k); [lia|done]. }
    intros [= <- <-]. split_and!; [naive_solver|done|]. intros p. rewrite decide_False; [done|]. intros [Hp Hg]. by apply (Hall p).
  - destruct (l !! idx) as [p|] eqn:Hp.
    2: { apply lookup_ge_None in Hp. intros E. apply (IH idx l pipes); [lia|done|done|].
         destruct fuel; cbn [disconnect_loop]; [done|]. by rewrite (lookup_ge_None_2 _ _ Hp). }
    pose proof (lookup_lt_Some _ _ _ Hp) as Hlt. pose proof (swap_remove_perm idx l p Hp) as Hperm.
    assert (Hin : forall q, q ∈ l <-> q = p \/ q ∈ swap_remove idx l) by (intros q; rewrite Hperm at 1; apply elem_of_cons).
    assert (Hnd2 : p ∉ swap_remove idx l /\ NoDup (swap_remove idx l)) by (apply NoDup_cons; by rewrite <- Hperm).
    case_decide as Hg.
    + intros E. apply IH in E as (Hl & Hn & Hm).
      * split_and!; [|done|].
        -- intros q. rewrite Hl, goes_to_Close, Hin. naive_solver.
        -- intros q. rewrite Hm. destruct (decide (q = p)) as [->|Hne].
           ++ rewrite decide_False by tauto. rewrite decide_True by (split; [by eapply list_elem_of_lookup_2|done]).
              unfold inpipe_Close. by rewrite lookup_alter_eq.
           ++ assert (Hq : inpipe_Close p pipes !! q = pipes !! q) by (unfold inpipe_Close; by rewrite lookup_alter_ne).
              rewrite Hq.
              apply decide_ext. rewrite goes_to_Close, Hin. naive_solver.
      * rewrite (length_swap_remove idx l p Hp). lia.
      * tauto.
      * intros k q Hk Hq. rewrite goes_to_Close. apply (Hb k); [done|].
        revert Hq. unfold swap_remove. destruct (last l) as [y|]; [|done].
        rewrite lookup_take_Some, list_lookup_insert_ne by lia. tauto.
    + apply IH; [lia|done|]. intros k q Hk Hq. destruct (decide (k = idx)) as [->|Hne]; [congruence|apply (Hb k); [lia|done]].
Qed.

(** A peer that is disconnected is out of reach, and only that peer: calls and new pipelines to it fail,
    its pipelines are closed and forgotten, every other pipeline stays as it is. *)
Theorem Disconnect_isolates i peer w :
  NoDup (it_pipelines (trans_of i w)) ->
  let w' := Disconnect i peer w in
  (forall args data, exists e, makeRPC_send i peer args data w' = Some (inr e, w')) /\
  (exists e, inmem_AppendEntriesPipeline i peer w' = (inr e, w')) /\
  (forall p, p ∈ it_pipelines (trans_of i w') <->
     p ∈ it_pipelines (trans_of i w) /\ ~ goes_to peer (im_pipes w) p) /\
  (forall p pipe, im_pipes w !! p = Some pipe ->
     im_pipes w' !! p = Some (if decide (p ∈ it_pipelines (trans_of i w) /\ ip_peerAddr pipe = peer)
                              then close_pipe pipe else pipe)) /\
  (forall other, other <> peer -> it_peers (trans_of i w') !! other = it_peers (trans_of i w) !! other).
Proof.
  intros Hnd. unfold Disconnect.
  destruct (disconnect_loop _ peer 0 (it_pipelines (trans_of i w)) (im_pipes w)) as [l pipes] eqn:E.
  apply disconnect_loop_spec in E as (Hl & _ & Hp); [|lia|done|intros; lia].
  set (w' := mkInmem _ _ _ _). cbn zeta.
  assert (Ht : trans_of i w' = it_set_peers (delete peer (it_peers (trans_of i w))) l (trans_of i w)).
  { unfold trans_of, w'. cbn [im_trans]. by rewrite lookup_insert_eq. }
  unfold makeRPC_send, inmem_AppendEntriesPipeline. rewrite Ht. cbn [it_peers it_pipelines it_set_peers].
  rewrite lookup_delete_eq. split_and!; [eauto|eauto|done| |].
  - intros p pipe Hpipe. cbn [im_pipes w']. rewrite Hp, Hpipe.
    assert (Hg : goes_to peer (im_pipes w) p <-> ip_peerAddr pipe = peer) by (unfold goes_to; rewrite Hpipe; naive_solver).
    repeat case_decide; naive_solver.
  - intros other Hne. by rewrite lookup_delete_ne.
Qed.

(** A call over an idle connection returns what the other node answers to it. *)
Theorem inmem_call_answered i target peer args data w c w1 :
  it_peers (trans_of i w) !! target = Some peer -> it_consumerCh (trans_of peer w) = [] ->
  makeRPC_send i target args data w = Some (inl c, w1) ->
  exists w2, consume peer w1 = Some (mkRPC args data c, w2) /\
    forall resp err timer, exists w3, Respond c resp err w2 = Some w3 /\
      makeRPC_wait c timer w3 = Some (if err is Some e then inr e else inl resp, w3).
Proof.
  intros Hp Hq. unfold makeRPC_send, send_rpc. rewrite Hp, Hq. simpl. intros [= <- <-].
  unfold consume, trans_of. cbn [im_trans]. rewrite lookup_insert_eq. simpl. eexists. split; [reflexivity|].
  intros resp err timer. unfold Respond, set_trans. cbn [im_chans]. rewrite lookup_insert_eq. simpl.
  eexists. split; [reflexivity|]. unfold makeRPC_wait, set_chan. cbn [im_chans]. rewrite lookup_insert_eq. simpl. by destruct err.
Qed.

(** The channel of a call has no buffer: a node that answers after the caller has given up blocks in
    [Respond], in the goroutine of its main loop. *)
Theorem late_answer_blocks i target args data w c w1 w2 e :
  makeRPC_send i target args data w = Some (inl c, w1) -> makeRPC_wait c true w1 = Some (inr e, w2) ->
  forall resp err, Respond c resp err w2 = None.
Proof.
  unfold makeRPC_send. destruct (it_peers _ !! target) as [peer|]; [|done]. unfold send_rpc.
  destruct (_ <=? _)%nat; [done|]. simpl. intros [= <- <-]. unfold makeRPC_wait. cbn [im_chans]. rewrite lookup_insert_eq. simpl.
  intros [= _ <-] resp err. unfold Respond, set_chan. cbn [im_chans]. by rewrite lookup_insert_eq.
Qed.

(** An observer without a full blocking channel never stops the node, its channel never holds more than
    its capacity, and what is not filtered out is either in the channel or counted as dropped. *)
Theorem observe_one_counts x o :
  (forall cap q, ob_channel o = Some (cap, q) -> (length q <= cap)%nat) ->
  (ob_blocking o = false -> is_Some (observe_one x o)) /\
  (forall o', observe_one x o = Some o' ->
     (forall cap q, ob_channel o' = Some (cap, q) -> (length q <= cap)%nat) /\
     (ob_channel o' = ob_channel o \/ exists cap q, ob_channel o = Some (cap, q) /\ ob_channel o' = Some (cap, (q ++ [x])%list)) /\
     (o' <> o -> ob_numObserved o' + ob_numDropped o' = wrapu64 (ob_numObserved o + 1) + ob_numDropped o \/
                 ob_numObserved o' + ob_numDropped o' = ob_numObserved o + wrapu64 (ob_numDropped o + 1))).
Proof.
  intros Hcap. unfold observe_one. destruct (match ob_filter o with Some f => negb (f x) | None => false end).
  { split; [done|]. intros o' [= <-]. split_and!; auto; done. }
  destruct (ob_channel o) as [[cap q]|] eqn:Hc; [|split; [done|]; intros o' [= <-]; rewrite Hc; split_and!; auto; done].
  specialize (Hcap cap q eq_refl). destruct (Nat.ltb_spec (length q) cap).
  - split; [done|]. intros o' [= <-]. simpl. split_and!; [|eauto|auto]. intros cap' q' [= <- <-]. rewrite length_app. simpl. lia.
  - destruct (ob_blocking o); (split; [done|]); [done|]. intros o' [= <-]. simpl. split_and!; [|auto|auto].
    intros cap' q' [= <- <-]. done.
Qed.
