(* ===== verification/Consensus.v ===== *)
(** * The consensus service: its interface, and the provider that chooses one
    (pkg/group/consensus_service.go, consensus.go, raft.go, store.go)

    [ConsensusService] is the Go interface as a class, [ConsensusLaws] what its clients rely on.  The
    MySQL backend and the raft store are its instances; the raft store is an instance for every raft
    that answers a proposal with success only after the local state machine has applied it.  The local
    throttler is shared: the updates other callers make while an operation runs are an argument of the
    operation, so that the laws hold of the operation's own effect. *)
From S2P Require Import Prelude GoStrings GoFloat GoCache Base Mysql Config Throttler Operate Fsm.
From S2P Require Import MysqlBackend RaftBase.

Open Scope string_scope.
Open Scope Z_scope.
Local Open Scope go_scope.

Definition monitorInterval : Duration := 5 * Second.

(** ** Updates of the throttler *)

(** A sequence of timed updates. *)
Definition run_ops {DB} (ops : list (Time * api_call)) (t : Throttler DB) : Throttler DB :=
  foldl (fun t p => run_api p.1 p.2 t) t ops.

Lemma run_ops_app {DB} (a b : list (Time * api_call)) (t : Throttler DB) :
  run_ops (a ++ b) t = run_ops b (run_ops a t).
Proof. unfold run_ops. by rewrite foldl_app. Qed.

(** The app or the host an update is about. *)
Definition target (c : api_call) : option (string + string) :=
  match c with
  | CallThrottleApp a _ _ | CallUnthrottleApp a => Some (inl a)
  | CallSkipHost h _ | CallRecoverHost h => Some (inr h)
  | _ => None
  end.

(** What an update made at [at_] is for, read off the throttler: the app is throttled until its expiry
    with the ratio given, or, if that is negative, some other (not at all when the expiry is not after
    [at_]); the host is skipped until its expiry, an hour when none is given; the app or the host has no
    entry. *)
Definition in_force {DB} (at_ : Time) (c : api_call) (t : Throttler DB) : Prop :=
  match c with
  | CallThrottleApp a e r =>
      exists share, (f_geb r f_zero = true -> share = r) /\
        forall later, cache_Get later a (throttledApps t) =
          if Time_IsZero e || (at_ <? e) then Some (mkAppThrottle e share) else None
  | CallUnthrottleApp a => forall later, cache_Get later a (throttledApps t) = None
  | CallSkipHost h e =>
      let e := if Time_IsZero e then at_ + 60 * Minute else e in
      forall later, cache_Get later h (skippedHosts t) = if at_ <? e then Some e else None
  | CallRecoverHost h => forall later, cache_Get later h (skippedHosts t) = None
  | _ => True
  end.

Section Updates.
Context {DB : Type}.
Implicit Types t : Throttler DB.

Lemma ok_run_api now c t : throttler_ok t -> throttler_ok (run_api now c t).
Proof. intros Ho. destruct c; simpl; auto with freno. destruct Ho. by split. Qed.

Lemma ok_run_ops ops : forall t, throttler_ok t -> throttler_ok (run_ops ops t).
Proof. induction ops as [|[n c] ops IH]; intros t Ho; [done|]. apply IH. by apply ok_run_api. Qed.

Lemma run_api_in_force at_ c t : throttler_ok t -> in_force at_ c (run_api at_ c t).
Proof.
  intros Ho. destruct c as [a e r|a|h e|h| | |]; simpl; try done.
  - exists (Ratio (throttle_entry at_ a e r t)). split.
    + intros Hr. by rewrite (throttle_entry_asked _ _ _ _ _ r) by (left; split; done).
    + intros later. rewrite ThrottleApp_Get by done. unfold Time_Before. case_if; [|done]. f_equal.
      pose proof (throttle_entry_ExpireAt at_ a e r t). destruct (throttle_entry at_ a e r t). simpl in *. congruence.
  - intros later. apply cache_Get_Delete.
  - intros later. unfold SkipHost, Time_Before, Time_Add, DefaultSkipTTLMinutes. destruct (_ <? _) eqn:E; [|apply cache_Get_Delete].
    apply cache_Get_Set_forever. right. split; [done|]. apply Ho.
  - intros later. apply cache_Get_Delete.
Qed.

(** An update about something else leaves it in force. *)
Lemma run_api_other_app now c a later t :
  target c <> Some (inl a) -> cache_Get later a (throttledApps (run_api now c t)) = cache_Get later a (throttledApps t).
Proof.
  intros Hne. destruct c as [b e r|b|h e|h| | |]; simpl in *; try done.
  - apply ThrottleApp_Get_ne. congruence.
  - apply cache_Get_Delete_ne. congruence.
  - unfold SkipHost, RecoverHost. by repeat case_if.
Qed.

Lemma run_api_other_host now c h later t :
  target c <> Some (inr h) -> cache_Get later h (skippedHosts (run_api now c t)) = cache_Get later h (skippedHosts t).
Proof.
  intros Hne. destruct c as [b e r|b|k e|k| | |]; simpl in *; try done.
  - unfold ThrottleApp, UnthrottleApp. by repeat case_if.
  - unfold SkipHost, RecoverHost. repeat case_if; simpl; rewrite ?cache_Get_Set_ne, ?cache_Get_Delete_ne; congruence.
  - apply cache_Get_Delete_ne. congruence.
Qed.

Lemma run_api_keeps at_ c now c' t : target c' <> target c -> in_force at_ c t -> in_force at_ c (run_api now c' t).
Proof.
  intros Hne. destruct c as [a e r|a|h e|h| | |]; simpl in *; try done.
  - intros (share & Hr & Hg). exists share. split; [done|]. intros later. by rewrite run_api_other_app.
  - intros Hg later. by rewrite run_api_other_app.
  - intros Hg later. by rewrite run_api_other_host.
  - intros Hg later. by rewrite run_api_other_host.
Qed.

(** An update followed by updates about other things is in force. *)
Lemma run_ops_in_force at_ c ops t :
  throttler_ok t -> Forall (fun p => target p.2 <> target c) ops -> in_force at_ c (run_ops ops (run_api at_ c t)).
Proof.
  intros Ho Hf. pose proof (run_api_in_force at_ c t Ho) as Hin. revert Hin. generalize (run_api at_ c t).
  induction Hf as [|[n c'] ops Hne _ IH]; intros t' Hin; [done|]. apply IH. by apply run_api_keeps.
Qed.
End Updates.

(** ** The interface *)

(** How an operation falls among the updates of the local throttler by other callers: their updates
    before it, the time it comes to the throttler, and their updates between then and its return. *)
Record meanwhile := mkMeanwhile {
  mw_before : list (Time * api_call);
  mw_at : Time;
  mw_after : list (Time * api_call);
}.
Definition alone (at_ : Time) : meanwhile := mkMeanwhile [] at_ [].

(** The updates, with [c] among them. *)
Definition run_among {DB} (m : meanwhile) (c : api_call) (t : Throttler DB) : Throttler DB :=
  run_ops (mw_after m) (run_api (mw_at m) c (run_ops (mw_before m) t)).

Class ConsensusService (DB S : Type) := {
  svc_throttler : S -> Throttler DB;
  svc_ThrottleApp : meanwhile -> string -> Z -> Time -> float64 -> S -> S * option error;
  svc_UnthrottleApp : meanwhile -> string -> S -> S * option error;
  svc_SkipHost : meanwhile -> string -> Z -> Time -> S -> S * option error;
  svc_RecoverHost : meanwhile -> string -> S -> S * option error;
  svc_IsHealthy : S -> bool;
  svc_IsLeader : S -> bool;
  svc_GetLeader : S -> string;
  svc_GetStateDescription : S -> string;
  svc_GetSharedDomainServices : S -> gmap string string;
  svc_GetStatus : S -> ConsensusServiceStatus;
}.

(** The read operations go to the local throttler in every implementation. *)
Definition svc_ThrottledAppsMap {DB S} `{!ConsensusService DB S} (now : Time) (s : S)
  : gmap string AppThrottle := ThrottledAppsMap now (svc_throttler s).
Definition svc_SkippedHostsMap {DB S} `{!ConsensusService DB S} (now : Time) (s : S)
  : gmap string Time := SkippedHostsMap now (svc_throttler s).
Definition svc_RecentAppsMap {DB S} `{!ConsensusService DB S} (now : Time) (s : S)
  : gmap string RecentApp := RecentAppsMap now (svc_throttler s).

(** An operation that reports success has made its update, whatever the others do. *)
Class ConsensusLaws (DB S : Type) `{!ConsensusService DB S} := {
  law_ThrottleApp m app ttl e r s s' : svc_ThrottleApp m app ttl e r s = (s', None) ->
    svc_throttler s' = run_among m (CallThrottleApp app e r) (svc_throttler s);
  law_UnthrottleApp m app s s' : svc_UnthrottleApp m app s = (s', None) ->
    svc_throttler s' = run_among m (CallUnthrottleApp app) (svc_throttler s);
  law_SkipHost m h ttl e s s' : svc_SkipHost m h ttl e s = (s', None) ->
    svc_throttler s' = run_among m (CallSkipHost h e) (svc_throttler s);
  law_RecoverHost m h s s' : svc_RecoverHost m h s = (s', None) ->
    svc_throttler s' = run_among m (CallRecoverHost h) (svc_throttler s);
}.

(** ** The MySQL backend *)

(** The backend with its database: the election table, the throttled apps and skipped hosts, the time
    there, and the error its statements end with at the moment, if any. *)
Record MySQLService (DB : Type) := mkMySQLService {
  my_backend : MySQLBackend;
  my_election : ElectionTable;
  my_health : HealthTable;
  my_apps : AppsTable;
  my_hosts : HostsTable;
  my_n : Z;
  my_err : option error;
  my_forced : bool;
  my_throttler : Throttler DB;
}.
Arguments mkMySQLService {DB}.
Arguments my_backend {DB}.
Arguments my_election {DB}.
Arguments my_health {DB}.
Arguments my_apps {DB}.
Arguments my_hosts {DB}.
Arguments my_n {DB}.
Arguments my_err {DB}.
Arguments my_forced {DB}.
Arguments my_throttler {DB}.

Definition set_my_apps {DB} (x : AppsTable * Throttler DB) (s : MySQLService DB) : MySQLService DB :=
  mkMySQLService (my_backend s) (my_election s) (my_health s) x.1 (my_hosts s) (my_n s) (my_err s) (my_forced s) x.2.
Definition set_my_hosts {DB} (x : HostsTable * Throttler DB) (s : MySQLService DB) : MySQLService DB :=
  mkMySQLService (my_backend s) (my_election s) (my_health s) (my_apps s) x.1 (my_n s) (my_err s) (my_forced s) x.2.

(** An operation of the backend on a table and the throttler, between the updates of others. *)
Definition between {A DB} (m : meanwhile) (f : A * Throttler DB -> A * Throttler DB * option error)
    (x : A * Throttler DB) : A * Throttler DB * option error :=
  let '(tbl, t, err) := f (x.1, run_ops (mw_before m) x.2) in (tbl, run_ops (mw_after m) t, err).

#[export] Instance mysql_consensus {DB} : ConsensusService DB (MySQLService DB) := {
  svc_throttler := my_throttler;
  svc_ThrottleApp m app ttl e r s :=
    let '(x, err) := between m (Backend_ThrottleApp (my_n s) (mw_at m) (my_err s) app ttl e r) (my_apps s, my_throttler s) in
    (set_my_apps x s, err);
  svc_UnthrottleApp m app s :=
    let '(x, err) := between m (Backend_UnthrottleApp (my_n s) (my_err s) app) (my_apps s, my_throttler s) in
    (set_my_apps x s, err);
  svc_SkipHost m h ttl e s :=
    let '(x, err) := between m (Backend_SkipHost (my_n s) (mw_at m) (my_err s) h ttl e) (my_hosts s, my_throttler s) in
    (set_my_hosts x s, err);
  svc_RecoverHost m h s :=
    let '(x, err) := between m (Backend_RecoverHost (my_n s) (my_err s) h) (my_hosts s, my_throttler s) in
    (set_my_hosts x s, err);
  svc_IsHealthy s := Backend_IsHealthy (my_backend s);
  svc_IsLeader s := Backend_IsLeader (my_forced s) (my_backend s);
  svc_GetLeader s := Backend_GetLeader (my_backend s) (my_election s);
  svc_GetStateDescription s := Backend_GetStateDescription (my_backend s);
  svc_GetSharedDomainServices s := GetSharedDomainServices (my_n s) (my_backend s) (my_election s);
  svc_GetStatus s := Backend_GetStatus (my_forced s) (my_n s) (my_backend s) (my_election s) (my_health s);
}.

#[export] Instance mysql_laws {DB} : ConsensusLaws DB (MySQLService DB).
Proof. split; intros; simpl in *; by simplify_eq. Qed.

(** ** The raft store *)

Record Store (DB : Type) := mkStore {
  st_raftBind : string;
  st_state : RaftState;
  st_leader : string;
  st_forced : bool;
  st_throttler : Throttler DB;
}.
Arguments mkStore {DB}.
Arguments st_raftBind {DB}.
Arguments st_state {DB}.
Arguments st_leader {DB}.
Arguments st_forced {DB}.
Arguments st_throttler {DB}.

Definition Store_IsHealthy {DB} (s : Store DB) : bool :=
  match st_state s with Leader | Follower => true | _ => false end.
Definition Store_IsLeader {DB} (s : Store DB) : bool :=
  if st_forced s then true else bool_decide (st_state s = Leader).

(** [Store.GetSharedDomainServices]: a raft group shares nothing. *)
Definition Store_GetSharedDomainServices {DB} (s : Store DB) : gmap string string := ∅.

Definition Store_GetStatus {DB} (s : Store DB) : ConsensusServiceStatus :=
  {| ss_ServiceID := st_raftBind s;
     ss_Healthy := Store_IsHealthy s;
     ss_IsLeader := Store_IsLeader s;
     ss_Leader := st_leader s;
     ss_State := RaftState_String (st_state s);
     ss_Domain := "";
     ss_ShareDomain := "";
     ss_ShareDomainServices := Store_GetSharedDomainServices s;
     ss_ShareDomainServicesList := [];
     ss_HealthyDomainServicesList := [] |}.

(** One tick of [Store.Monitor]: the exported leader, the gauges, and the line that is logged. *)
Definition Store_Monitor {DB} (s : Store DB) : string * list (string * Z) * string :=
  let isLeader := bool_decide (st_state s = Leader) in
  (st_leader s,
   [("raft.is_leader", if isLeader then 1 else 0);
    ("raft.is_healthy", if Store_IsHealthy s then 1 else 0)],
   "raft leader is " ++ (if isLeader then st_leader s ++ " (this host)" else st_leader s) ++
   "; state: " ++ RaftState_String (st_state s)).

Section Store.
Context {DB : Type}.
(** [raft.Apply] and its future: whether the local state machine applies the command before the future
    resolves, and the error the future resolves to. *)
Context (raft_Apply : meanwhile -> command -> bool * option error).

Definition set_st_throttler (t : Throttler DB) (s : Store DB) : Store DB :=
  mkStore (st_raftBind s) (st_state s) (st_leader s) (st_forced s) t.

Definition genericCommand (m : meanwhile) (c : command) (s : Store DB) : Store DB * option error :=
  if decide (st_state s = Leader) then
    match command_Marshal c with
    | inr e => (s, Some e)
    | inl c => let '(applied, err) := raft_Apply m c in
               let t := run_ops (mw_before m) (st_throttler s) in
               let t := if applied then (fsm_Apply (mw_at m) c t).1 else t in
               (set_st_throttler (run_ops (mw_after m) t) s, err)
    end
  else (s, Some (Errorf "not leader")).

#[export] Instance store_consensus : ConsensusService DB (Store DB) := {
  svc_throttler := st_throttler;
  svc_ThrottleApp m app ttl e r s := genericCommand m (throttle_command app e r) s;
  svc_UnthrottleApp m app s := genericCommand m (unthrottle_command app) s;
  svc_SkipHost m h ttl e s := genericCommand m (skip_command h e) s;
  svc_RecoverHost m h s := genericCommand m (recover_command h) s;
  svc_IsHealthy := Store_IsHealthy;
  svc_IsLeader := Store_IsLeader;
  svc_GetLeader := st_leader;
  svc_GetStateDescription s := RaftState_String (st_state s);
  svc_GetSharedDomainServices := Store_GetSharedDomainServices;
  svc_GetStatus := Store_GetStatus;
}.

(** The update a command stands for. *)
Definition command_call (c : command) : option api_call :=
  if decide (cmd_Operation c = "throttle") then
    Some (CallThrottleApp (cmd_Key c) (cmd_ExpireAt c) (cmd_Ratio c))
  else if decide (cmd_Operation c = "unthrottle") then Some (CallUnthrottleApp (cmd_Key c))
  else if decide (cmd_Operation c = "skip") then Some (CallSkipHost (cmd_Key c) (cmd_ExpireAt c))
  else if decide (cmd_Operation c = "recover") then Some (CallRecoverHost (cmd_Key c))
  else None.

Lemma fsm_Apply_call now c (t : Throttler DB) :
  (fsm_Apply now c t).1 =
  match command_call c with Some call => run_api now call t | None => t end.
Proof. unfold fsm_Apply, command_call. simpl. by repeat case_decide. Qed.

(** Raft resolves a proposal without error only when the local state machine has applied it. *)
Hypothesis raft_Apply_commits :
  forall m c applied, raft_Apply m c = (applied, None) -> applied = true.

Lemma genericCommand_performed m c call s s' :
  command_call c = Some call -> genericCommand m c s = (s', None) ->
  svc_throttler s' = run_among m call (svc_throttler s).
Proof.
  intros Hcall. unfold genericCommand, command_Marshal. case_decide; [|done].
  repeat (case_if; [done|]). destruct (raft_Apply m c) as [applied err] eqn:E. intros [= <- ->].
  rewrite (raft_Apply_commits _ _ _ E). simpl. by rewrite fsm_Apply_call, Hcall.
Qed.

#[export] Instance store_laws : ConsensusLaws DB (Store DB).
Proof.
  split; simpl; intros; (eapply genericCommand_performed; [|eassumption]); reflexivity.
Qed.
End Store.

(** [normalizeRaftNode]. *)
Definition normalizeRaftNode (DefaultRaftPort : Z) (node : string) : string :=
  if Contains node ":" then node
  else if DefaultRaftPort =? 0 then node
  else node ++ ":" ++ Itoa DefaultRaftPort.

(** The part of [SetupRaft] and [Store.Open] that decides on peers and single-node mode. *)
Definition peer_nodes (s : ConfigurationSettings) : list string :=
  normalizeRaftNode (cs_DefaultRaftPort s) <$> cs_RaftNodes s.

(** ** The provider (consensus.go) *)

(** A Go interface value of type [ConsensusService]: nil, or a type with a pointer that can itself be
    nil. *)
Inductive service_value :=
| NilInterface
| StoreValue
| MySQLValue (pointer : option MySQLBackend).

Definition is_nil (v : service_value) : bool :=
  match v with NilInterface => true | _ => false end.

Record ConsensusServiceProvider := mkProvider {
  mySQLConsensusService : service_value;
  raftConsensusService : service_value;
}.

(** [NewConsensusServiceProvider]: [raft_err] is the error of [SetupRaft], which returns a nil
    interface with it; [mysql_err] the error of [NewMySQLBackend], which returns a nil pointer that is
    assigned to the interface field. *)
Definition NewConsensusServiceProvider (s : ConfigurationSettings) (hostname : string)
    (raft_err mysql_err : option error) : option ConsensusServiceProvider * option error :=
  let raft := if decide (cs_RaftDataDir s = "") then NilInterface
              else match raft_err with None => StoreValue | Some _ => NilInterface end in
  let mysql := if decide (cs_BackendMySQLHost s = "") then NilInterface
               else match mysql_err with
                    | None => MySQLValue (Some (NewMySQLBackend s hostname))
                    | Some _ => MySQLValue None
                    end in
  if is_nil raft && is_nil mysql then
    (None, Some (Errorf "Could not create any consensus service"))
  else (Some (mkProvider mysql raft), None).

Definition GetConsensusService (p : ConsensusServiceProvider) : service_value :=
  if negb (is_nil (mySQLConsensusService p)) then mySQLConsensusService p
  else if negb (is_nil (raftConsensusService p)) then raftConsensusService p
  else NilInterface.

(** One tick of [ConsensusServiceProvider.Monitor]; without a service it does not tick. *)
Definition boolToInt64 (b : bool) : Z := if b then 1 else 0.

Definition Provider_Monitor {DB S} `{!ConsensusService DB S} (s : S) : list (string * Z) :=
  [("consensus.is_leader", boolToInt64 (svc_IsLeader s));
   ("consensus.is_healthy", boolToInt64 (svc_IsHealthy s))].

(** [IsLeader] called through the interface: a nil interface or a nil pointer is dereferenced. *)
Definition service_IsLeader (forced : bool) (raft_state : RaftState) (v : service_value) : outcome bool :=
  match v with
  | NilInterface => Panic "invalid memory address or nil pointer dereference"
  | StoreValue => Return (if forced then true else bool_decide (raft_state = Leader))
  | MySQLValue (Some b) => Return (Backend_IsLeader forced b)
  | MySQLValue None =>
      if forced then Return true else Panic "invalid memory address or nil pointer dereference"
  end.

(** [IsHealthy] likewise, and one tick of the [Monitor] of a service, which reads the state of the
    backend. *)
Definition service_IsHealthy (raft_state : RaftState) (v : service_value) : outcome bool :=
  match v with
  | NilInterface | MySQLValue None => Panic "invalid memory address or nil pointer dereference"
  | StoreValue => Return (match raft_state with Leader | Follower => true | _ => false end)
  | MySQLValue (Some b) => Return (Backend_IsHealthy b)
  end.

Definition service_Monitor (v : service_value) : outcome unit :=
  match v with
  | NilInterface => Return tt
  | MySQLValue None => Panic "invalid memory address or nil pointer dereference"
  | StoreValue | MySQLValue (Some _) => Return tt
  end.

(** The first ticks of what [ConsensusServiceProvider.Monitor] starts: the monitors of the services that
    are not nil, and its own; a panic in any of them ends the process. *)
Definition Monitor_tick (forced : bool) (raft_state : RaftState) (p : ConsensusServiceProvider) : outcome unit :=
  let! _ := service_Monitor (mySQLConsensusService p) in
  let! _ := service_Monitor (raftConsensusService p) in
  let s := GetConsensusService p in
  if is_nil s then Return tt
  else
    let! _ := service_IsLeader forced raft_state s in
    let! _ := service_IsHealthy raft_state s in
    Return tt.

(** ** Properties *)

(** A provider is created only with a service to give out, and then [GetConsensusService] is
    never a nil interface; MySQL is preferred over raft when both are configured. *)
Theorem provider_has_service s hostname raft_err mysql_err :
  match NewConsensusServiceProvider s hostname raft_err mysql_err with
  | (Some p, None) => is_nil (GetConsensusService p) = false /\
      (cs_BackendMySQLHost s <> "" -> exists ptr, GetConsensusService p = MySQLValue ptr)
  | (None, Some _) => (cs_RaftDataDir s = "" \/ raft_err <> None) /\ cs_BackendMySQLHost s = ""
  | _ => False
  end.
Proof.
  unfold NewConsensusServiceProvider, GetConsensusService.
  destruct (decide (cs_RaftDataDir s = "")), (decide (cs_BackendMySQLHost s = "")),
    raft_err, mysql_err; simpl; split; eauto; try (intros; congruence); by right.
Qed.

(** When the MySQL backend cannot be set up, the failure is not noticed: the provider is created
    without error and gives out an interface that holds a nil pointer, also when raft is configured
    and works; the first question for leadership then panics, and forcing the leadership does not help:
    the first tick of the monitor panics all the same. *)
Theorem failed_mysql_backend_panics s hostname raft_err e raft_state :
  cs_BackendMySQLHost s <> "" ->
  exists p, NewConsensusServiceProvider s hostname raft_err (Some e) = (Some p, None) /\
    service_IsLeader false raft_state (GetConsensusService p) =
      Panic "invalid memory address or nil pointer dereference" /\
    forall forced, Monitor_tick forced raft_state p = Panic "invalid memory address or nil pointer dereference".
Proof.
  intros H. unfold NewConsensusServiceProvider. rewrite (decide_False (P := cs_BackendMySQLHost s = "")) by done.
  simpl. rewrite andb_false_r. eexists. split_and!; reflexivity.
Qed.

Definition settings_ex : ConfigurationSettings :=
  mkConfigurationSettings 9777 "" "" "" "" "" "/var/lib/freno" 9888 [] "mysql" 3306 "" "" "" "" [] "" false
    (mkStoresSettings empty_mysql_settings).

Lemma failed_mysql_backend_panics_witness :
  exists p, NewConsensusServiceProvider settings_ex "h" None (Some (Errorf "no such host")) = (Some p, None) /\
    service_IsLeader false Leader (GetConsensusService p) =
      Panic "invalid memory address or nil pointer dereference" /\
    forall forced, Monitor_tick forced Leader p = Panic "invalid memory address or nil pointer dereference".
Proof. apply (failed_mysql_backend_panics settings_ex "h" None (Errorf "no such host") Leader). discriminate. Defined.

(** A raft node always has a port after normalization, if a default port is configured, and a
    node that has one is left alone; normalizing twice changes nothing. *)
Theorem normalizeRaftNode_idempotent port node :
  (port <> 0 -> Contains (normalizeRaftNode port node) ":" = true) /\
  (Contains node ":" = true -> normalizeRaftNode port node = node) /\
  normalizeRaftNode port (normalizeRaftNode port node) = normalizeRaftNode port node.
Proof.
  assert (Hc : Contains (node ++ ":" ++ Itoa port) ":" = true).
  { rewrite Contains_char, str_mem_app. simpl. by rewrite orb_true_r. }
  unfold normalizeRaftNode. destruct (Contains node ":") eqn:E; [by rewrite E|].
  destruct (Z.eqb_spec port 0); [by rewrite E|]. by rewrite Hc.
Qed.
