(* ===== verification/Metrics.v ===== *)
(** * Metrics: the registry of github.com/rcrowley/go-metrics as freno uses it

    The counters of [Check] (src/pkg/throttle/check.go), the gauges of [localCheck],
    [reportAggregated] and [pushStatusToExpVar] (src/pkg/throttle/throttler.go), and those of the
    monitors of the consensus services.  A metric is looked up by name and its kind is asserted: a
    name that is registered as another kind panics.  The theorems: the names the program makes, some
    of them from the app name of a request, never clash; and the gauges mirror the throttled apps. *)
From S2P Require Import Prelude GoStrings GoFloat GoCache Base Mysql Config Aggregate Throttler Refresh.
From S2P Require Import Operate Check MysqlBackend Consensus.

Open Scope string_scope.
Open Scope Z_scope.

Inductive metric :=
| Counter (count : Z)
| Gauge (value : Z)
| GaugeFloat64 (value : float64).

Abbreviation Registry := (gmap string metric).

Definition bad_kind : string := "interface conversion: not the asserted kind of metric".

(** [GetOrRegisterCounter(name, nil).Inc(n)]. *)
Definition counter_Inc (name : string) (n : Z) (r : Registry) : outcome Registry :=
  match r !! name with
  | None => Return (<[name := Counter (wrap64 n)]> r)
  | Some (Counter c) => Return (<[name := Counter (wrap64 (c + n))]> r)
  | Some _ => Panic bad_kind
  end.

(** [GetOrRegisterGauge(name, nil).Update(v)]. *)
Definition gauge_Update (name : string) (v : Z) (r : Registry) : outcome Registry :=
  match r !! name with
  | None | Some (Gauge _) => Return (<[name := Gauge v]> r)
  | Some _ => Panic bad_kind
  end.

(** [GetOrRegisterGaugeFloat64(name, nil).Update(v)]. *)
Definition gaugeFloat64_Update (name : string) (v : float64) (r : Registry) : outcome Registry :=
  match r !! name with
  | None | Some (GaugeFloat64 _) => Return (<[name := GaugeFloat64 v]> r)
  | Some _ => Panic bad_kind
  end.

(** [Get(name).(Gauge).Update(v)]: a name that is not registered panics too. *)
Definition registered_gauge_Update (name : string) (v : Z) (r : Registry) : outcome Registry :=
  match r !! name with
  | Some (Gauge _) => Return (<[name := Gauge v]> r)
  | _ => Panic bad_kind
  end.

(** A loop whose body may panic. *)
Fixpoint each {A S} (body : A -> S -> outcome S) (l : list A) (s : S) : outcome S :=
  match l with
  | [] => Return s
  | a :: l' => let! s := body a s in each body l' s
  end.

Definition throttled_states : string := "throttled_states.".

Section Reports.
Context {DB : Type}.

(** [pushStatusToExpVar]. *)
Definition pushStatusToExpVar (now : Time) (t : Throttler DB) (r : Registry) : outcome Registry :=
  let! r :=
    each (fun (p : string * metric) r =>
            if HasPrefix p.1 throttled_states then registered_gauge_Update p.1 0 r else Return r)
      (map_to_list r) r in
  each (fun (p : string * Item AppThrottle) r => gauge_Update (throttled_states ++ p.1) 1 r)
    (map_to_list (ThrottledAppsSnapshot now t)) r.

(** [reportAggregated]. *)
Definition reportAggregated (metricName : string) (metricResult : MetricResult) (r : Registry)
  : outcome Registry :=
  match splitMetricTokens metricName with
  | inr _ => Return r
  | inl (storeType, storeName) =>
      match MetricResult_Get metricResult with
      | (value, None) => gaugeFloat64_Update ("aggregated." ++ storeType ++ "." ++ storeName) value r
      | (_, Some _) => Return r
      end
  end.

(** The gauge of [localCheck], for a metric whose name splits. *)
Definition report_health (now : Time) (storeType storeName metricName : string) (t : Throttler DB)
    (r : Registry) : outcome Registry :=
  match timeSinceMetricHealthy now metricName t with
  | (timeSinceHealthy, true) =>
      gauge_Update ("check." ++ storeType ++ "." ++ storeName ++ ".seconds_since_healthy")
        (f_to_int64 (Duration_Seconds timeSinceHealthy)) r
  | (_, false) => Return r
  end.

(** The goroutine [Check] starts, as far as its counters go. *)
Definition count_check (statusCode : Z) (appName storeType storeName : string) (r : Registry)
  : outcome Registry :=
  each (fun name r => counter_Inc name 1 r) (check_counters statusCode appName storeType storeName) r.

(** What updates the registry.  The gauges of the monitors are those of [Provider_Monitor],
    [Store_Monitor] and [Backend_Monitor]. *)
Inductive report :=
| ReportCheck (statusCode : Z) (appName storeType storeName : string)
| ReportStatus (now : Time) (t : Throttler DB)
| ReportAggregated (metricName : string) (metricResult : MetricResult)
| ReportHealth (now : Time) (storeType storeName metricName : string) (t : Throttler DB)
| ReportStore (s : Store DB)
| ReportBackend (b : MySQLBackend)
| ReportProvider (S : Type) (svc : ConsensusService DB S) (s : S).

Definition monitor_gauges (l : list (string * Z)) (r : Registry) : outcome Registry :=
  each (fun (p : string * Z) r => gauge_Update p.1 p.2 r) l r.

Definition run_report (e : report) (r : Registry) : outcome Registry :=
  match e with
  | ReportCheck statusCode appName storeType storeName =>
      count_check statusCode appName storeType storeName r
  | ReportStatus now t => pushStatusToExpVar now t r
  | ReportAggregated metricName metricResult => reportAggregated metricName metricResult r
  | ReportHealth now storeType storeName metricName t =>
      report_health now storeType storeName metricName t r
  | ReportStore s => monitor_gauges (Store_Monitor s).1.2 r
  | ReportBackend b => monitor_gauges (Backend_Monitor b) r
  | ReportProvider _ _ s => monitor_gauges (Provider_Monitor s) r
  end.
End Reports.
Arguments report : clear implicits.

(** ** The kinds of names *)

Inductive kind := KCounter | KGauge | KGaugeFloat64.

Definition kind_of (m : metric) : kind :=
  match m with
  | Counter _ => KCounter
  | Gauge _ => KGauge
  | GaugeFloat64 _ => KGaugeFloat64
  end.

(** The last byte of a string, or the given one. *)
Fixpoint str_last (d : ascii) (s : string) : ascii :=
  match s with
  | "" => d
  | String c s' => str_last c s'
  end.

(** What the names tell: aggregates start with aggregated, and of the names that start with check
    only that of the health gauge ends with the letter y. *)
Definition name_kind (name : string) : kind :=
  if HasPrefix name "aggregated." then KGaugeFloat64
  else if HasPrefix name "check." then
    if decide (str_last "y"%char name = "y"%char) then KGauge else KCounter
  else KGauge.

Definition typed (r : Registry) : Prop := forall name m, r !! name = Some m -> kind_of m = name_kind name.

Lemma str_last_app d s c t : str_last d (s ++ String c t) = str_last c t.
Proof. revert d. induction s as [|x s IH]; intros d; [done|]. apply IH. Qed.

Lemma typed_insert r name m : typed r -> kind_of m = name_kind name -> typed (<[name := m]> r).
Proof. intros Ht Hm n m'. rewrite lookup_insert_Some. naive_solver. Qed.

(** An update of the kind that belongs to the name neither panics nor spoils the registry. *)
Lemma counter_Inc_ok name n r :
  typed r -> name_kind name = KCounter -> exists r', counter_Inc name n r = Return r' /\ typed r'.
Proof.
  intros Ht Hk. unfold counter_Inc. destruct (r !! name) as [[c|c|c]|] eqn:E;
    [|by specialize (Ht _ _ E); simpl in Ht; congruence..|];
    eexists; (split; [done|]); by apply typed_insert.
Qed.

Lemma gauge_Update_ok name v r :
  typed r -> name_kind name = KGauge -> gauge_Update name v r = Return (<[name := Gauge v]> r) /\
    typed (<[name := Gauge v]> r).
Proof.
  intros Ht Hk. unfold gauge_Update.
  split; [|by apply typed_insert]. destruct (r !! name) as [m|] eqn:E; [|done].
  specialize (Ht _ _ E). destruct m; simpl in Ht; congruence.
Qed.

Lemma gaugeFloat64_Update_ok name v r :
  typed r -> name_kind name = KGaugeFloat64 ->
  exists r', gaugeFloat64_Update name v r = Return r' /\ typed r'.
Proof.
  intros Ht Hk. unfold gaugeFloat64_Update. destruct (r !! name) as [[c|c|c]|] eqn:E;
    [by specialize (Ht _ _ E); simpl in Ht; congruence..| |];
    eexists; (split; [done|]); by apply typed_insert.
Qed.

(** A loop keeps an invariant its body keeps. *)
Lemma each_ok {A S} (P : S -> Prop) (body : A -> S -> outcome S) l s :
  P s -> (forall a s, a ∈ l -> P s -> exists s', body a s = Return s' /\ P s') ->
  exists s', each body l s = Return s' /\ P s'.
Proof.
  revert s. induction l as [|a l IH]; intros s Hs Hb; simpl; [eauto|].
  destruct (Hb a s ltac:(left) Hs) as (s1 & -> & H1). simpl. apply IH; [done|].
  intros. apply Hb; [by right|done].
Qed.

(** A loop whose body never panics is a fold. *)
Lemma each_fold {A S} (P : S -> Prop) (body : A -> S -> outcome S) (f : A -> S -> S) l s :
  P s -> (forall a s, a ∈ l -> P s -> body a s = Return (f a s) /\ P (f a s)) ->
  each body l s = Return (foldl (fun s a => f a s) s l) /\ P (foldl (fun s a => f a s) s l).
Proof.
  revert s. induction l as [|a l IH]; intros s Hs Hb; simpl; [done|].
  destruct (Hb a s ltac:(left) Hs) as (-> & H1). simpl. apply IH; [done|].
  intros. apply Hb; [by right|done].
Qed.

Lemma throttled_kind app : name_kind (throttled_states ++ app) = KGauge.
Proof. done. Qed.

Lemma prefixed_kind name : HasPrefix name throttled_states = true -> name_kind name = KGauge.
Proof. intros ->%HasPrefix_app. apply throttled_kind. Qed.

Section Theorems.
Context {DB : Type}.
Implicit Types (t : Throttler DB) (r : Registry).

(** The first loop of [pushStatusToExpVar] as a map. *)
Definition reset_states (r : Registry) : Registry :=
  map_imap (fun name m => Some (if HasPrefix name throttled_states then Gauge 0 else m)) r.

Lemma lookup_reset_states r name :
  reset_states r !! name = (fun m => if HasPrefix name throttled_states then Gauge 0 else m) <$> r !! name.
Proof. unfold reset_states. rewrite map_lookup_imap. by destruct (r !! name). Qed.

Lemma reset_states_typed r : typed r -> typed (reset_states r).
Proof.
  intros Ht name m. rewrite lookup_reset_states, fmap_Some. intros (m' & E & ->).
  destruct (HasPrefix name throttled_states) eqn:Hp; [by rewrite (prefixed_kind _ Hp)|eauto].
Qed.

(** The first loop on any part [l] of the registry. *)
Lemma reset_loop r l :
  typed r -> (forall p, p ∈ l -> is_Some (r !! p.1)) ->
  each (fun (p : string * metric) r =>
          if HasPrefix p.1 throttled_states then registered_gauge_Update p.1 0 r else Return r) l r =
  Return (foldl (fun r (p : string * metric) =>
                   if HasPrefix p.1 throttled_states then <[p.1 := Gauge 0]> r else r) r l).
Proof.
  intros Ht Hl.
  refine (proj1 (each_fold (fun r' => typed r' /\ forall p, p ∈ l -> is_Some (r' !! p.1)) _
            (fun (p : string * metric) r => if HasPrefix p.1 throttled_states then <[p.1 := Gauge 0]> r else r)
            l r (conj Ht Hl) _)).
  intros [name m] r' Hin [Ht' Hl']. cbn [fst]. destruct (HasPrefix name throttled_states) eqn:Hp; [|done].
  pose proof (prefixed_kind _ Hp) as Hk. destruct (Hl' _ Hin) as [m' E]. simpl in E.
  unfold registered_gauge_Update. rewrite E. pose proof (Ht' _ _ E) as Hm.
  destruct m' as [c|c|c]; simpl in Hm; try congruence. split; [done|].
  split; [by apply typed_insert|]. intros p Hp'. rewrite lookup_insert_is_Some'. by right; apply Hl'.
Qed.

Lemma reset_fold_lookup l r name :
  foldl (fun r (p : string * metric) =>
           if HasPrefix p.1 throttled_states then <[p.1 := Gauge 0]> r else r) r l !! name =
  if decide (name ∈ l.*1 /\ HasPrefix name throttled_states = true) then Some (Gauge 0) else r !! name.
Proof.
  revert r. induction l as [|[n m] l IH]; intros r; cbn [foldl]; rewrite ?fmap_nil, ?fmap_cons; cbn [fst].
  { rewrite decide_False; [done|]. intros [H _]. by apply elem_of_nil in H. }
  rewrite IH. destruct (decide (n = name)) as [->|Hne].
  - destruct (HasPrefix name throttled_states) eqn:Hp.
    + rewrite lookup_insert_eq. repeat case_decide; try done; set_solver.
    + repeat case_decide; try done; naive_solver.
  - assert (Hl : (if HasPrefix n throttled_states then <[n := Gauge 0]> r else r) !! name = r !! name).
    { destruct (HasPrefix n throttled_states); [by rewrite lookup_insert_ne|done]. }
    rewrite Hl. repeat case_decide; try done; set_solver.
Qed.

Lemma reset_ok r :
  typed r ->
  each (fun (p : string * metric) r =>
          if HasPrefix p.1 throttled_states then registered_gauge_Update p.1 0 r else Return r)
    (map_to_list r) r = Return (reset_states r).
Proof.
  intros Ht. rewrite reset_loop; [|done|].
  2:{ intros [n m] Hin%elem_of_map_to_list. simpl. by rewrite Hin. }
  f_equal. apply map_eq. intros name. rewrite reset_fold_lookup, lookup_reset_states.
  destruct (r !! name) as [m|] eqn:E; cbn [fmap option_fmap option_map].
  - destruct (HasPrefix name throttled_states) eqn:Hp.
    + rewrite decide_True; [done|]. split; [|done]. apply list_elem_of_fmap.
      exists (name, m). split; [done|]. by apply elem_of_map_to_list.
    + rewrite decide_False; [reflexivity|]. by intros [_ ?].
  - rewrite decide_False; [done|]. intros [Hin _]. apply list_elem_of_fmap in Hin as ([n m] & -> & Hin).
    apply elem_of_map_to_list in Hin. simpl in E. congruence.
Qed.

(** The second loop. *)
Lemma set_fold_lookup (l : list (string * Item AppThrottle)) r name :
  foldl (fun r (p : string * Item AppThrottle) => <[throttled_states ++ p.1 := Gauge 1]> r) r l !! name =
  if decide (name ∈ (fun p => throttled_states ++ p.1) <$> l) then Some (Gauge 1) else r !! name.
Proof.
  revert r. induction l as [|[n m] l IH]; intros r; cbn [foldl]; rewrite ?fmap_nil, ?fmap_cons; cbn [fst].
  { rewrite decide_False; [done|]. apply not_elem_of_nil. }
  rewrite IH. destruct (decide (throttled_states ++ n = name)) as [<-|Hne].
  - rewrite lookup_insert_eq. repeat case_decide; try done; set_solver.
  - rewrite lookup_insert_ne by done. repeat case_decide; try done; set_solver.
Qed.

Lemma push_eq now t r :
  typed r ->
  pushStatusToExpVar now t r =
    Return (foldl (fun r (p : string * Item AppThrottle) => <[throttled_states ++ p.1 := Gauge 1]> r)
              (reset_states r) (map_to_list (ThrottledAppsSnapshot now t))) /\
  typed (foldl (fun r (p : string * Item AppThrottle) => <[throttled_states ++ p.1 := Gauge 1]> r)
              (reset_states r) (map_to_list (ThrottledAppsSnapshot now t))).
Proof.
  intros Ht. unfold pushStatusToExpVar. rewrite reset_ok by done. simpl.
  apply (each_fold typed); [by apply reset_states_typed|].
  intros [n i] r' _ Ht'. apply gauge_Update_ok; [done|apply throttled_kind].
Qed.

Lemma append_inj_l (p a b : string) : p ++ a = p ++ b -> a = b.
Proof. induction p as [|c p IH]; simpl; [done|]. intros [=]. auto. Qed.

(** In a registry whose metrics have the kinds their names tell, which is every registry the
    program can have, [pushStatusToExpVar] returns, the gauge of an app is then 1 when the app is
    throttled and 0 when it was throttled at an earlier push and is not any more, an app that never
    was throttled has no gauge, and no other metric changes. *)
Theorem push_mirrors_throttles now t r :
  typed r ->
  exists r', pushStatusToExpVar now t r = Return r' /\
    (forall app, r' !! (throttled_states ++ app) =
       match ThrottledAppsSnapshot now t !! app with
       | Some _ => Some (Gauge 1)
       | None => (fun _ => Gauge 0) <$> r !! (throttled_states ++ app)
       end) /\
    (forall name, HasPrefix name throttled_states = false -> r' !! name = r !! name).
Proof.
  intros Ht. destruct (push_eq now t r Ht) as [E _]. eexists. split; [exact E|]. split.
  - intros app. rewrite set_fold_lookup, lookup_reset_states, HasPrefix_self.
    destruct (ThrottledAppsSnapshot now t !! app) as [i|] eqn:Ea; simpl.
    + rewrite decide_True; [done|]. apply list_elem_of_fmap. exists (app, i).
      split; [done|]. by apply elem_of_map_to_list.
    + rewrite decide_False; [done|]. intros ([a i] & Hn & Hin)%list_elem_of_fmap.
      apply append_inj_l in Hn. simpl in Hn. subst. apply elem_of_map_to_list in Hin. congruence.
  - intros name Hp. rewrite set_fold_lookup, lookup_reset_states, Hp.
    rewrite decide_False; [by rewrite option_fmap_id|].
    intros ([a i] & -> & _)%list_elem_of_fmap. by rewrite HasPrefix_self in Hp.
Qed.

Lemma counter_kind s c x : str_last c x <> "y"%char -> name_kind ("check." ++ s ++ String c x) = KCounter.
Proof.
  intros Hx. unfold name_kind. change (HasPrefix ("check." ++ s ++ String c x) "aggregated.") with false.
  cbv iota. by rewrite HasPrefix_self, <- str_app_assoc, str_last_app, decide_False.
Qed.

Lemma health_kind s : name_kind ("check." ++ s ++ ".seconds_since_healthy") = KGauge.
Proof.
  unfold name_kind. change (HasPrefix ("check." ++ s ++ ".seconds_since_healthy") "aggregated.") with false.
  cbv iota. by rewrite HasPrefix_self, <- str_app_assoc, str_last_app.
Qed.

Lemma check_counters_kind code app ty name n :
  n ∈ check_counters code app ty name -> name_kind n = KCounter.
Proof.
  assert (H4 : forall c x, str_last c x <> "y"%char ->
    Forall (fun n => name_kind n = KCounter)
      ["check.any." ++ String c x; "check." ++ app ++ "." ++ String c x;
       "check.any." ++ ty ++ "." ++ name ++ "." ++ String c x;
       "check." ++ app ++ "." ++ ty ++ "." ++ name ++ "." ++ String c x]).
  { intros c x Hx. repeat (constructor; [|]); try constructor.
    - exact (counter_kind "any." c x Hx).
    - rewrite <- (str_app_assoc app). by apply counter_kind.
    - change ("check.any." ++ ?z) with ("check." ++ "any." ++ z).
      replace ("any." ++ ty ++ "." ++ name ++ "." ++ String c x)
        with (("any." ++ ty ++ "." ++ name ++ ".") ++ String c x) by (by rewrite !str_app_assoc).
      by apply counter_kind.
    - replace (app ++ "." ++ ty ++ "." ++ name ++ "." ++ String c x)
        with ((app ++ "." ++ ty ++ "." ++ name ++ ".") ++ String c x) by (by rewrite !str_app_assoc).
      by apply counter_kind. }
  revert n. apply Forall_forall. unfold check_counters.
  repeat (apply Forall_app; split); [by apply H4|].
  destruct (negb (code =? StatusOK)); [|constructor].
  apply Forall_app; split; [by apply H4|].
  destruct (code =? StatusInternalServerError); [by apply H4|constructor].
Qed.

Lemma monitor_gauges_ok l r :
  typed r -> Forall (fun p : string * Z => name_kind p.1 = KGauge) l ->
  exists r', monitor_gauges l r = Return r' /\ typed r'.
Proof.
  intros Ht Hl. apply each_ok; [done|]. intros p r' Hin Ht'.
  destruct (gauge_Update_ok p.1 p.2 r' Ht') as [E H]; [|by eauto].
  by apply (proj1 (Forall_forall _ _) Hl).
Qed.

Lemma run_report_ok (e : report DB) r : typed r -> exists r', run_report e r = Return r' /\ typed r'.
Proof.
  intros Ht. destruct e; cbn [run_report]; try (apply monitor_gauges_ok; [done|by repeat constructor]).
  - apply each_ok; [done|]. intros n r' Hin Ht'.
    apply counter_Inc_ok; [done|by eapply check_counters_kind].
  - destruct (push_eq now t r Ht). eauto.
  - unfold reportAggregated. destruct (splitMetricTokens metricName) as [[ty st]|]; [|by eauto].
    destruct (MetricResult_Get metricResult) as [v [e|]]; [by eauto|].
    by apply gaugeFloat64_Update_ok.
  - unfold report_health. destruct (timeSinceMetricHealthy now metricName t) as [d []]; [|by eauto].
    destruct (gauge_Update_ok ("check." ++ storeType ++ "." ++ storeName ++ ".seconds_since_healthy")
      (f_to_int64 (Duration_Seconds d)) r Ht) as [E H]; [|by eauto].
    replace (storeType ++ "." ++ storeName ++ ".seconds_since_healthy")
      with ((storeType ++ "." ++ storeName) ++ ".seconds_since_healthy") by (by rewrite !str_app_assoc).
    apply health_kind.
Qed.

(** C28: whatever the checks, with any app and store names, the pushes, the self checks and the
    monitors report, and in whatever order, no assertion on the kind of a metric panics: names made
    for different kinds of metrics never clash. *)
Theorem metric_names_never_clash (l : list (report DB)) :
  exists r, each run_report l ∅ = Return r /\ typed r.
Proof.
  apply each_ok; [by intros n m; rewrite lookup_empty|]. intros e r _. apply run_report_ok.
Qed.
End Theorems.

(** ** Examples *)

Lemma push_mirrors_throttles_witness :
  exists r, pushStatusToExpVar (DB := unit) Second
              (ThrottleApp Second "batch" zero_time f_one (throttler start_ex))
              {[throttled_states ++ "web" := Gauge 1]} = Return r /\
    r !! "throttled_states.batch" = Some (Gauge 1) /\ r !! "throttled_states.web" = Some (Gauge 0).
Proof.
  edestruct (push_mirrors_throttles Second (ThrottleApp Second "batch" zero_time f_one (throttler start_ex))
               {[throttled_states ++ "web" := Gauge 1]}) as (r & E & Ha & _).
  - intros n m. rewrite lookup_singleton_Some. by intros [<- <-].
  - exists r. split; [exact E|]. split.
    + etransitivity; [exact (Ha "batch")|]. vm_compute. reflexivity.
    + etransitivity; [exact (Ha "web")|]. vm_compute. reflexivity.
Defined.
