(* ===== verification/GroupStore.v ===== *)
(** * The raft store of freno on the raft node (pkg/group/store.go, raft.go, fsm.go; cmd's start of it)

    Here the pieces meet: the throttler is the state machine of the raft node, commands travel as JSON in
    log entries, snapshots go to the store on disk, and [genericCommand] waits for the future of its
    command.  Everything else that happens in the node while a command waits (other requests, RPCs,
    elections, acknowledgements, restored snapshots) is a list of items of RaftAnswers.v. *)
From S2P Require Import Prelude GoStrings GoFloat GoCache Base Mysql Config Throttler Operate Fsm.
From S2P Require Import MysqlBackend RaftBase Inflight BoltStore GoCrc64 FileSnapshot.
From S2P Require Import Raft RaftElection RaftReplication RaftStream RaftLeader RaftFsm RaftAnswers.
From S2P Require Import NetTransport Consensus.

Open Scope string_scope.
Open Scope Z_scope.
Local Open Scope go_scope.

Definition raftTimeout : Duration := 10 * Second.
Definition retainSnapshotCount : Z := 2.
Definition RaftDBFile : string := "freno-raft.db".

(** ** JSON *)

(** encoding/json on commands and on the object of a snapshot; a command that does not decode to its end
    is filled in part. *)
Class GroupJson := {
  cmd_encode : command -> string;
  cmd_decode : string -> command * option error;
  obj_encode : list (string * field_value) -> string;
  obj_decode : string -> list (string * field_value) + error;
}.

(** Strings of ASCII characters are written and read as they are; [omitempty] drops the sign of a
    negative zero. *)
Fixpoint ascii_only (s : string) : bool :=
  match s with "" => true | String c s => (N_of_ascii c <? 128)%N && ascii_only s end.
Definition json_exact (c : command) : Prop :=
  command_Marshal c = inl c /\
  ascii_only (cmd_Operation c ++ cmd_Key c ++ cmd_Value c) = true /\ cmd_Ratio c <> S754_zero true.

Class GroupJsonLaws `{GroupJson} := {
  cmd_roundtrip c : json_exact c -> cmd_decode (cmd_encode c) = (c, None);
  obj_roundtrip : obj_decode (obj_encode []) = inl [];
}.

(** ** The throttler as a state machine *)

Section Fsm.
Context {DB : Type} `{GroupJson}.

Definition decoded (data : string) : command := (cmd_decode data).1.

#[export] Instance freno_fsm : FSM (Throttler DB) := {|
  app_Apply now l t := (fsm_Apply now (decoded (log_Data l)) t).1;
  app_Snapshot now t := (inl (inl (obj_encode (Fsm.json_Marshal (fsm_Snapshot now t)))), t);
  app_Restore now b t :=
    match obj_decode b with
    | inl o => (None, fsm_Restore now o t)
    | inr e => (Some e, t)
    end;
|}.

(** What an operation on the state machine does to the throttler. *)
Definition restore_calls (now : Time) (o : list (string * field_value)) : list (Time * api_call) :=
  let data := Fsm.json_Decode o newSnapshotData in
  (((fun p => (now, CallThrottleApp p.1 (ExpireAt p.2) (Ratio p.2))) <$> map_to_list (sd_throttledApps data)) ++
   ((fun p => (now, CallSkipHost p.1 p.2)) <$> map_to_list (sd_skippedHosts data)))%list.

Definition op_calls (o : fsm_op) : list (Time * api_call) :=
  match o with
  | Applied now l => option_list ((fun call => (now, call)) <$> command_call (decoded (log_Data l)))
  | Restored now b => match obj_decode b with inl o => restore_calls now o | inr _ => [] end
  end.

Lemma run_ops_fmap {A} (f : A -> Time * api_call) (g : Throttler DB -> A -> Throttler DB) l : forall t,
  (forall t x, run_api (f x).1 (f x).2 t = g t x) -> run_ops (f <$> l) t = foldl g t l.
Proof.
  intros t Hfg. unfold run_ops. revert t. induction l as [|x l IH]; intros t; [done|]. simpl. by rewrite Hfg.
Qed.

Lemma do_op_calls (t : Throttler DB) o : do_op t o = run_ops (op_calls o) t.
Proof.
  destruct o as [now l|now b]; cbn [do_op op_calls app_Apply app_Restore freno_fsm].
  - rewrite fsm_Apply_call. by destruct (command_call _).
  - destruct (obj_decode b) as [o|e]; [|done]. unfold fsm_Restore, restore_calls. rewrite run_ops_app. cbn [snd].
    rewrite (run_ops_fmap _ (fun t p => ThrottleApp now p.1 (ExpireAt p.2) (Ratio p.2) t)) by done.
    by rewrite (run_ops_fmap _ (fun t p => SkipHost now p.1 p.2 t)).
Qed.

Lemma do_ops_calls ops : forall t : Throttler DB, foldl do_op t ops = run_ops (ops ≫= op_calls) t.
Proof.
  induction ops as [|o ops IH]; intros t; [done|]. cbn [foldl]. rewrite IH, do_op_calls.
  change ((o :: ops) ≫= op_calls) with (op_calls o ++ (ops ≫= op_calls))%list. by rewrite run_ops_app.
Qed.
End Fsm.

(** ** The store *)

Section Store.
Context {DB : Type} `{GroupJson}.
Context {S Sink : Type} {HS : SnapshotStore S Sink}.
Context {L K : Type} {HL : LogStore L} {HK : StableStore K}.
Context (env : raftEnv).

(** [Store]: where it is, and its raft; the throttler is the state of the state machine. *)
Record RaftStore := mkRaftStore {
  sto_raftDir : string;
  sto_raftBind : string;
  sto_node : node (S := S) (F := Throttler DB) (L := L) (K := K);
}.

Definition sto_throttler (s : RaftStore) : Throttler DB := fl_fsm (n_fsm (sto_node s)).
Definition sto_raft (s : RaftStore) : Raft L K := n_raft (sto_node s).
Definition set_node (n : node (S := S) (F := Throttler DB) (L := L) (K := K)) (s : RaftStore) : RaftStore :=
  mkRaftStore (sto_raftDir s) (sto_raftBind s) n.

(** The store as the consensus interface sees it at a moment. *)
Definition store_view (forced : bool) (s : RaftStore) : Store DB :=
  mkStore (sto_raftBind s) (getState (sto_raft s)) (r_leader (sto_raft s)) forced (sto_throttler s).

(** What happens around a command that is proposed: the items between the check of the state and the
    call of [Apply], the case [Apply] takes, the number of the future, and the items while the caller
    waits. *)
Record proposal := mkProposal {
  pp_before : list node_item;
  pp_select : select_case;
  pp_id : nat;
  pp_after : list node_item;
}.

(** [genericCommand]: the answer of the future, [None] while the caller waits; the operations on the
    state machine in the meantime. *)
Definition store_genericCommand (p : proposal) (c : command) (s : RaftStore)
    : outcome (option (option error) * list fsm_op * RaftStore) :=
  if decide (getState (sto_raft s) = Leader) then
    match command_Marshal c with
    | inr e => Return (Some (Some e), [], s)
    | inl c =>
        let! (ops, n) := run_node env (pp_before p) (sto_node s) in
        match Apply (cmd_encode c) raftTimeout (pp_select p) (pp_id p) (n_raft n) with
        | None => Return (None, ops, set_node n s)
        | Some (ErrorFuture e, _) => Return (Some (Some e), ops, set_node n s)
        | Some (Deferred id, _) =>
            let! (ops', n) := run_node env (pp_after p) n in
            Return (Future_Error id (n_raft n), (ops ++ ops')%list, set_node n s)
        end
    end
  else Return (Some (Some (Errorf "not leader")), [], s).

Definition store_ThrottleApp p (app : string) (expireAt : Time) (ratio : float64) s :=
  store_genericCommand p (throttle_command app expireAt ratio) s.
Definition store_UnthrottleApp p (app : string) s := store_genericCommand p (unthrottle_command app) s.
Definition store_SkipHost p (host : string) (expireAt : Time) s := store_genericCommand p (skip_command host expireAt) s.
Definition store_RecoverHost p (host : string) s := store_genericCommand p (recover_command host) s.

(** [Join]: the same, for a membership change. *)
Definition store_Join (p : proposal) (addr : string) (s : RaftStore)
    : outcome (option (option error) * list fsm_op * RaftStore) :=
  match AddPeer addr (pp_select p) (pp_id p) (sto_raft s) with
  | None => Return (None, [], s)
  | Some (ErrorFuture e, _) => Return (Some (Some e), [], s)
  | Some (Deferred id, _) =>
      let! (ops, n) := run_node env (pp_after p) (sto_node s) in
      Return (Future_Error id (n_raft n), ops, set_node n s)
  end.

(** The number of the future is new, and nothing but the command goes by it. *)
Definition proposes (p : proposal) (c : command) (s : RaftStore) : Prop :=
  ~ answered (pp_id p) (sto_raft s) /\ ~ waiting (pp_id p) (sto_raft s) /\
  Forall (item_fits (pp_id p) (cmd_encode c)) (pp_before p) /\
  Forall (item_fits (pp_id p) (cmd_encode c)) (pp_after p).

Lemma run_node_app its its' (n n1 n2 : node (S := S) (F := Throttler DB) (L := L) (K := K)) ops ops' :
  run_node env its n = Return (ops, n1) -> run_node env its' n1 = Return (ops', n2) ->
  run_node env (its ++ its')%list n = Return ((ops ++ ops')%list, n2).
Proof.
  revert n ops. induction its as [|it its IH]; intros n ops; cbn [run_node app].
  { intros [= <- <-]. done. }
  destruct (node_step env it n) as [[o n']|] eqn:E; [|done]. cbn [outcome_bind].
  destruct (run_node env its n') as [[o' n'']|] eqn:E'; [|done]. cbn [outcome_bind]. intros [= <- <-] E2.
  rewrite (IH _ _ E' E2). cbn [outcome_bind]. by rewrite app_assoc.
Qed.

(** A command that is answered with success has been applied to the local throttler. *)
Lemma genericCommand_applied p c s ops s' :
  command_Marshal c = inl c -> proposes p c s ->
  store_genericCommand p c s = Return (Some None, ops, s') ->
  sto_throttler s' = foldl do_op (sto_throttler s) ops /\
  exists at_ l, Applied at_ l ∈ ops /\ log_Data l = cmd_encode c.
Proof.
  intros Hm (Ha & Hw & Hb & Hf). unfold store_genericCommand. case_decide; [|done]. rewrite Hm.
  destruct (run_node env (pp_before p) (sto_node s)) as [[o1 n1]|] eqn:E1; [|done]. cbn [outcome_bind]. unfold Apply, call_select.
  destruct (pp_select p); cbn [Z.gtb raftTimeout]; [done|by destruct (r_shutdown _)|].
  destruct (run_node env (pp_after p) n1) as [[o2 n2]|] eqn:E2; [|done]. cbn [outcome_bind]. intros [= Hans <- <-].
  pose proof (run_node_app _ _ _ _ _ _ _ E1 E2) as Hrun.
  destruct (success_applied env (pp_id p) (cmd_encode c) _ _ _ _ Ha Hw (Forall_app_2 _ _ _ Hb Hf) Hrun Hans)
    as [(now & l & Hin & Ht & Hd) Hfsm].
  split; [exact Hfsm|]. by exists now, l.
Qed.

(** The update a command stands for is in force after it, when nothing after it is about the same. *)
Lemma applied_in_force `{!GroupJsonLaws} c call before at_ l after (t : Throttler DB) :
  command_call c = Some call -> json_exact c -> log_Data l = cmd_encode c -> throttler_ok t ->
  Forall (fun p => target p.2 <> target call) (after ≫= op_calls) ->
  in_force at_ call (foldl do_op t (before ++ Applied at_ l :: after)%list).
Proof.
  intros Hcall Hx Hd Ho Hf. rewrite do_ops_calls, bind_app, run_ops_app. cbn [mbind list_bind].
  rewrite run_ops_app. cbn [op_calls]. unfold decoded. rewrite Hd, cmd_roundtrip by done. cbn [fst]. rewrite Hcall.
  apply run_ops_in_force; [|done]. by apply ok_run_ops.
Qed.
End Store.

(** The answers of a node's raft, as the interface of Consensus.v has them. *)
Definition ops_commands `{GroupJson} (ops : list fsm_op) : list command :=
  omap (fun o => match o with
                 | Applied _ l => Some (decoded (log_Data l))
                 | Restored _ _ => None
                 end) ops.

(** ** Opening the store *)

Section Open.
Context {DB : Type} `{GroupJson} `{MetaCodec} `{Bucket B} `{LogCodec}.
Context (env : raftEnv).

(** What the operating system and BoltDB answer: the resolved address, the bound address, the snapshot
    directory, the database file and its calls. *)
Record open_io := mkOpenIO {
  oi_resolve : netAddr + error;
  oi_listen : netAddr + error;
  oi_dir : FS;
  oi_bolt_open : option error;
  oi_bolt_create : option error * option error;
  oi_bolt_file : bolt_file (B := B);
}.

Abbreviation store := (RaftStore (DB := DB) (S := FS) (L := BoltStore B) (K := BoltStore B)).

(** [NewRaft] on the store of snapshots: the last step is [restoreSnapshot], then the goroutines are
    started. *)
Definition start_raft (now : Time) (retain : Z) (conf : RaftConfig) (b : BoltStore B) (peerStore : StaticPeers)
    (localAddr : string) (t : Throttler DB) (d : FS)
    : outcome (node (S := FS) (F := Throttler DB) (L := BoltStore B) (K := BoltStore B) + error) :=
  let! r := NewRaft conf b b peerStore localAddr (inl []) in
  match r with
  | inr e => Return (inr e)
  | inl r =>
      let '(err, t, r, d) := restoreSnapshot_from (HS := file_store retain) now t r d in
      match err with
      | Some e => Return (inr e)
      | None => let! (l, r) := enter_loop env now r in Return (inl (mkNode l r (mkFsmLoop 0 0 t) d))
      end
  end.

Definition Store_Open (now : Time) (empty : B) (x : open_io) (raftDir raftBind : string) (peerNodes : list string)
    (t : Throttler DB) : outcome (store + error) :=
  match oi_resolve x with
  | inr e => Return (inr e)
  | inl addr =>
      match newTCPTransport (oi_listen x) (Some addr) 3 (10 * Second) with
      | inr e => Return (inr e)
      | inl (stream, _) =>
          let peerStore := StaticPeers_SetPeers (Open_peers peerNodes) (mkStaticPeers []) in
          let '(snapshots, d) := NewFileSnapshotStore retainSnapshotCount (oi_dir x) in
          match snapshots with
          | inr e => Return (inr (Errorf ("file snapshot store: " ++ error_msg e)))
          | inl retain =>
              let '(logStore, _) := NewBoltStore empty (oi_bolt_open x) (oi_bolt_create x) (oi_bolt_file x) in
              match logStore with
              | inr e => Return (inr (Errorf ("error creating new bolt store: " ++ error_msg e)))
              | inl b =>
                  let! n := start_raft now retain (Open_config peerNodes) b peerStore (LocalAddr stream) t d in
                  match n with
                  | inr e => Return (inr (Errorf ("error creating new raft: " ++ error_msg e)))
                  | inl n => Return (inl (mkRaftStore raftDir raftBind n))
                  end
              end
          end
      end
  end.

(** [SetupRaft], from the settings. *)
Definition SetupRaft (now : Time) (empty : B) (x : open_io) (s : ConfigurationSettings) (t : Throttler DB)
    : outcome (store + error) :=
  let! opened := Store_Open now empty x (cs_RaftDataDir s) (normalizeRaftNode (cs_DefaultRaftPort s) (cs_RaftBind s))
                   (peer_nodes s) t in
  match opened with
  | inr e => Return (inr (Errorf ("failed to open raft store: " ++ error_msg e)))
  | inl s => Return (inl s)
  end.
End Open.

(** ** Properties *)

(** C18: a command that freno's raft store reports as done is done.  On a node in any state, with any
    interleaving of what happens in it before and while the caller waits (other commands, elections, the
    loss and the gain of leadership, acknowledgements, membership changes, restored snapshots, failing
    stores): when a throttle, unthrottle, skip or recover command is answered without error, the local
    state machine has applied the entry of the command among the operations it did until then, and the
    throttler is the result of those; and unless an operation after it was about the same app or host,
    the command is in force: the app is throttled with its ratio until its expiry, or not at all, the
    host is skipped until its expiry, or not at all.  On a node that is not the leader the command is
    refused and nothing happens. *)
Theorem raft_command_takes_effect `{GroupJsonLaws} {DB S Sink} `{!SnapshotStore S Sink} `{LogStore L} `{StableStore K}
    env p c call (s : RaftStore (DB := DB) (S := S) (L := L) (K := K)) :
  command_call c = Some call -> json_exact c -> proposes p c s -> throttler_ok (sto_throttler s) ->
  (forall ops s', store_genericCommand env p c s = Return (Some None, ops, s') ->
     sto_throttler s' = foldl do_op (sto_throttler s) ops /\
     exists before at_ l after, ops = (before ++ Applied at_ l :: after)%list /\ log_Data l = cmd_encode c /\
       (Forall (fun p => target p.2 <> target call) (after ≫= op_calls) -> in_force at_ call (sto_throttler s'))) /\
  (getState (sto_raft s) <> Leader ->
     store_genericCommand env p c s = Return (Some (Some (Errorf "not leader")), [], s)).
Proof.
  intros Hcall Hx Hp Ho. split.
  - intros ops s' Hg. destruct (genericCommand_applied env p c s ops s' (proj1 Hx) Hp Hg) as (Ht & at_ & l & Hin & Hd).
    split; [done|]. apply list_elem_of_split in Hin as (before & after & ->). exists before, at_, l, after.
    split_and!; [done|done|]. intros Hf. rewrite Ht. by apply (applied_in_force c).
  - intros Hs. unfold store_genericCommand. by rewrite decide_False.
Qed.

(** What Consensus.v asks of raft is what the node does: a raft that reports runs of the node commits
    what it reports as committed. *)
Theorem node_commits `{GroupJsonLaws} {DB S Sink} `{!SnapshotStore S Sink} `{LogStore L} `{StableStore K} env
    (raft_Apply : meanwhile -> command -> bool * option error) :
  (forall m c applied, raft_Apply m c = (applied, None) ->
     exists p (s : RaftStore (DB := DB) (S := S) (L := L) (K := K)) ops s',
       json_exact c /\ proposes p c s /\
       store_genericCommand env p c s = Return (Some None, ops, s') /\ (c ∈ ops_commands ops -> applied = true)) ->
  forall m c applied, raft_Apply m c = (applied, None) -> applied = true.
Proof.
  intros Hrun m c applied E. destruct (Hrun m c applied E) as (p & s & ops & s' & Hx & Hp & Hg & Happlied).
  destruct (genericCommand_applied env p c s ops s' (proj1 Hx) Hp Hg) as (_ & at_ & l & Hin & Hd).
  apply Happlied. unfold ops_commands. apply list_elem_of_omap. exists (Applied at_ l). split; [done|].
  unfold decoded. by rewrite Hd, cmd_roundtrip.
Qed.

(** C37: a snapshot makes freno forget.  A node with any throttled apps and skipped hosts takes a
    snapshot, as raft does once enough entries have been applied; the snapshot is written without error.
    The next start of the node reports the snapshot as restored and takes the entries up to its index
    for applied, so they are not applied again, while the throttler is left exactly as it was created:
    nothing is throttled or skipped any more. *)
Theorem snapshot_makes_freno_forget `{GroupJsonLaws} `{MetaCodecLaws} `{LogStoreLaws L} `{StableStore K} {DB}
    env now later (st : fsmLoop (Throttler DB)) (r r0 : Raft L K) (m : gmap Z Log) peers (created : Throttler DB) :
  fl_lastIndex st <> 0 -> uint64_ok (fl_lastIndex st) -> uint64_ok (fl_lastTerm st) ->
  env_encodePeers env (StaticPeers_Peers (r_peerStore r)) = inl peers ->
  log_rep (r_logs r) m -> (forall i, is_Some (m !! i) -> uint64_ok i) ->
  uint64_ok (rs_lastLogIndex (r_raftState r)) -> uint64_ok (rc_TrailingLogs (r_conf r)) ->
  exists err r' d,
    takeSnapshot (HS := file_store retainSnapshotCount) env now false st r (mkFS ∅ []) = Return (err, st, r', d) /\
    exists r0',
      restoreSnapshot_from (HS := file_store retainSnapshotCount) later created r0 d = (None, created, r0', d) /\
      rs_lastApplied (r_raftState r0') = fl_lastIndex st.
Proof.
  intros Hnz Hix Htm Henc Hm Hdom Hll Htl.
  destruct (snapshot_restart env retainSnapshotCount [] [] [] (mkFS ∅ []) now st r m peers (obj_encode []))
    as (err & r' & d & Hts & _ & Hrs); try done.
  - constructor.
  - by apply not_elem_of_nil.
  - intros old Hold. vm_compute in Hold. by apply elem_of_nil in Hold.
  - exists err, r', d. split; [done|]. destruct (Hrs r0 later created created) as (r0' & Hr & Hla & _); [|by exists r0'].
    cbn [app_Restore freno_fsm]. by rewrite obj_roundtrip.
Qed.

(** A new node has no futures, no leader and no tracker. *)
Definition untouched {L K} (r : Raft L K) : Prop :=
  getState r = Follower /\ r_shutdown r = false /\ r_leaderState r = None /\ r_fsmCommitCh r = [] /\
  r_verifyCh r = [] /\ r_responses r = [].

Lemma untouched_fresh {L K} (r : Raft L K) id : untouched r -> ~ answered id r /\ ~ waiting id r.
Proof.
  intros (_ & _ & Hl & Hf & Hv & Hr). unfold answered, waiting, lead. rewrite Hl, Hf, Hv, Hr. simpl. set_solver.
Qed.

Lemma NewRaft_untouched `{LogStore L} `{StableStore K} conf (logs : L) (stable : K) ps addr r :
  rc_StartAsLeader conf = false -> NewRaft conf logs stable ps addr (inl []) = Return (inl r) ->
  untouched r /\ r_peers r = ExcludePeer (StaticPeers_Peers ps) addr /\ r_localAddr r = addr.
Proof.
  intros Hlead. unfold NewRaft. destruct (ValidateConfig conf); [done|].
  destruct (GetUint64 _ _) as [[ct k]|]; [|done]. cbn [outcome_bind]. destruct (read_or 0 ct); [|done].
  destruct (LastIndex _) as [[[li|e] l1]|]; [|done..]. cbn [outcome_bind].
  destruct (if li >? 0 then _ else _) as [[[lg|e] l2]|]; [|done..]. cbn [outcome_bind]. rewrite Hlead.
  destruct (setCurrentTerm _ _) as [r1|] eqn:E; [|done]. cbn [outcome_bind restoreSnapshot first_restorable]. intros [= <-].
  revert E. unfold setCurrentTerm. destruct (SetUint64 _ _ _) as [[[e|] k']|]; cbn [outcome_bind]; [done| |done].
  by intros [= <-].
Qed.

Lemma restoreSnapshot_from_untouched {S Sink F L K} `{!SnapshotStore S Sink} `{!FSM F} now (f f' : F) (r r' : Raft L K) (d d' : S) e :
  restoreSnapshot_from now f r d = (e, f', r', d') -> untouched r ->
  untouched r' /\ r_peers r' = r_peers r /\ r_localAddr r' = r_localAddr r.
Proof.
  unfold restoreSnapshot_from. destruct (store_List d) as [[snaps|?] d1]; [|by intros [= _ _ <- _]].
  destruct (restore_loop _ _ _ _) as [[[m|] f1] d2]; [by intros [= _ _ <- _]|]. destruct snaps; by intros [= _ _ <- _].
Qed.

Lemma Open_config_follower nodes : rc_StartAsLeader (Open_config nodes) = false.
Proof. unfold Open_config. by case_if. Qed.

(** C26: a store that opens starts clean.  Whatever is on disk, whatever addresses are configured and
    whichever calls fail before: when [Open] succeeds, the node is a follower in its first loop, not
    shut down, without a tracker and without any future, so that the numbers of all later futures are
    new; its peers are configured nodes without duplicates and without itself. *)
Theorem opened_store_starts_clean `{GroupJson} `{MetaCodec} `{Bucket B} `{LogCodec} {DB} env now (empty : B) x
    dir bind nodes (t : Throttler DB) s :
  Store_Open env now empty x dir bind nodes t = Return (inl s) ->
  untouched (sto_raft s) /\ n_loop (sto_node s) = FollowerLoop /\ loop_inv (n_loop (sto_node s)) (sto_raft s) /\
  (forall id, ~ answered id (sto_raft s) /\ ~ waiting id (sto_raft s)) /\
  NoDup (r_peers (sto_raft s)) /\ r_localAddr (sto_raft s) ∉ r_peers (sto_raft s) /\
  (forall p, p ∈ r_peers (sto_raft s) -> exists node, node ∈ nodes /\ p = TrimSpace node).
Proof.
  unfold Store_Open. destruct (oi_resolve x) as [addr|]; [|done].
  destruct (newTCPTransport _ _ _ _) as [[stream trans]|]; [|done].
  destruct (NewFileSnapshotStore _ _) as [[retain|] d]; [|done].
  destruct (NewBoltStore _ _ _ _) as [[b|] bf]; [|done].
  destruct (start_raft _ _ _ _ _ _ _ _ _) as [[n|]|] eqn:En; [|done..]. cbn [outcome_bind]. intros [= <-].
  revert En. unfold start_raft. destruct (NewRaft _ _ _ _ _ _) as [[r|]|] eqn:Er; [|done..]. cbn [outcome_bind].
  apply NewRaft_untouched in Er as (Hu & Hp & Ha); [|apply Open_config_follower].
  destruct (restoreSnapshot_from _ _ _ _) as [[[err t'] r'] d'] eqn:Es. destruct err; [done|].
  apply restoreSnapshot_from_untouched in Es as (Hu' & Hp' & Ha'); [|done].
  pose proof Hu' as (Hst & Hsd & Hls & _). unfold enter_loop. rewrite Hsd, Hst. cbn [outcome_bind]. intros [= <-].
  cbn [sto_raft sto_node n_raft n_loop]. rewrite Hp', Ha', Hp, Ha.
  split; [exact Hu'|]. split; [done|]. split; [unfold loop_inv, lead; simpl; by rewrite Hls|].
  split; [intros id; by apply untouched_fresh|]. split_and!.
  - apply ExcludePeer_NoDup, Open_peers_NoDup.
  - by intros [? _]%elem_of_ExcludePeer.
  - intros p [_ Hin]%elem_of_ExcludePeer. by apply Open_peers_from.
Qed.

(** *** An example: a leader is elected, a command is proposed, acknowledged, committed and applied *)

#[local] Instance float_eq_dec : EqDecision float64.
Proof. solve_decision. Defined.

#[local] Instance float_countable : Countable float64.
Proof.
  refine (inj_countable'
    (fun f => match f with
              | S754_zero b => inl (inl b)
              | S754_infinity b => inl (inr b)
              | S754_nan => inr (inl tt)
              | S754_finite b m e => inr (inr (b, m, e))
              end)
    (fun x => match x with
              | inl (inl b) => S754_zero b
              | inl (inr b) => S754_infinity b
              | inr (inl _) => S754_nan
              | inr (inr (b, m, e)) => S754_finite b m e
              end) _).
  by intros [].
Defined.

#[local] Instance command_eq_dec : EqDecision command.
Proof. solve_decision. Defined.

#[local] Instance command_countable : Countable command.
Proof.
  refine (inj_countable' (fun c => (cmd_Operation c, cmd_Key c, cmd_Value c, cmd_ExpireAt c, cmd_Ratio c))
            (fun '(o, k, v, e, r) => mkCommand o k v e r) _).
  by intros [].
Defined.

#[local] Instance bits_json : GroupJson := {
  cmd_encode c := bits_encode (encode c);
  cmd_decode s := match bits_value (A := command) s with
                  | Got c _ => (c, None)
                  | _ => (mkCommand "" "" "" zero_time f_zero, Some (Errorf "invalid value"))
                  end;
  obj_encode _ := "{}";
  obj_decode s := if decide (s = "{}") then inl [] else inr (Errorf "invalid character");
}.

#[local] Instance bits_json_laws : GroupJsonLaws.
Proof.
  split; [|done]. intros c _. cbn [cmd_decode cmd_encode bits_json].
  rewrite <- (str_app_nil_r (bits_encode (encode c))). by rewrite bits_value_app.
Qed.

#[local] Instance no_snapshots : SnapshotStore unit DiscardSnapshotSink := discard_store.

Abbreviation store_ex_type := (RaftStore (DB := unit) (S := unit) (L := ex_store) (K := ex_store)).

Definition node_ex := mkNode (S := unit) (CandidateLoop true 2 0) ex_r2 (mkFsmLoop 0 0 throttler_ex) tt.
Definition store_ex : store_ex_type :=
  mkRaftStore "/raft" "a" (ex_returns ([], node_ex)
    (run_node ex_env [NMain 1 (EvVote ex_granted); NMain 2 (EvVote ex_granted)] node_ex)).2.
Definition command_ex : command := throttle_command "backup" (100 * Second) f_one.
Definition proposal_ex : proposal :=
  mkProposal [NMain 3 EvLease] SelSent 7
    [NMain 4 (EvApply [newLogFuture 7 LogCommand (cmd_encode command_ex) ""]); NAck 1 2; NMain 5 EvCommitCh; NCommit (6 * Second)].

Lemma fresh_lists {L K} (r : Raft L K) id : r_responses r = [] -> lead_ids (lead r) = [] ->
  fsm_ids (r_fsmCommitCh r) = [] -> r_verifyCh r = [] -> ~ answered id r /\ ~ waiting id r.
Proof. unfold answered, waiting. intros -> -> -> ->. set_solver. Qed.

Lemma raft_command_takes_effect_witness :
  exists ops s', store_genericCommand ex_env proposal_ex command_ex store_ex = Return (Some None, ops, s') /\
    sto_throttler s' = foldl do_op (sto_throttler store_ex) ops /\
    exists before at_ l after, ops = (before ++ Applied at_ l :: after)%list /\ log_Data l = cmd_encode command_ex /\
      (Forall (fun p => target p.2 <> Some (inl "backup")) (after ≫= op_calls) ->
       in_force at_ (CallThrottleApp "backup" (100 * Second) f_one) (sto_throttler s')).
Proof.
  assert (Hr : r_responses (sto_raft store_ex) = []) by (vm_compute; reflexivity).
  assert (Hl : lead_ids (lead (sto_raft store_ex)) = []) by (vm_compute; reflexivity).
  assert (Hf : fsm_ids (r_fsmCommitCh (sto_raft store_ex)) = []) by (vm_compute; reflexivity).
  assert (Hv : r_verifyCh (sto_raft store_ex) = []) by (vm_compute; reflexivity).
  assert (Hans : (fun p : _ * _ * _ => p.1.1) <$> match store_genericCommand ex_env proposal_ex command_ex store_ex with
    Return p => Some p | Panic _ => None end = Some (Some None)) by (vm_compute; reflexivity).
  destruct (store_genericCommand ex_env proposal_ex command_ex store_ex) as [[[a ops] s']|] eqn:E; [|done].
  cbn in Hans. injection Hans as ->. exists ops, s'. split; [reflexivity|].
  apply (raft_command_takes_effect ex_env proposal_ex command_ex (CallThrottleApp "backup" (100 * Second) f_one) store_ex)
    with (ops := ops).
  - reflexivity.
  - split; [reflexivity|]. split; [reflexivity|discriminate].
  - destruct (fresh_lists (sto_raft store_ex) 7 Hr Hl Hf Hv) as [Ha Hw]. split; [exact Ha|]. split; [exact Hw|].
    split; [apply Forall_cons_2; [exact I|apply Forall_nil_2]|].
    apply Forall_cons_2; [apply Forall_cons_2; [intros _; split; reflexivity|apply Forall_nil_2]|].
    do 3 (apply Forall_cons_2; [exact I|]). apply Forall_nil_2.
  - assert (Ht : sto_throttler store_ex = throttler_ex) by (vm_compute; reflexivity). rewrite Ht. exact throttler_ex_ok.
  - exact E.
Defined.

(** The state machine of [store_ex] after the command, on a node that has applied three entries. *)
Definition throttling_ex : Throttler unit := ThrottleApp (6 * Second) "backup" (100 * Second) f_one throttler_ex.

Lemma snapshot_makes_freno_forget_witness :
  ThrottledAppsMap (7 * Second) throttling_ex !! "backup" = Some (mkAppThrottle (100 * Second) f_one) /\
  exists err r' d,
    takeSnapshot (HS := file_store retainSnapshotCount) ex_env (8 * Second) false (mkFsmLoop 3 2 throttling_ex) ex_leader (mkFS ∅ [])
      = Return (err, mkFsmLoop 3 2 throttling_ex, r', d) /\
    exists r0',
      restoreSnapshot_from (HS := file_store retainSnapshotCount) (9 * Second) throttler_ex (ex_node "a") d
        = (None, throttler_ex, r0', d) /\
      rs_lastApplied (r_raftState r0') = 3.
Proof.
  split; [vm_compute; reflexivity|].
  apply (snapshot_makes_freno_forget ex_env (8 * Second) (9 * Second) (mkFsmLoop 3 2 throttling_ex) ex_leader (ex_node "a")
           (insert_logs ex_leader_log ∅) "" throttler_ex).
  - discriminate.
  - done.
  - done.
  - reflexivity.
  - exact ex_leader_rep.
  - intros i Hi. simpl in Hi. repeat (apply lookup_insert_is_Some' in Hi as [<-|Hi]; [done|]).
    rewrite lookup_empty in Hi. by destruct Hi.
  - done.
  - done.
Defined.

(** A first start: an empty directory, a new database file, three nodes. *)
Definition open_io_ex : open_io (B := gmap string string) :=
  mkOpenIO (inl (TCPAddr "10.0.0.1" "10008" false)) (inl (TCPAddr "10.0.0.1" "10008" false)) (mkFS ∅ []) None (None, None)
    (mkBoltFile None None []).
Definition opened_ex :=
  Store_Open (DB := unit) ex_env 1 ∅ open_io_ex "/raft" "10.0.0.1:10008"
    ["10.0.0.1:10008"; " 10.0.0.2:10008"; "10.0.0.3:10008"; "10.0.0.2:10008"] throttler_ex.

Lemma opened_store_starts_clean_witness :
  exists s, opened_ex = Return (inl s) /\ r_peers (sto_raft s) = ["10.0.0.2:10008"; "10.0.0.3:10008"] /\
    untouched (sto_raft s) /\ n_loop (sto_node s) = FollowerLoop.
Proof.
  assert (Hp : match opened_ex with Return (inl s) => Some (r_peers (sto_raft s)) | _ => None end
    = Some ["10.0.0.2:10008"; "10.0.0.3:10008"]) by (vm_compute; reflexivity).
  destruct opened_ex as [[s|e]|m] eqn:E; [|discriminate Hp|discriminate Hp]. injection Hp as Hp.
  exists s. split; [reflexivity|]. split; [exact Hp|].
  destruct (opened_store_starts_clean ex_env 1 ∅ open_io_ex "/raft" "10.0.0.1:10008"
    ["10.0.0.1:10008"; " 10.0.0.2:10008"; "10.0.0.3:10008"; "10.0.0.2:10008"] throttler_ex s E) as (Hu & Hl & _).
  split; [exact Hu|exact Hl].
Defined.
