(* ===== verification/Api.v ===== *)
(** * The HTTP API (pkg/http/api.go)

    The handlers are written against the consensus interface.  Package-level pointers that handlers
    share and change, [throttle.StandardCheckFlags], [okIfNotExistsFlags] and
    [throttle.NoSuchMetricCheckResult], are cells of [Globals].  A response records the first status
    code written (net/http ignores later ones) and the JSON documents encoded. *)
From S2P Require Import Prelude GoStrings GoFloat GoCache Base Mysql Config Throttler Refresh Operate.
From S2P Require Import Check Fsm MysqlBackend Consensus.

Open Scope string_scope.
Open Scope Z_scope.

(** ** Requests and responses *)

Inductive http_method := GET | HEAD.

#[export] Instance http_method_eq_dec : EqDecision http_method.
Proof. solve_decision. Defined.

(** The route's parameters, the query, and the headers the handlers use; a missing one is empty. *)
Record Request := mkRequest {
  rq_Method : http_method;
  rq_ByName : string -> string;
  rq_Query : string -> string;
  rq_X_Forwarded_For : string;
  rq_RemoteAddr : string;
}.

Inductive document :=
| DocGeneral (statusCode : Z) (message : string)
| DocCheck (r : CheckResult)
| DocString (s : string)
| DocMetrics (m : gmap string string)
| DocHealth (m : MetricHealthMap)
| DocThrottled (m : gmap string AppThrottle)
| DocRecent (m : gmap string RecentApp)
| DocHosts (m : gmap string Time)
| DocStatus (s : ConsensusServiceStatus)
| DocEndpoints (l : list string)
| DocMemcache (servers : list string) (path : string).

Record Response := mkResponse {
  rs_code : option Z;
  rs_json : bool;
  rs_body : list document;
}.

Definition newResponse : Response := mkResponse None false [].

Definition WriteHeader (code : Z) (w : Response) : Response :=
  mkResponse (match rs_code w with None => Some code | c => c end) (rs_json w) (rs_body w).
Definition set_json (w : Response) : Response := mkResponse (rs_code w) true (rs_body w).
(** Writing a body without a status code sends 200. *)
Definition Encode (d : document) (w : Response) : Response :=
  mkResponse (match rs_code w with None => Some StatusOK | c => c end) (rs_json w)
    (rs_body w ++ [d])%list.
Definition json_if_get (r : Request) (w : Response) : Response :=
  if decide (rq_Method r = GET) then set_json w else w.
Definition encode_if_get (r : Request) (d : document) (w : Response) : Response :=
  if decide (rq_Method r = GET) then Encode d w else w.

Definition respondGeneric (r : Request) (e : option error) (w : Response) : Response :=
  let '(code, message) := match e with
                          | None => (StatusOK, "OK")
                          | Some e => (StatusInternalServerError, error_msg e)
                          end in
  encode_if_get r (DocGeneral code message) (WriteHeader code (json_if_get r w)).

Definition respondToCheckRequest (r : Request) (checkResult : CheckResult) (w : Response) : Response :=
  encode_if_get r (DocCheck checkResult)
    (WriteHeader (cr_StatusCode checkResult) (json_if_get r w)).

(** ** Shared cells *)

Record Globals := mkGlobals {
  g_StandardCheckFlags : CheckFlags;
  g_okIfNotExistsFlags : CheckFlags;
  g_NoSuchMetricCheckResult : CheckResult;
}.

Definition initialGlobals : Globals :=
  mkGlobals zeroCheckFlags (mkCheckFlags false f_zero false true) NoSuchMetricCheckResult.

(** A [*CheckFlags]. *)
Inductive flags_ptr :=
| StandardCheckFlags
| okIfNotExistsFlags
| FreshFlags (f : CheckFlags).

Definition load_flags (g : Globals) (p : flags_ptr) : CheckFlags :=
  match p with
  | StandardCheckFlags => g_StandardCheckFlags g
  | okIfNotExistsFlags => g_okIfNotExistsFlags g
  | FreshFlags f => f
  end.

Definition store_flags (f : CheckFlags) (p : flags_ptr) (g : Globals) : Globals * flags_ptr :=
  match p with
  | StandardCheckFlags => (mkGlobals f (g_okIfNotExistsFlags g) (g_NoSuchMetricCheckResult g), p)
  | okIfNotExistsFlags => (mkGlobals (g_StandardCheckFlags g) f (g_NoSuchMetricCheckResult g), p)
  | FreshFlags _ => (g, FreshFlags f)
  end.

(** [checkResult.StatusCode = code] through the pointer. *)
Definition set_code (code : Z) (r : CheckResult) : CheckResult :=
  mkCheckResult code (cr_Value r) (cr_Threshold r) (cr_Error r) (cr_Message r).

Definition store_code (code : Z) (p : result_ptr) (g : Globals) : Globals * result_ptr :=
  match p with
  | FreshResult r => (g, FreshResult (set_code code r))
  | SharedNoSuchMetric =>
      (mkGlobals (g_StandardCheckFlags g) (g_okIfNotExistsFlags g)
         (set_code code (g_NoSuchMetricCheckResult g)), p)
  end.

Definition set_LowPriority (b : bool) (f : CheckFlags) : CheckFlags :=
  mkCheckFlags (fl_ReadCheck f) (fl_OverrideThreshold f) b (fl_OKIfNotExists f).

(** ** Checks *)

Section Checks.
Context {DB : Type}.

Definition remote_address (r : Request) : string :=
  if decide (rq_X_Forwarded_For r = "") then
    match Split (rq_RemoteAddr r) ":" with a :: _ => a | [] => "" end
  else rq_X_Forwarded_For r.

(** [api.check]: the globals after it, the response and the updates of the throttler it starts. *)
Definition check (now : Time) (rand : nat -> float64) (r : Request) (flags : flags_ptr)
    (g : Globals) (t : Throttler DB) (w : Response) : Globals * Response * list api_call :=
  let appName := rq_ByName r "app" in
  let storeType := rq_ByName r "storeType" in
  let storeName := rq_ByName r "storeName" in
  let '(g, flags) :=
    store_flags (set_LowPriority (bool_decide (rq_Query r "p" = "low")) (load_flags g flags)) flags g in
  let '(checkResult, calls, _) :=
    Check now rand appName storeType storeName (remote_address r) (load_flags g flags) t in
  let '(g, checkResult) :=
    if (cr_StatusCode (deref (g_NoSuchMetricCheckResult g) checkResult) =? StatusNotFound) &&
       fl_OKIfNotExists (load_flags g flags)
    then store_code StatusOK checkResult g else (g, checkResult) in
  (g, respondToCheckRequest r (deref (g_NoSuchMetricCheckResult g) checkResult) w, calls).

Definition WriteCheck now rand r g (t : Throttler DB) w := check now rand r StandardCheckFlags g t w.
Definition WriteCheckIfExists now rand r g (t : Throttler DB) w :=
  check now rand r okIfNotExistsFlags g t w.

Definition readCheck (now : Time) (rand : nat -> float64) (r : Request) (flags : CheckFlags)
    (g : Globals) (t : Throttler DB) (w : Response) : Globals * Response * list api_call :=
  match ParseFloat (rq_ByName r "threshold") with
  | (_, Some e) => (g, respondGeneric r (Some e) w, [])
  | (overrideThreshold, None) =>
      check now rand r
        (FreshFlags (mkCheckFlags true overrideThreshold (fl_LowPriority flags) (fl_OKIfNotExists flags)))
        g t w
  end.

Definition ReadCheck now rand r g (t : Throttler DB) w := readCheck now rand r zeroCheckFlags g t w.
Definition ReadCheckIfExists now rand r g (t : Throttler DB) w :=
  readCheck now rand r (mkCheckFlags false f_zero false true) g t w.

(** [AggregatedMetrics]. *)
Definition metric_description (brief : bool) (m : MetricResult) : string :=
  match MetricResult_Get m with
  | (value, None) => if brief then format_f 3 value else format_f 6 value
  | (_, Some e) => "error: " ++ error_msg e
  end.

Definition AggregatedMetrics_handler (now : Time) (r : Request) (t : Throttler DB) (w : Response) : Response :=
  let brief := bool_decide (rq_Query r "brief" = "true") in
  Encode (DocMetrics (metric_description brief <$> AggregatedMetrics now t)) (set_json w).

Definition MetricsHealth_handler (now : Time) (t : Throttler DB) (w : Response) : Response :=
  Encode (DocHealth (MetricsHealth now t)) (set_json w).
End Checks.

(** ** Consensus operations *)

Section Consensus.
Context {DB S : Type} `{!ConsensusService DB S}.

Definition LbCheck (r : Request) (w : Response) : Response := respondGeneric r None w.

Definition LeaderCheck (r : Request) (s : S) (w : Response) : Response :=
  let statusCode := if svc_IsLeader s then StatusOK else StatusNotFound in
  encode_if_get r (DocString ("HTTP " ++ Itoa statusCode)) (WriteHeader statusCode w).

Definition ConsensusLeader (s : S) (w : Response) : Response :=
  if decide (svc_GetLeader s = "") then WriteHeader StatusInternalServerError w
  else Encode (DocString (svc_GetLeader s)) (WriteHeader StatusOK w).

Definition ConsensusState (s : S) (w : Response) : Response :=
  Encode (DocString (svc_GetStateDescription s)) w.

Definition ConsensusStatus (s : S) (w : Response) : Response :=
  Encode (DocStatus (svc_GetStatus s)) (set_json w).

(** [NewAPIImpl]: the name of the host, empty when it cannot be found out; the check and the consensus
    service of the record are arguments of the handlers here. *)
Definition NewAPIImpl (os_Hostname : string + error) : string :=
  match os_Hostname with inl hostname => hostname | inr _ => "" end.

Definition Hostname_handler (hostname : string) (w : Response) : Response :=
  if decide (hostname = "") then WriteHeader StatusInternalServerError w
  else Encode (DocString hostname) (WriteHeader StatusOK w).

(** [Help]: the paths registered so far. *)
Definition Help (endpoints : list string) (w : Response) : Response :=
  Encode (DocEndpoints endpoints) (set_json w).

Definition MemcacheConfig (settings : ConfigurationSettings) (w : Response) : Response :=
  Encode (DocMemcache (cs_MemcacheServers settings) (cs_MemcachePath settings)) (set_json w).

(** The name that is throttled: the app, or the app on one store. *)
Definition app_name (r : Request) : string :=
  let storeName := rq_Query r "store_name" in
  if decide (storeName = "") then rq_ByName r "app" else rq_ByName r "app" ++ "/" ++ storeName.

Definition ttl_expiry (now : Time) (ttlMinutes : Z) : Time :=
  if ttlMinutes =? 0 then zero_time else Time_Add now (wrap64 (ttlMinutes * Minute)).

(** The arguments of a throttle request, or the error it is answered with. *)
Definition parse_throttle (r : Request) : (Z * float64) + error :=
  let ttl := if decide (rq_ByName r "ttlMinutes" = "") then (0, None)
             else ParseInt (rq_ByName r "ttlMinutes") in
  match ttl with
  | (_, Some e) => inr e
  | (ttlMinutes, None) =>
      if decide (rq_ByName r "ratio" = "") then inl (ttlMinutes, f_minus_one)
      else
        match ParseFloat (rq_ByName r "ratio") with
        | (_, Some e) => inr e
        | (ratio, None) =>
            if f_ltb ratio f_zero || f_gtb ratio f_one
            then inr (Errorf "ratio must be in [0..1] range")
            else inl (ttlMinutes, ratio)
        end
  end.

Definition ThrottleApp_handler (m : meanwhile) (now : Time) (r : Request) (s : S) (w : Response) : S * Response :=
  match parse_throttle r with
  | inr e => (s, respondGeneric r (Some e) w)
  | inl (ttlMinutes, ratio) =>
      let '(s', err) := svc_ThrottleApp m (app_name r) ttlMinutes (ttl_expiry now ttlMinutes) ratio s in
      (s', respondGeneric r err w)
  end.

(** [UnthrottleApp]: only a name in the map of throttled apps is unthrottled. *)
Definition UnthrottleApp_handler (m : meanwhile) (now : Time) (r : Request) (s : S) (w : Response) : S * Response :=
  match svc_ThrottledAppsMap now s !! app_name r with
  | Some _ =>
      let '(s', err) := svc_UnthrottleApp m (app_name r) s in (s', respondGeneric r err w)
  | None => (s, respondGeneric r None w)
  end.

Definition ThrottledApps_handler (now : Time) (s : S) (w : Response) : Response :=
  Encode (DocThrottled (svc_ThrottledAppsMap now s)) (set_json w).

Definition RecentApps_handler (now : Time) (r : Request) (s : S) (w : Response) : Response :=
  let last := if decide (rq_ByName r "lastMinutes" = "") then (0, None)
              else ParseInt (rq_ByName r "lastMinutes") in
  match last with
  | (_, Some e) => respondGeneric r (Some e) w
  | (lastMinutes, None) =>
      let recentApps := svc_RecentAppsMap now s in
      Encode (DocRecent (if 0 <? lastMinutes
                         then filter (fun p => MinutesSinceChecked p.2 <= lastMinutes) recentApps
                         else recentApps)) (set_json w)
  end.

(** [SkipHost]: a TTL that does not parse is answered with an error, and the handler goes on. *)
Definition SkipHost_handler (m : meanwhile) (now : Time) (r : Request) (s : S) (w : Response) : S * Response :=
  let hostName := rq_ByName r "hostName" in
  let '(ttlMinutes, w) :=
    if decide (rq_ByName r "ttlMinutes" = "") then (0, w)
    else match ParseInt (rq_ByName r "ttlMinutes") with
         | (n, Some e) => (n, respondGeneric r (Some e) w)
         | (n, None) => (n, w)
         end in
  let '(s', err) := svc_SkipHost m hostName ttlMinutes (ttl_expiry now ttlMinutes) s in
  (s', respondGeneric r err w).

Definition RecoverHost_handler (m : meanwhile) (now : Time) (r : Request) (s : S) (w : Response) : S * Response :=
  let '(s', err) := svc_RecoverHost m (rq_ByName r "hostName") s in (s', respondGeneric r err w).

Definition SkippedHosts_handler (now : Time) (s : S) (w : Response) : Response :=
  Encode (DocHosts (svc_SkippedHostsMap now s)) (set_json w).
End Consensus.

(** ** Properties *)

Lemma respondGeneric_code r e w :
  rs_code w = None ->
  rs_code (respondGeneric r e w) =
    Some (match e with None => StatusOK | Some _ => StatusInternalServerError end).
Proof.
  intros H. unfold respondGeneric, encode_if_get, json_if_get. destruct e; simpl;
    repeat case_decide; simpl; by rewrite H.
Qed.

Lemma respondGeneric_code_kept r e w c :
  rs_code w = Some c -> rs_code (respondGeneric r e w) = Some c.
Proof.
  intros H. unfold respondGeneric, encode_if_get, json_if_get. destruct e; simpl;
    repeat case_decide; simpl; by rewrite H.
Qed.

Lemma respondToCheckRequest_code r c w :
  rs_code w = None -> rs_code (respondToCheckRequest r c w) = Some (cr_StatusCode c).
Proof.
  intros H. unfold respondToCheckRequest, encode_if_get, json_if_get.
  repeat case_decide; simpl; by rewrite H.
Qed.

Section ConsensusProperties.
Context {DB S : Type} `{!ConsensusService DB S, !ConsensusLaws DB S}.

Lemma ThrottleApp_handler_spec m now r s s' w' :
  ThrottleApp_handler m now r s newResponse = (s', w') ->
  (rs_code w' = Some StatusOK ->
   exists ttl ratio, parse_throttle r = inl (ttl, ratio) /\
     svc_throttler s' = run_among m (CallThrottleApp (app_name r) (ttl_expiry now ttl) ratio) (svc_throttler s)) /\
  (forall e, parse_throttle r = inr e -> s' = s /\ rs_code w' = Some StatusInternalServerError) /\
  (forall ttl ratio, parse_throttle r = inl (ttl, ratio) ->
     f_ltb ratio f_zero = true -> rq_ByName r "ratio" = "").
Proof.
  unfold ThrottleApp_handler. intros H. split_and!.
  - destruct (parse_throttle r) as [[ttl ratio]|e].
    + destruct (svc_ThrottleApp _ _ _ _ _ _) as [s1 err] eqn:E. simplify_eq.
      rewrite respondGeneric_code by done. destruct err; [done|]. intros _. exists ttl, ratio.
      split; [done|]. by eapply law_ThrottleApp.
    + simplify_eq. by rewrite respondGeneric_code.
  - intros e He. rewrite He in H. simplify_eq. split; [done|]. by rewrite respondGeneric_code.
  - intros ttl ratio. unfold parse_throttle. destruct (decide (rq_ByName r "ratio" = "")); [done|].
    destruct (if decide _ then _ else _) as [n0 [e0|]]; [done|].
    destruct (ParseFloat _) as [x [e|]]; [done|]. destruct (f_ltb x f_zero) eqn:E; simpl; [done|].
    destruct (f_gtb x f_one); [done|]. intros [= <- <-]. congruence.
Qed.

(** What the API reports about throttling is true, for every consensus service that keeps its
    laws: a throttle request answered 200 has taken effect on the local throttler with the app, TTL
    and ratio asked for; a TTL that is not a number, or a ratio that is none or outside 0..1, is
    answered 500 and changes nothing. *)
Theorem ThrottleApp_handler_sound m now r s s' w' :
  ThrottleApp_handler m now r s newResponse = (s', w') ->
  (rs_code w' = Some StatusOK ->
   exists ttl ratio, parse_throttle r = inl (ttl, ratio) /\
     svc_throttler s' = run_among m (CallThrottleApp (app_name r) (ttl_expiry now ttl) ratio) (svc_throttler s)) /\
  (forall e, parse_throttle r = inr e -> s' = s /\ rs_code w' = Some StatusInternalServerError) /\
  (forall ttl ratio, parse_throttle r = inl (ttl, ratio) ->
     f_ltb ratio f_zero = true -> rq_ByName r "ratio" = "").
Proof. apply ThrottleApp_handler_spec. Qed.

(** Skipping a host with a TTL that is not a number is answered 500, yet the host is skipped:
    the request is handed to the consensus service all the same, with TTL 0, which stands for the
    default of an hour (or with the largest number, when the number is too large). *)
Theorem SkipHost_bad_ttl_still_skips m now r s s' w' n e :
  rq_ByName r "ttlMinutes" <> "" -> ParseInt (rq_ByName r "ttlMinutes") = (n, Some e) ->
  SkipHost_handler m now r s newResponse = (s', w') ->
  rs_code w' = Some StatusInternalServerError /\
  s' = (svc_SkipHost m (rq_ByName r "hostName") n (ttl_expiry now n) s).1 /\
  ((svc_SkipHost m (rq_ByName r "hostName") n (ttl_expiry now n) s).2 = None ->
   svc_throttler s' = run_among m (CallSkipHost (rq_ByName r "hostName") (ttl_expiry now n)) (svc_throttler s)).
Proof.
  intros Hne Hp. unfold SkipHost_handler. rewrite decide_False by done. rewrite Hp.
  destruct (svc_SkipHost _ _ _ _ _) as [s1 err] eqn:E. intros [= <- <-]. simpl. split_and!.
  - erewrite respondGeneric_code_kept; [done|]. by rewrite respondGeneric_code.
  - done.
  - intros ->. by eapply law_SkipHost.
Qed.
End ConsensusProperties.

(** ** The shared cells *)

Section SharedCells.
Context {DB : Type}.
Implicit Types (t : Throttler DB).

(** C39: one check-if-exists request for an unknown kind of store makes every later check of an
    unknown kind of store succeed: the handler turns the 404 into 200 in the shared
    [NoSuchMetricCheckResult] itself, so that /check answers 200 from then on. *)
Theorem check_if_exists_poisons_404 now rand r t now' rand' r' t' :
  rq_ByName r "storeType" <> "mysql" -> rq_ByName r' "storeType" <> "mysql" ->
  let '(g, w, _) := WriteCheckIfExists now rand r initialGlobals t newResponse in
  let '(_, before, _) := WriteCheck now' rand' r' initialGlobals t' newResponse in
  let '(_, after, _) := WriteCheck now' rand' r' g t' newResponse in
  rs_code w = Some StatusOK /\ rs_code before = Some StatusNotFound /\ rs_code after = Some StatusOK.
Proof.
  intros H H'. unfold WriteCheckIfExists, WriteCheck, check, Check. simpl.
  rewrite (decide_False (P := rq_ByName r "storeType" = "mysql")) by done.
  do 2 (rewrite (decide_False (P := rq_ByName r' "storeType" = "mysql")) by done; simpl).
  by rewrite !respondToCheckRequest_code by done.
Qed.

(** The answer of a check on a MySQL store, through any flags. *)
Lemma check_mysql_code now rand r p g t :
  rq_ByName r "storeType" = "mysql" ->
  let f := set_LowPriority (bool_decide (rq_Query r "p" = "low")) (load_flags g p) in
  let code := cr_StatusCode (mysql_check now rand (rq_ByName r "app") (rq_ByName r "storeName")
                               (remote_address r) f t) in
  rs_code (check now rand r p g t newResponse).1.2 =
    Some (if (code =? StatusNotFound) && fl_OKIfNotExists f then StatusOK else code).
Proof.
  intros Hty f code. unfold check. fold f.
  destruct (store_flags f p g) as [g1 p1] eqn:Es.
  assert (Hl : load_flags g1 p1 = f) by (destruct p; simpl in Es; by simplify_eq).
  rewrite Hl, Hty. unfold code. rewrite mysql_check_eq. unfold Check. simpl.
  destruct (checkAppMetricResult _ _ _ _ _ _ f t) as [res calls]. simpl.
  destruct ((cr_StatusCode res =? StatusNotFound) && fl_OKIfNotExists (load_flags g p)); simpl;
    by rewrite respondToCheckRequest_code.
Qed.

(** Check-if-exists only forgives a missing metric: on a MySQL store it answers 200 where
    /check answers 404, and the same as /check otherwise. *)
Theorem check_if_exists_spec now rand r t g :
  rq_ByName r "storeType" = "mysql" ->
  fl_ReadCheck (g_StandardCheckFlags g) = fl_ReadCheck (g_okIfNotExistsFlags g) ->
  fl_OverrideThreshold (g_StandardCheckFlags g) = fl_OverrideThreshold (g_okIfNotExistsFlags g) ->
  fl_OKIfNotExists (g_StandardCheckFlags g) = false -> fl_OKIfNotExists (g_okIfNotExistsFlags g) = true ->
  exists code, rs_code (WriteCheck now rand r g t newResponse).1.2 = Some code /\
    rs_code (WriteCheckIfExists now rand r g t newResponse).1.2 =
      Some (if code =? StatusNotFound then StatusOK else code).
Proof.
  intros Hty Hrc Hov Hs Hok. unfold WriteCheckIfExists, WriteCheck.
  rewrite !check_mysql_code by done. simpl. rewrite Hs, Hok, andb_false_r, andb_true_r.
  eexists. split; [reflexivity|]. rewrite !mysql_check_eq. unfold checkAppMetricResult. simpl.
  by rewrite Hrc, Hov.
Qed.

(** A low priority request leaves its mark on freno's own checks: the handler sets [LowPriority]
    in the shared [StandardCheckFlags], which the self checks use.  When a normal app has been
    throttled within the last second, the next self check is then refused with 417 and does not
    record a healthy metric as healthy, which the same check with its own flags would. *)
Theorem low_priority_flag_leaks now rand r t g :
  rq_Query r "p" = "low" ->
  let g' := (WriteCheck now rand r g t newResponse).1.1 in
  fl_LowPriority (g_StandardCheckFlags g') = true /\
  forall later rand1 rand2 store t',
    str_mem "/" store = false ->
    is_Some (cache_Get later ("mysql/" ++ store) (nonLowPriorityAppRequestsThrottled t')) ->
    let '(res, t1, _) := localCheck later rand1 rand2 (g_StandardCheckFlags g')
                           (g_NoSuchMetricCheckResult g') ("mysql/" ++ store) t' in
    cr_StatusCode (deref (g_NoSuchMetricCheckResult g') res) = StatusExpectationFailed /\ t1 = t'.
Proof.
  intros Hp g'.
  assert (Hg : g_StandardCheckFlags g' = set_LowPriority true (g_StandardCheckFlags g)).
  { unfold g', WriteCheck, check. simpl. rewrite Hp. simpl.
    destruct (Check _ _ _ _ _ _ _ t) as [[res calls] cnt].
    destruct (_ && _); [|done]. by destruct res. }
  rewrite Hg. split; [done|]. intros later rand1 rand2 store t' Hstore Hrecent.
  assert (Hs : splitMetricTokens ("mysql/" ++ store) = inl ("mysql", store))
    by (by apply splitMetricTokens_mysql).
  unfold localCheck. rewrite Hs.
  assert (D : denied later rand1 frenoAppName store (set_LowPriority true (g_StandardCheckFlags g)) t')
    by (left; split; [done|exact Hrecent]).
  pose proof (mysql_check_status later rand1 frenoAppName store "local"
    (set_LowPriority true (g_StandardCheckFlags g)) t' AppDeniedMetric f_zero f_zero
    (Some AppDeniedError)) as Hcode.
  rewrite (decide_True (P := denied _ _ _ _ _ _)) in Hcode by done. specialize (Hcode eq_refl eq_refl).
  unfold mysql_check, Check in *. simpl in Hcode |- *.
  destruct (checkAppMetricResult later rand1 frenoAppName _ _ _ _ _) as [res calls].
  destruct (checkAppMetricResult later rand2 frenoShareDmainAppName _ _ _ _ _) as [res2 calls2].
  simpl in *. rewrite Hcode. simpl. done.
Qed.
End SharedCells.

(** *** Witnesses *)

Definition request_ex (params query : list (string * string)) : Request :=
  mkRequest GET (fun k => default "" (list_to_map (M := gmap string string) params !! k))
    (fun k => default "" (list_to_map (M := gmap string string) query !! k)) "" "10.0.0.1:5000".

Definition service_ex : MySQLService unit :=
  mkMySQLService (backend_ex "a") ∅ ∅ ∅ ∅ 1000 None false throttler_ex.

Lemma ThrottleApp_handler_sound_witness :
  let r := request_ex [("app", "app"); ("ttlMinutes", "30"); ("ratio", "0.5")] [("store_name", "c")] in
  let s' := (ThrottleApp_handler (alone (3 * Second)) (2 * Second) r service_ex newResponse).1 in
  let w' := (ThrottleApp_handler (alone (3 * Second)) (2 * Second) r service_ex newResponse).2 in
  (rs_code w' = Some StatusOK ->
   exists ttl ratio, parse_throttle r = inl (ttl, ratio) /\
     svc_throttler s' = run_among (alone (3 * Second)) (CallThrottleApp "app/c" (ttl_expiry (2 * Second) ttl) ratio) (svc_throttler service_ex)) /\
  (forall e, parse_throttle r = inr e -> s' = service_ex /\ rs_code w' = Some StatusInternalServerError) /\
  (forall ttl ratio, parse_throttle r = inl (ttl, ratio) ->
     f_ltb ratio f_zero = true -> rq_ByName r "ratio" = "").
Proof.
  intros r s' w'. apply (ThrottleApp_handler_sound (alone (3 * Second)) (2 * Second) r service_ex).
  unfold s', w'. by destruct (ThrottleApp_handler _ _ _ _ _).
Defined.

Lemma SkipHost_bad_ttl_still_skips_witness :
  let r := request_ex [("hostName", "db1"); ("ttlMinutes", "ten")] [] in
  let s' := (SkipHost_handler (alone (3 * Second)) (2 * Second) r service_ex newResponse).1 in
  let w' := (SkipHost_handler (alone (3 * Second)) (2 * Second) r service_ex newResponse).2 in
  rs_code w' = Some StatusInternalServerError /\
  s' = (svc_SkipHost (alone (3 * Second)) "db1" 0 zero_time service_ex).1 /\
  ((svc_SkipHost (alone (3 * Second)) "db1" 0 zero_time service_ex).2 = None ->
   svc_throttler s' = run_among (alone (3 * Second)) (CallSkipHost "db1" zero_time) (svc_throttler service_ex)).
Proof.
  intros r s' w'.
  apply (SkipHost_bad_ttl_still_skips (alone (3 * Second)) (2 * Second) r service_ex s' w' 0
           (Errorf (num_error_msg "ParseInt" "ten" ErrSyntax))).
  - discriminate.
  - vm_compute. reflexivity.
  - unfold s', w'. by destruct (SkipHost_handler _ _ _ _ _).
Defined.

Lemma check_if_exists_poisons_404_witness :
  let r := request_ex [("app", "app"); ("storeType", "redis"); ("storeName", "c")] [] in
  let '(g, w, _) := WriteCheckIfExists Second (fun _ => f_zero) r initialGlobals throttler_ex newResponse in
  let '(_, before, _) := WriteCheck Second (fun _ => f_zero) r initialGlobals throttler_ex newResponse in
  let '(_, after, _) := WriteCheck Second (fun _ => f_zero) r g throttler_ex newResponse in
  rs_code w = Some StatusOK /\ rs_code before = Some StatusNotFound /\ rs_code after = Some StatusOK.
Proof. intros r. apply (check_if_exists_poisons_404 Second _ r throttler_ex Second _ r throttler_ex); discriminate. Defined.

Lemma check_if_exists_spec_witness :
  let r := request_ex [("app", "app"); ("storeType", "mysql"); ("storeName", "c")] [] in
  exists code,
    rs_code (WriteCheck Second (fun _ => f_zero) r initialGlobals throttler_ex newResponse).1.2 = Some code /\
    rs_code (WriteCheckIfExists Second (fun _ => f_zero) r initialGlobals throttler_ex newResponse).1.2 =
      Some (if code =? StatusNotFound then StatusOK else code).
Proof. intros r. apply (check_if_exists_spec Second _ r throttler_ex initialGlobals); reflexivity. Defined.

Lemma low_priority_flag_leaks_witness :
  let r := request_ex [("app", "app"); ("storeType", "mysql"); ("storeName", "c")] [("p", "low")] in
  let g' := (WriteCheck Second (fun _ => f_zero) r initialGlobals throttler_ex newResponse).1.1 in
  fl_LowPriority (g_StandardCheckFlags g') = true /\
  forall later rand1 rand2 store (t' : Throttler unit),
    str_mem "/" store = false ->
    is_Some (cache_Get later ("mysql/" ++ store) (nonLowPriorityAppRequestsThrottled t')) ->
    let '(res, t1, _) := localCheck later rand1 rand2 (g_StandardCheckFlags g')
                           (g_NoSuchMetricCheckResult g') ("mysql/" ++ store) t' in
    cr_StatusCode (deref (g_NoSuchMetricCheckResult g') res) = StatusExpectationFailed /\ t1 = t'.
Proof.
  intros r g'. apply (low_priority_flag_leaks Second (fun _ => f_zero) r throttler_ex initialGlobals).
  vm_compute. reflexivity.
Defined.
