(* ===== verification/Routes.v ===== *)
(** * The routes of the HTTP API (pkg/http/api.go: register, ConfigureRoutes)

    Which handler answers which path.  The router is httprouter, a vendored library: a class whose laws
    are its documented behaviour on literal segments and named parameters, which match one segment of the
    path each: a route it picks matches the request, and when some route matches it picks one.  Redirects
    and the 404 of a path without a route are the router's and are one argument.  [documented] is the API
    as a table by the shape of the paths, the endpoints of doc/http.md and those it leaves out (_ping,
    status, raft, consensus, the metrics and the profiler), against which the registration is proved. *)
From S2P Require Import Prelude GoStrings GoFloat GoCache Base Mysql Config Throttler Refresh Operate.
From S2P Require Import Check Fsm MysqlBackend Consensus Api.

Open Scope string_scope.
Open Scope Z_scope.

(** ** Paths and patterns *)

Inductive segment := Static (s : string) | Param (name : string).

#[export] Instance segment_eq_dec : EqDecision segment.
Proof. solve_decision. Defined.

Definition segment_of (s : string) : segment :=
  match s with String ":" name => Param name | _ => Static s end.
Definition segments (pattern : string) : list segment := segment_of <$> tail (Split pattern "/").

Definition Params : Type := list (string * string).

(** [Params.ByName]: the first value of that name, empty without one. *)
Definition ByName (ps : Params) (name : string) : string :=
  default "" (snd <$> List.find (fun p => bool_decide (p.1 = name)) ps).

(** A path as its segments. *)
Fixpoint path_of (segs : list string) : string :=
  match segs with [] => "" | s :: segs => String "/" (s ++ path_of segs) end.
Definition seg_ok (s : string) : Prop := s <> "" /\ str_mem "/" s = false.

Fixpoint match_segs (pattern : list segment) (segs : list string) : option Params :=
  match pattern, segs with
  | [], [] => Some []
  | Static s :: pattern, v :: segs => if decide (s = v) then match_segs pattern segs else None
  | Param name :: pattern, v :: segs => (fun ps => (name, v) :: ps) <$> match_segs pattern segs
  | _, _ => None
  end.

(** ** The router *)

Definition route (H : Type) : Type := http_method * string * H.

Definition find_route {H} (routes : list (route H)) (m : http_method) (segs : list string) : option (H * Params) :=
  head (omap (fun '(m', p, h) =>
                if decide (m' = m) then (fun ps => (h, ps)) <$> match_segs (segments p) segs else None) routes).

(** Registration panics on two patterns that differ first at a named parameter, and on a pattern that
    is registered twice. *)
Fixpoint compatible (p q : list segment) : bool :=
  match p, q with
  | [], [] => false
  | [], _ | _, [] => true
  | a :: p, b :: q =>
      if decide (a = b) then compatible p q
      else match a, b with Static _, Static _ => true | _, _ => false end
  end.

Fixpoint no_conflict {H} (routes : list (route H)) : bool :=
  match routes with
  | [] => true
  | (m, p, _) :: routes =>
      forallb (fun '(m', q, _) => negb (bool_decide (m' = m)) || compatible (segments p) (segments q)) routes &&
      no_conflict routes
  end.

(** A pattern of literal segments and named parameters: no [*], and [:] only in front of a name. *)
Definition plain (s : string) : bool := negb (str_mem ":" s) && negb (str_mem "*" s).
Definition segment_plain (x : segment) : bool :=
  match x with Static s => plain s | Param name => negb (bool_decide (name = "")) && plain name end.
Definition pattern_ok (p : string) : bool :=
  match p with String "/" _ => forallb segment_plain (segments p) | _ => false end.

(** Routes that can be registered. *)
Definition routes_ok {H} (routes : list (route H)) : bool :=
  forallb (fun r => pattern_ok r.1.2) routes && no_conflict routes.

(** What a router does with paths whose segments are not empty. *)
Class HttpRouter := {
  rt_Lookup {H} : list (route H) -> http_method -> string -> option (H * Params);
}.
Class HttpRouterLaws `{HttpRouter} := {
  rt_sound {H} (routes : list (route H)) m segs h ps : routes_ok routes = true -> Forall seg_ok segs ->
    rt_Lookup routes m (path_of segs) = Some (h, ps) ->
    exists p, (m, p, h) ∈ routes /\ match_segs (segments p) segs = Some ps;
  rt_complete {H} (routes : list (route H)) m segs p h ps : routes_ok routes = true -> Forall seg_ok segs ->
    (m, p, h) ∈ routes -> match_segs (segments p) segs = Some ps ->
    rt_Lookup routes m (path_of segs) <> None;
}.

(** ** Registration *)

Inductive handler :=
| HLbCheck | HLeaderCheck | HConsensusLeader | HConsensusState | HConsensusStatus | HHostname
| HWriteCheck | HWriteCheckIfExists | HReadCheck | HReadCheckIfExists
| HAggregatedMetrics | HMetricsHealth
| HThrottleApp | HUnthrottleApp | HThrottledApps | HRecentApps
| HSkipHost | HSkippedHosts | HRecoverHost
| HMetrics | HPprof (name : string) | HHelp | HMemcacheConfig.

#[export] Instance handler_eq_dec : EqDecision handler.
Proof. solve_decision. Defined.

(** The router under construction, and the global list of endpoints. *)
Definition registration : Type := list (route handler) * list string.

Definition register (path : string) (f : handler) (x : registration) : registration :=
  ((x.1 ++ [(HEAD, path, f); (GET, path, f)])%list, (x.2 ++ [path])%list).
Definition router_GET (path : string) (f : handler) (x : registration) : registration :=
  ((x.1 ++ [(GET, path, f)])%list, x.2).

Definition registered_routes : list (string * handler) :=
  [("/lb-check", HLbCheck); ("/_ping", HLbCheck); ("/status", HLbCheck);
   ("/leader-check", HLeaderCheck);
   ("/raft/leader", HConsensusLeader); ("/raft/state", HConsensusState);
   ("/consensus/leader", HConsensusLeader); ("/consensus/state", HConsensusState);
   ("/consensus/status", HConsensusStatus); ("/hostname", HHostname);
   ("/check/:app/:storeType/:storeName", HWriteCheck);
   ("/check-if-exists/:app/:storeType/:storeName", HWriteCheckIfExists);
   ("/check-read/:app/:storeType/:storeName/:threshold", HReadCheck);
   ("/check-read-if-exists/:app/:storeType/:storeName/:threshold", HReadCheckIfExists);
   ("/aggregated-metrics", HAggregatedMetrics); ("/metrics-health", HMetricsHealth);
   ("/throttle-app/:app", HThrottleApp); ("/throttle-app/:app/ratio/:ratio", HThrottleApp);
   ("/throttle-app/:app/ttl/:ttlMinutes", HThrottleApp);
   ("/throttle-app/:app/ttl/:ttlMinutes/ratio/:ratio", HThrottleApp);
   ("/unthrottle-app/:app", HUnthrottleApp); ("/throttled-apps", HThrottledApps);
   ("/recent-apps", HRecentApps); ("/recent-apps/:lastMinutes", HRecentApps);
   ("/skip-host/:hostName", HSkipHost); ("/skip-host/:hostName/ttl/:ttlMinutes", HSkipHost);
   ("/skipped-hosts", HSkippedHosts); ("/recover-host/:hostName", HRecoverHost);
   ("/debug/vars", HMetrics); ("/debug/metrics", HMetrics)].

Definition pprof_routes : list (string * handler) :=
  [("/debug/pprof/", HPprof "index"); ("/debug/pprof/cmdline", HPprof "cmdline");
   ("/debug/pprof/profile", HPprof "profile"); ("/debug/pprof/symbol", HPprof "symbol");
   ("/debug/pprof/trace", HPprof "trace"); ("/debug/pprof/goroutine", HPprof "goroutine");
   ("/debug/pprof/heap", HPprof "heap"); ("/debug/pprof/threadcreate", HPprof "threadcreate");
   ("/debug/pprof/block", HPprof "block")].

Definition ConfigureRoutes (EnableProfiling : bool) (endpoints : list string) : registration :=
  let x := foldl (fun x p => register p.1 p.2 x) ([], endpoints) registered_routes in
  let x := if EnableProfiling then foldl (fun x p => router_GET p.1 p.2 x) x pprof_routes else x in
  router_GET "/config/memcache" HMemcacheConfig (register "/help" HHelp x).

(** ** Serving a request *)

Section Serve.
Context {DB S : Type} `{!ConsensusService DB S} `{HttpRouter}.

(** What the API object and the process hold: the host name, the settings, the handlers of other
    packages (metrics and pprof), and what the router answers without a route. *)
Record ApiEnv := mkApiEnv {
  ae_hostname : string;
  ae_settings : ConfigurationSettings;
  ae_external : handler -> Response -> Response;
  ae_fallback : http_method -> string -> Response;
}.

(** The handler of a route: the shared cells and the consensus service after it, the response, and the
    updates of the throttler it starts; [m] is what other callers do to the throttler while the consensus
    service works. *)
Definition run_handler (m : meanwhile) (now : Time) (rand : nat -> float64) (env : ApiEnv) (endpoints : list string) (h : handler)
    (r : Request) (g : Globals) (s : S) (w : Response) : Globals * S * Response * list api_call :=
  let t := svc_throttler s in
  let reads := fun w => (g, s, w, []) in
  let checks := fun x : Globals * Response * list api_call => (x.1.1, s, x.1.2, x.2) in
  let changes := fun x : S * Response => (g, x.1, x.2, []) in
  match h with
  | HLbCheck => reads (LbCheck r w)
  | HLeaderCheck => reads (LeaderCheck r s w)
  | HConsensusLeader => reads (ConsensusLeader s w)
  | HConsensusState => reads (ConsensusState s w)
  | HConsensusStatus => reads (ConsensusStatus s w)
  | HHostname => reads (Hostname_handler (ae_hostname env) w)
  | HWriteCheck => checks (WriteCheck now rand r g t w)
  | HWriteCheckIfExists => checks (WriteCheckIfExists now rand r g t w)
  | HReadCheck => checks (ReadCheck now rand r g t w)
  | HReadCheckIfExists => checks (ReadCheckIfExists now rand r g t w)
  | HAggregatedMetrics => reads (AggregatedMetrics_handler now r t w)
  | HMetricsHealth => reads (MetricsHealth_handler now t w)
  | HThrottleApp => changes (ThrottleApp_handler m now r s w)
  | HUnthrottleApp => changes (UnthrottleApp_handler m now r s w)
  | HThrottledApps => reads (ThrottledApps_handler now s w)
  | HRecentApps => reads (RecentApps_handler now r s w)
  | HSkipHost => changes (SkipHost_handler m now r s w)
  | HSkippedHosts => reads (SkippedHosts_handler now s w)
  | HRecoverHost => changes (RecoverHost_handler m now r s w)
  | HMetrics | HPprof _ => reads (ae_external env h w)
  | HHelp => reads (Help endpoints w)
  | HMemcacheConfig => reads (MemcacheConfig (ae_settings env) w)
  end.

(** A request: method, path, query and the headers the handlers look at. *)
Record HttpRequest := mkHttpRequest {
  hr_Method : http_method;
  hr_Path : string;
  hr_Query : string -> string;
  hr_X_Forwarded_For : string;
  hr_RemoteAddr : string;
}.

Definition to_handler (q : HttpRequest) (ps : Params) : Request :=
  mkRequest (hr_Method q) (ByName ps) (hr_Query q) (hr_X_Forwarded_For q) (hr_RemoteAddr q).

Definition serve (m : meanwhile) (now : Time) (rand : nat -> float64) (env : ApiEnv) (api : registration) (q : HttpRequest)
    (g : Globals) (s : S) : Globals * S * Response * list api_call :=
  match rt_Lookup api.1 (hr_Method q) (hr_Path q) with
  | None => (g, s, ae_fallback env (hr_Method q) (hr_Path q), [])
  | Some (h, ps) => run_handler m now rand env api.2 h (to_handler q ps) g s newResponse
  end.
End Serve.

(** ** The API as a table *)

(** The entry for the fixed segments of a path. *)
Definition pick {A} (fixed : list string) (entries : list (list string * A)) : option A :=
  snd <$> List.find (fun e => bool_decide (e.1 = fixed)) entries.
Definition orelse {A} (x y : option A) : option A := match x with Some _ => x | None => y end.

(** What a path asks for, with the parameters in it; [profiling] adds the profiler's paths. *)
Definition documented_get (profiling : bool) (segs : list string) : option (handler * Params) :=
  match segs with
  | [a; x] => pick [a; x] [(["config"; "memcache"], (HMemcacheConfig, []))]
  | [a; x; y] =>
      if profiling then
        pick [a; x; y] ((fun y => (["debug"; "pprof"; y], (HPprof y, []))) <$>
          ["cmdline"; "profile"; "symbol"; "trace"; "goroutine"; "heap"; "threadcreate"; "block"])
      else None
  | _ => None
  end.

Definition documented_any (segs : list string) : option (handler * Params) :=
  match segs with
  | [a] => pick [a]
      [(["lb-check"], (HLbCheck, [])); (["_ping"], (HLbCheck, [])); (["status"], (HLbCheck, []));
       (["leader-check"], (HLeaderCheck, [])); (["hostname"], (HHostname, [])); (["help"], (HHelp, []));
       (["aggregated-metrics"], (HAggregatedMetrics, [])); (["metrics-health"], (HMetricsHealth, []));
       (["throttled-apps"], (HThrottledApps, [])); (["skipped-hosts"], (HSkippedHosts, []));
       (["recent-apps"], (HRecentApps, []))]
  | [a; x] =>
      orelse (pick [a; x]
        [(["raft"; "leader"], (HConsensusLeader, [])); (["consensus"; "leader"], (HConsensusLeader, []));
         (["raft"; "state"], (HConsensusState, [])); (["consensus"; "state"], (HConsensusState, []));
         (["consensus"; "status"], (HConsensusStatus, []));
         (["debug"; "vars"], (HMetrics, [])); (["debug"; "metrics"], (HMetrics, []))])
      (pick [a]
        [(["throttle-app"], (HThrottleApp, [("app", x)])); (["unthrottle-app"], (HUnthrottleApp, [("app", x)]));
         (["skip-host"], (HSkipHost, [("hostName", x)])); (["recover-host"], (HRecoverHost, [("hostName", x)]));
         (["recent-apps"], (HRecentApps, [("lastMinutes", x)]))])
  | [a; x; y; z] =>
      orelse (pick [a]
        [(["check"], (HWriteCheck, [("app", x); ("storeType", y); ("storeName", z)]));
         (["check-if-exists"], (HWriteCheckIfExists, [("app", x); ("storeType", y); ("storeName", z)]))])
      (pick [a; y]
        [(["throttle-app"; "ratio"], (HThrottleApp, [("app", x); ("ratio", z)]));
         (["throttle-app"; "ttl"], (HThrottleApp, [("app", x); ("ttlMinutes", z)]));
         (["skip-host"; "ttl"], (HSkipHost, [("hostName", x); ("ttlMinutes", z)]))])
  | [a; x; y; z; t] => pick [a]
      [(["check-read"], (HReadCheck, [("app", x); ("storeType", y); ("storeName", z); ("threshold", t)]));
       (["check-read-if-exists"], (HReadCheckIfExists, [("app", x); ("storeType", y); ("storeName", z); ("threshold", t)]))]
  | [a; x; b; y; c; z] => pick [a; b; c]
      [(["throttle-app"; "ttl"; "ratio"], (HThrottleApp, [("app", x); ("ttlMinutes", y); ("ratio", z)]))]
  | _ => None
  end.

Definition documented (profiling : bool) (m : http_method) (segs : list string) : option (handler * Params) :=
  orelse (documented_any segs) (if decide (m = GET) then documented_get profiling segs else None).

(** ** Properties *)

(** No two compatible patterns match the same path. *)
Lemma compatible_disjoint p : forall q segs ps,
  compatible p q = true -> match_segs p segs = Some ps -> match_segs q segs = None.
Proof.
  induction p as [|a p IH]; intros [|b q] segs ps; cbn [compatible]; [done| | |].
  - intros _. destruct segs; [by destruct b|done].
  - intros _. destruct segs; [by destruct a|done].
  - destruct (decide (a = b)) as [->|Hne].
    + intros Hc. destruct segs as [|v segs]; [by destruct b|]. destruct b as [s|name]; cbn [match_segs].
      * case_decide; [|done]. by apply IH.
      * intros Hm. apply fmap_Some in Hm as (ps' & Hm & _). by rewrite (IH q segs ps').
    + destruct a as [s|], b as [s'|]; try done. intros _. destruct segs as [|v segs]; [done|]. cbn [match_segs].
      case_decide; [|done]. intros _. rewrite decide_False; [done|congruence].
Qed.

Lemma find_route_unique {H} (routes : list (route H)) m p h segs ps :
  no_conflict routes = true -> (m, p, h) ∈ routes -> match_segs (segments p) segs = Some ps ->
  find_route routes m segs = Some (h, ps).
Proof.
  intros Hok Hin Hm. unfold find_route. induction routes as [|[[m' p'] h'] routes IH]; [by apply elem_of_nil in Hin|].
  cbn [no_conflict] in Hok. apply andb_true_iff in Hok as [Hc Hok].
  apply elem_of_cons in Hin as [[= <- <- <-]|Hin].
  { cbn [omap list_omap]. by rewrite decide_True, Hm. }
  rewrite forallb_forall in Hc. specialize (Hc (m, p, h)). rewrite <- list_elem_of_In in Hc. specialize (Hc Hin). cbn beta iota in Hc.
  specialize (IH Hok Hin). cbn [omap list_omap]. destruct (decide (m' = m)) as [->|Hne]; [|exact IH].
  rewrite bool_decide_true in Hc by done. cbn [negb orb] in Hc.
  destruct (match_segs (segments p') segs) eqn:E; [|exact IH].
  rewrite (compatible_disjoint _ _ _ _ Hc E) in Hm. done.
Qed.

Lemma find_route_sound {H} (routes : list (route H)) m segs h ps :
  find_route routes m segs = Some (h, ps) -> exists p, (m, p, h) ∈ routes /\ match_segs (segments p) segs = Some ps.
Proof.
  unfold find_route. intros E. apply list.head_Some_elem_of in E. apply list_elem_of_omap in E as ([[m' p] h'] & Hin & E).
  case_decide; [subst|done]. apply fmap_Some in E as (ps' & E & [= -> ->]). eauto.
Qed.

(** The routes do not depend on what was registered before. *)
Lemma routes_any_endpoints b endpoints : (ConfigureRoutes b endpoints).1 = (ConfigureRoutes b []).1.
Proof. by destruct b. Qed.

Lemma ConfigureRoutes_ok b endpoints : routes_ok (ConfigureRoutes b endpoints).1 = true.
Proof. rewrite routes_any_endpoints. by destruct b; vm_compute. Qed.

Lemma no_conflict_ok {H} (routes : list (route H)) : routes_ok routes = true -> no_conflict routes = true.
Proof. unfold routes_ok. rewrite andb_true_iff. by intros []. Qed.

(** A router picks the one route that matches. *)
Lemma rt_find `{HttpRouterLaws} {T} (routes : list (route T)) m segs :
  routes_ok routes = true -> Forall seg_ok segs -> rt_Lookup routes m (path_of segs) = find_route routes m segs.
Proof.
  intros Hok Hsegs. destruct (rt_Lookup routes m (path_of segs)) as [[h ps]|] eqn:E.
  - destruct (rt_sound _ _ _ _ _ Hok Hsegs E) as (p & Hin & Hm). symmetry.
    by apply (find_route_unique _ _ p); [apply no_conflict_ok|..].
  - destruct (find_route routes m segs) as [[h ps]|] eqn:F; [|done].
    apply find_route_sound in F as (p & Hin & Hm). by destruct (rt_complete _ _ _ _ _ _ Hok Hsegs Hin Hm).
Qed.

(** *** The registration is the documented one *)

Lemma pick_Some {A} fixed (entries : list (list string * A)) x : pick fixed entries = Some x -> (fixed, x) ∈ entries.
Proof.
  unfold pick. intros H. apply fmap_Some in H as ([k y] & Hf & ->). apply List.find_some in Hf as [Hin Hk].
  apply bool_decide_eq_true_1 in Hk. simpl in Hk. subst. by apply list_elem_of_In.
Qed.

Lemma orelse_Some {A} (x y : option A) z : orelse x y = Some z -> x = Some z \/ y = Some z.
Proof. destruct x; simpl; auto. Qed.

(** The cases of an entry of a list that is written out. *)
Ltac entry H :=
  apply pick_Some in H; repeat (apply elem_of_cons in H as [H|H]; [injection H; intros; subst; clear H|]);
  [..|by apply elem_of_nil in H].

Lemma documented_found b m segs h ps :
  documented b m segs = Some (h, ps) -> find_route (ConfigureRoutes b []).1 m segs = Some (h, ps).
Proof.
  intros H. apply orelse_Some in H as [H|H].
  - destruct segs as [|x1 [|x2 [|x3 [|x4 [|x5 [|x6 [|x7 segs]]]]]]]; try discriminate H; cbn [documented_any] in H;
      try (apply orelse_Some in H as [H|H]); entry H; destruct b, m; reflexivity.
  - case_decide; [subst m|done]. destruct segs as [|x1 [|x2 [|x3 [|x4 segs]]]]; try discriminate H; cbn [documented_get] in H.
    + entry H. destruct b; reflexivity.
    + destruct b; [|done]. entry H; reflexivity.
Qed.

(** The paths a pattern matches. *)
Lemma match_inv pattern segs ps : match_segs pattern segs = Some ps ->
  match pattern with
  | [] => segs = [] /\ ps = []
  | Static s :: pattern => exists segs', segs = s :: segs' /\ match_segs pattern segs' = Some ps
  | Param name :: pattern => exists v segs' ps', segs = v :: segs' /\ ps = (name, v) :: ps' /\
      match_segs pattern segs' = Some ps'
  end.
Proof.
  destruct pattern as [|[s|name] pattern], segs as [|v segs]; cbn [match_segs]; try done.
  - by intros [= <-].
  - case_decide; [subst|done]. eauto.
  - intros E. apply fmap_Some in E as (ps' & E & ->). eauto 6.
Qed.

(** The request that matches a pattern that is written out. *)
Ltac matched H :=
  match type of H with
  | match_segs (segments ?p) _ = _ => let l := eval vm_compute in (segments p) in change (segments p) with l in H
  end;
  repeat (apply match_inv in H; cbn beta iota in H;
          first [destruct H as [-> ->] | destruct H as (? & -> & H) | destruct H as (? & ? & ? & -> & -> & H)]).

Lemma registered_documented b m p h segs ps :
  Forall seg_ok segs -> (m, p, h) ∈ (ConfigureRoutes b []).1 -> match_segs (segments p) segs = Some ps ->
  documented b m segs = Some (h, ps).
Proof.
  intros Hsegs Hin Hm. destruct b.
  all: match type of Hin with _ ∈ ?l => let l' := eval vm_compute in l in change l with l' in Hin end.
  all: repeat (apply elem_of_cons in Hin as [Hin|Hin]; [injection Hin; intros; subst; clear Hin|]); [..|by apply elem_of_nil in Hin].
  all: matched Hm; try reflexivity.
  all: by repeat (apply Forall_cons in Hsegs as [? Hsegs]); match goal with H : seg_ok "" |- _ => destruct H end.
Qed.

(** What the router finds is what is documented. *)
Lemma lookup_documented `{HttpRouterLaws} b endpoints m segs :
  Forall seg_ok segs -> rt_Lookup (ConfigureRoutes b endpoints).1 m (path_of segs) = documented b m segs.
Proof.
  intros Hsegs. rewrite rt_find by (apply ConfigureRoutes_ok || done). rewrite routes_any_endpoints.
  destruct (documented b m segs) as [[h ps]|] eqn:E; [by apply documented_found|].
  destruct (find_route _ m segs) as [[h ps]|] eqn:F; [|done]. apply find_route_sound in F as (p & Hin & Hm).
  by rewrite (registered_documented b m p h segs ps) in E.
Qed.

(** Executable: the route [(m, p, h)] is there. *)
Definition has_route (routes : list (route handler)) (m : http_method) (p : string) (h : handler) : bool :=
  bool_decide ((m, p, h) ∈ routes).

Lemma help_registered b p : p ∈ (ConfigureRoutes b []).2 ->
  exists h, (GET, p, h) ∈ (ConfigureRoutes b []).1 /\ (HEAD, p, h) ∈ (ConfigureRoutes b []).1.
Proof.
  set (routes := (ConfigureRoutes b []).1).
  assert (Hall : forallb (fun p => existsb (fun r => has_route routes GET p r.2 && has_route routes HEAD p r.2) routes)
    (ConfigureRoutes b []).2 = true) by (destruct b; vm_compute; reflexivity).
  intros Hp. rewrite forallb_forall in Hall. apply list_elem_of_In in Hp. specialize (Hall p Hp).
  apply existsb_exists in Hall as ([[m p'] h] & _ & Hx). apply andb_true_iff in Hx as [Hg Hh].
  apply bool_decide_eq_true_1 in Hg, Hh. by exists h.
Qed.

(** C25: every GET or HEAD request reaches the handler of its endpoint.  For every router that keeps
    httprouter's contract, with profiling on or off: the routes can be registered without a conflict; a
    request whose path has non-empty segments is answered by the handler that the table of the API
    (the endpoints of doc/http.md and those it leaves out) gives for the fixed segments of the path, with
    the other segments as the parameters of the names given there; one that is not in the table reaches no handler and
    changes nothing; and whatever /help lists answers both GET and HEAD. *)
Theorem requests_reach_their_handler `{HttpRouterLaws} {DB S} `{!ConsensusService DB S}
    m now rand env b endpoints (g : Globals) (s : S) q segs :
  Forall seg_ok segs -> hr_Path q = path_of segs ->
  let api := ConfigureRoutes b endpoints in
  routes_ok api.1 = true /\
  serve m now rand env api q g s =
    match documented b (hr_Method q) segs with
    | Some (h, ps) => run_handler m now rand env api.2 h (to_handler q ps) g s newResponse
    | None => (g, s, ae_fallback env (hr_Method q) (path_of segs), [])
    end /\
  (forall p, p ∈ (ConfigureRoutes b []).2 -> exists h, (GET, p, h) ∈ api.1 /\ (HEAD, p, h) ∈ api.1).
Proof.
  intros Hsegs Hpath api. split; [apply ConfigureRoutes_ok|]. split.
  - unfold serve, api. by rewrite Hpath, lookup_documented.
  - unfold api. rewrite routes_any_endpoints. apply help_registered.
Qed.

(** *** A throttle request, from the path to the throttler *)

(** A throttle for some minutes, with updates about other things after it. *)
Lemma throttle_in_force {DB} now n at_ app x ops (t : Throttler DB) later store rand :
  throttler_ok t -> int64_ok (n * Minute) -> f_ltb x f_zero = false ->
  Forall (fun p => target p.2 <> Some (inl app)) ops ->
  n = 0 \/ (at_ < now + n * Minute /\ later <= now + n * Minute) -> (forall k, f_ltb (rand k) x = true) ->
  IsAppThrottled later rand app store (run_ops ops (ThrottleApp at_ app (ttl_expiry now n) x t)) = true.
Proof.
  intros Ho Hwide Hx Hops Htime Hrand.
  destruct (run_ops_in_force at_ (CallThrottleApp app (ttl_expiry now n) x) ops t Ho Hops) as (share & Hshare & Hg).
  rewrite Hshare in Hg.
  2: { destruct (proj1 (f_ltb_key _ _) (Hrand 0%nat)) as (_ & Hnan & _). apply f_leb_key. split_and!; [done|done|].
       apply key_le_not_lt. intros Hlt. by rewrite (proj2 (f_ltb_key x f_zero)) in Hx. }
  assert (He : ttl_expiry now n = if n =? 0 then zero_time else now + n * Minute).
  { unfold ttl_expiry. case_if; [done|]. unfold Time_Add. by rewrite wrap64_id. }
  destruct (Time_IsZero (ttl_expiry now n)) eqn:Ez.
  { eapply entry_decides; [apply Hg| |exact Hrand]. unfold throttle_expired. cbn [ExpireAt]. by rewrite Ez. }
  destruct Htime as [->|[Hat Hlater]]; [by rewrite He in Ez|].
  destruct (Z.eqb_spec n 0) as [->|Hn0]; [by rewrite He in Ez|].
  rewrite He in *. rewrite (proj2 (Z.ltb_lt at_ _) Hat) in Hg. eapply entry_decides; [apply Hg| |exact Hrand].
  unfold throttle_expired, Time_Before. cbn [ExpireAt]. rewrite (proj2 (Z.ltb_ge _ _) Hlater). apply andb_false_r.
Qed.

(** C19: a throttle request that is answered 200 has throttled the app.  For every router and every
    consensus service that keep their contracts: a request for
    /throttle-app/<app>/ttl/<minutes>/ratio/<ratio>, without a store name, with a number of minutes (that
    fits into a duration) and a ratio is answered 200 only when the ratio is not below 0 or above 1 and the throttle has been made in the local throttler,
    among the updates that others make during the request.  Unless one of those that came after it is
    about the same app, the app is then throttled on every store, whenever its random numbers are below
    the ratio, until the minutes since the request have passed (for ever with 0 minutes), provided they
    had not passed before the throttle came to the throttler.  With a ratio outside of the range the
    request is answered 500 and changes nothing. *)
Theorem throttle_request_takes_effect `{HttpRouterLaws} {DB S} `{!ConsensusService DB S, !ConsensusLaws DB S}
    m now rand env b endpoints (g g' : Globals) (s s' : S) q w calls app minutes n ratio x :
  seg_ok app -> seg_ok minutes -> ParseInt minutes = (n, None) -> seg_ok ratio -> ParseFloat ratio = (x, None) ->
  int64_ok (n * Minute) -> hr_Query q "store_name" = "" ->
  hr_Path q = path_of ["throttle-app"; app; "ttl"; minutes; "ratio"; ratio] ->
  throttler_ok (svc_throttler s) ->
  serve m now rand env (ConfigureRoutes b endpoints) q g s = (g', s', w, calls) ->
  (f_ltb x f_zero || f_gtb x f_one = true -> s' = s /\ rs_code w = Some StatusInternalServerError) /\
  (rs_code w = Some StatusOK -> f_ltb x f_zero || f_gtb x f_one = false /\
     svc_throttler s' =
       run_ops (mw_after m) (ThrottleApp (mw_at m) app (ttl_expiry now n) x (run_ops (mw_before m) (svc_throttler s))) /\
     (Forall (fun p => target p.2 <> Some (inl app)) (mw_after m) ->
      forall later store rand',
        n = 0 \/ (mw_at m < now + n * Minute /\ later <= now + n * Minute) ->
        (forall k, f_ltb (rand' k) x = true) ->
        IsAppThrottled later rand' app store (svc_throttler s') = true)).
Proof.
  intros Happ Hmin Hn Hratio Hx Hwide Hstore Hpath Hto Hserve.
  set (ps := [("app", app); ("ttlMinutes", minutes); ("ratio", ratio)] : Params). set (r := to_handler q ps).
  assert (Hr : ThrottleApp_handler m now r s newResponse = (s', w)).
  { unfold serve in Hserve. rewrite Hpath, lookup_documented in Hserve by (rewrite !Forall_cons; by split_and!).
    change (documented _ _ _) with (Some (HThrottleApp, ps)) in Hserve. unfold run_handler in Hserve. fold r in Hserve.
    destruct (ThrottleApp_handler _ _ _ _ _) as [s1 w1]. by simplify_eq. }
  assert (Hp : parse_throttle r = if f_ltb x f_zero || f_gtb x f_one
    then inr (Errorf "ratio must be in [0..1] range") else inl (n, x)).
  { unfold parse_throttle, r, to_handler. cbn [rq_ByName].
    change (ByName ps "ttlMinutes") with minutes. change (ByName ps "ratio") with ratio.
    destruct Hmin, Hratio. rewrite decide_False by done. rewrite Hn, decide_False by done. by rewrite Hx. }
  destruct (ThrottleApp_handler_spec m now r s s' w Hr) as (Hok & Hbad & _). split.
  - intros Hrange. rewrite Hrange in Hp. by apply Hbad in Hp.
  - intros Hcode. destruct (Hok Hcode) as (n' & x' & Hp' & Hperf). rewrite Hp in Hp'.
    destruct (f_ltb x f_zero || f_gtb x f_one) eqn:Erange; [done|]. split; [done|]. injection Hp' as <- <-.
    unfold app_name, r, to_handler in Hperf. cbn [rq_Query rq_ByName] in Hperf. rewrite Hstore, decide_True in Hperf by done.
    split; [exact Hperf|]. intros Hothers later store rand' Htime Hrand. rewrite Hperf.
    apply orb_false_iff in Erange as [? _]. by apply throttle_in_force; [apply ok_run_ops|..].
Qed.

(** *** A router that splits the path *)

Lemma Split_path_of segs : Forall seg_ok segs -> tail (Split (path_of segs) "/") = segs.
Proof.
  assert (Hcons : forall s segs, Forall seg_ok segs -> str_mem "/" s = false ->
    Split (s ++ path_of segs) "/" = s :: tail (Split (path_of segs) "/")).
  { intros s [|v l] Hl Hs; simpl path_of.
    - rewrite str_app_nil_r. simpl. by apply Split_single.
    - by rewrite Split_at. }
  induction segs as [|s segs IH]; intros Hsegs; [done|]. apply Forall_cons in Hsegs as [[Hne Hs] Hsegs].
  cbn [path_of]. cbn [Split]. rewrite decide_True by done. cbn [tail]. rewrite Hcons by done. by rewrite IH.
Qed.

#[local] Instance split_router : HttpRouter := {
  rt_Lookup H routes m path := find_route routes m (tail (Split path "/"));
}.

#[local] Instance split_router_laws : HttpRouterLaws.
Proof.
  split; intros T routes m segs; cbn [rt_Lookup split_router].
  - intros h ps _ Hsegs. rewrite Split_path_of by done. apply find_route_sound.
  - intros p h ps Hok Hsegs Hin Hm. rewrite Split_path_of by done.
    by rewrite (find_route_unique _ _ _ _ _ _ (no_conflict_ok _ Hok) Hin Hm).
Qed.

Definition api_env_ex : ApiEnv := mkApiEnv "h" settings_ex (fun _ w => w) (fun _ _ => WriteHeader StatusNotFound newResponse).
Definition http_get (path : string) : HttpRequest := mkHttpRequest GET path (fun _ => "") "" "10.0.0.1:80".

Lemma requests_reach_their_handler_witness :
  exists w, serve (alone 5) 5 (fun _ => f_zero) api_env_ex (ConfigureRoutes false []) (http_get "/throttled-apps")
      initialGlobals service_ex = (initialGlobals, service_ex, w, []) /\ rs_code w = Some StatusOK.
Proof.
  destruct (requests_reach_their_handler (alone 5) 5 (fun _ => f_zero) api_env_ex false [] initialGlobals service_ex
    (http_get "/throttled-apps") ["throttled-apps"]) as (_ & Hr & _).
  - repeat constructor; discriminate.
  - reflexivity.
  - eexists. split; [exact Hr|]. vm_compute. reflexivity.
Defined.

(** Another app is unthrottled before, and a third one throttled after. *)
Definition others_ex : meanwhile :=
  mkMeanwhile [(6, CallUnthrottleApp "other")] 7 [(8, CallThrottleApp "third" zero_time f_one)].

Lemma throttle_request_takes_effect_witness :
  exists g' s' w calls,
    serve others_ex 5 (fun _ => f_zero) api_env_ex (ConfigureRoutes false []) (http_get "/throttle-app/backup/ttl/10/ratio/0.5")
      initialGlobals service_ex = (g', s', w, calls) /\ rs_code w = Some StatusOK /\
    IsAppThrottled (9 * Minute) (fun _ => f_zero) "backup" "c" (svc_throttler s') = true.
Proof.
  destruct (serve others_ex 5 (fun _ => f_zero) api_env_ex (ConfigureRoutes false []) (http_get "/throttle-app/backup/ttl/10/ratio/0.5")
    initialGlobals service_ex) as [[[g' s'] w] calls] eqn:E.
  assert (Hw : rs_code w = Some StatusOK).
  { replace w with (serve others_ex 5 (fun _ => f_zero) api_env_ex (ConfigureRoutes false [])
      (http_get "/throttle-app/backup/ttl/10/ratio/0.5") initialGlobals service_ex).1.2 by (by rewrite E).
    vm_compute. reflexivity. }
  exists g', s', w, calls. split; [reflexivity|]. split; [exact Hw|].
  destruct (throttle_request_takes_effect others_ex 5 (fun _ => f_zero) api_env_ex false [] initialGlobals g' service_ex s'
    (http_get "/throttle-app/backup/ttl/10/ratio/0.5") w calls "backup" "10" 10 "0.5" (ParseFloat "0.5").1) as [_ Hok].
  - split; [discriminate|reflexivity].
  - split; [discriminate|reflexivity].
  - vm_compute. reflexivity.
  - split; [discriminate|reflexivity].
  - vm_compute. reflexivity.
  - vm_compute. split; [discriminate|reflexivity].
  - reflexivity.
  - reflexivity.
  - exact throttler_ex_ok.
  - exact E.
  - destruct (Hok Hw) as (_ & _ & Ht). apply Ht.
    + repeat constructor. discriminate.
    + right. split; [reflexivity|discriminate].
    + intros k. vm_compute. reflexivity.
Defined.
