(* ===== verification/Main.v ===== *)
(** * The start of the process (cmd/freno/main.go)

    From the command line to a serving process: the flags, the configuration files, the settings the
    flags override, the throttler, the consensus service that is chosen, and the routes that are
    served.  Reading flags, the operating system and the server loop of net/http are arguments. *)
From S2P Require Import Prelude GoStrings GoFloat GoCache Base Mysql Config Throttler Refresh Operate.
From S2P Require Import Check Fsm MysqlBackend RaftBase Consensus Api Routes.

Open Scope string_scope.
Open Scope Z_scope.

(** ** Flags *)

Record Flags := mkFlags {
  mf_config : string;
  mf_http : bool;
  mf_http_port : Z;
  mf_raft_datadir : string;
  mf_raft_bind : string;
  mf_raft_nodes : string;
  mf_force_leadership : bool;
  mf_quiet : bool;
  mf_version : bool;
  mf_verbose : bool;
  mf_debug : bool;
  mf_stack : bool;
  mf_enable_profiling : bool;
  mf_help : bool;
}.

Definition default_flags : Flags :=
  mkFlags "" false 0 "" "" "" false false false false false false false false.

Inductive log_level := ERROR | INFO | DEBUG.

(** The level after the four settings, in their order. *)
Definition log_SetLevel (f : Flags) : log_level :=
  let l := ERROR in
  let l := if mf_verbose f then INFO else l in
  let l := if mf_debug f then DEBUG else l in
  if mf_quiet f then ERROR else l.

(** ** Settings *)

(** [loadConfiguration]: the configuration, or the error the process ends with; [None] when the
    expansion of variables does not end. *)
Definition loadConfiguration (fuel : nat) (Getenv : string -> string) (fs : string -> config_file) (configFile : string)
    : option (Configuration + error) :=
  let names := if decide (configFile = "") then ["/etc/freno.conf.json"; "conf/freno.conf.json"] else [configFile] in
  match Configuration_Read fuel Getenv fs names newConfiguration with
  | None => None
  | Some (_, Some e) =>
      Some (inr (Errorf ("Error reading configuration, please check the logs. Error was: " ++ error_msg e)))
  | Some (c, None) => Some (inl c)
  end.

Definition override (f : Flags) (s : ConfigurationSettings) : ConfigurationSettings :=
  mkConfigurationSettings
    (if mf_http_port f >? 0 then mf_http_port f else cs_ListenPort s)
    (cs_DataCenter s) (cs_Environment s) (cs_Domain s) (cs_ShareDomain s)
    (if decide (mf_raft_bind f = "") then cs_RaftBind s else mf_raft_bind f)
    (if decide (mf_raft_datadir f = "") then cs_RaftDataDir s else mf_raft_datadir f)
    (cs_DefaultRaftPort s)
    (if decide (mf_raft_nodes f = "") then cs_RaftNodes s else Split (mf_raft_nodes f) ",")
    (cs_BackendMySQLHost s) (cs_BackendMySQLPort s) (cs_BackendMySQLSchema s) (cs_BackendMySQLUser s)
    (cs_BackendMySQLPassword s) (cs_BackendMySQLCollation s) (cs_MemcacheServers s) (cs_MemcachePath s)
    (if mf_enable_profiling f then true else cs_EnableProfiling s) (cs_Stores s).

(** ** Serving *)

(** A serving process: the throttler, the consensus service (a Go interface value) whose methods the
    throttler and the API call, the routes, and the address of the server. *)
Record Process (DB : Type) := mkProcess {
  pc_settings : ConfigurationSettings;
  pc_forced : bool;
  pc_throttler : Throttler DB;
  pc_service : service_value;
  pc_routes : registration;
  pc_address : string;
}.
Arguments mkProcess {DB}.
Arguments pc_settings {DB}.
Arguments pc_forced {DB}.
Arguments pc_throttler {DB}.
Arguments pc_service {DB}.
Arguments pc_routes {DB}.
Arguments pc_address {DB}.

(** What the process meets when it starts: the errors of [SetupRaft], [NewMySQLBackend] and
    [ListenAndServe], and the state of raft when its monitors first look. *)
Record start_io := mkStartIO {
  si_raft_err : option error;
  si_mysql_err : option error;
  si_listen_err : option error;
  si_raft_state : RaftState;
}.

(** [httpServe]: the server that listens, or the error that is returned.  Taking a method of a nil
    interface panics; the monitors that have been started tick for the first time once the server
    listens, and a panic of theirs ends the process. *)
Definition httpServe {DB} (now : Time) (s : ConfigurationSettings) (forced : bool) (hostname : string)
    (io : start_io) : outcome (Process DB + error) :=
  let throttler := NewThrottler now (cs_MemcacheServers s) (cs_MemcachePath s)
                     (ms_Clusters (st_MySQL (cs_Stores s))) in
  match NewConsensusServiceProvider s hostname (si_raft_err io) (si_mysql_err io) with
  | (None, e) => Return (inr (default (Errorf "") e))
  | (Some provider, _) =>
      let service := GetConsensusService provider in
      if is_nil service then Panic "invalid memory address or nil pointer dereference"
      else
        match si_listen_err io with
        | Some e => Return (inr e)
        | None =>
            let! _ := Monitor_tick forced (si_raft_state io) provider in
            Return (inl (mkProcess s forced throttler service (ConfigureRoutes (cs_EnableProfiling s) [])
                           (":" ++ Itoa (cs_ListenPort s))))
        end
  end.

(** How [main] ends up. *)
Inductive main_result (DB : Type) :=
| PrintUsage
| PrintVersion (line : string)
| FatalError (e : error)
| ServeFailed (e : error)
| Crash (m : string)
| Serving (p : Process DB).
Arguments PrintUsage {DB}.
Arguments PrintVersion {DB}.
Arguments FatalError {DB}.
Arguments ServeFailed {DB}.
Arguments Crash {DB}.
Arguments Serving {DB}.

Definition freno_main {DB} (AppVersion GitCommit : string) (f : Flags) (fuel : nat) (Getenv : string -> string)
    (fs : string -> config_file) (now : Time) (hostname : string) (io : start_io)
    : option (main_result DB) :=
  let AppVersion := if decide (AppVersion = "") then "local-build" else AppVersion in
  let GitCommit := if decide (GitCommit = "") then "unknown" else GitCommit in
  if mf_help f then Some PrintUsage
  else if mf_version f then Some (PrintVersion ("freno version " ++ AppVersion ++ ", git commit " ++ GitCommit))
  else
    match loadConfiguration fuel Getenv fs (mf_config f) with
    | None => None
    | Some (inr e) => Some (FatalError e)
    | Some (inl c) =>
        let s := override f (settings c) in
        if mf_http f then
          match httpServe now s (mf_force_leadership f) hostname io with
          | Panic m => Some (Crash m)
          | Return (inr e) => Some (ServeFailed e)
          | Return (inl p) => Some (Serving p)
          end
        else Some PrintUsage
    end.

(** ** Properties *)

Lemma httpServe_spec {DB} now s forced hostname io :
  match httpServe (DB := DB) now s forced hostname io with
  | Panic _ => cs_BackendMySQLHost s <> "" /\ si_mysql_err io <> None /\ si_listen_err io = None
  | Return (inr _) => si_listen_err io <> None \/
      ((cs_RaftDataDir s = "" \/ si_raft_err io <> None) /\ cs_BackendMySQLHost s = "")
  | Return (inl p) => pc_settings p = s /\ pc_forced p = forced /\ si_listen_err io = None /\
      pc_routes p = ConfigureRoutes (cs_EnableProfiling s) [] /\ pc_address p = ":" ++ Itoa (cs_ListenPort s) /\
      (cs_BackendMySQLHost s <> "" -> pc_service p = MySQLValue (Some (NewMySQLBackend s hostname)) /\ si_mysql_err io = None) /\
      (cs_BackendMySQLHost s = "" -> pc_service p = StoreValue /\ si_raft_err io = None)
  end.
Proof.
  unfold httpServe, NewConsensusServiceProvider. destruct io as [re me le st]; cbn [si_raft_err si_mysql_err si_listen_err si_raft_state].
  destruct (decide (cs_RaftDataDir s = "")), (decide (cs_BackendMySQLHost s = "")), re, me, le, forced;
    simpl; try done; try (by left); try (by right; split; [left|]); try (by right; split; [right|]);
    unfold GetConsensusService; simpl; split_and!; eauto; try done.
Qed.

Lemma loadConfiguration_backend fuel Getenv fs name c : loadConfiguration fuel Getenv fs name = Some (inl c) ->
  cs_RaftDataDir (settings c) <> "" \/ cs_BackendMySQLHost (settings c) <> "".
Proof.
  unfold loadConfiguration. set (names := if decide _ then _ else _).
  destruct (Configuration_Read fuel Getenv fs names newConfiguration) as [[c' [e|]]|] eqn:E; [done| |done].
  intros [= <-]. by apply Configuration_Read_atomic in E as (_ & ? & _).
Qed.

(** The data directory given as a flag comes too late for a configuration that names no backend: reading
    it fails first. *)
Theorem raft_datadir_flag_alone {DB} f fuel Getenv fs decode s now hostname io :
  mf_config f <> "" -> mf_help f = false -> mf_version f = false ->
  fs (mf_config f) = FileJSON decode -> decode newConfigurationSettings = inl s ->
  cs_RaftDataDir s = "" -> cs_BackendMySQLHost s = "" ->
  exists e, freno_main (DB := DB) "" "" f fuel Getenv fs now hostname io = Some (FatalError e).
Proof.
  intros Hn Hh Hv Hf Hd Hr Hm. unfold freno_main, loadConfiguration. rewrite Hh, Hv.
  rewrite (decide_False (P := mf_config f = "")) by done. unfold Configuration_Read. cbn [range_loop].
  unfold read_file. rewrite Hf, Hd. unfold ConfigurationSettings_postReadAdjustments.
  assert (Hx : (cs_RaftDataDir (expand_settings Getenv s), cs_BackendMySQLHost (expand_settings Getenv s)) = ("", ""))
    by (unfold expand_settings; cbn; by rewrite Hr, Hm).
  set (x := expand_settings Getenv s) in *. injection Hx as Hxr Hxm. rewrite !bool_decide_true by done. by eexists.
Qed.

(** The settings [s] are those of the files, [c], but where a flag says otherwise. *)
Definition follows_flags (f : Flags) (c s : ConfigurationSettings) : Prop :=
  (mf_http_port f > 0 -> cs_ListenPort s = mf_http_port f) /\
  (mf_http_port f <= 0 -> cs_ListenPort s = cs_ListenPort c) /\
  (mf_raft_bind f <> "" -> cs_RaftBind s = mf_raft_bind f) /\
  (mf_raft_bind f = "" -> cs_RaftBind s = cs_RaftBind c) /\
  (mf_raft_datadir f <> "" -> cs_RaftDataDir s = mf_raft_datadir f) /\
  (mf_raft_datadir f = "" -> cs_RaftDataDir s = cs_RaftDataDir c) /\
  (mf_raft_nodes f <> "" -> cs_RaftNodes s = Split (mf_raft_nodes f) ",") /\
  (mf_raft_nodes f = "" -> cs_RaftNodes s = cs_RaftNodes c) /\
  (mf_enable_profiling f = true -> cs_EnableProfiling s = true) /\
  (mf_enable_profiling f = false -> cs_EnableProfiling s = cs_EnableProfiling c) /\
  (cs_DataCenter s, cs_Environment s, cs_Domain s, cs_ShareDomain s, cs_DefaultRaftPort s, cs_Stores s) =
  (cs_DataCenter c, cs_Environment c, cs_Domain c, cs_ShareDomain c, cs_DefaultRaftPort c, cs_Stores c) /\
  (cs_BackendMySQLHost s, cs_BackendMySQLPort s, cs_BackendMySQLSchema s, cs_BackendMySQLUser s,
   cs_BackendMySQLPassword s, cs_BackendMySQLCollation s, cs_MemcacheServers s, cs_MemcachePath s) =
  (cs_BackendMySQLHost c, cs_BackendMySQLPort c, cs_BackendMySQLSchema c, cs_BackendMySQLUser c,
   cs_BackendMySQLPassword c, cs_BackendMySQLCollation c, cs_MemcacheServers c, cs_MemcachePath c).

Lemma override_follows f c : follows_flags f c (override f c).
Proof.
  unfold follows_flags, override; simpl. split_and!; intros; repeat case_decide; try done.
  - by destruct (Z.gtb_spec (mf_http_port f) 0); [|lia].
  - by destruct (Z.gtb_spec (mf_http_port f) 0); [lia|].
  - by case_match.
  - by case_match.
Qed.


(** The configuration of [fs_ex], with the port and the nodes of the flags. *)
Definition flags_ex : Flags :=
  mkFlags "f" true 9000 "" "10.0.0.1" "10.0.0.1,10.0.0.2" false false false false false false false false.
Definition io_ex : start_io := mkStartIO None None None Follower.

